(* ===== verification/_CoqProject ===== *)
-Q . S2P
Prelude.v
Effects.v
Protocol.v
Auth.v
Replay.v
RequestAuth.v
RateLimit.v
Database.v
Access.v
Storage.v
Locks.v
Lfs.v
Stats.v
Server.v
Durable.v
Merkle.v
Release.v
Mirror.v
Media.v
Nip96.v
Admin.v
Deployment.v
Roles.v
Nip96Store.v
Wire.v
IrohReplay.v
Iroh.v
IrohSafety.v
IrohClient.v
IrohStreams.v
PktLine.v
Git.v
GitSafety.v
Relay.v
RelayAdmin.v
RelaySafety.v
RelayReplay.v
Client.v
MultiClient.v
ClientServer.v
Batch.v
Sql.v
SqlDatabase.v
SqlLaws.v
Quotas.v
SqlRuns.v
SqlExamples.v
SqlLocks.v
SqlVersions.v
Migrations.v
S3.v
Launch.v
