(* ===== verification/Prelude.v ===== *)
(** * blossom-rs: a verification development

    blossom-rs is a blob server: clients upload bytes, which are addressed by
    their SHA-256, and sign every request with a Nostr event.  This library
    models the server's own logic, in Rust under [src/src/], as Rocq functions
    and proves what makes it correct.

    ** The parts and their files

    - [Prelude.v]: machine integers, results, bytes and strings, the iteration
      order of hash maps ([HashOrder]), stable sorting, tactics and hints.
    - [Effects.v]: the monad of the handlers, state with early returns, and the
      predicates over it ([keeps], [refuses_with], [ensures]).
    - [Protocol.v] ([protocol.rs]): events, descriptors, base64url, hashes of
      buffers and streams.  [Crates] holds the third-party functions: SHA-256,
      hex, serde_json and the Schnorr verification of secp256k1; [CratesLaws] is
      what is used of them; [Concrete] is an instance, for examples.
    - [Auth.v] ([auth/]): the events clients build and the tests servers make.
    - [Replay.v] ([ReplayCache] of [server/mod.rs]): which events were used.
    - [RequestAuth.v] ([extract_auth_event] to [verify_auth_event] of
      [server/mod.rs]): from an Authorization header to an accepted event.
    - [RateLimit.v] ([ratelimit.rs]): token buckets, on binary64 numbers.
    - [Database.v] ([db/mod.rs], [db/memory.rs]): uploads, owners, quotas, roles.
      [BlobDatabase] is the trait, [AbsDb] and [BlobDatabaseLaws] its contract.
    - [Access.v] ([access/mod.rs]): whitelist and role-based access.
    - [Storage.v] ([storage/]): [BlobBackend] is the trait, [BlobBackendLaws] its
      contract; the memory and filesystem backends implement it.  [S3.v]
      ([storage/s3.rs]): the S3 backend over a service that may fail any request.
    - [Locks.v] ([locks/mod.rs], [server/locks.rs]): file locks and their API.
    - [Lfs.v] ([lfs/]): the versions of LFS files and their delta chains; zstd
      and the C library xdelta3 are the fields of [Codec], the wrapper
      [xdelta3.rs] is [xdelta_encode] and [xdelta_decode].
    - [Stats.v] ([stats.rs]): egress counters and their flush.
    - [Server.v] ([server/mod.rs]): the shared state [ServerState] and the
      handlers, in a monad of state and early return.  A handler calls the access
      control, the limiter, the replay cache, the database, the backend and the
      version database through their interfaces.
    - [Durable.v]: what the handlers together guarantee of a stored blob.
    - [Merkle.v], [Release.v] ([integrity.rs]): Merkle trees of source files;
      signed release manifests, and what a server says of itself.  The file
      system is a tree ([FileSystem]).
    - [Mirror.v] ([fetch_mirror_blob], [handle_mirror] of [server/mod.rs]): what the
      server fetches for a client.  The network is an adversary ([Network]), the
      url crate is [Urls].
    - [Media.v] ([handle_media_upload], [media/mod.rs] and the S3-compatible
      routes): uploads that are processed first; [MediaNode] adds the slots of
      the processor.
    - [Nip96.v] ([server/nip96.rs]), [Admin.v] ([server/admin.rs]): the other two
      APIs, on the same state.  [AdminNode] adds the live handles of the policy.
    - [Deployment.v]: all HTTP requests on one node ([serve_http], and [serve_web]
      with the lock endpoints) and what they must present.  [Roles.v]: invariants of accounts and policy under all of
      them.  [Nip96Store.v]: NIP-96 and Blossom on one store.
    - [Wire.v] ([transport/wire.rs]): the frames of the QUIC transport; serde_json
      on them is [WireJson].
    - [IrohReplay.v], [Iroh.v] ([transport/iroh_transport.rs]): the transport's
      replay cache, and its streams: [open_stream] is [handle_stream] up to the
      body, [finish_stream] the rest.  They work on an [IrohNode], the
      [ServerState] of the HTTP server with the lock database, the replay cache
      and the body budget.
    - [IrohSafety.v]: what a stream must present before it changes anything.
    - [IrohClient.v] ([transport/iroh_client.rs]): the requests of the client and
      its reading of the answers.
    - [IrohStreams.v]: both transports on one store, and streams interleaved.
    - [PktLine.v], [Git.v] ([git_server/] and [state.rs] of [blossom-nip34/src/]):
      the commands of a push, and the three endpoints of the git server on
      repositories kept by path.  git, the nostr crate and the relay's answers are
      [GitHost] and [GitEnv].  [GitSafety.v]: what a push must present.
    - [Relay.v], [RelayAdmin.v] ([relay/policies.rs], [policy_db.rs], [plugins.rs],
      [admin.rs] and [nip34_types.rs]): who may publish to the relay, how that
      policy is kept, and its administration.  [RelaySafety.v]: the policy over
      time and over restarts.  [RelayReplay.v]: the cache of the administration.
    - [Client.v] ([traits.rs], [client/mod.rs]): the trait of the clients, the HTTP
      client and its failover, the calls of the QUIC client.  The network, the
      clock and the files are one state behind [Outside].  [MultiClient.v]
      ([client/multi.rs]): the client of both transports.  [Batch.v]
      ([client/batch.rs]): batches, as tasks that interleave.
    - [ClientServer.v]: the HTTP client against the server of [Server.v].
    - [Sql.v], [SqlDatabase.v] ([db/sqlite.rs], [db/postgres.rs]): what a statement
      and a transaction do on an [Engine] that may refuse any of them; the tables,
      the statements in the dialects of SQLite and PostgreSQL ([Dialect]), and the
      functions of the trait.  [SqlLaws.v] discharges [BlobDatabaseLaws] for them.
      [SqlRuns.v]: whole runs, of any database that meets the interface.
    - [Quotas.v]: quotas over any database; [SqlExamples.v]: a server on SQLite.
    - [SqlLocks.v] ([locks/sqlite.rs], [locks/postgres.rs]), [SqlVersions.v]
      ([LfsVersionDatabase] of [db/sqlite.rs]): the locks and the LFS versions in
      SQL; the requests of several servers on one lock table are [LockTask]s.
      [Migrations.v]: what a start does to the tables.
    - [Launch.v] ([blossom-server/src/main.rs], [BlobServerBuilder] of
      [server/mod.rs]): from the command line to a running server, whose storage
      and databases are sums of the implementations; the requests and whitelist
      reloads it then meets ([turns]); the key file of its QUIC node.

    ** What is shown

    Requests: the tests accept exactly the events they should
    ([blossom_auth_exact]), an event serves one request ([event_binds_request])
    once ([auth_event_accepted_once]), what a client builds a server accepts
    ([client_request_verifies]), and the cache and the
    limiter stay bounded ([cache_bounded_and_open], [limiter_bounded],
    [rate_limited]).

    Data: an acknowledged upload is served with its bytes until it is deleted
    ([acknowledged_upload_served]: through the LFS pipeline it must be named, its
    base shallow and not too small for the buffers of [xdelta3.rs]), a deletion
    over the Blossom API touches one blob only, whatever deltas hang on it
    ([delete_spares_others]), delta chains are read back
    ([reconstruct_chain]), writes are atomic and survive restarts
    ([write_atomic_under_crash], [restart_preserves_blobs],
    [stream_insert_equivalent]).  What S3 acknowledged holds whatever the network
    does ([s3_answers_hold]), and a start finds it ([s3_start_finds_blobs]).

    Accounts: the database refines its specification
    ([memory_refines_abstract]), the bytes charged to a user are those of the
    blobs owned ([accounting_exact]), the SQL databases do what the one in memory
    does or fail without effect ([sql_databases_refine]), quotas hold
    ([quota_enforced]) over any database ([uploads_within_quota]), roles
    survive restarts and fail closed ([roles_survive_restart],
    [access_fails_closed]), locks exclude and are released by their owners
    ([lock_excludes], [unlock_authorized], [pagination_complete]) whichever of
    several servers takes them ([sql_locks_exclude]), egress is conserved
    ([flush_conserves_egress]), LFS versions in SQLite are those in memory
    ([sqlite_versions_equivalent]), and migrations lose nothing and can be cut
    off anywhere ([migrations_safe]).

    Integrity: a Merkle tree attests exactly its files ([merkle_membership]), a
    release manifest is verified exactly on what it was made for
    ([release_tamper_evident]), and a server that calls itself verified runs a
    published release ([verified_release_published]).

    HTTP as a whole: nothing changes without authority, the locks included
    ([http_changes_authorized]), a mirror request reaches public addresses only
    ([mirror_stays_public]), a revocation holds ([revocation_lasts], but for the
    unlocking of one's own locks), a server has the policy of its command line
    and is as guarded as it says, also after its whitelist was read again
    ([launched_server_guarded]),
    accounts stay well formed ([accounts_typed]), the two upload APIs agree
    ([nip96_upload_equivalent]) and lists are complete ([nip96_pages_complete]).

    QUIC: nothing changes without authority ([iroh_changes_authorized]), a blob
    and an upload are what they are over HTTP ([iroh_get_equals_http],
    [iroh_upload_kept], [iroh_lfs_context_bound]), the body budget survives any
    interleaving ([stream_budget_conserved]), bad streams change nothing
    ([bad_streams_change_nothing]), the client is understood and believes only
    what it can verify ([client_requests_authorized],
    [client_download_verified]), and the replay cache stays
    exact and bounded ([iroh_replay_cache]).

    Git and relay: the commands of a push are parsed as they were written, those
    that are not UTF-8 skipped ([push_commands_parsed]), and only the owner
    changes a repository, as far as the commands read go to a published state of
    that repository ([pushes_authorized]); the relay takes the events its policy
    allows, at its rate ([relay_writes_policed]), administrators alone change the
    policy ([relay_admin_authorized]), once per event ([relay_admin_once]), and it
    survives a restart ([relay_policy_restartable]).

    Clients: what a client uploads it downloads ([client_round_trip]), what any
    client answers it has verified, whatever the servers say
    ([client_answers_verified]; a file is hashed and then read again), and a batch
    with a permit at least ends with one result per file, in order, whatever the
    scheduling ([batch_completes]).

    The [Example]s at the ends of the files show corner cases in which the code
    does not do what it means to.

    ** Conventions

    Unsigned integers are [Z] with saturation or wrap-around written out; a
    signed cast is [as_i64].  A [String] is the list of its UTF-8 bytes.  Clock
    readings, random names and system-call failures are arguments ([ReqEnv],
    [Env], [Faults]).  A value behind a mutex is passed from one call to the next.
    Fuel: [dec_digits] has 20, the digits of a [u64]; [trim] has the length of
    the string, [evict_principal_loop], [prune_loop] and [evict_loop] the length of the queue, [years_loop]
    [days / 365 + 1] years, [parse_loop] the length of the body, [all_pages] one page per lock and one more: in each
    case the theorems about the result would fail with too little.
    [root_loop] and
    [proof_loop] have the number of leaves, and [fetch_loop] and [walk_chain] four
    and ten steps because the code has.

    ** What is not modelled

    Of the SQL engines the model has the statements the code runs, on tables that
    are maps from their keys: the planner, the indexes and the isolation of
    transactions of several processes are theirs, and a commit that fails is taken
    to be rolled back; that sqlx refuses to decode a 32-bit column as an [i64], as
    its documentation says, is part of [postgres_migrations].  S3 is the class
    [S3Client], with its documented laws.  Where a component falls back on an
    engine, as [policy_db.rs] does, the fallback is modelled and the engine may
    fail.  The relay's connections ([blossom-nip34/src/relay/] other than the
    files above) belong to nostr-relay-builder.  The command line client, what
    [main.rs] sets up beside the node (logging, CORS, listeners), the media
    codecs, tracing and discovery are calls of third-party crates.  The parsing of
    paths, query strings and JSON bodies is axum's: handlers start from its
    results.  The version database of the theorems on stored blobs is the one in
    memory, and their storage answers reads; [sqlite_versions_equivalent] and the
    theorems of the backends say what the others do.  [revocation_lasts] and
    [accounts_typed] are about HTTP and the metadata database in memory.
    [update_used_bytes] is a function of the databases, but not an operation of
    the runs of [memory_refines_abstract] and [sql_databases_refine]: the server
    does not call it. *)

From Stdlib Require Import ZArith Lia Ascii String.
From Stdlib Require Import Strings.Byte.
From stdpp Require Import base decidable list sorting gmap strings countable numbers.

Open Scope string_scope.
Open Scope Z_scope.

(** ** Machine integers

    Unsigned machine integers are kept in [Z] with their range written out. *)

Definition u16_max : Z := 65535.
Definition u32_max : Z := 4294967295.
Definition u64_max : Z := 18446744073709551615.

Definition in_u64 (n : Z) : Prop := 0 <= n <= u64_max.

(** [u64::saturating_add], [u64::saturating_sub], [u64::checked_add] and the
    wrapping reduction of a release build. *)
Definition sat_add (a b : Z) : Z := Z.min (a + b) u64_max.
Definition sat_sub (a b : Z) : Z := Z.max (a - b) 0.
Definition checked_add (a b : Z) : option Z :=
  if decide (a + b <= u64_max) then Some (a + b) else None.
Definition wrap_u64 (a : Z) : Z := a mod (u64_max + 1).
Definition wrap_u32 (a : Z) : Z := a mod (u32_max + 1).

(** ** Results *)

Inductive result (A E : Type) : Type :=
| Ok (a : A)
| Err (e : E).
Arguments Ok {A E} _.
Arguments Err {A E} _.

Notation "'let?' x ':=' e 'in' k" :=
  (match e with Ok x => k | Err er => Err er end)
  (at level 200, x pattern, e at level 200, k at level 200, right associativity).

Definition is_ok {A E} (r : result A E) : bool :=
  match r with Ok _ => true | Err _ => false end.

(** [Result::ok], [Result::unwrap_or], [Option::ok_or]. *)
Definition res_ok {A E} (r : result A E) : option A :=
  match r with Ok a => Some a | Err _ => None end.
Definition unwrap_or {A E} (r : result A E) (d : A) : A :=
  match r with Ok a => a | Err _ => d end.
Definition ok_or {A E} (o : option A) (e : E) : result A E :=
  match o with Some a => Ok a | None => Err e end.

(** ** Bytes *)

#[export] Instance byte_eq_dec : EqDecision byte := Byte.byte_eq_dec.

Definition b2z (b : byte) : Z := Z.of_N (Byte.to_N b).

(** [x as u8]: the low eight bits. *)
Definition z2b (z : Z) : byte :=
  match Byte.of_N (Z.to_N (z mod 256)) with Some b => b | None => x00 end.

Lemma b2z_range b : 0 <= b2z b < 256.
Proof. unfold b2z. pose proof (Byte.to_N_bounded b). lia. Qed.

Lemma b2z_z2b z : b2z (z2b z) = z mod 256.
Proof.
  unfold z2b, b2z. pose proof (Z.mod_pos_bound z 256 ltac:(lia)) as Hz.
  destruct (Byte.of_N (Z.to_N (z mod 256))) as [b|] eqn:E.
  - apply Byte.to_of_N in E. rewrite E. lia.
  - apply Byte.of_N_None_iff in E. lia.
Qed.

Lemma b2z_inj b1 b2 : b2z b1 = b2z b2 → b1 = b2.
Proof.
  unfold b2z. intros H. apply (N2Z.inj _ _) in H.
  pose proof (Byte.of_to_N b1) as E1. pose proof (Byte.of_to_N b2) as E2.
  rewrite H in E1. congruence.
Qed.

Lemma z2b_b2z b : z2b (b2z b) = b.
Proof. apply b2z_inj. rewrite b2z_z2b. apply Z.mod_small, b2z_range. Qed.

(** [str::as_bytes]: a Rust [String] is its UTF-8 bytes, and so is the
    [string] that models it. *)
Definition as_bytes (s : string) : list byte := String.list_byte_of_string s.
Definition from_utf8_unchecked (l : list byte) : string := String.string_of_list_byte l.

Lemma from_as_bytes s : from_utf8_unchecked (as_bytes s) = s.
Proof. apply String.string_of_list_byte_of_string. Qed.
Lemma as_from_bytes l : as_bytes (from_utf8_unchecked l) = l.
Proof. apply String.list_byte_of_string_of_list_byte. Qed.

(** [str::len] and [Vec::len] as [u64]/[usize]. *)
Definition str_len (s : string) : Z := Z.of_nat (String.length s).
Definition vec_len {A} (l : list A) : Z := Z.of_nat (length l).

(** ** Characters and strings *)

Definition code (c : ascii) : Z := Z.of_N (N_of_ascii c).
Definition chr (z : Z) : ascii := ascii_of_N (Z.to_N z).
Definition chars (s : string) : list ascii := String.list_ascii_of_string s.
Definition of_chars (l : list ascii) : string := String.string_of_list_ascii l.

Definition between (lo z hi : Z) : bool := (lo <=? z) && (z <=? hi).

Definition is_ascii_digit (c : ascii) : bool := between 48 (code c) 57.
Definition is_ascii_hexdigit (c : ascii) : bool :=
  is_ascii_digit c || between 97 (code c) 102 || between 65 (code c) 70.
Definition is_ascii_alphanumeric (c : ascii) : bool :=
  is_ascii_digit c || between 97 (code c) 122 || between 65 (code c) 90.
Definition is_lower_hex (c : ascii) : bool :=
  is_ascii_digit c || between 97 (code c) 102.

Definition ascii_lower (c : ascii) : ascii :=
  if between 65 (code c) 90 then chr (code c + 32) else c.
Definition ascii_upper (c : ascii) : ascii :=
  if between 97 (code c) 122 then chr (code c - 32) else c.

Definition str_all (f : ascii → bool) (s : string) : bool := forallb f (chars s).
Definition str_map (f : ascii → ascii) (s : string) : string := of_chars (map f (chars s)).
Definition to_ascii_lowercase : string → string := str_map ascii_lower.
Definition to_ascii_uppercase : string → string := str_map ascii_upper.
Definition eq_ignore_ascii_case (s t : string) : bool :=
  bool_decide (to_ascii_lowercase s = to_ascii_lowercase t).

(** [str::strip_prefix]. *)
Fixpoint strip_prefix (p s : string) : option string :=
  match p, s with
  | EmptyString, _ => Some s
  | String a p', String b s' => if decide (a = b) then strip_prefix p' s' else None
  | String _ _, EmptyString => None
  end.
Definition starts_with (p s : string) : bool := bool_decide (is_Some (strip_prefix p s)).

(** [str::trim_end_matches] with a character. *)
Fixpoint drop_while {A} (f : A → bool) (l : list A) : list A :=
  match l with
  | [] => []
  | x :: r => if f x then drop_while f r else l
  end.
Definition trim_end_matches (c : ascii) (s : string) : string :=
  of_chars (rev (drop_while (fun d => bool_decide (d = c)) (rev (chars s)))).

(** [str::split(c).next()]: the part before the first [c]. *)
Fixpoint before_char (c : ascii) (s : string) : string :=
  match s with
  | EmptyString => EmptyString
  | String d r => if decide (d = c) then EmptyString else String d (before_char c r)
  end.

(** [str::trim]: strips the code points with the Unicode [White_Space]
    property at both ends.  [ws_prefix] is the number of bytes of a leading
    white-space code point in UTF-8, 0 when there is none. *)
Definition ws_prefix (l : list Z) : nat :=
  match l with
  | [] => O
  | b0 :: r =>
      if between 9 b0 13 || (b0 =? 32) then 1%nat else
      match r with
      | [] => O
      | b1 :: r' =>
          if (b0 =? 194) && ((b1 =? 133) || (b1 =? 160)) then 2%nat else
          match r' with
          | [] => O
          | b2 :: _ =>
              if ((b0 =? 225) && (b1 =? 154) && (b2 =? 128))
                 || ((b0 =? 226) && (b1 =? 128)
                     && (between 128 b2 138 || (b2 =? 168) || (b2 =? 169) || (b2 =? 175)))
                 || ((b0 =? 226) && (b1 =? 129) && (b2 =? 159))
                 || ((b0 =? 227) && (b1 =? 128) && (b2 =? 128))
              then 3%nat else O
          end
      end
  end.

(** The same on the reversed bytes: a white-space code point at the end. *)
Definition ws_suffix (l : list Z) : nat :=
  match l with
  | b0 :: r =>
      if between 9 b0 13 || (b0 =? 32) then 1%nat else
      match r with
      | b1 :: r' =>
          if (ws_prefix [b1; b0] =? 2)%nat then 2%nat else
          match r' with
          | b2 :: _ => if (ws_prefix [b2; b1; b0] =? 3)%nat then 3%nat else O
          | [] => O
          end
      | [] => O
      end
  | [] => O
  end.

Fixpoint trim_with (w : list Z → nat) (fuel : nat) (l : list ascii) : list ascii :=
  match fuel with
  | O => l
  | S f => match w (map code l) with
           | O => l
           | n => trim_with w f (drop n l)
           end
  end.
Definition trim_start (s : string) : string :=
  of_chars (trim_with ws_prefix (String.length s) (chars s)).
Definition trim_end (s : string) : string :=
  of_chars (rev (trim_with ws_suffix (String.length s) (rev (chars s)))).
Definition trim (s : string) : string := trim_end (trim_start s).

Lemma length_chars s : length (chars s) = String.length s.
Proof. induction s; simpl; congruence. Qed.
Lemma chars_of_chars l : chars (of_chars l) = l.
Proof. apply String.list_ascii_of_string_of_list_ascii. Qed.
Lemma of_chars_chars s : of_chars (chars s) = s.
Proof. apply String.string_of_list_ascii_of_string. Qed.
Lemma chars_inj s t : chars s = chars t → s = t.
Proof. intros H. rewrite <- (of_chars_chars s), <- (of_chars_chars t). congruence. Qed.
Lemma chars_app s t : chars (s +:+ t) = (chars s ++ chars t)%list.
Proof. induction s; simpl; [done | by rewrite <- IHs]. Qed.

Lemma strip_prefix_app p s : strip_prefix p (p +:+ s) = Some s.
Proof. induction p; simpl; [done |]. by rewrite decide_True. Qed.

Lemma strip_prefix_Some p s r : strip_prefix p s = Some r → s = p +:+ r.
Proof.
  revert s. induction p as [|a p IH]; intros [|b s] H; simpl in *; simplify_eq; try done.
  case_decide; [subst | done]. by rewrite (IH _ H).
Qed.

(** [str::strip_suffix], [str::ends_with], [str::trim_end_matches] with a
    string, by way of the reversed string. *)
Definition str_rev (s : string) : string := of_chars (rev (chars s)).
Definition strip_suffix (suf s : string) : option string :=
  str_rev <$> strip_prefix (str_rev suf) (str_rev s).
Definition ends_with (suf s : string) : bool := bool_decide (is_Some (strip_suffix suf s)).
Fixpoint trim_end_str_loop (fuel : nat) (suf s : string) : string :=
  match fuel with
  | O => s
  | S fuel => match strip_suffix suf s with Some r => trim_end_str_loop fuel suf r | None => s end
  end.
Definition trim_end_matches_str (suf s : string) : string := trim_end_str_loop (String.length s) suf s.

Lemma str_rev_app a b : str_rev (a +:+ b) = str_rev b +:+ str_rev a.
Proof. apply chars_inj. unfold str_rev. by rewrite chars_of_chars, !chars_app, !chars_of_chars, rev_app_distr. Qed.

Lemma str_rev_involutive s : str_rev (str_rev s) = s.
Proof. unfold str_rev. by rewrite chars_of_chars, rev_involutive, of_chars_chars. Qed.

Lemma strip_suffix_Some suf s r : strip_suffix suf s = Some r ↔ s = r +:+ suf.
Proof.
  unfold strip_suffix. split.
  - intros (r' & Hr & ->)%fmap_Some. apply strip_prefix_Some in Hr.
    rewrite <- (str_rev_involutive s), Hr, str_rev_app, str_rev_involutive. done.
  - intros ->. rewrite str_rev_app, strip_prefix_app. simpl. by rewrite str_rev_involutive.
Qed.

Lemma trim_end_str_prefix fuel suf x : ∃ t, x = trim_end_str_loop fuel suf x +:+ t.
Proof.
  revert x. induction fuel as [|fuel IH]; intros x; simpl.
  { exists "". apply chars_inj. by rewrite chars_app, app_nil_r. }
  destruct (strip_suffix suf x) as [r|] eqn:E.
  - apply strip_suffix_Some in E. destruct (IH r) as [t Ht]. exists (t +:+ suf). rewrite E at 1. rewrite Ht at 1.
    apply chars_inj. by rewrite !chars_app, app_assoc.
  - exists "". apply chars_inj. by rewrite chars_app, app_nil_r.
Qed.

(** [str::split] with a character. *)
Fixpoint split_char (c : ascii) (s : string) : list string :=
  match s with
  | EmptyString => [""]
  | String x s =>
      if decide (x = c) then "" :: split_char c s
      else match split_char c s with
           | f :: fs => String x f :: fs
           | [] => [String x ""]
           end
  end.

Lemma ascii_lower_upper c : ascii_lower (ascii_upper c) = ascii_lower c.
Proof. destruct c as [[] [] [] [] [] [] [] []]; vm_compute; reflexivity. Qed.
Lemma lowercase_uppercase s : to_ascii_lowercase (to_ascii_uppercase s) = to_ascii_lowercase s.
Proof.
  unfold to_ascii_lowercase, to_ascii_uppercase, str_map. rewrite chars_of_chars, map_map.
  f_equal. apply map_ext. exact ascii_lower_upper.
Qed.

(** ** Decimal numbers *)

Definition digit (d : Z) : ascii := chr (48 + d).

Fixpoint dec_digits (fuel : nat) (n : Z) (acc : string) : string :=
  match fuel with
  | O => acc
  | S f =>
      let acc' := String (digit (n mod 10)) acc in
      if decide (n < 10) then acc' else dec_digits f (n / 10) acc'
  end.

(** [u64::to_string]: a [u64] has at most twenty digits. *)
Definition u64_to_string (n : Z) : string := dec_digits 20 n "".

Definition digit_val (radix : Z) (c : ascii) : option Z :=
  let v := if is_ascii_digit c then code c - 48
           else if between 97 (code c) 122 then code c - 87
           else if between 65 (code c) 90 then code c - 55
           else radix in
  if decide (v < radix) then Some v else None.

(** [from_str_radix] of an unsigned type with maximum [mx]: an optional [+],
    then one or more digits, refused on overflow. *)
Fixpoint parse_go (radix mx acc : Z) (s : string) : option Z :=
  match s with
  | EmptyString => Some acc
  | String c r =>
      match digit_val radix c with
      | None => None
      | Some d =>
          if decide (acc * radix + d <= mx) then parse_go radix mx (acc * radix + d) r
          else None
      end
  end.
Definition from_str_radix (radix mx : Z) (s : string) : option Z :=
  match s with
  | EmptyString => None
  | String c r =>
      let body := if decide (c = "+"%char) then r else s in
      match body with
      | EmptyString => None
      | _ => parse_go radix mx 0 body
      end
  end.
Definition parse_u64 : string → option Z := from_str_radix 10 u64_max.

Lemma code_chr z : 0 <= z < 256 → code (chr z) = z.
Proof.
  intros Hz. unfold code, chr. rewrite N_ascii_embedding by lia. lia.
Qed.

Lemma digit_val_digit d : 0 <= d < 10 → digit_val 10 (digit d) = Some d.
Proof.
  intros Hd. unfold digit_val, is_ascii_digit, digit, between.
  rewrite code_chr by lia.
  rewrite (proj2 (Z.leb_le _ _)), (proj2 (Z.leb_le _ _)) by lia. simpl.
  rewrite decide_True by lia. f_equal. lia.
Qed.

Lemma parse_dec_digits fuel mx n acc :
  0 <= n < 10 ^ Z.of_nat fuel → n <= mx →
  parse_go 10 mx 0 (dec_digits fuel n acc) = parse_go 10 mx n acc.
Proof.
  revert n acc. induction fuel as [|f IH]; intros n acc Hn Hmx.
  { simpl in *. replace n with 0 by lia. done. }
  assert (Hmod : 0 <= n mod 10 < 10) by (apply Z.mod_pos_bound; lia).
  rewrite Nat2Z.inj_succ, Z.pow_succ_r in Hn by lia.
  simpl. case_decide.
  - simpl. rewrite digit_val_digit by done. rewrite (Z.mod_small n) by lia.
    by rewrite decide_True by lia.
  - assert (n / 10 < n) by (apply Z.div_lt; lia).
    rewrite IH; [| split; [apply Z.div_pos; lia | apply Z.div_lt_upper_bound; lia] | lia].
    simpl. rewrite digit_val_digit by done.
    replace (n / 10 * 10 + n mod 10) with n by (pose proof (Z.div_mod n 10); lia).
    by rewrite decide_True by lia.
Qed.

Lemma dec_digits_head fuel n acc :
  0 <= n → ∃ d r, 0 <= d < 10 ∧ dec_digits (S fuel) n acc = String (digit d) r.
Proof.
  revert n acc. induction fuel as [|f IH]; intros n acc Hn.
  - simpl. exists (n mod 10), acc.
    pose proof (Z.mod_pos_bound n 10). case_decide; split; auto with lia.
  - change (dec_digits (S (S f)) n acc) with
      (if decide (n < 10) then String (digit (n mod 10)) acc
       else dec_digits (S f) (n / 10) (String (digit (n mod 10)) acc)).
    case_decide.
    + exists (n mod 10), acc. pose proof (Z.mod_pos_bound n 10). split; [lia | done].
    + apply IH, Z.div_pos; lia.
Qed.

(** Printing a [u64] and parsing it back is the identity. *)
Lemma parse_u64_to_string n : in_u64 n → parse_u64 (u64_to_string n) = Some n.
Proof.
  intros Hn. unfold in_u64, u64_max in Hn. unfold parse_u64, from_str_radix, u64_to_string.
  destruct (dec_digits_head 19 n "" ltac:(lia)) as (d & r & Hd & E). rewrite E.
  assert (digit d ≠ "+"%char).
  { intros Hp. apply (f_equal code) in Hp. unfold digit in Hp.
    rewrite code_chr in Hp by lia. change (code "+") with 43 in Hp. lia. }
  rewrite decide_False by done. rewrite <- E.
  rewrite parse_dec_digits; [done | | unfold u64_max; lia].
  change (10 ^ Z.of_nat 20) with 100000000000000000000. lia.
Qed.

(** ** Hash maps

    A [HashMap] is iterated in an unspecified order.  [HashOrder] is that
    order: any enumeration of the entries, each once. *)

Class HashOrder : Type := {
  hm_iter : ∀ (K : Type) {HE : EqDecision K} {HC : Countable K} (V : Type), gmap K V → list (K * V);
  hm_iter_perm : ∀ (K : Type) {HE : EqDecision K} {HC : Countable K} (V : Type) (m : gmap K V),
    hm_iter K V m ≡ₚ map_to_list m
}.

#[export] Instance key_order : HashOrder | 100 := {|
  hm_iter K HE HC V m := map_to_list m;
  hm_iter_perm K HE HC V m := reflexivity _
|}.

Section hash_maps.
Context `{HO : HashOrder} `{Countable K} {V : Type}.
Implicit Types m : gmap K V.

Definition hm_keys m : list K := (hm_iter K V m).*1.
Definition hm_values m : list V := (hm_iter K V m).*2.

Lemma elem_of_hm_iter m k v : (k, v) ∈ hm_iter K V m ↔ m !! k = Some v.
Proof. rewrite hm_iter_perm. apply elem_of_map_to_list. Qed.

Lemma elem_of_hm_values m v : v ∈ hm_values m ↔ ∃ k, m !! k = Some v.
Proof.
  unfold hm_values. rewrite list_elem_of_fmap. split.
  - intros [[k w] [-> Hk]]. apply elem_of_hm_iter in Hk. eauto.
  - intros [k Hk]. exists (k, v). by rewrite elem_of_hm_iter.
Qed.

Lemma elem_of_hm_keys m k : k ∈ hm_keys m ↔ is_Some (m !! k).
Proof.
  unfold hm_keys. rewrite list_elem_of_fmap. split.
  - intros [[k' w] [-> Hk]]. apply elem_of_hm_iter in Hk. eauto.
  - intros [v Hk]. exists (k, v). by rewrite elem_of_hm_iter.
Qed.

Lemma NoDup_hm_keys m : NoDup (hm_keys m).
Proof. unfold hm_keys. rewrite hm_iter_perm. apply NoDup_fst_map_to_list. Qed.

Lemma length_filter_hm_keys (f : K → bool) m :
  length (List.filter f (hm_keys m)) = size (filter (fun kv => f kv.1 = true) m).
Proof.
  rewrite <- length_map_to_list, <- (length_fmap fst). apply Permutation_length, NoDup_Permutation.
  - apply NoDup_ListNoDup, List.NoDup_filter, NoDup_ListNoDup, NoDup_hm_keys.
  - apply NoDup_fst_map_to_list.
  - intros k. rewrite list_elem_of_In, filter_In, <- list_elem_of_In, elem_of_hm_keys, list_elem_of_fmap.
    split.
    + intros [[v Hv] Hf]. exists (k, v). split; [done |].
      by apply elem_of_map_to_list, map_lookup_filter_Some.
    + intros [[k' v] [-> Hk]]. apply elem_of_map_to_list, map_lookup_filter_Some in Hk as [Hv Hf].
      split; [by exists v | done].
Qed.
End hash_maps.

(** ** Stable sorting

    [slice::sort_by_key] is a stable sort; every stable sort computes this
    insertion sort. *)
Section stable_sort.
Context {A : Type} (key : A → Z).

Fixpoint insert_by (x : A) (l : list A) : list A :=
  match l with
  | [] => [x]
  | y :: r => if decide (key x <= key y) then x :: l else y :: insert_by x r
  end.
Definition sort_by_key (l : list A) : list A := foldr insert_by [] l.

Definition key_le (x y : A) : Prop := key x <= key y.

Lemma insert_by_perm x l : insert_by x l ≡ₚ x :: l.
Proof.
  induction l as [|y r IH]; simpl; [done |]. case_decide; [done |].
  rewrite IH. apply Permutation_swap.
Qed.

Lemma sort_by_key_perm l : sort_by_key l ≡ₚ l.
Proof. induction l as [|x r IH]; simpl; [done |]. by rewrite insert_by_perm, IH. Qed.

Lemma insert_by_sorted x l : StronglySorted key_le l → StronglySorted key_le (insert_by x l).
Proof.
  induction 1 as [|y r Hs IH Hall]; simpl; [repeat constructor |].
  unfold key_le in *. case_decide.
  - constructor; [by constructor |]. constructor; [done |].
    eapply Forall_impl; [| exact Hall]. simpl. lia.
  - constructor; [done |]. rewrite insert_by_perm. constructor; [lia | done].
Qed.

Lemma sort_by_key_sorted l : StronglySorted key_le (sort_by_key l).
Proof. induction l; simpl; [constructor | by apply insert_by_sorted]. Qed.
End stable_sort.

(** ** Automation *)

Create HintDb blossom.
#[export] Hint Resolve b2z_range parse_u64_to_string sort_by_key_perm sort_by_key_sorted : blossom.
#[export] Hint Rewrite @chars_of_chars of_chars_chars from_as_bytes as_from_bytes z2b_b2z : blossom.

(** Case analysis on the next [match], [if] or [decide] of a hypothesis that
    states the outcome of a handler, closing the impossible branches. *)
Ltac step_in H :=
  match type of H with
  | context [match ?e with _ => _ end] => let E := fresh "E" in destruct e eqn:E; simpl in H
  end.
Ltac steps_in H := repeat (step_in H; try discriminate H).
