(* ===== verification/Effects.v ===== *)
(** * State and early returns

    The monad of the request handlers: a computation changes a state of type
    [S] and ends with a value, or returns early with a response of type [R]
    ([return] and [?] in the source).  [keeps f m] says that [m] leaves the part
    [f] of the state alone, [refuses_with P m] that its early returns satisfy
    [P], [ensures Q m] that its values do. *)

From stdpp Require Import base list.
From S2P Require Import Prelude.

Definition MR (S R A : Type) : Type := S → S * result A R.

Section effects.
Context {S : Type}.

Definition ret {R A} (a : A) : MR S R A := fun s => (s, Ok a).
Definition early {R A} (r : R) : MR S R A := fun s => (s, Err r).
Definition bind {R A C} (m : MR S R A) (k : A → MR S R C) : MR S R C :=
  fun s => match m s with (s, Ok a) => k a s | (s, Err r) => (s, Err r) end.
Definition gets {R A} (f : S → A) : MR S R A := fun s => (s, Ok (f s)).
Definition modify {R} (f : S → S) : MR S R unit := fun s => (f s, Ok tt).
Definition lift {R A} (r : result A R) : MR S R A := fun s => (s, r).
Definition map_err {R R' A} (f : R → R') (m : MR S R A) : MR S R' A :=
  fun s => let '(s, r) := m s in (s, match r with Ok a => Ok a | Err e => Err (f e) end).
(** Answer [r] unless the test holds. *)
Definition guard {R} (b : bool) (r : R) : MR S R unit := if b then ret tt else early r.
(** The response of a handler, from an early return or its end. *)
Definition respond {R} (m : MR S R R) (s : S) : S * R :=
  let '(s, r) := m s in (s, match r with Ok x => x | Err x => x end).
(** [m] on a part of a larger state. *)
Definition zoom {T R A} (get : T → S) (set : S → T → T) (m : MR S R A) : MR T R A :=
  fun t => let '(s, r) := m (get t) in (set s t, r).
End effects.

Declare Scope handler_scope.
Delimit Scope handler_scope with handler.
Notation "'let!' x ':=' m 'in' k" := (bind m (fun x => k))
  (at level 200, x pattern, m at level 200, k at level 200, right associativity) : handler_scope.
Notation "m ';!' k" := (bind m (fun _ => k)) (at level 199, right associativity) : handler_scope.

Section reasoning.
Context {S : Type}.
Implicit Types s : S.

Lemma bind_inv {R A C} (m : MR S R A) (k : A → MR S R C) s s' r :
  bind m k s = (s', r) →
  (∃ a s1, m s = (s1, Ok a) ∧ k a s1 = (s', r)) ∨ (∃ e, m s = (s', Err e) ∧ r = Err e).
Proof. unfold bind. destruct (m s) as [s1 [a|e]]; [left; eauto | intros [= <- <-]; right; eauto]. Qed.

Lemma bind_ok {R A C} (m : MR S R A) (k : A → MR S R C) s s' x :
  bind m k s = (s', Ok x) → ∃ a s1, m s = (s1, Ok a) ∧ k a s1 = (s', Ok x).
Proof. intros [H | (e & _ & [=])]%bind_inv. exact H. Qed.

Lemma guard_ok {R} b (resp : R) s s' x : guard b resp s = (s', Ok x) → b = true ∧ s' = s.
Proof. unfold guard. destruct b; [intros [= <- _]; done | done]. Qed.

(** *** What a handler leaves alone *)

(** [m] leaves the part [f] of the state as it is, whatever it answers. *)
Definition keeps {R A X} (f : S → X) (m : MR S R A) : Prop := ∀ s, f (m s).1 = f s.

Lemma keeps_bind {R A C X} (f : S → X) (m : MR S R A) (k : A → MR S R C) :
  keeps f m → (∀ a, keeps f (k a)) → keeps f (bind m k).
Proof.
  intros Hm Hk s. unfold bind. specialize (Hm s). destruct (m s) as [s1 [a|e]]; simpl in *; [by rewrite Hk | done].
Qed.
Lemma keeps_ret {R A X} (f : S → X) (a : A) : keeps f (ret (R := R) a).
Proof. done. Qed.
Lemma keeps_early {R A X} (f : S → X) (r : R) : keeps f (early (A := A) r).
Proof. done. Qed.
Lemma keeps_gets {R A X} (f : S → X) (g : S → A) : keeps f (gets (R := R) g).
Proof. done. Qed.
Lemma keeps_lift {R A X} (f : S → X) (r : result A R) : keeps f (lift r).
Proof. done. Qed.
Lemma keeps_guard {R X} (f : S → X) b (r : R) : keeps f (guard b r).
Proof. unfold guard. by destruct b. Qed.
Lemma keeps_modify {R X} (f : S → X) g : (∀ s, f (g s) = f s) → keeps f (modify (R := R) g).
Proof. intros Hg s. apply Hg. Qed.
Lemma keeps_map_err {R R' A X} (f : S → X) (g : R → R') (m : MR S R A) : keeps f m → keeps f (map_err g m).
Proof. intros Hm s. unfold map_err. specialize (Hm s). by destruct (m s). Qed.

Lemma keeps_run {R A X} (f : S → X) (m : MR S R A) s s' r : keeps f m → m s = (s', r) → f s' = f s.
Proof. intros Hk Hm. specialize (Hk s). by rewrite Hm in Hk. Qed.

(** [m] keeps the invariant [I], whatever it answers. *)
Definition maintains {R A} (I : S → Prop) (m : MR S R A) : Prop := ∀ s, I s → I (m s).1.

Lemma maintains_keeps {R A X} (I : X → Prop) (f : S → X) (m : MR S R A) :
  keeps f m → maintains (fun s => I (f s)) m.
Proof. intros Hm s. by rewrite Hm. Qed.
Lemma maintains_bind {R A C} I (m : MR S R A) (k : A → MR S R C) :
  maintains I m → (∀ a, maintains I (k a)) → maintains I (bind m k).
Proof.
  intros Hm Hk s Hi. unfold bind. specialize (Hm s Hi). destruct (m s) as [s1 [a|e]]; simpl in *; [by apply Hk | done].
Qed.
(** A computation that starts by reading the state. *)
Lemma maintains_read {R A C} I (g : S → A) (k : A → MR S R C) :
  (∀ s, I s → I (k (g s) s).1) → maintains I (bind (gets g) k).
Proof. done. Qed.
Lemma maintains_modify {R} I g : (∀ s, I s → I (g s)) → maintains (R := R) I (modify g).
Proof. done. Qed.
Lemma maintains_map_err {R R' A} I (g : R → R') (m : MR S R A) : maintains I m → maintains I (map_err g m).
Proof. intros Hm s. unfold map_err. specialize (Hm s). by destruct (m s). Qed.

(** [m] leaves [f] as it is, unless the state it ends in satisfies [P]. *)
Definition unless {R A X} (f : S → X) (P : S → Prop) (m : MR S R A) (s : S) : Prop :=
  ∀ s' r, m s = (s', r) → f s' = f s ∨ P s'.

Lemma unless_keeps {R A X} (f : S → X) P (m : MR S R A) s : keeps f m → unless f P m s.
Proof. intros Hm s' r Hr. left. by eapply keeps_run. Qed.
Lemma unless_bind {R A C X} (f : S → X) P (m : MR S R A) (k : A → MR S R C) s :
  keeps f m → (∀ a s1, m s = (s1, Ok a) → unless f P (k a) s1) → unless f P (bind m k) s.
Proof.
  intros Hm Hk s' r [(a & s1 & Ha & Hr) | (e & He & _)]%bind_inv; [| left; by eapply keeps_run].
  destruct (Hk _ _ Ha _ _ Hr) as [E | Hp]; [| by right]. left. rewrite E. by eapply keeps_run.
Qed.
Lemma unless_after {R A X Y} (f : S → X) (g : S → Y) (P : S → Prop) (m : MR S R A) s :
  keeps g m → (∀ s', g s' = g s → P s') → unless f P m s.
Proof. intros Hm Hp s' r Hr. right. apply Hp. by eapply keeps_run. Qed.
Lemma unless_assoc {R A C E X} (f : S → X) P (m : MR S R A) (k : A → MR S R C) (h : C → MR S R E) s :
  unless f P (bind m (fun a => bind (k a) h)) s → unless f P (bind (bind m k) h) s.
Proof. intros Hu s' r. specialize (Hu s' r). unfold bind in *. by destruct (m s) as [s1 []]. Qed.
Lemma unless_guard {R A X} (f : S → X) P b (e : R) (k : unit → MR S R A) s :
  (b = true → unless f P (k tt) s) → unless f P (bind (guard b e) k) s.
Proof. intros Hk. destruct b; [by apply Hk | by apply unless_keeps]. Qed.
Lemma unless_respond {R X} (f : S → X) P (m : MR S R R) s :
  unless f P m s → f (respond m s).1 = f s ∨ P (respond m s).1.
Proof. intros Hm. unfold respond. destruct (m s) as [s' r] eqn:E. by apply (Hm s' r). Qed.

(** [m] as a step of a larger state. *)
Lemma unless_zoom {T R A X} (get : T → S) set (f : S → X) P (m : MR S R A) t :
  (∀ s t, get (set s t) = s) → unless f P m (get t) →
  ∀ t' r, zoom get set m t = (t', r) → f (get t') = f (get t) ∨ P (get t').
Proof. intros Hs Hu t' r. unfold zoom. destruct (m (get t)) as [s x] eqn:E. intros [= <- _]. rewrite Hs. eauto. Qed.

(** *** What its early returns and its values are *)

Definition refuses_with {R A} (P : R → Prop) (m : MR S R A) : Prop :=
  ∀ s s' e, m s = (s', Err e) → P e.
Definition ensures {R A} (Q : A → Prop) (m : MR S R A) : Prop :=
  ∀ s s' a, m s = (s', Ok a) → Q a.

Lemma refuses_bind {R A C} P (m : MR S R A) (k : A → MR S R C) :
  refuses_with P m → (∀ a, refuses_with P (k a)) → refuses_with P (bind m k).
Proof.
  intros Hm Hk s s' e. unfold bind. destruct (m s) as [s1 [a|e']] eqn:E; [apply Hk |].
  intros [= <- <-]. by eapply Hm.
Qed.
Lemma refuses_ret {R A} P (a : A) : refuses_with (R := R) P (ret a).
Proof. done. Qed.
Lemma refuses_early {R A} P (r : R) : P r → refuses_with P (early (A := A) r).
Proof. intros Hr s s' e [= <- <-]. done. Qed.
Lemma refuses_gets {R A} P (g : S → A) : refuses_with (R := R) P (gets g).
Proof. done. Qed.
Lemma refuses_modify {R} P g : refuses_with (R := R) P (modify g).
Proof. done. Qed.
Lemma refuses_lift {R A} P (r : result A R) : (∀ e, r = Err e → P e) → refuses_with P (lift r).
Proof. intros Hr s s' e [= <- ->]. by apply Hr. Qed.
Lemma refuses_map_err {R R' A} (f : R → R') P (m : MR S R A) :
  (∀ e, P (f e)) → refuses_with P (map_err f m).
Proof. intros Hf s s' e. unfold map_err. destruct (m s) as [s1 []]; [done |]. intros [= <- <-]. apply Hf. Qed.
Lemma refuses_guard {R} P b (r : R) : P r → refuses_with P (guard b r).
Proof. unfold guard. destruct b; [done |]. apply refuses_early. Qed.

Lemma ensures_bind {R A C} Q (m : MR S R A) (k : A → MR S R C) :
  (∀ a, ensures Q (k a)) → ensures Q (bind m k).
Proof. intros Hk s s' c (a & s1 & _ & Hc)%bind_ok. by eapply Hk. Qed.
Lemma ensures_ret {R A} (Q : A → Prop) (a : A) : Q a → ensures (R := R) Q (ret a).
Proof. intros Hq s s' x [= _ <-]. done. Qed.
Lemma ensures_early {R A} (Q : A → Prop) (r : R) : ensures Q (early r).
Proof. done. Qed.
End reasoning.

Lemma keeps_zoom {S T R A X} (get : T → S) set (f : T → X) (m : MR S R A) :
  (∀ s t, f (set s t) = f t) → keeps f (zoom get set m).
Proof. intros Hf t. unfold zoom. destruct (m _). apply Hf. Qed.

#[export] Hint Resolve keeps_ret keeps_early keeps_gets keeps_lift keeps_guard
  refuses_ret refuses_early refuses_gets refuses_modify refuses_guard ensures_early : blossom.
