(* ===== verification/Protocol.v ===== *)
(** * Protocol types and encodings ([src/src/protocol.rs])

    NIP-01 events, blob descriptors, the base64url codec of the authorization
    header and SHA-256 over a buffer and over a stream.  The crates the file
    calls (sha2, hex, serde_json) are the fields of [Crates]; what is relied on
    of them is stated in [CratesLaws]. *)

From Stdlib Require Import ZArith Lia Ascii String.
From Stdlib Require Import Strings.Byte.
From stdpp Require Import base list gmap strings numbers.
From S2P Require Import Prelude.

Open Scope string_scope.
Open Scope Z_scope.

(** ** Data *)

(** [NostrEvent]. *)
Record NostrEvent := mkEvent {
  ev_id : string;
  ev_pubkey : string;
  ev_created_at : Z;
  ev_kind : Z;
  ev_tags : list (list string);
  ev_content : string;
  ev_sig : string
}.

(** [BlobDescriptor]. *)
Record BlobDescriptor := mkDescriptor {
  d_sha256 : string;
  d_size : Z;
  d_content_type : option string;
  d_url : option string;
  d_uploaded : option Z
}.

(** A [serde_json::Value]: the bodies the handlers answer with. *)
Inductive json :=
| JNull
| JBool (b : bool)
| JNum (n : Z)
| JStr (s : string)
| JArr (l : list json)
| JObj (fields : list (string * json)).

(** ** External crates *)

Class Crates : Type := {
  (** sha2: [Sha256::new], [update], [finalize]. *)
  hasher : Type;
  hasher_new : hasher;
  hasher_update : hasher → list byte → hasher;
  hasher_finalize : hasher → list byte;
  (** hex: [hex::encode], [hex::decode]. *)
  hex_encode : list byte → string;
  hex_decode : string → option (list byte);
  (** serde_json: the NIP-01 tuple [(0, pubkey, created_at, kind, tags, content)]
      to bytes, and a [NostrEvent] to and from JSON. *)
  json_event_tuple : string → Z → Z → list (list string) → string → list byte;
  event_to_json : NostrEvent → string;
  event_from_json : list byte → option NostrEvent;
  (** secp256k1: BIP-340 verification of a signature (64 bytes) of a message
      (32 bytes) under an x-only key (32 bytes); [false] also when the key
      bytes are not a point of the curve. *)
  schnorr_verify : list byte → list byte → list byte → bool
}.

Class CratesLaws `{Crates} : Prop := {
  (** Feeding a hasher in pieces is feeding it the concatenation. *)
  hasher_update_app : ∀ h a b,
    hasher_update (hasher_update h a) b = hasher_update h (a ++ b)%list;
  hasher_update_nil : ∀ h, hasher_update h [] = h;
  (** A SHA-256 digest is 32 bytes. *)
  hasher_finalize_length : ∀ h, length (hasher_finalize h) = 32%nat;
  (** Hex output is two lower-case digits a byte and is decoded by [hex::decode]. *)
  hex_encode_lower : ∀ l, str_all is_lower_hex (hex_encode l) = true;
  hex_encode_length : ∀ l, String.length (hex_encode l) = (2 * length l)%nat;
  hex_decode_encode : ∀ l, hex_decode (hex_encode l) = Some l;
  (** A serialized event parses to itself. *)
  event_json_roundtrip : ∀ e, event_from_json (as_bytes (event_to_json e)) = Some e
}.

Section protocol.
Context `{Crates}.

(** [sha256_hex]. *)
Definition sha256_hex (data : list byte) : string :=
  let hasher := hasher_update hasher_new data in
  hex_encode (hasher_finalize hasher).

(** [compute_event_id]. *)
Definition compute_event_id (pubkey : string) (created_at kind : Z)
    (tags : list (list string)) (content : string) : list byte :=
  let serialized := json_event_tuple pubkey created_at kind tags content in
  hasher_finalize (hasher_update hasher_new serialized).

(** ** Streaming hash

    A reader yields the results of its [read] calls: [Ok n] bytes or an I/O
    error; [Ok] of no bytes is the end of the stream.  A reader that has
    nothing more to say is at its end. *)
Definition reader := list (result (list byte) string).

(** [STREAM_CHUNK_SIZE]. *)
Definition STREAM_CHUNK_SIZE : Z := 256 * 1024.

(** The loop of [sha256_stream]. *)
Fixpoint sha256_stream_loop (rd : reader) (h : hasher) (total : Z) : result (string * Z) string :=
  match rd with
  | [] => Ok (hex_encode (hasher_finalize h), total)
  | Err e :: _ => Err e
  | Ok [] :: _ => Ok (hex_encode (hasher_finalize h), total)
  | Ok buf :: rd' => sha256_stream_loop rd' (hasher_update h buf) (total + vec_len buf)
  end.

(** [sha256_stream]. *)
Definition sha256_stream (rd : reader) : result (string * Z) string :=
  sha256_stream_loop rd hasher_new 0.
End protocol.

(** ** base64url *)

Definition CHARS : list ascii :=
  chars "ABCDEFGHIJKLMNOPQRSTUVWXYZabcdefghijklmnopqrstuvwxyz0123456789+/".

Definition enc_char (i : Z) : ascii := nth (Z.to_nat i) CHARS "000"%char.

(** [slice::chunks]. *)
Fixpoint chunks3 {A} (l : list A) : list (list A) :=
  match l with
  | a :: b :: c :: r => [a; b; c] :: chunks3 r
  | [] => []
  | l => [l]
  end.
Fixpoint chunks4 {A} (l : list A) : list (list A) :=
  match l with
  | a :: b :: c :: d :: r => [a; b; c; d] :: chunks4 r
  | [] => []
  | l => [l]
  end.

(** The body of the loop of [base64url_encode]. *)
Definition encode_chunk (chunk : list byte) : list ascii :=
  let get i := match nth_error chunk i with Some b => b2z b | None => 0 end in
  let b0 := get 0%nat in
  let b1 := if decide (1 < length chunk)%nat then get 1%nat else 0 in
  let b2 := if decide (2 < length chunk)%nat then get 2%nat else 0 in
  let triple := Z.lor (Z.lor (Z.shiftl b0 16) (Z.shiftl b1 8)) b2 in
  ([enc_char (Z.land (Z.shiftr triple 18) 63); enc_char (Z.land (Z.shiftr triple 12) 63)]
   ++ (if decide (1 < length chunk)%nat then [enc_char (Z.land (Z.shiftr triple 6) 63)] else [])
   ++ (if decide (2 < length chunk)%nat then [enc_char (Z.land triple 63)] else []))%list.

Arguments encode_chunk : simpl never.

Definition replace_char (a b c : ascii) : ascii := if decide (c = a) then b else c.

(** [base64url_encode]. *)
Definition base64url_encode (data : list byte) : string :=
  let result := of_chars (concat (map encode_chunk (chunks3 data))) in
  str_map (replace_char "/" "_") (str_map (replace_char "+" "-") result).

(** The byte table of [base64url_decode]. *)
Definition decode_char (c : ascii) : Z :=
  let b := code c in
  if between 65 b 90 then b - 65
  else if between 97 b 122 then b - 97 + 26
  else if between 48 b 57 then b - 48 + 52
  else if b =? 43 then 62
  else if b =? 47 then 63
  else if b =? 61 then 0
  else 255.

(** The body of the decoding loop, on the four characters of a chunk of
    [padded]: [padded_bytes.get(i * 4 + k)] is the [k]-th of them. *)
Definition decode_chunk (padded : list ascii) : result (list byte) string :=
  match padded with
  | [p0; p1; p2; p3] =>
      let chunk := map decode_char padded in
      if bool_decide (255 ∈ chunk) then Err "invalid base64 character"
      else
        let triple := Z.lor (Z.lor (Z.lor (Z.shiftl (decode_char p0) 18)
                                          (Z.shiftl (decode_char p1) 12))
                                   (Z.shiftl (decode_char p2) 6))
                            (decode_char p3) in
        Ok ([z2b (Z.shiftr triple 16)]
            ++ (if decide (p2 = "="%char) then [] else [z2b (Z.shiftr triple 8)])
            ++ (if decide (p3 = "="%char) then [] else [z2b triple]))%list
  | _ => Ok []
  end.

Arguments decode_chunk : simpl never.

Fixpoint decode_chunks (l : list (list ascii)) : result (list byte) string :=
  match l with
  | [] => Ok []
  | chunk :: r =>
      let? out := decode_chunk chunk in
      let? rest := decode_chunks r in
      Ok (out ++ rest)%list
  end.

(** [base64url_decode]. *)
Definition base64url_decode (s : string) : result (list byte) string :=
  let standard := str_map (replace_char "_" "/") (str_map (replace_char "-" "+") s) in
  let? padded :=
    match str_len standard mod 4 with
    | 2 => Ok (standard +:+ "==")
    | 3 => Ok (standard +:+ "=")
    | 0 => Ok standard
    | _ => Err "invalid base64url length"
    end in
  decode_chunks (chunks4 (chars padded)).

(** ** Correctness of the codec *)

Lemma lor_shiftl_add a b k : 0 <= k → 0 <= b < 2 ^ k → Z.lor (Z.shiftl a k) b = a * 2 ^ k + b.
Proof.
  intros Hk Hb. assert (Hl : Z.land (Z.shiftl a k) b = 0).
  { apply Z.bits_inj'. intros n Hn. rewrite Z.land_spec, Z.bits_0.
    destruct (decide (n < k)).
    - by rewrite Z.shiftl_spec_low.
    - rewrite <- (Z.mod_small b (2 ^ k)) by done.
      rewrite Z.mod_pow2_bits_high by lia. apply andb_false_r. }
  rewrite <- Z.lxor_lor by done. rewrite <- Z.add_nocarry_lxor by done.
  by rewrite Z.shiftl_mul_pow2.
Qed.

Lemma land_63 a : Z.land a 63 = a mod 64.
Proof. change 63 with (Z.ones 6). by rewrite Z.land_ones. Qed.

(** Every index of the table decodes to itself and is left alone by the
    url-safe substitutions and their inverses. *)
Definition table_ok (i : Z) : bool :=
  let c := enc_char i in
  let url := replace_char "/" "_" (replace_char "+" "-" c) in
  (decode_char c =? i)
  && bool_decide (c ≠ "="%char)
  && bool_decide (replace_char "_" "/" (replace_char "-" "+" url) = c)
  && bool_decide (url ≠ "+"%char ∧ url ≠ "/"%char ∧ url ≠ "="%char).

Lemma table_all : forallb (fun n => table_ok (Z.of_nat n)) (seq 0 64) = true.
Proof. vm_compute. reflexivity. Qed.

Lemma table_at i : 0 <= i < 64 → table_ok i = true.
Proof.
  intros Hi. pose proof table_all as Ht. rewrite forallb_forall in Ht.
  specialize (Ht (Z.to_nat i)). rewrite Z2Nat.id in Ht by lia. apply Ht.
  apply in_seq. lia.
Qed.

Lemma table_spec i :
  0 <= i < 64 →
  decode_char (enc_char i) = i ∧ enc_char i ≠ "="%char
  ∧ replace_char "_" "/" (replace_char "-" "+"
      (replace_char "/" "_" (replace_char "+" "-" (enc_char i)))) = enc_char i.
Proof.
  intros Hi. pose proof (table_at i Hi) as Ht. unfold table_ok in Ht.
  rewrite !andb_true_iff, !bool_decide_eq_true in Ht.
  destruct Ht as [[[H1%Z.eqb_eq H2] H3] _]. done.
Qed.

Lemma enc_mod_spec a : decode_char (enc_char (a mod 64)) = a mod 64 ∧ enc_char (a mod 64) ≠ "="%char.
Proof. split; apply table_spec, Z.mod_pos_bound; lia. Qed.

(** The 24-bit group of three bytes. *)
Definition group (a b c : byte) : Z := b2z a * 65536 + b2z b * 256 + b2z c.

Lemma triple_group a b c :
  Z.lor (Z.lor (Z.shiftl (b2z a) 16) (Z.shiftl (b2z b) 8)) (b2z c) = group a b c.
Proof.
  pose proof (b2z_range a). pose proof (b2z_range b). pose proof (b2z_range c).
  rewrite <- Z.lor_assoc, (lor_shiftl_add (b2z b)), lor_shiftl_add; unfold group; lia.
Qed.

(** The four 6-bit digits of a group. *)
Definition quad (g : Z) : list ascii :=
  [enc_char ((g / 2 ^ 18) mod 64); enc_char ((g / 2 ^ 12) mod 64);
   enc_char ((g / 2 ^ 6) mod 64); enc_char (g mod 64)].

Lemma triple_quad g :
  0 <= g < 2 ^ 24 →
  Z.lor (Z.lor (Z.lor (Z.shiftl ((g / 2 ^ 18) mod 64) 18) (Z.shiftl ((g / 2 ^ 12) mod 64) 12))
               (Z.shiftl ((g / 2 ^ 6) mod 64) 6)) (g mod 64) = g.
Proof.
  intros Hg. pose proof (Z.mod_pos_bound g 64). pose proof (Z.mod_pos_bound (g / 2 ^ 6) 64).
  pose proof (Z.mod_pos_bound (g / 2 ^ 12) 64).
  rewrite <- !Z.lor_assoc.
  rewrite (lor_shiftl_add _ (g mod 64)) by lia.
  rewrite (lor_shiftl_add ((g / 2 ^ 12) mod 64)) by lia.
  rewrite lor_shiftl_add by lia.
  Z.div_mod_to_equations. lia.
Qed.

Lemma encode_chunk_quad3 a b c : encode_chunk [a; b; c] = quad (group a b c).
Proof.
  unfold encode_chunk, quad. simpl length. rewrite !decide_True by lia. simpl nth_error. cbv iota beta.
  rewrite triple_group, !land_63, !Z.shiftr_div_pow2 by lia. done.
Qed.

Lemma encode_chunk_quad2 a b : encode_chunk [a; b] = take 3 (quad (group a b x00)).
Proof.
  unfold encode_chunk, quad. simpl length.
  rewrite !(decide_True (P := (1 < 2)%nat)), !(decide_False (P := (2 < 2)%nat)) by lia.
  simpl nth_error. cbv iota beta. change 0 with (b2z x00) at 1 2 3.
  rewrite triple_group, !land_63, !Z.shiftr_div_pow2 by lia. done.
Qed.

Lemma encode_chunk_quad1 a : encode_chunk [a] = take 2 (quad (group a x00 x00)).
Proof.
  unfold encode_chunk, quad. simpl length.
  rewrite !(decide_False (P := (1 < 1)%nat)), !(decide_False (P := (2 < 1)%nat)) by lia.
  simpl nth_error. cbv iota beta.
  replace (Z.lor (Z.lor (Z.shiftl (b2z a) 16) (Z.shiftl 0 8)) 0) with (group a x00 x00)
    by (rewrite <- triple_group; done).
  rewrite !land_63, !Z.shiftr_div_pow2 by lia. done.
Qed.

Lemma group_range a b c : 0 <= group a b c < 2 ^ 24.
Proof.
  pose proof (b2z_range a). pose proof (b2z_range b). pose proof (b2z_range c). unfold group. lia.
Qed.

(** Bytes of a group. *)
Lemma group_bytes a b c :
  z2b (Z.shiftr (group a b c) 16) = a ∧ z2b (Z.shiftr (group a b c) 8) = b ∧ z2b (group a b c) = c.
Proof.
  pose proof (b2z_range a). pose proof (b2z_range b). pose proof (b2z_range c).
  repeat split; apply b2z_inj; rewrite b2z_z2b, ?Z.shiftr_div_pow2 by lia; unfold group;
    Z.div_mod_to_equations; lia.
Qed.

Lemma decode_chunk_group g p2 p3 :
  0 <= g < 2 ^ 24 →
  decode_char p2 = (g / 2 ^ 6) mod 64 → decode_char p3 = g mod 64 →
  decode_chunk [enc_char ((g / 2 ^ 18) mod 64); enc_char ((g / 2 ^ 12) mod 64); p2; p3]
  = Ok ([z2b (Z.shiftr g 16)]
        ++ (if decide (p2 = "="%char) then [] else [z2b (Z.shiftr g 8)])
        ++ (if decide (p3 = "="%char) then [] else [z2b g]))%list.
Proof.
  intros Hg H2 H3. unfold decode_chunk. simpl map.
  destruct (enc_mod_spec (g / 2 ^ 18)) as [-> _], (enc_mod_spec (g / 2 ^ 12)) as [-> _].
  rewrite H2, H3, triple_quad by done.
  rewrite bool_decide_eq_false_2; [done |].
  pose proof (Z.mod_pos_bound g 64). pose proof (Z.mod_pos_bound (g / 2 ^ 6) 64).
  pose proof (Z.mod_pos_bound (g / 2 ^ 12) 64). pose proof (Z.mod_pos_bound (g / 2 ^ 18) 64).
  rewrite !elem_of_cons, elem_of_nil. intros Hin. lia.
Qed.

(** Induction on a list three elements at a time. *)
Lemma list_ind3 {A} (P : list A → Prop) :
  P [] → (∀ a, P [a]) → (∀ a b, P [a; b]) → (∀ a b c l, P l → P (a :: b :: c :: l)) → ∀ l, P l.
Proof.
  intros H0 H1 H2 H3 l. enough (P l ∧ (∀ a, P (a :: l)) ∧ ∀ a b, P (a :: b :: l)) by tauto.
  induction l as [|x l (IH0 & IH1 & IH2)]; auto.
Qed.

(** The unpadded standard base64 text and its padding. *)
Definition raw (l : list byte) : list ascii := concat (map encode_chunk (chunks3 l)).
Definition padding (l : list byte) : list ascii :=
  match Z.of_nat (length l) mod 3 with 1 => ["="; "="]%char | 2 => ["="]%char | _ => [] end.

Lemma padding_step a b c l : padding (a :: b :: c :: l) = padding l.
Proof.
  unfold padding. replace (Z.of_nat (length (a :: b :: c :: l))) with (Z.of_nat (length l) + 1 * 3)
    by (simpl length; lia). by rewrite Z.mod_add by lia.
Qed.

Lemma raw_step a b c l : raw (a :: b :: c :: l) = (quad (group a b c) ++ raw l)%list.
Proof.
  change (raw (a :: b :: c :: l)) with (encode_chunk [a; b; c] ++ raw l)%list.
  by rewrite encode_chunk_quad3.
Qed.
Lemma raw_two a b : raw [a; b] = take 3 (quad (group a b x00)).
Proof. rewrite <- encode_chunk_quad2. apply app_nil_r. Qed.
Lemma raw_one a : raw [a] = take 2 (quad (group a x00 x00)).
Proof. rewrite <- encode_chunk_quad1. apply app_nil_r. Qed.

Lemma decode_raw l : decode_chunks (chunks4 (raw l ++ padding l)) = Ok l.
Proof.
  induction l as [|a|a b|a b c l IH] using list_ind3.
  - done.
  - change (padding [a]) with ["="; "="]%char. rewrite raw_one. simpl. rewrite decode_chunk_group;
      [| apply group_range | unfold group; change (decode_char "=") with 0; pose proof (b2z_range a);
         change (b2z x00) with 0; Z.div_mod_to_equations; lia ..].
    by destruct (group_bytes a x00 x00) as (-> & _ & _).
  - change (padding [a; b]) with ["="]%char. rewrite raw_two. simpl.
    destruct (enc_mod_spec (group a b x00 / 2 ^ 6)) as [Hd Hne]. rewrite decode_chunk_group;
      [| apply group_range | done | unfold group; change (decode_char "=") with 0;
         pose proof (b2z_range a); pose proof (b2z_range b);
         change (b2z x00) with 0; Z.div_mod_to_equations; lia].
    rewrite decide_False by done.
    by destruct (group_bytes a b x00) as (-> & -> & _).
  - rewrite padding_step, raw_step, <- app_assoc. simpl.
    destruct (enc_mod_spec (group a b c / 2 ^ 6)) as [Hd Hne].
    destruct (enc_mod_spec (group a b c)) as [Hd' Hne'].
    rewrite decode_chunk_group by (done || apply group_range).
    rewrite !decide_False, IH by done.
    by destruct (group_bytes a b c) as (-> & -> & ->).
Qed.

(** Characters of the unpadded text come from the table. *)
Definition from_table (c : ascii) : Prop := ∃ i, 0 <= i < 64 ∧ c = enc_char i.

Lemma quad_table g : Forall from_table (quad g).
Proof.
  unfold quad. repeat constructor; eexists; (split; [| reflexivity]); apply Z.mod_pos_bound; lia.
Qed.

Lemma raw_table l : Forall from_table (raw l).
Proof.
  induction l as [|a|a b|a b c l IH] using list_ind3.
  - constructor.
  - rewrite raw_one. apply Forall_take, quad_table.
  - rewrite raw_two. apply Forall_take, quad_table.
  - rewrite raw_step. apply Forall_app. split; [apply quad_table | done].
Qed.

Lemma length_raw l :
  Z.of_nat (length (raw l)) mod 4 =
  match Z.of_nat (length l) mod 3 with 1 => 2 | 2 => 3 | _ => 0 end.
Proof.
  induction l as [|a|a b|a b c l IH] using list_ind3; [done | | |].
  - by rewrite raw_one.
  - by rewrite raw_two.
  - rewrite raw_step. simpl length.
    replace (Z.of_nat (S (S (S (length l))))) with (Z.of_nat (length l) + 1 * 3) by lia.
    replace (Z.of_nat (S (S (S (S (length (raw l))))))) with (Z.of_nat (length (raw l)) + 1 * 4) by lia.
    rewrite !Z.mod_add by lia. exact IH.
Qed.

Definition to_url (c : ascii) : ascii := replace_char "/" "_" (replace_char "+" "-" c).

Lemma encode_raw l : base64url_encode l = of_chars (map to_url (raw l)).
Proof.
  unfold base64url_encode, str_map. fold (raw l). by rewrite !chars_of_chars, map_map.
Qed.

Lemma from_url_table (l : list ascii) :
  Forall from_table l →
  map (replace_char "_" "/") (map (replace_char "-" "+") (map to_url l)) = l.
Proof.
  induction 1 as [|c l (i & Hi & ->) _ IH]; [done |]. simpl. rewrite IH. f_equal.
  unfold to_url. apply table_spec, Hi.
Qed.

Lemma base64url_decode_encode (data : list byte) :
  base64url_decode (base64url_encode data) = Ok data.
Proof.
  unfold base64url_decode. rewrite encode_raw. unfold str_map.
  rewrite !chars_of_chars, from_url_table by apply raw_table.
  unfold str_len. rewrite <- length_chars, chars_of_chars, length_raw.
  rewrite <- (decode_raw data). unfold padding.
  pose proof (Z.mod_pos_bound (Z.of_nat (length data)) 3 ltac:(lia)).
  assert (Hc : Z.of_nat (length data) mod 3 = 0 ∨ Z.of_nat (length data) mod 3 = 1
    ∨ Z.of_nat (length data) mod 3 = 2) by lia.
  destruct Hc as [-> | [-> | ->]]; rewrite ?chars_app, chars_of_chars, ?app_nil_r; done.
Qed.

(** Every character of the encoded text survives a URL and a header: none is
    [+], [/] or [=]. *)
Definition url_safe (c : ascii) : bool :=
  negb (bool_decide (c = "+"%char ∨ c = "/"%char ∨ c = "="%char)).

Lemma url_safe_table c : from_table c → url_safe (to_url c) = true.
Proof.
  intros (i & Hi & ->). pose proof (table_at i Hi) as Ht. unfold table_ok in Ht.
  rewrite !andb_true_iff, !bool_decide_eq_true in Ht. destruct Ht as [_ (H1 & H2 & H3)].
  unfold url_safe. fold (to_url (enc_char i)) in *. by rewrite bool_decide_eq_false_2 by tauto.
Qed.

Lemma base64url_safe data : str_all url_safe (base64url_encode data) = true.
Proof.
  rewrite encode_raw. unfold str_all. rewrite chars_of_chars, forallb_forall.
  intros c (d & <- & Hd)%in_map_iff. apply url_safe_table.
  pose proof (raw_table data) as Ht. rewrite Forall_forall in Ht.
  exact (Ht _ Hd).
Qed.

(** ** Streaming *)
Section stream.
Context `{CratesLaws}.

(** The bytes a reader delivers before its end or its first error. *)
Fixpoint delivered (rd : reader) : list byte :=
  match rd with
  | Ok (b :: buf) :: rd' => (b :: buf) ++ delivered rd'
  | _ => []
  end%list.
Fixpoint read_error (rd : reader) : option string :=
  match rd with
  | Ok (_ :: _) :: rd' => read_error rd'
  | Err e :: _ => Some e
  | _ => None
  end.

Lemma sha256_stream_loop_spec rd h total :
  sha256_stream_loop rd h total =
  match read_error rd with
  | Some e => Err e
  | None => Ok (hex_encode (hasher_finalize (hasher_update h (delivered rd))),
                total + vec_len (delivered rd))
  end.
Proof.
  revert h total. induction rd as [|[[|b buf]|e] rd IH]; intros h total; simpl;
    rewrite ?hasher_update_nil; unfold vec_len; simpl; rewrite ?Z.add_0_r; try done.
  rewrite IH. destruct (read_error rd); [done |].
  rewrite hasher_update_app. unfold vec_len. simpl. rewrite length_app. do 2 f_equal. lia.
Qed.
End stream.

(** ** A concrete instance of the crates

    Executable stand-ins with the documented behaviour, at which theorems are
    instantiated: the hasher keeps its input and finalizes to a checksum of 32
    bytes; JSON is a text of escaped fields. *)
Module Concrete.
(** A checksum: the sum of the blocks of 32 bytes, the last one padded. *)
Definition pad32 (l : list byte) : list byte := take 32 (l ++ replicate 32 x00)%list.
Definition add_block (a b : list byte) : list byte := zip_with (fun x y => z2b (b2z x * 3 + b2z y)) a b.
Fixpoint checksum (fuel : nat) (acc l : list byte) : list byte :=
  match fuel, l with
  | S fuel, _ :: _ => checksum fuel (add_block acc (pad32 l)) (drop 32 l)
  | _, _ => acc
  end.
Definition digest (l : list byte) : list byte := checksum (length l) (replicate 32 x00) l.

Lemma pad32_length l : length (pad32 l) = 32%nat.
Proof. unfold pad32. rewrite length_take, length_app, length_replicate. lia. Qed.
Lemma checksum_length fuel acc l : length acc = 32%nat → length (checksum fuel acc l) = 32%nat.
Proof.
  revert acc l. induction fuel as [|fuel IH]; intros acc l Ha; [done |]. destruct l as [|b l]; [done |].
  cbn [checksum]. apply IH. unfold add_block. by rewrite length_zip_with, Ha, pad32_length.
Qed.

Definition hexdig (n : Z) : ascii := if decide (n < 10) then chr (48 + n) else chr (87 + n).
Definition hex_byte (b : byte) : list ascii := [hexdig (b2z b / 16); hexdig (b2z b mod 16)].
Definition hex_enc (l : list byte) : string := of_chars (concat (map hex_byte l)).
Fixpoint hex_dec_go (l : list ascii) : option (list byte) :=
  match l with
  | [] => Some []
  | a :: b :: r =>
      match digit_val 16 a, digit_val 16 b, hex_dec_go r with
      | Some x, Some y, Some t => Some (z2b (x * 16 + y) :: t)
      | _, _, _ => None
      end
  | _ => None
  end.
Definition hex_dec (s : string) : option (list byte) := hex_dec_go (chars s).

Fixpoint pos_text (p : positive) : string :=
  match p with xH => "" | xO p => String "0" (pos_text p) | xI p => String "1" (pos_text p) end.
Fixpoint text_pos (s : string) : positive :=
  match s with
  | EmptyString => xH
  | String c r => if decide (c = "0"%char) then xO (text_pos r) else xI (text_pos r)
  end.

(** Texts of several fields: each is followed by a comma; commas, percent signs
    and line feeds in it are escaped. *)
Fixpoint esc (s : string) : string :=
  match s with
  | EmptyString => ""
  | String c r =>
      if decide (c = ","%char) then String "%" (String "c" (esc r))
      else if decide (c = "%"%char) then String "%" (String "p" (esc r))
      else if decide (c = "010"%char) then String "%" (String "n" (esc r))
      else String c (esc r)
  end.
Definition unesc (k : ascii) : ascii :=
  if decide (k = "c"%char) then ","%char else if decide (k = "p"%char) then "%"%char else "010"%char.
Definition push (c : ascii) (l : list string) : list string :=
  match l with f :: fs => String c f :: fs | [] => [String c ""] end.
Fixpoint split_fields (s : string) : list string :=
  match s with
  | EmptyString => [""]
  | String c r =>
      if decide (c = ","%char) then "" :: split_fields r
      else if decide (c = "%"%char) then
        match r with String k r => push (unesc k) (split_fields r) | EmptyString => [""] end
      else push c (split_fields r)
  end.
Definition fields_text (l : list string) : string := foldr (fun f r => esc f +:+ String "," r) "" l.
Definition text_fields (s : string) : list string := removelast (split_fields s).

Lemma cons_app c s t : String c s +:+ t = String c (s +:+ t).
Proof. reflexivity. Qed.
Lemma split_esc f r : split_fields (esc f +:+ String "," r) = f :: split_fields r.
Proof.
  induction f as [|c f IH]; [done |]. cbn [esc].
  destruct (decide (c = ","%char)) as [->|Hc]; [rewrite !cons_app; cbn [split_fields]; by rewrite IH |].
  destruct (decide (c = "%"%char)) as [->|Hp]; [rewrite !cons_app; cbn [split_fields]; by rewrite IH |].
  destruct (decide (c = "010"%char)) as [->|Hn]; [rewrite !cons_app; cbn [split_fields]; by rewrite IH |].
  rewrite cons_app. cbn [split_fields]. rewrite decide_False, decide_False by done. by rewrite IH.
Qed.
Lemma text_fields_text l : text_fields (fields_text l) = l.
Proof.
  unfold text_fields. assert (split_fields (fields_text l) = l ++ [""])%list as ->.
  { induction l as [|f l IH]; [done |].
    change (fields_text (f :: l)) with (esc f +:+ String "," (fields_text l)). rewrite split_esc, IH. done. }
  apply removelast_last.
Qed.

Definition z_text (z : Z) : string := pos_text (encode z).
Definition text_z (s : string) : option Z := decode (text_pos s).
Definition tags_text (ts : list (list string)) : string := fields_text (map fields_text ts).
Definition text_event (s : string) : option NostrEvent :=
  match text_fields s with
  | [i; pk; c; k; ts; ct; sg] =>
      match text_z c, text_z k with
      | Some c, Some k => Some (mkEvent i pk c k (map text_fields (text_fields ts)) ct sg)
      | _, _ => None
      end
  | _ => None
  end.

#[export] Instance crates : Crates := {|
  hasher := list byte;
  hasher_new := [];
  hasher_update h d := (h ++ d)%list;
  hasher_finalize := digest;
  hex_encode := hex_enc;
  hex_decode := hex_dec;
  json_event_tuple pk c k ts ct := as_bytes (fields_text [pk; z_text c; z_text k; tags_text ts; ct]);
  event_to_json e :=
    fields_text [ev_id e; ev_pubkey e; z_text (ev_created_at e); z_text (ev_kind e); tags_text (ev_tags e);
                 ev_content e; ev_sig e];
  event_from_json l := text_event (from_utf8_unchecked l);
  schnorr_verify pk msg sig := bool_decide (sig = pk ++ msg)%list
|}.

Lemma text_pos_text p : text_pos (pos_text p) = p.
Proof. induction p; simpl; by rewrite ?IHp. Qed.

Definition byte_ok (b : byte) : bool :=
  forallb is_lower_hex (hex_byte b) && bool_decide (hex_dec_go (hex_byte b) = Some [b]).
Lemma text_z_text z : text_z (z_text z) = Some z.
Proof. unfold text_z, z_text. by rewrite text_pos_text, decode_encode. Qed.
Lemma text_tags_text ts : map text_fields (text_fields (tags_text ts)) = ts.
Proof.
  unfold tags_text. rewrite text_fields_text, map_map. induction ts as [|t ts IH]; [done |].
  cbn [map]. by rewrite text_fields_text, IH.
Qed.
Lemma text_event_fields e :
  text_event (from_utf8_unchecked (as_bytes (fields_text [ev_id e; ev_pubkey e; z_text (ev_created_at e);
    z_text (ev_kind e); tags_text (ev_tags e); ev_content e; ev_sig e]))) = Some e.
Proof. unfold text_event. rewrite from_as_bytes, text_fields_text, !text_z_text, text_tags_text. by destruct e. Qed.
Lemma byte_ok_all b : byte_ok b = true.
Proof. destruct b; vm_compute; reflexivity. Qed.

Lemma hex_dec_step b r :
  hex_dec_go (hex_byte b ++ r)%list = (cons b) <$> hex_dec_go r.
Proof.
  pose proof (byte_ok_all b) as Hb. unfold byte_ok in Hb.
  rewrite andb_true_iff, bool_decide_eq_true in Hb. destruct Hb as [_ Hb].
  unfold hex_byte in *. simpl in *.
  destruct (digit_val 16 _) as [x|]; [| done]. destruct (digit_val 16 _) as [y|]; [| done].
  injection Hb as Hb. rewrite Hb. by destruct (hex_dec_go r).
Qed.

#[export] Instance crates_laws : CratesLaws.
Proof.
  split; simpl; intros.
  - by rewrite app_assoc.
  - by rewrite app_nil_r.
  - by apply checksum_length.
  - unfold hex_enc, str_all. rewrite chars_of_chars. induction l as [|b r IH]; [done |].
    change (concat (map hex_byte (b :: r))) with (hex_byte b ++ concat (map hex_byte r))%list.
    rewrite forallb_app, IH. pose proof (byte_ok_all b) as Hb.
    unfold byte_ok in Hb. apply andb_true_iff in Hb. by rewrite (proj1 Hb).
  - unfold hex_enc. rewrite <- length_chars, chars_of_chars. induction l; simpl; lia.
  - unfold hex_enc, hex_dec. rewrite chars_of_chars. induction l as [|b r IH]; [done |].
    change (concat (map hex_byte (b :: r))) with (hex_byte b ++ concat (map hex_byte r))%list.
    by rewrite hex_dec_step, IH.
  - apply text_event_fields.
Qed.
End Concrete.
