(* ===== verification/Auth.v ===== *)
(** * Authorization events ([src/src/auth/mod.rs], [auth/nip98.rs], [auth/signer.rs])

    Building and verifying kind:24242 (Blossom) and kind:27235 (NIP-98) events.
    The clock is an argument: [now] is the [SystemTime::now] reading of the call;
    [nonce] is the UUID drawn by a builder. *)

From Stdlib Require Import ZArith Lia Ascii String.
From Stdlib Require Import Strings.Byte.
From stdpp Require Import base list gmap strings numbers.
From S2P Require Import Prelude Protocol.

Open Scope string_scope.
Open Scope Z_scope.

(** [AuthError]. *)
Inductive AuthError :=
| WrongKind (kind : Z)
| Expired
| FutureDated
| MissingTag (name : string)
| DuplicateTag (name : string)
| MalformedTag (name : string)
| WrongAction
| WrongServer
| WrongResource
| InvalidEventId
| InvalidSignature
| Replay.

(** The [Display] of an [AuthError]. *)
Definition auth_error_to_string (e : AuthError) : string :=
  match e with
  | WrongKind k => "wrong event kind: expected 24242, got " +:+ u64_to_string k
  | Expired => "auth event has expired"
  | FutureDated => "auth event is dated too far in the future"
  | MissingTag n => "missing required auth tag: " +:+ n
  | DuplicateTag n => "duplicate auth tag: " +:+ n
  | MalformedTag n => "malformed auth tag: " +:+ n
  | WrongAction => "action tag does not match expected action"
  | WrongServer => "auth event is for a different server"
  | WrongResource => "auth event is for a different resource"
  | InvalidEventId => "event ID does not match computed hash"
  | InvalidSignature => "BIP-340 signature verification failed"
  | Replay => "authorization event has already been used"
  end.

(** [t.first().is_some_and(|v| v == name)]. *)
Definition tag_named (name : string) (t : list string) : bool :=
  match t with v :: _ => bool_decide (v = name) | [] => false end.

Definition tags_named (name : string) (e : NostrEvent) : list (list string) :=
  List.filter (tag_named name) (ev_tags e).

(** [t.len() == 2 && t[0] == "t" && t[1] == expected]. *)
Definition action_tag (expected : string) (t : list string) : bool :=
  match t with [a; b] => bool_decide (a = "t") && bool_decide (b = expected) | _ => false end.

Section auth.
Context `{Crates}.

(** [Signer::verify]. *)
Definition Signer_verify (pubkey_hex : string) (message : list byte) (sig_hex : string) : bool :=
  match hex_decode pubkey_hex with
  | Some pub_bytes =>
      if decide (length pub_bytes = 32%nat) then
        match hex_decode sig_hex with
        | Some sig_bytes =>
            if decide (length sig_bytes = 64%nat) then schnorr_verify pub_bytes message sig_bytes
            else false
        | None => false
        end
      else false
  | None => false
  end.

(** The checks of the event id and the signature that end both verifiers. *)
Definition verify_id_and_sig (e : NostrEvent) : result unit AuthError :=
  let computed_id :=
    compute_event_id (ev_pubkey e) (ev_created_at e) (ev_kind e) (ev_tags e) (ev_content e) in
  if decide (hex_encode computed_id ≠ ev_id e) then Err InvalidEventId
  else if negb (Signer_verify (ev_pubkey e) computed_id (ev_sig e)) then Err InvalidSignature
  else Ok tt.

(** The [expiration] checks of [verify_blossom_auth]. *)
Definition verify_expiration (now : Z) (e : NostrEvent) : result unit AuthError :=
  match tags_named "expiration" e with
  | [] => Err (MissingTag "expiration")
  | [exp_tag] =>
      match exp_tag with
      | [_; v] =>
          match parse_u64 v with
          | None => Err (MalformedTag "expiration")
          | Some exp =>
              if decide (now > exp ∨ exp > sat_add (ev_created_at e) 120) then Err Expired
              else Ok tt
          end
      | _ => Err (MalformedTag "expiration")
      end
  | _ => Err (DuplicateTag "expiration")
  end.

(** The action check of [verify_blossom_auth]. *)
Definition verify_action (e : NostrEvent) (expected : string) : result unit AuthError :=
  let matching_actions := List.filter (action_tag expected) (ev_tags e) in
  if decide (length matching_actions ≠ 1%nat) then
    Err (if decide (length matching_actions = 0%nat) then
           if existsb (tag_named "t") (ev_tags e) then WrongAction else MissingTag "t"
         else DuplicateTag "t")
  else Ok tt.

(** [verify_blossom_auth]. *)
Definition verify_blossom_auth (now : Z) (e : NostrEvent) (expected_action : option string)
    : result unit AuthError :=
  if decide (ev_kind e ≠ 24242) then Err (WrongKind (ev_kind e))
  else if decide (ev_created_at e > sat_add now 30) then Err FutureDated
  else if decide (sat_sub now (ev_created_at e) > 60) then Err Expired
  else
    let? _ := verify_expiration now e in
    let? _ := match expected_action with
              | Some expected => verify_action e expected
              | None => Ok tt
              end in
    verify_id_and_sig e.

(** [verify_unique_tag]. *)
Definition verify_unique_tag (e : NostrEvent) (name expected : string) (mismatch : AuthError)
    : result unit AuthError :=
  match tags_named name e with
  | [] => Err (MissingTag name)
  | [tag] =>
      match tag with
      | [_; v] => if decide (v ≠ expected) then Err mismatch else Ok tt
      | _ => Err (MalformedTag name)
      end
  | _ => Err (DuplicateTag name)
  end.

(** [verify_blossom_auth_bound]. *)
Definition verify_blossom_auth_bound (now : Z) (e : NostrEvent)
    (expected_action expected_server expected_url expected_method : string)
    (expected_hash : option string) : result unit AuthError :=
  let? _ := verify_blossom_auth now e (Some expected_action) in
  let? _ := verify_unique_tag e "server" expected_server WrongServer in
  let? _ := verify_unique_tag e "u" expected_url WrongResource in
  let? _ := verify_unique_tag e "method" (to_ascii_uppercase expected_method) WrongAction in
  match expected_hash with
  | Some hash => verify_unique_tag e "x" hash WrongResource
  | None => Ok tt
  end.

(** One tag check of [verify_nip98_auth_with_payload]: exactly one tag of the
    name, of two elements, whose second satisfies [test]. *)
Definition nip98_tag_ok (e : NostrEvent) (name : string) (test : string → bool) : bool :=
  match tags_named name e with
  | [[_; v]] => test v
  | _ => false
  end.

(** [verify_nip98_auth_with_payload]. *)
Definition verify_nip98_auth_with_payload (now : Z) (e : NostrEvent)
    (expected_url expected_method expected_payload : option string) : result unit AuthError :=
  if decide (ev_kind e ≠ 27235) then Err (WrongKind (ev_kind e))
  else if decide (ev_created_at e > sat_add now 30) then Err FutureDated
  else if decide (sat_sub now (ev_created_at e) > 60) then Err Expired
  else
    let? _ := match expected_url with
              | Some url => if nip98_tag_ok e "u" (fun v => bool_decide (v = url))
                            then Ok tt else Err WrongAction
              | None => Ok tt
              end in
    let? _ := match expected_method with
              | Some m => if nip98_tag_ok e "method" (fun v => eq_ignore_ascii_case v m)
                          then Ok tt else Err WrongAction
              | None => Ok tt
              end in
    let? _ := match expected_payload with
              | Some p => if nip98_tag_ok e "payload" (fun v => bool_decide (v = p))
                          then Ok tt else Err WrongAction
              | None => Ok tt
              end in
    verify_id_and_sig e.

(** [verify_nip98_auth]. *)
Definition verify_nip98_auth (now : Z) (e : NostrEvent)
    (expected_url expected_method : option string) : result unit AuthError :=
  verify_nip98_auth_with_payload now e expected_url expected_method None.

(** ** Builders *)

(** [BlossomSigner]. *)
Class BlossomSigner : Type := {
  public_key_hex : string;
  sign_schnorr : list byte → string
}.

(** What a signer promises: its signatures of 32-byte digests verify under
    its key. *)
Class SignerLaws `{BlossomSigner} : Prop := {
  sign_verifies : ∀ m, length m = 32%nat → Signer_verify public_key_hex m (sign_schnorr m) = true
}.

Section builders.
Context `{BlossomSigner}.

(** The event of a kind, its id and signature computed. *)
Definition sign_event (created_at kind : Z) (tags : list (list string)) (content : string)
    : NostrEvent :=
  let pubkey := public_key_hex in
  let id_bytes := compute_event_id pubkey created_at kind tags content in
  mkEvent (hex_encode id_bytes) pubkey created_at kind tags content (sign_schnorr id_bytes).

(** [build_blossom_auth_with_extra_tags]. *)
Definition build_blossom_auth_with_extra_tags (now : Z) (nonce : string)
    (action : string) (blob_sha256 server_url : option string) (content : string)
    (extra_tags : list (list string)) : NostrEvent :=
  let created_at := now in
  let tags := ([["t"; action]]
    ++ (match blob_sha256 with Some hash => [["x"; hash]] | None => [] end)
    ++ (match server_url with Some url => [["server"; url]] | None => [] end)
    ++ extra_tags
    ++ [["nonce"; nonce]]
    ++ [["expiration"; u64_to_string (created_at + 60)]])%list in
  sign_event created_at 24242 tags content.

(** [build_blossom_auth]. *)
Definition build_blossom_auth (now : Z) (nonce action : string)
    (blob_sha256 server_url : option string) (content : string) : NostrEvent :=
  build_blossom_auth_with_extra_tags now nonce action blob_sha256 server_url content [].

(** [build_blossom_auth_for_request_with_extra_tags]. *)
Definition build_blossom_auth_for_request_with_extra_tags (now : Z) (nonce action : string)
    (blob_sha256 : option string) (server_url request_url method content : string)
    (extra_tags : list (list string)) : NostrEvent :=
  let extra := ([["u"; request_url]; ["method"; to_ascii_uppercase method]] ++ extra_tags)%list in
  build_blossom_auth_with_extra_tags now nonce action blob_sha256
    (Some (trim_end_matches "/" server_url)) content extra.

(** [build_blossom_auth_for_request]. *)
Definition build_blossom_auth_for_request (now : Z) (nonce action : string)
    (blob_sha256 : option string) (server_url request_url method content : string) : NostrEvent :=
  build_blossom_auth_for_request_with_extra_tags now nonce action blob_sha256 server_url
    request_url method content [].

(** [build_nip98_auth_with_payload]. *)
Definition build_nip98_auth_with_payload (now : Z) (nonce url method : string)
    (payload_hash : option string) : NostrEvent :=
  let tags := ([["u"; url]; ["method"; method]; ["nonce"; nonce]]
    ++ (match payload_hash with Some hash => [["payload"; hash]] | None => [] end))%list in
  sign_event now 27235 tags "".

(** [build_nip98_auth]. *)
Definition build_nip98_auth (now : Z) (nonce url method : string) : NostrEvent :=
  build_nip98_auth_with_payload now nonce url method None.
End builders.

(** [auth_header_value]. *)
Definition auth_header_value (e : NostrEvent) : string :=
  "Nostr " +:+ base64url_encode (as_bytes (event_to_json e)).
End auth.

(** ** What a verified event guarantees *)

Section specs.
Context `{Crates}.

(** The event is dated at most 30 seconds ahead and 60 seconds back. *)
Definition fresh_at (now : Z) (e : NostrEvent) : Prop :=
  ev_created_at e <= sat_add now 30 ∧ sat_sub now (ev_created_at e) <= 60.

(** Exactly one tag of that name, and it carries that one value. *)
Definition unique_tag (e : NostrEvent) (name v : string) : Prop :=
  tags_named name e = [[name; v]].

Definition expiration_ok (now : Z) (e : NostrEvent) : Prop :=
  ∃ v exp, unique_tag e "expiration" v ∧ parse_u64 v = Some exp
           ∧ now <= exp <= sat_add (ev_created_at e) 120.

Definition computed_id (e : NostrEvent) : list byte :=
  compute_event_id (ev_pubkey e) (ev_created_at e) (ev_kind e) (ev_tags e) (ev_content e).

(** The id is the hash of the event and the signature covers it. *)
Definition authentic (e : NostrEvent) : Prop :=
  ev_id e = hex_encode (computed_id e)
  ∧ Signer_verify (ev_pubkey e) (computed_id e) (ev_sig e) = true.

(** Exactly one tag [["t"; action]]. *)
Definition has_action (e : NostrEvent) (action : string) : Prop :=
  List.filter (action_tag action) (ev_tags e) = [["t"; action]].

Lemma tags_named_head name e t : t ∈ tags_named name e → ∃ r, t = name :: r.
Proof.
  unfold tags_named. intros Hin%list_elem_of_In%filter_In. destruct Hin as [_ Ht].
  destruct t as [|v r]; [done |]. simpl in Ht. apply bool_decide_eq_true in Ht. subst. eauto.
Qed.

Lemma tags_named_pair name e a v : tags_named name e = [[a; v]] → a = name.
Proof.
  intros E. destruct (tags_named_head name e [a; v]) as [r Hr]; [rewrite E; by left |].
  congruence.
Qed.

Lemma verify_id_and_sig_ok e : verify_id_and_sig e = Ok tt ↔ authentic e.
Proof.
  unfold verify_id_and_sig, authentic, computed_id.
  case_decide as Hd; [split; [done | intros [? _]; congruence] |].
  destruct (Signer_verify _ _ _); naive_solver.
Qed.

Lemma verify_unique_tag_ok e name x err :
  verify_unique_tag e name x err = Ok tt ↔ unique_tag e name x.
Proof.
  unfold verify_unique_tag, unique_tag.
  destruct (tags_named name e) as [|t [|t' l]] eqn:E; [done | | done].
  destruct t as [|a [|v [|w r]]]; try done.
  pose proof (tags_named_pair _ _ _ _ E) as ->.
  case_decide as Hv; [split; [done | congruence] |].
  by subst.
Qed.

Lemma verify_expiration_ok now e : verify_expiration now e = Ok tt ↔ expiration_ok now e.
Proof.
  unfold verify_expiration, expiration_ok, unique_tag.
  destruct (tags_named "expiration" e) as [|t [|t' l]] eqn:E;
    [naive_solver | | naive_solver].
  destruct t as [|a [|v [|w r]]]; try naive_solver.
  pose proof (tags_named_pair _ _ _ _ E) as ->.
  destruct (parse_u64 v) as [exp|] eqn:Ev; [| naive_solver].
  case_decide; split; try done; [naive_solver lia |].
  intros _. exists v, exp. split; [done |]. split; [done | lia].
Qed.

Lemma action_tag_true a t : action_tag a t = true ↔ t = ["t"; a].
Proof.
  unfold action_tag. destruct t as [|x [|y [|z r]]]; try (split; congruence).
  rewrite andb_true_iff, !bool_decide_eq_true. naive_solver.
Qed.

Lemma verify_action_ok e a : verify_action e a = Ok tt ↔ has_action e a.
Proof.
  unfold verify_action, has_action.
  assert (Hf : ∀ t, In t (List.filter (action_tag a) (ev_tags e)) → t = ["t"; a]).
  { intros t [_ Ht]%filter_In. by apply action_tag_true. }
  destruct (List.filter (action_tag a) (ev_tags e)) as [|t [|t' l]]; simpl.
  - by split.
  - rewrite (Hf t) by (by left). by split.
  - by split.
Qed.

Lemma verify_blossom_auth_ok now e a :
  verify_blossom_auth now e (Some a) = Ok tt ↔
  ev_kind e = 24242 ∧ fresh_at now e ∧ expiration_ok now e ∧ has_action e a ∧ authentic e.
Proof.
  rewrite <- verify_expiration_ok, <- verify_action_ok, <- verify_id_and_sig_ok.
  unfold verify_blossom_auth, fresh_at. repeat case_decide; try (split; [done | lia]).
  destruct (verify_expiration now e) as [[]|], (verify_action e a) as [[]|],
    (verify_id_and_sig e) as [[]|]; intuition (done || lia).
Qed.

Lemma verify_bound_ok now e a srv url m h :
  verify_blossom_auth_bound now e a srv url m h = Ok tt ↔
  verify_blossom_auth now e (Some a) = Ok tt ∧ unique_tag e "server" srv ∧ unique_tag e "u" url
  ∧ unique_tag e "method" (to_ascii_uppercase m)
  ∧ (∀ x, h = Some x → unique_tag e "x" x).
Proof.
  rewrite <- (verify_unique_tag_ok e "server" srv WrongServer).
  rewrite <- (verify_unique_tag_ok e "u" url WrongResource).
  rewrite <- (verify_unique_tag_ok e "method" (to_ascii_uppercase m) WrongAction).
  unfold verify_blossom_auth_bound.
  destruct (verify_blossom_auth now e (Some a)) as [[]|]; [| naive_solver].
  destruct (verify_unique_tag e "server" _ _) as [[]|]; [| naive_solver].
  destruct (verify_unique_tag e "u" _ _) as [[]|]; [| naive_solver].
  destruct (verify_unique_tag e "method" _ _) as [[]|]; [| naive_solver].
  destruct h as [x|]; [| naive_solver].
  rewrite verify_unique_tag_ok. naive_solver.
Qed.

Lemma nip98_tag_ok_true e name test :
  nip98_tag_ok e name test = true ↔ ∃ v, unique_tag e name v ∧ test v = true.
Proof.
  unfold nip98_tag_ok, unique_tag.
  destruct (tags_named name e) as [|t [|t' l]] eqn:E; [naive_solver | |].
  - destruct t as [|a [|v [|w r]]]; try naive_solver.
    pose proof (tags_named_pair _ _ _ _ E) as ->. naive_solver.
  - destruct t as [|a [|v [|w r]]]; naive_solver.
Qed.

Lemma verify_nip98_ok now e url m p :
  verify_nip98_auth_with_payload now e (Some url) (Some m) p = Ok tt ↔
  ev_kind e = 27235 ∧ fresh_at now e ∧ unique_tag e "u" url
  ∧ (∃ v, unique_tag e "method" v ∧ eq_ignore_ascii_case v m = true)
  ∧ (∀ x, p = Some x → unique_tag e "payload" x) ∧ authentic e.
Proof.
  unfold verify_nip98_auth_with_payload, fresh_at.
  rewrite <- verify_id_and_sig_ok, <- nip98_tag_ok_true.
  assert (Hb : ∀ n x, nip98_tag_ok e n (fun v => bool_decide (v = x)) = true ↔ unique_tag e n x).
  { intros n x. rewrite nip98_tag_ok_true. setoid_rewrite bool_decide_eq_true. naive_solver. }
  repeat case_decide; try (split; [done | lia]).
  rewrite <- (Hb "u" url).
  destruct (nip98_tag_ok e "u" _); [| naive_solver].
  destruct (nip98_tag_ok e "method" _); [| naive_solver].
  destruct p as [x|].
  - specialize (Hb "payload" x). destruct (nip98_tag_ok e "payload" _); naive_solver lia.
  - naive_solver lia.
Qed.
End specs.

(** ** Built events verify *)

Section build_verify.
Context `{CratesLaws} `{BlossomSigner} `{!SignerLaws}.

(** Extra tags that do not interfere with the ones the verifier looks up. *)
Definition extra_ok (action : string) (extra : list (list string)) : bool :=
  forallb (fun t => negb (action_tag action t)
    && forallb (fun n => negb (tag_named n t)) ["expiration"; "server"; "u"; "method"; "x"]) extra.

Lemma filter_none {A} (f : A → bool) l : forallb (fun x => negb (f x)) l = true → List.filter f l = [].
Proof. induction l as [|x l IH]; simpl; [done |]. destruct (f x); [done | apply IH]. Qed.

Lemma extra_ok_action action extra :
  extra_ok action extra = true → List.filter (action_tag action) extra = [].
Proof.
  unfold extra_ok. rewrite forallb_forall. intros Hx. apply filter_none, forallb_forall.
  intros t Ht. specialize (Hx t Ht). by apply andb_true_iff in Hx as [-> _].
Qed.

Lemma extra_ok_named action extra n :
  extra_ok action extra = true → n ∈ ["expiration"; "server"; "u"; "method"; "x"] →
  List.filter (tag_named n) extra = [].
Proof.
  unfold extra_ok. rewrite forallb_forall. intros Hx Hn. apply filter_none, forallb_forall.
  intros t Ht. specialize (Hx t Ht). apply andb_true_iff in Hx as [_ Hx].
  rewrite forallb_forall in Hx. apply Hx. by apply list_elem_of_In.
Qed.

Lemma sign_event_authentic created kind tags content :
  authentic (sign_event created kind tags content).
Proof.
  unfold authentic, computed_id, sign_event. simpl. split; [done |].
  apply sign_verifies. apply hasher_finalize_length.
Qed.

Lemma fresh_later created now :
  in_u64 created → created <= now <= created + 60 → ∀ e, ev_created_at e = created → fresh_at now e.
Proof.
  unfold in_u64, fresh_at, sat_add, sat_sub. intros Hc Hn e ->. lia.
Qed.

Lemma build_request_verifies created now nonce action hash server url m content extra :
  in_u64 created → created + 60 <= u64_max → created <= now <= created + 60 →
  extra_ok action extra = true →
  verify_blossom_auth_bound now
    (build_blossom_auth_for_request_with_extra_tags created nonce action hash server url m content extra)
    action (trim_end_matches "/" server) url m hash = Ok tt.
Proof.
  intros Hc Hmax Hn Hx. unfold build_blossom_auth_for_request_with_extra_tags,
    build_blossom_auth_with_extra_tags. cbv zeta.
  assert (Hnil := extra_ok_named action extra).
  set (e := sign_event _ _ _ _).
  assert (Ht : ∀ n, n ∈ ["expiration"; "server"; "u"; "method"; "x"] →
    tags_named n e = (List.filter (tag_named n) [["t"; action]]
      ++ List.filter (tag_named n) (match hash with Some h => [["x"; h]] | None => [] end)
      ++ List.filter (tag_named n) [["server"; trim_end_matches "/" server]]
      ++ List.filter (tag_named n) [["u"; url]; ["method"; to_ascii_uppercase m]]
      ++ List.filter (tag_named n) [["nonce"; nonce]]
      ++ List.filter (tag_named n) [["expiration"; u64_to_string (created + 60)]])%list).
  { intros n Hin. unfold tags_named.
    change (ev_tags e) with ([["t"; action]]
      ++ (match hash with Some h => [["x"; h]] | None => [] end)
      ++ [["server"; trim_end_matches "/" server]]
      ++ ([["u"; url]; ["method"; to_ascii_uppercase m]] ++ extra)
      ++ [["nonce"; nonce]] ++ [["expiration"; u64_to_string (created + 60)]])%list.
    rewrite !List.filter_app, (Hnil n Hx Hin). by rewrite app_nil_r. }
  rewrite verify_bound_ok, verify_blossom_auth_ok. unfold unique_tag.
  rewrite !Ht by set_solver. simpl.
  repeat split; try (by destruct hash).
  - by eapply fresh_later.
  - eapply fresh_later; [done | done |]. done.
  - exists (u64_to_string (created + 60)), (created + 60). split.
    { unfold unique_tag. rewrite Ht by set_solver. by destruct hash. }
    split; [apply parse_u64_to_string; unfold in_u64 in *; lia |].
    simpl. unfold sat_add. lia.
  - unfold has_action. change (ev_tags e) with ([["t"; action]]
      ++ (match hash with Some h => [["x"; h]] | None => [] end)
      ++ [["server"; trim_end_matches "/" server]]
      ++ ([["u"; url]; ["method"; to_ascii_uppercase m]] ++ extra)
      ++ [["nonce"; nonce]] ++ [["expiration"; u64_to_string (created + 60)]])%list.
    rewrite !List.filter_app, (extra_ok_action _ _ Hx). simpl.
    rewrite !bool_decide_eq_true_2 by done. by destruct hash.
  - apply sign_event_authentic.
  - by intros x ->.
Qed.
End build_verify.
