(* ===== verification/Replay.v ===== *)
(** * Replay protection ([ReplayCache] of [src/src/server/mod.rs] and of
    [src/blossom-nip34/src/git_server/mod.rs])

    The cache of authorization events already used: a map of live entries, a
    global queue and one queue per principal, with a bound on each.  The loops
    of the code are structural recursions on the queue they pop. *)

From Stdlib Require Import ZArith Lia Ascii String.
From stdpp Require Import base list gmap strings numbers sets.
From S2P Require Import Prelude.

Open Scope string_scope.
Open Scope Z_scope.

(** [ReplayEntry]. *)
Record ReplayEntry := mkEntry {
  principal : string;
  expires_at : Z
}.

(** [ReplayCache]. *)
Record ReplayCache := mkCache {
  entries : gmap string ReplayEntry;
  insertion_order : list string;
  by_principal : gmap string (list string);
  capacity : Z;
  per_principal : Z
}.

(** [REPLAY_CACHE_CAPACITY], [REPLAY_CACHE_PER_PRINCIPAL]. *)
Definition REPLAY_CACHE_CAPACITY : Z := 10000.
Definition REPLAY_CACHE_PER_PRINCIPAL : Z := 256.

Module ReplayCache.

(** [ReplayCache::new]. *)
Definition new (capacity per_principal : Z) : ReplayCache :=
  mkCache ∅ [] ∅ capacity per_principal.

Definition set_entries (c : ReplayCache) m :=
  mkCache m (insertion_order c) (by_principal c) (capacity c) (per_principal c).
Definition set_order (c : ReplayCache) o :=
  mkCache (entries c) o (by_principal c) (capacity c) (per_principal c).
Definition set_queues (c : ReplayCache) q :=
  mkCache (entries c) (insertion_order c) q (capacity c) (per_principal c).

(** [ReplayCache::remove]. *)
Definition remove (c : ReplayCache) (event_id : string) : ReplayCache :=
  match entries c !! event_id with
  | None => c
  | Some entry =>
      let c := set_entries c (delete event_id (entries c)) in
      match by_principal c !! principal entry with
      | None => c
      | Some ids =>
          let ids := filter (fun i => i ≠ event_id) ids in
          match ids with
          | [] => set_queues c (delete (principal entry) (by_principal c))
          | _ => set_queues c (<[principal entry := ids]> (by_principal c))
          end
      end
  end.

(** The loop of [ReplayCache::prune_expired], on the queue it pops. *)
Fixpoint prune_loop (now : Z) (order : list string) (c : ReplayCache) : ReplayCache :=
  match order with
  | [] => set_order c []
  | event_id :: rest =>
      match entries c !! event_id with
      | None => prune_loop now rest c
      | Some entry =>
          if decide (expires_at entry <= now) then prune_loop now rest (remove c event_id)
          else set_order c order
      end
  end.

(** [ReplayCache::prune_expired]. *)
Definition prune_expired (c : ReplayCache) (now : Z) : ReplayCache :=
  prune_loop now (insertion_order c) c.

(** The loop that makes room in the queue of a principal.  Each turn pops one
    id of the queue, so as many turns as it has ids are enough. *)
Fixpoint evict_principal_loop (fuel : nat) (p : string) (c : ReplayCache) : ReplayCache :=
  match fuel with
  | O => c
  | S fuel =>
      match by_principal c !! p with
      | None => c
      | Some ids =>
          if decide (vec_len ids >= per_principal c) then
            match ids with
            | [] => c
            | oldest :: rest =>
                evict_principal_loop fuel p
                  (remove (set_queues c (<[p := rest]> (by_principal c))) oldest)
            end
          else c
      end
  end.
Definition evict_principal (p : string) (c : ReplayCache) : ReplayCache :=
  evict_principal_loop (length (default [] (by_principal c !! p))) p c.

(** The loop that makes room in the whole cache, on the queue it pops. *)
Fixpoint evict_oldest_loop (order : list string) (c : ReplayCache) : ReplayCache :=
  if decide (Z.of_nat (size (entries c)) >= capacity c) then
    match order with
    | [] => set_order c []
    | oldest :: rest => evict_oldest_loop rest (remove c oldest)
    end
  else set_order c order.
Definition evict_oldest (c : ReplayCache) : ReplayCache :=
  evict_oldest_loop (insertion_order c) c.

(** The three insertions that end [check_and_insert]. *)
Definition push (c : ReplayCache) (p event_id : string) (expires : Z) : ReplayCache :=
  mkCache (<[event_id := mkEntry p expires]> (entries c))
          (insertion_order c ++ [event_id])%list
          (<[p := (default [] (by_principal c !! p) ++ [event_id])%list]> (by_principal c))
          (capacity c) (per_principal c).

(** [ReplayCache::check_and_insert]. *)
Definition check_and_insert (c : ReplayCache) (p event_id : string) (now expires : Z)
    : ReplayCache * bool :=
  let c := prune_expired c now in
  match entries c !! event_id with
  | Some _ => (c, false)
  | None =>
      let c := evict_principal p c in
      let c := evict_oldest c in
      (push c p event_id expires, true)
  end.

(** ** Invariant *)

Definition queue (c : ReplayCache) (p : string) : list string := default [] (by_principal c !! p).

(** The queues and the entries tell the same story; every live entry is in
    the global queue. *)
Record linked (c : ReplayCache) : Prop := {
  entry_queued : ∀ id e, entries c !! id = Some e → id ∈ queue c (principal e);
  queued_entry : ∀ p id, id ∈ queue c p → ∃ e, entries c !! id = Some e ∧ principal e = p;
  queue_nodup : ∀ p, NoDup (queue c p);
  queue_nonempty : ∀ p, by_principal c !! p ≠ Some []
}.
Definition ordered (c : ReplayCache) : Prop :=
  ∀ id, is_Some (entries c !! id) → id ∈ insertion_order c.
Definition bounded (c : ReplayCache) : Prop :=
  1 <= per_principal c ∧ 1 <= capacity c
  ∧ (∀ p, vec_len (queue c p) <= per_principal c)
  ∧ Z.of_nat (size (entries c)) <= capacity c.
Definition wf (c : ReplayCache) : Prop := linked c ∧ ordered c ∧ bounded c.

Lemma entries_remove c id : entries (remove c id) = delete id (entries c).
Proof.
  unfold remove. destruct (entries c !! id) eqn:E; [| symmetry; by apply delete_id].
  simpl. repeat case_match; done.
Qed.
Lemma order_remove c id : insertion_order (remove c id) = insertion_order c.
Proof. unfold remove. repeat case_match; done. Qed.
Lemma capacity_remove c id : capacity (remove c id) = capacity c.
Proof. unfold remove. repeat case_match; done. Qed.
Lemma per_principal_remove c id : per_principal (remove c id) = per_principal c.
Proof. unfold remove. repeat case_match; done. Qed.

Lemma queue_remove_self c id e :
  entries c !! id = Some e →
  queue (remove c id) (principal e) = filter (fun i => i ≠ id) (queue c (principal e)).
Proof.
  intros E. unfold remove, queue. rewrite E. simpl.
  destruct (by_principal c !! principal e) as [ids|] eqn:Q; simpl.
  - destruct (filter _ ids) eqn:F; simpl; by simplify_map_eq.
  - by rewrite Q.
Qed.
Lemma queue_remove_other c id e p :
  entries c !! id = Some e → p ≠ principal e → queue (remove c id) p = queue c p.
Proof.
  intros E Hp. unfold remove, queue. rewrite E. simpl.
  destruct (by_principal c !! principal e) as [ids|] eqn:Q; simpl; [| done].
  destruct (filter _ ids) eqn:F; simpl; by simplify_map_eq.
Qed.
Lemma filter_ne_id (id : string) (l : list string) : id ∉ l → filter (fun i => i ≠ id) l = l.
Proof.
  induction l as [|x l IH]; [done |]. rewrite not_elem_of_cons. intros [Hx Hl].
  by rewrite filter_cons_True, IH.
Qed.

(** In a linked cache, removing an id filters it out of every queue. *)
Lemma queue_remove c id p :
  linked c → queue (remove c id) p = filter (fun i => i ≠ id) (queue c p).
Proof.
  intros L. destruct (entries c !! id) as [e|] eqn:E.
  - destruct (decide (p = principal e)) as [-> | Hp].
    + by apply queue_remove_self.
    + rewrite (queue_remove_other c id e p), filter_ne_id; [done | | done..].
      intros (e' & He' & <-)%(queued_entry _ L). congruence.
  - unfold remove. rewrite E, filter_ne_id; [done |].
    intros (e' & He' & _)%(queued_entry _ L). congruence.
Qed.

Lemma linked_remove c id : linked c → linked (remove c id).
Proof.
  intros L. split.
  - intros i e. rewrite entries_remove, queue_remove by done.
    intros [Hi He]%lookup_delete_Some. apply list_elem_of_filter. split; [congruence |].
    by apply (entry_queued _ L).
  - intros p i. rewrite queue_remove by done. intros [Hi Hq]%list_elem_of_filter.
    destruct (queued_entry _ L _ _ Hq) as (e & He & <-). exists e. split; [| done].
    rewrite entries_remove. by rewrite lookup_delete_ne.
  - intros p. rewrite queue_remove by done. apply NoDup_filter, (queue_nodup _ L).
  - intros p. unfold remove. destruct (entries c !! id) as [e|]; [| apply (queue_nonempty _ L)].
    simpl. destruct (by_principal c !! principal e) as [ids|]; [| apply (queue_nonempty _ L)].
    destruct (filter _ ids) eqn:F; simpl; intros Hp.
    + apply lookup_delete_Some in Hp as [_ Hp]. by apply (queue_nonempty _ L p).
    + apply lookup_insert_Some in Hp as [[_ ?] | [_ Hp]]; [done |].
      by apply (queue_nonempty _ L p).
Qed.

(** Popping the front of a queue and removing the id is removing the id. *)
Lemma pop_remove c p oldest rest :
  linked c → by_principal c !! p = Some (oldest :: rest) →
  remove (set_queues c (<[p := rest]> (by_principal c))) oldest = remove c oldest.
Proof.
  intros L Q. assert (Hq : queue c p = oldest :: rest) by (unfold queue; by rewrite Q).
  destruct (queued_entry _ L p oldest) as (e & He & Hp); [rewrite Hq; by left |].
  assert (Hn : oldest ∉ rest) by (pose proof (queue_nodup _ L p) as ND; rewrite Hq in ND;
    by apply NoDup_cons in ND as [? _]).
  unfold remove. simpl. rewrite He. simpl. rewrite Hp, Q. simpl.
  rewrite lookup_insert_eq. simpl. rewrite filter_ne_id by done.
  rewrite filter_cons_False, filter_ne_id by (done || tauto).
  destruct rest; simpl; unfold set_queues; simpl; f_equal.
  - apply delete_insert_eq.
  - apply insert_insert_eq.
Qed.

(** In a bounded cache the per-principal loop removes at most the front. *)
Lemma evict_principal_bounded c p :
  linked c → 1 <= per_principal c → vec_len (queue c p) <= per_principal c →
  evict_principal p c =
  if decide (vec_len (queue c p) >= per_principal c) then
    match queue c p with [] => c | oldest :: _ => remove c oldest end
  else c.
Proof.
  intros L Hpp Hb. unfold evict_principal. fold (queue c p).
  destruct (by_principal c !! p) as [ids|] eqn:Q.
  2: { unfold queue. rewrite Q. simpl. by case_decide. }
  assert (Hq : queue c p = ids) by (unfold queue; by rewrite Q). rewrite Hq in *.
  destruct ids as [|oldest rest]; [by apply (queue_nonempty _ L) in Q |].
  simpl length. simpl evict_principal_loop. rewrite Q.
  case_decide as Hfull; [| done]. rewrite (pop_remove c p oldest rest) by done.
  assert (Hn : queue (remove c oldest) p = rest).
  { rewrite queue_remove, Hq, filter_cons_False by (done || tauto). apply filter_ne_id.
    pose proof (queue_nodup _ L p) as ND. rewrite Hq in ND. by apply NoDup_cons in ND as [? _]. }
  destruct (length rest) as [|n] eqn:Hl; simpl; [done |].
  unfold queue in Hn. destruct (by_principal (remove c oldest) !! p) as [ids|] eqn:Q'; [| done].
  simpl in Hn. subst ids. rewrite per_principal_remove.
  rewrite decide_False; [done |]. unfold vec_len in *. simpl in Hb. lia.
Qed.

(** ** Removing several ids *)

Lemma foldl_remove_entries ids c id :
  entries (foldl remove c ids) !! id = if decide (id ∈ ids) then None else entries c !! id.
Proof.
  revert c. induction ids as [|i ids IH]; intros c; simpl.
  { done. }
  rewrite IH, entries_remove. destruct (decide (id = i)) as [-> | Hne].
  - rewrite lookup_delete_eq. repeat case_decide; set_solver.
  - rewrite lookup_delete_ne by done. repeat case_decide; set_solver.
Qed.
Lemma foldl_remove_linked ids c : linked c → linked (foldl remove c ids).
Proof. revert c. induction ids; simpl; auto using linked_remove. Qed.
Lemma foldl_remove_queue ids c p :
  linked c → queue (foldl remove c ids) p = filter (fun i => i ∉ ids) (queue c p).
Proof.
  revert c. induction ids as [|i ids IH]; intros c L; simpl.
  { symmetry. induction (queue c p); [done |].
    rewrite filter_cons_True by apply not_elem_of_nil. by f_equal. }
  rewrite IH, queue_remove, list_filter_filter by auto using linked_remove.
  apply list_filter_iff. intros x. rewrite not_elem_of_cons. tauto.
Qed.
Lemma foldl_remove_capacity ids c : capacity (foldl remove c ids) = capacity c.
Proof. revert c. induction ids; intros c; simpl; [done |]. by rewrite IHids, capacity_remove. Qed.
Lemma foldl_remove_per_principal ids c : per_principal (foldl remove c ids) = per_principal c.
Proof. revert c. induction ids; intros c; simpl; [done |]. by rewrite IHids, per_principal_remove. Qed.

(** [sub c c' dead]: [c'] is [c] with some ids removed, all satisfying [dead]. *)
Definition sub (dead : string → Prop) (c c' : ReplayCache) : Prop :=
  ∃ (ids : list string) o, c' = set_order (foldl remove c ids) o ∧ ∀ id, id ∈ ids → dead id.

Lemma sub_entries dead c c' id e : sub dead c c' → entries c' !! id = Some e → entries c !! id = Some e.
Proof. intros (ids & o & -> & _). simpl. rewrite foldl_remove_entries. by case_decide. Qed.
Lemma sub_survives dead c c' id : sub dead c c' → ¬ dead id → entries c' !! id = entries c !! id.
Proof.
  intros (ids & o & -> & Hd) Hn. simpl. rewrite foldl_remove_entries.
  rewrite decide_False; [done |]. intros Hi. by apply Hn, Hd.
Qed.
Lemma sub_linked dead c c' : sub dead c c' → linked c → linked c'.
Proof.
  intros (ids & o & -> & _) L. apply (foldl_remove_linked ids) in L. by destruct L.
Qed.
Lemma sub_constants dead c c' :
  sub dead c c' → capacity c' = capacity c ∧ per_principal c' = per_principal c.
Proof.
  intros (ids & o & -> & _). simpl. split; [apply foldl_remove_capacity | apply foldl_remove_per_principal].
Qed.
Lemma sub_queue dead c c' p :
  sub dead c c' → linked c → ∃ ids : list string, (∀ id, id ∈ ids → dead id)
    ∧ queue c' p = filter (fun i => i ∉ ids) (queue c p).
Proof.
  intros (ids & o & -> & Hd) L. exists ids. split; [done |]. by apply foldl_remove_queue.
Qed.
Lemma sub_size dead c c' : sub dead c c' → (size (entries c') <= size (entries c))%nat.
Proof.
  intros S. apply map_subseteq_size, map_subseteq_spec. intros id e. by eapply sub_entries.
Qed.
Lemma sub_queue_length dead c c' p : sub dead c c' → linked c → (length (queue c' p) <= length (queue c p))%nat.
Proof.
  intros S L. destruct (sub_queue dead c c' p S L) as (ids & _ & ->). apply length_filter.
Qed.

Lemma prune_loop_sub now order c :
  sub (fun id => ∃ e, entries c !! id = Some e ∧ expires_at e <= now) c (prune_loop now order c)
  ∧ ∀ id, is_Some (entries (prune_loop now order c) !! id) →
      id ∈ order → id ∈ insertion_order (prune_loop now order c).
Proof.
  revert c. induction order as [|i rest IH]; intros c; simpl.
  { split; [| set_solver]. exists [], []. split; [done | set_solver]. }
  destruct (entries c !! i) as [e|] eqn:E; [case_decide as Hexp |].
  - destruct (IH (remove c i)) as [(ids & o & Heq & Hd) Hord]. split.
    + exists (i :: ids), o. split; [exact Heq |]. intros id [-> | Hid]%elem_of_cons; [eauto |].
      destruct (Hd id Hid) as (e' & He' & ?). rewrite entries_remove in He'.
      apply lookup_delete_Some in He' as [_ He']. eauto.
    + intros id Hs [-> | Hr]%elem_of_cons; [| by apply Hord].
      rewrite Heq in Hs. simpl in Hs. rewrite foldl_remove_entries, entries_remove in Hs.
      rewrite lookup_delete_eq in Hs. case_decide; by apply is_Some_None in Hs.
  - split; [| done]. exists [], (i :: rest). split; [done | set_solver].
  - destruct (IH c) as [Hsub Hord]. split; [done |].
    intros id Hs [-> | Hr]%elem_of_cons; [| by apply Hord].
    destruct Hs as [e He]. apply (sub_entries _ _ _ _ _ Hsub) in He. congruence.
Qed.

Lemma evict_oldest_loop_sub order c :
  sub (fun _ => capacity c <= Z.of_nat (size (entries c))) c (evict_oldest_loop order c)
  ∧ ∀ id, is_Some (entries (evict_oldest_loop order c) !! id) →
      id ∈ order → id ∈ insertion_order (evict_oldest_loop order c).
Proof.
  revert c. induction order as [|i rest IH]; intros c; simpl.
  { case_decide; (split; [| set_solver]); exists [], []; (split; [done | set_solver]). }
  case_decide as Hfull.
  - destruct (IH (remove c i)) as [(ids & o & Heq & _) Hord]. split.
    + exists (i :: ids), o. split; [exact Heq |]. lia.
    + intros id Hs [-> | Hr]%elem_of_cons; [| by apply Hord].
      rewrite Heq in Hs. simpl in Hs. rewrite foldl_remove_entries, entries_remove in Hs.
      rewrite lookup_delete_eq in Hs. case_decide; by apply is_Some_None in Hs.
  - split; [| done]. exists [], (i :: rest). split; [done | set_solver].
Qed.

Lemma evict_oldest_loop_room order c :
  1 <= capacity c → (∀ id, is_Some (entries c !! id) → id ∈ order) →
  Z.of_nat (size (entries (evict_oldest_loop order c))) < capacity c.
Proof.
  revert c. induction order as [|i rest IH]; intros c Hc Ho; simpl.
  - assert (Hemp : entries c = ∅).
    { apply map_empty. intros id. destruct (entries c !! id) eqn:E; [| done].
      assert (Hin : id ∈ []) by (apply Ho; eauto). by apply elem_of_nil in Hin. }
    case_decide; simpl; rewrite Hemp, map_size_empty; lia.
  - case_decide as Hfull; [| simpl; lia].
    rewrite <- (capacity_remove c i). apply IH; [by rewrite capacity_remove |].
    intros id. rewrite entries_remove. intros [Hne Hs]%lookup_delete_is_Some.
    apply Ho, elem_of_cons in Hs as [-> | ?]; done.
Qed.

(** ** The three phases of [check_and_insert] *)

Lemma wf_sub dead c c' : sub dead c c' → wf c → ordered c' → wf c'.
Proof.
  intros S (L & _ & (Hpp & Hc & Hq & Hs)) O. split; [by eapply sub_linked |]. split; [done |].
  destruct (sub_constants _ _ _ S) as [Ec Ep]. unfold bounded. rewrite Ec, Ep.
  pose proof (sub_size _ _ _ S). repeat split; [done | done | | lia].
  intros p. pose proof (sub_queue_length _ _ _ p S L). specialize (Hq p). unfold vec_len in *. lia.
Qed.

Definition expired (c : ReplayCache) (now : Z) (id : string) : Prop :=
  ∃ e, entries c !! id = Some e ∧ expires_at e <= now.

Lemma prune_expired_sub c now : sub (expired c now) c (prune_expired c now).
Proof. apply prune_loop_sub. Qed.
Lemma prune_expired_wf c now : wf c → wf (prune_expired c now).
Proof.
  intros W. eapply wf_sub; [apply prune_expired_sub | done |].
  intros id Hs. apply prune_loop_sub; [done |]. destruct W as (_ & O & _).
  apply O. destruct Hs as [e He]. exists e. eapply sub_entries; [apply prune_loop_sub | done].
Qed.

Definition oldest_when_full (c : ReplayCache) (p id : string) : Prop :=
  vec_len (queue c p) = per_principal c ∧ head (queue c p) = Some id.

Lemma evict_principal_sub c p : wf c → sub (oldest_when_full c p) c (evict_principal p c).
Proof.
  intros (L & O & (Hpp & Hc & Hq & Hs)). rewrite evict_principal_bounded by auto.
  specialize (Hq p). case_decide as Hfull.
  - destruct (queue c p) as [|i q] eqn:Q.
    { exists [], (insertion_order c). split; [by destruct c | set_solver]. }
    exists [i], (insertion_order c). split.
    { simpl. unfold set_order. rewrite <- (order_remove c i). by destruct (remove c i). }
    intros id ->%list_elem_of_singleton. unfold oldest_when_full. rewrite Q. split; [lia | done].
  - exists [], (insertion_order c). split; [by destruct c | set_solver].
Qed.
Lemma evict_principal_wf c p : wf c → wf (evict_principal p c).
Proof.
  intros W. eapply wf_sub; [by apply evict_principal_sub | done |].
  destruct W as (L & O & (Hpp & Hc & Hq & Hs)). rewrite evict_principal_bounded by auto.
  assert (Hrm : ∀ i, ordered (remove c i)).
  { intros i id. rewrite entries_remove, order_remove. intros [_ ?]%lookup_delete_is_Some. by apply O. }
  case_decide; [| done]. destruct (queue c p); auto.
Qed.
Lemma evict_principal_room c p :
  wf c → vec_len (queue (evict_principal p c) p) < per_principal c.
Proof.
  intros (L & O & (Hpp & Hc & Hq & Hs)). rewrite evict_principal_bounded by auto.
  specialize (Hq p). case_decide as Hfull; [| lia].
  destruct (queue c p) as [|i q] eqn:Q; [unfold vec_len in *; rewrite Q; simpl in *; lia |].
  rewrite queue_remove, Q by done.
  pose proof (length_filter_lt (fun j => j ≠ i) (i :: q) i) as Hlt.
  unfold vec_len in *. assert (i ∈ i :: q) by (by left). specialize (Hlt H ltac:(tauto)). lia.
Qed.

Lemma evict_oldest_sub c :
  sub (fun _ => capacity c <= Z.of_nat (size (entries c))) c (evict_oldest c).
Proof. apply evict_oldest_loop_sub. Qed.
Lemma evict_oldest_wf c : wf c → wf (evict_oldest c).
Proof.
  intros W. eapply wf_sub; [apply evict_oldest_sub | done |].
  intros id Hs. apply evict_oldest_loop_sub; [done |]. destruct W as (_ & O & _).
  apply O. destruct Hs as [e He]. exists e. eapply sub_entries; [apply evict_oldest_loop_sub | done].
Qed.

Lemma queue_push c p id exp q :
  queue (push c p id exp) q = if decide (q = p) then (queue c p ++ [id])%list else queue c q.
Proof.
  unfold queue, push. simpl. case_decide as Hq.
  - subst. by rewrite lookup_insert_eq.
  - by rewrite lookup_insert_ne.
Qed.

Lemma push_linked c p id exp : linked c → entries c !! id = None → linked (push c p id exp).
Proof.
  intros L Hn. assert (Hnq : ∀ q, id ∉ queue c q).
  { intros q (e & He & _)%(queued_entry _ L). congruence. }
  split.
  - intros i e. simpl. rewrite queue_push. intros [[-> <-] | [Hne He]]%lookup_insert_Some; simpl.
    + rewrite decide_True by done. set_solver.
    + pose proof (entry_queued _ L _ _ He). case_decide as Hp; [rewrite Hp in *; set_solver | done].
  - intros q i. rewrite queue_push. simpl. case_decide as Hp; [subst q |].
    + intros [Hi | ->%list_elem_of_singleton]%elem_of_app.
      * destruct (queued_entry _ L _ _ Hi) as (e & He & ?). exists e.
        rewrite lookup_insert_ne; [done | congruence].
      * rewrite lookup_insert_eq. eauto.
    + intros Hi. destruct (queued_entry _ L _ _ Hi) as (e & He & ?). exists e.
      rewrite lookup_insert_ne; [done | congruence].
  - intros q. rewrite queue_push. case_decide; [| apply (queue_nodup _ L)].
    apply NoDup_app. split; [apply (queue_nodup _ L) |]. split; [| apply NoDup_singleton].
    intros x Hx ->%list_elem_of_singleton. by eapply Hnq.
  - intros q. simpl. intros [[_ Hq] | [_ Hq]]%lookup_insert_Some.
    + by destruct (default [] (by_principal c !! p)).
    + by apply (queue_nonempty _ L q).
Qed.

Lemma push_wf c p id exp :
  linked c → ordered c → bounded c → entries c !! id = None →
  vec_len (queue c p) < per_principal c → Z.of_nat (size (entries c)) < capacity c →
  wf (push c p id exp).
Proof.
  intros L O (Hpp & Hc & Hq & Hs) Hn Hroom Hcap. split; [by apply push_linked |]. split.
  - intros i. simpl. rewrite lookup_insert_is_Some. intros Hi. apply elem_of_app.
    destruct Hi as [-> | [_ Hi]]; [right; by left | left; by apply O].
  - unfold bounded. simpl. rewrite map_size_insert_None by done. repeat split; [done | done | | lia].
    intros q. rewrite queue_push. case_decide; [| apply Hq].
    unfold vec_len in *. rewrite length_app. simpl. lia.
Qed.

Lemma check_and_insert_wf c p id now exp : wf c → wf (check_and_insert c p id now exp).1.
Proof.
  intros W. unfold check_and_insert. pose proof (prune_expired_wf c now W) as W1.
  destruct (entries (prune_expired c now) !! id) eqn:E; [done |]. simpl.
  pose proof (evict_principal_wf _ p W1) as W2.
  pose proof (evict_oldest_wf _ W2) as W3.
  pose proof (sub_constants _ _ _ (evict_oldest_sub (evict_principal p (prune_expired c now)))) as [Ec Ep].
  pose proof (sub_constants _ _ _ (evict_principal_sub _ p W1)) as [_ Ep2].
  destruct W3 as (L3 & O3 & B3). apply push_wf; [done | done | done | | |].
  - destruct (entries (evict_oldest _) !! id) as [e|] eqn:E3; [| done].
    apply (sub_entries _ _ _ _ _ (evict_oldest_sub _)) in E3.
    apply (sub_entries _ _ _ _ _ (evict_principal_sub _ p W1)) in E3. congruence.
  - rewrite Ep, Ep2. pose proof (evict_principal_room _ p W1).
    pose proof (sub_queue_length _ _ _ p (evict_oldest_sub (evict_principal p (prune_expired c now)))
      (proj1 W2)). unfold vec_len in *. lia.
  - rewrite Ec. destruct W2 as (_ & O2 & (_ & Hc2 & _)). by apply evict_oldest_loop_room.
Qed.

(** ** Live entries survive *)

(** [id] is in the queue of [p] with at most [n] ids behind it. *)
Definition behind (c : ReplayCache) (p id : string) (n : nat) : Prop :=
  ∃ pre post, queue c p = (pre ++ id :: post)%list ∧ (length post <= n)%nat.

Lemma sub_behind dead c c' p id n :
  sub dead c c' → linked c → ¬ dead id → behind c p id n → behind c' p id n.
Proof.
  intros S L Hn (pre & post & Hq & Hl).
  destruct (sub_queue dead c c' p S L) as (ids & Hd & Hq'). rewrite Hq in Hq'.
  rewrite filter_app, filter_cons_True in Hq' by (intros ?; by apply Hn, Hd).
  eexists _, _. split; [exact Hq' |]. pose proof (length_filter (fun i => i ∉ ids) post). lia.
Qed.

Lemma not_oldest c p q id e n :
  wf c → entries c !! id = Some e → principal e = p → behind c p id n →
  (q = p → Z.of_nat (S n) < per_principal c) → ¬ oldest_when_full c q id.
Proof.
  intros (L & _) He Hp (pre & post & Hq & Hl) Hn [Hfull Hh].
  assert (Hin : id ∈ queue c q) by (destruct (queue c q); simpl in Hh; [done | simplify_eq; by left]).
  destruct (queued_entry _ L _ _ Hin) as (e' & He' & Hp'). simplify_eq.
  rewrite Hq in Hfull, Hh. destruct pre as [|i pre]; simpl in Hh.
  - specialize (Hn eq_refl). unfold vec_len in Hfull. simpl in Hfull. lia.
  - simplify_eq. pose proof (queue_nodup _ L (principal e)) as ND. rewrite Hq in ND.
    simpl in ND. apply NoDup_cons in ND as [ND _]. set_solver.
Qed.

Lemma behind_push c p q id id' exp n :
  behind c p id n → behind (push c q id' exp) p id (n + if decide (q = p) then 1 else 0).
Proof.
  intros (pre & post & Hq & Hl). unfold behind. rewrite queue_push.
  destruct (decide (q = p)) as [-> | Hne].
  - rewrite decide_True, Hq, <- app_assoc by done. eexists _, _. split; [reflexivity |].
    rewrite length_app. simpl. lia.
  - rewrite decide_False by done. exists pre, post. split; [done | lia].
Qed.

Lemma check_and_insert_survives c p id e n q id' now exp :
  wf c → entries c !! id = Some e → principal e = p → behind c p id n →
  now < expires_at e → (q = p → Z.of_nat (S n) < per_principal c) →
  Z.of_nat (size (entries c)) < capacity c →
  let c' := (check_and_insert c q id' now exp).1 in
  entries c' !! id = Some e
  ∧ behind c' p id (n + if decide (q = p) then 1 else 0)
  ∧ (size (entries c') <= S (size (entries c)))%nat
  ∧ capacity c' = capacity c ∧ per_principal c' = per_principal c.
Proof.
  intros W He Hp Hb Hnow Hn Hsz. unfold check_and_insert.
  pose proof (prune_expired_wf c now W) as W1. set (c1 := prune_expired c now) in *.
  assert (S1 : sub (expired c now) c c1) by apply prune_expired_sub.
  assert (D1 : ¬ expired c now id) by (intros (e' & He' & ?); simplify_eq; lia).
  pose proof (sub_survives _ _ _ _ S1 D1) as E1. rewrite He in E1.
  pose proof (sub_behind _ _ _ _ _ _ S1 (proj1 W) D1 Hb) as B1.
  pose proof (sub_size _ _ _ S1). destruct (sub_constants _ _ _ S1) as [C1 P1].
  destruct (entries c1 !! id') as [e'|] eqn:E'; simpl.
  { split; [done |]. split; [| lia]. destruct B1 as (pre & post & ? & ?). exists pre, post.
    split; [done | lia]. }
  pose proof (evict_principal_wf c1 q W1) as W2. set (c2 := evict_principal q c1) in *.
  assert (S2 : sub (oldest_when_full c1 q) c1 c2) by (by apply evict_principal_sub).
  assert (D2 : ¬ oldest_when_full c1 q id) by (eapply not_oldest; eauto; by rewrite P1).
  pose proof (sub_survives _ _ _ _ S2 D2) as E2. rewrite E1 in E2.
  pose proof (sub_behind _ _ _ _ _ _ S2 (proj1 W1) D2 B1) as B2.
  pose proof (sub_size _ _ _ S2). destruct (sub_constants _ _ _ S2) as [C2 P2].
  assert (S3 := evict_oldest_sub c2). set (c3 := evict_oldest c2) in *.
  assert (D3 : ¬ capacity c2 <= Z.of_nat (size (entries c2))) by lia.
  pose proof (sub_survives _ _ _ id S3 D3) as E3. rewrite E2 in E3.
  pose proof (sub_behind _ _ _ _ _ _ S3 (proj1 W2) D3 B2) as B3.
  pose proof (sub_size _ _ _ S3). destruct (sub_constants _ _ _ S3) as [C3 P3].
  assert (id' ≠ id) by congruence.
  assert (E3' : entries c3 !! id' = None).
  { destruct (entries c3 !! id') eqn:X; [| done]. apply (sub_entries _ _ _ _ _ S3) in X.
    apply (sub_entries _ _ _ _ _ S2) in X. congruence. }
  split; [by rewrite lookup_insert_ne |]. split; [by apply behind_push |].
  split; [rewrite map_size_insert_None by done; lia |]. split; congruence.
Qed.

(** ** Sequences of requests *)

Record request := mkReq {
  rq_principal : string;
  rq_id : string;
  rq_now : Z;
  rq_expires : Z
}.
Definition serve (c : ReplayCache) (r : request) : ReplayCache :=
  (check_and_insert c (rq_principal r) (rq_id r) (rq_now r) (rq_expires r)).1.
Definition serve_all (c : ReplayCache) (rs : list request) : ReplayCache := foldl serve c rs.
Definition from_principal (p : string) (rs : list request) : nat :=
  length (filter (fun r => rq_principal r = p) rs).

Lemma serve_all_wf c rs : wf c → wf (serve_all c rs).
Proof.
  revert c. induction rs as [|r rs IH]; intros c W; [done |]. apply IH, check_and_insert_wf, W.
Qed.

Lemma serve_all_survives rs c p id e n :
  wf c → entries c !! id = Some e → principal e = p → behind c p id n →
  Forall (fun r => rq_now r < expires_at e) rs →
  Z.of_nat (n + from_principal p rs) < per_principal c →
  Z.of_nat (size (entries c)) + vec_len rs <= capacity c →
  entries (serve_all c rs) !! id = Some e.
Proof.
  revert c n. induction rs as [|r rs IH]; intros c n W He Hp Hb Hnow Hn Hsz; [done |].
  inversion Hnow as [|? ? Hr Hrs]; subst. unfold from_principal in Hn. unfold vec_len in *.
  rewrite filter_cons in Hn. simpl in Hsz.
  assert (Hlt : rq_principal r = principal e → Z.of_nat (S n) < per_principal c).
  { intros Hr'. rewrite decide_True in Hn by done. simpl in Hn. lia. }
  destruct (check_and_insert_survives c _ id e n (rq_principal r) (rq_id r) (rq_now r)
    (rq_expires r) W He eq_refl Hb Hr Hlt ltac:(lia)) as (He' & Hb' & Hs' & Hc' & Hp').
  change (serve_all c (r :: rs)) with (serve_all (serve c r) rs).
  eapply IH; [by apply check_and_insert_wf | exact He' | done | exact Hb' | done | |].
  - unfold serve, from_principal in *. rewrite Hp'. repeat case_decide; simpl in Hn; lia.
  - unfold serve. rewrite Hc'. lia.
Qed.

Lemma accepted_entry c p id now exp c1 :
  wf c → check_and_insert c p id now exp = (c1, true) →
  entries c1 !! id = Some (mkEntry p exp) ∧ behind c1 p id 0
  ∧ capacity c1 = capacity c ∧ per_principal c1 = per_principal c.
Proof.
  intros W. unfold check_and_insert. pose proof (prune_expired_wf c now W) as W1.
  destruct (entries _ !! id); [done |]. intros [= <-].
  pose proof (sub_constants _ _ _ (prune_expired_sub c now)) as [C1 P1].
  pose proof (sub_constants _ _ _ (evict_principal_sub _ p W1)) as [C2 P2].
  pose proof (sub_constants _ _ _ (evict_oldest_sub (evict_principal p (prune_expired c now)))) as [C3 P3].
  split; [apply lookup_insert_eq |]. split; [| simpl; split; congruence].
  eexists _, []. rewrite queue_push, decide_True by done. done.
Qed.

Lemma check_rejects c q id e t exp :
  wf c → entries c !! id = Some e → t < expires_at e → (check_and_insert c q id t exp).2 = false.
Proof.
  intros W He Ht. unfold check_and_insert.
  rewrite (sub_survives _ _ _ _ (prune_expired_sub c t)); [by rewrite He |].
  intros (e' & He' & ?). simplify_eq. lia.
Qed.

Lemma serve_all_constants c rs :
  wf c → capacity (serve_all c rs) = capacity c ∧ per_principal (serve_all c rs) = per_principal c.
Proof.
  revert c. induction rs as [|r rs IH]; intros c W; [done |].
  change (serve_all c (r :: rs)) with (serve_all (serve c r) rs).
  destruct (IH (serve c r)) as [-> ->]; [by apply check_and_insert_wf |].
  unfold serve. destruct (check_and_insert c _ _ _ _) as [c1 []] eqn:E; simpl.
  - by eapply accepted_entry.
  - unfold check_and_insert in E. destruct (entries _ !! _); [| done].
    injection E as <-. apply (sub_constants _ _ _ (prune_expired_sub c (rq_now r))).
Qed.

Lemma new_wf cap per : 1 <= cap → 1 <= per → wf (new cap per).
Proof.
  intros Hc Hp. split; [split |].
  - intros id e. simpl. by rewrite lookup_empty.
  - intros p id. unfold queue. simpl. rewrite lookup_empty. by intros ?%not_elem_of_nil.
  - intros p. unfold queue. simpl. rewrite lookup_empty. constructor.
  - intros p. simpl. by rewrite lookup_empty.
  - split.
    + intros id [e He]. simpl in He. by rewrite lookup_empty in He.
    + unfold bounded, queue. simpl. rewrite map_size_empty. repeat split; [done | done | | lia].
      intros p. rewrite lookup_empty. unfold vec_len. simpl. lia.
Qed.

(** Once the cache has accepted an event, it refuses the same id (from anyone)
    at every time before the expiry it was recorded with, whatever other
    requests come in between, as long as fewer than [per_principal] of them are
    by the same principal and the cache as a whole does not fill up. *)
Lemma serve_rejects_replay c p id t exp c1 rs q t' exp' :
  wf c → check_and_insert c p id t exp = (c1, true) →
  Forall (fun r => rq_now r < exp) rs →
  Z.of_nat (from_principal p rs) < per_principal c →
  Z.of_nat (size (entries c1)) + vec_len rs <= capacity c →
  t' < exp →
  (check_and_insert (serve_all c1 rs) q id t' exp').2 = false.
Proof.
  intros W Hacc Hnow Hper Hcap Ht.
  destruct (accepted_entry c p id t exp c1 W Hacc) as (He & Hb & Hc & Hp).
  assert (W1 : wf c1).
  { replace c1 with (check_and_insert c p id t exp).1 by (by rewrite Hacc).
    by apply check_and_insert_wf. }
  eapply (check_rejects _ _ _ (mkEntry p exp)); [by apply serve_all_wf | | exact Ht].
  eapply serve_all_survives; [done | exact He | done | exact Hb | done | |]; simpl; lia.
Qed.

(** C20: after any sequence of requests the cache holds at most [cap] entries
    and at most [per] per principal, its queues hold exactly the live entries,
    and an id it does not hold is accepted: filling the cache locks nobody
    out. *)
Theorem cache_bounded_and_open cap per rs :
  1 <= cap → 1 <= per →
  let c := serve_all (new cap per) rs in
  Z.of_nat (size (entries c)) <= cap
  ∧ (∀ p, vec_len (queue c p) <= per)
  ∧ (∀ p id, id ∈ queue c p ↔ ∃ e, entries c !! id = Some e ∧ principal e = p)
  ∧ (∀ p id now exp, entries c !! id = None → (check_and_insert c p id now exp).2 = true).
Proof.
  intros Hc Hp c. pose proof (serve_all_wf _ rs (new_wf cap per Hc Hp)) as W. fold c in W.
  destruct (serve_all_constants _ rs (new_wf cap per Hc Hp)) as [Hcc Hcp]. fold c in Hcc, Hcp.
  simpl in Hcc, Hcp.
  destruct W as (L & O & (_ & _ & Hq & Hs)).
  split; [lia |]. split; [intros p; rewrite <- Hcp; apply Hq |]. split.
  - intros p id. split; [apply (queued_entry _ L) |]. intros (e & He & <-).
    by apply (entry_queued _ L).
  - intros p id now exp Hn. unfold check_and_insert.
    destruct (entries (prune_expired c now) !! id) eqn:E; [| done].
    apply (sub_entries _ _ _ _ _ (prune_expired_sub c now)) in E. congruence.
Qed.

Lemma cache_bounded_and_open_witness :
  let c := serve_all (new 3 2) [mkReq "a" "1" 0 120; mkReq "a" "2" 0 120; mkReq "a" "3" 1 121] in
  Z.of_nat (size (entries c)) <= 3 ∧ (check_and_insert c "b" "4" 1 121).2 = true.
Proof.
  pose proof (cache_bounded_and_open 3 2
    [mkReq "a" "1" 0 120; mkReq "a" "2" 0 120; mkReq "a" "3" 1 121] ltac:(lia) ltac:(lia)) as H.
  cbv zeta in *. destruct H as (H1 & _ & _ & H4). split; [exact H1 |].
  apply H4. vm_compute. reflexivity.
Defined.

(** The global queue is not bounded by the capacity: ids evicted from the
    entries by the per-principal bound stay in it behind a live id. *)
Example insertion_order_exceeds_capacity :
  let c := serve_all (new 3 1)
    (mkReq "x" "0" 0 120 :: map (fun n => mkReq "a" (u64_to_string (Z.of_nat n)) 0 120) (seq 1 20)) in
  length (insertion_order c) = 21%nat ∧ size (entries c) = 2%nat.
Proof. vm_compute. split; reflexivity. Qed.
End ReplayCache.
