(* ===== verification/RequestAuth.v ===== *)
(** * Request authorization ([extract_auth_event] to [verify_auth_event] of
    [src/src/server/mod.rs])

    The [Authorization] header of a request is decoded to an event, the event
    is verified against the request, and its id is marked as used. *)

From Stdlib Require Import ZArith Lia Ascii String.
From Stdlib Require Import Strings.Byte.
From stdpp Require Import base list gmap strings numbers.
From S2P Require Import Prelude Protocol Auth Replay.

Open Scope string_scope.
Open Scope Z_scope.

(** [HeaderMap]: for each header present, its first value when [to_str]
    accepts it. *)
Definition HeaderMap := gmap string (option string).

Definition header_str (h : HeaderMap) (name : string) : option string :=
  match (h : gmap string (option string)) !! name with Some v => v | None => None end.
Definition contains_header (h : HeaderMap) (name : string) : bool :=
  bool_decide (is_Some ((h : gmap string (option string)) !! name)).

Section request_auth.
Context `{Crates}.

(** [extract_auth_event]. *)
Definition extract_auth_event (headers : HeaderMap) : result NostrEvent AuthError :=
  let? header := ok_or (header_str headers "authorization") InvalidSignature in
  match strip_prefix "Nostr " header with
  | None => Err InvalidSignature
  | Some b64 =>
      match base64url_decode b64 with
      | Err _ => Err InvalidSignature
      | Ok json_bytes => ok_or (event_from_json json_bytes) InvalidSignature
      end
  end.

(** [verify_auth_event_claims]. *)
Definition verify_auth_event_claims (now : Z) (e : NostrEvent)
    (expected_action base_url path method : string) (expected_hash : option string)
    : result unit AuthError :=
  let server := trim_end_matches "/" base_url in
  let request_url := server +:+ path in
  if decide (ev_kind e = 24242) then
    verify_blossom_auth_bound now e expected_action server request_url method expected_hash
  else if decide (ev_kind e = 27235) then
    verify_nip98_auth_with_payload now e (Some request_url) (Some method)
      (if decide (method ∈ ["POST"; "PUT"; "PATCH"]) then expected_hash else None)
  else Err (WrongKind (ev_kind e)).

(** [mark_auth_event_once], on the process-wide cache. *)
Definition mark_auth_event_once (seen : ReplayCache) (now : Z) (e : NostrEvent)
    : ReplayCache * result unit AuthError :=
  let '(seen', ok) :=
    ReplayCache.check_and_insert seen (ev_pubkey e) (ev_id e) now (sat_add now 120) in
  (seen', if ok then Ok tt else Err Replay).

(** [verify_auth_event]: [now] is the clock reading of the verification and
    [now_mark] that of the marking. *)
Definition verify_auth_event (seen : ReplayCache) (now now_mark : Z) (e : NostrEvent)
    (expected_action base_url path method : string) (expected_hash : option string)
    : ReplayCache * result unit AuthError :=
  match verify_auth_event_claims now e expected_action base_url path method expected_hash with
  | Err er => (seen, Err er)
  | Ok _ => mark_auth_event_once seen now_mark e
  end.

(** The cache a process starts with. *)
Definition SEEN_AUTH_EVENTS : ReplayCache :=
  ReplayCache.new REPLAY_CACHE_CAPACITY REPLAY_CACHE_PER_PRINCIPAL.

(** ** Facts *)

Lemma verify_claims_fresh now e a base path m h :
  verify_auth_event_claims now e a base path m h = Ok tt → fresh_at now e.
Proof.
  unfold verify_auth_event_claims. repeat case_decide; try done.
  - intros [Hv _]%verify_bound_ok. apply verify_blossom_auth_ok in Hv. tauto.
  - intros Hv%verify_nip98_ok. tauto.
  - intros Hv%verify_nip98_ok. tauto.
Qed.

Lemma verify_claims_authentic now e a base path m h :
  verify_auth_event_claims now e a base path m h = Ok tt → authentic e.
Proof.
  unfold verify_auth_event_claims. repeat case_decide; try done.
  - intros [Hv _]%verify_bound_ok. apply verify_blossom_auth_ok in Hv. tauto.
  - intros Hv%verify_nip98_ok. tauto.
  - intros Hv%verify_nip98_ok. tauto.
Qed.

(** The tags a verified event carries. *)
Lemma verify_claims_tags now e a base path m h :
  verify_auth_event_claims now e a base path m h = Ok tt →
  unique_tag e "u" (trim_end_matches "/" base +:+ path)
  ∧ (∃ v, unique_tag e "method" v ∧ to_ascii_lowercase v = to_ascii_lowercase m)
  ∧ (∀ x, h = Some x → ev_kind e = 24242 ∧ unique_tag e "x" x
       ∨ ev_kind e = 27235 ∧ (m ∈ ["POST"; "PUT"; "PATCH"] → unique_tag e "payload" x)).
Proof.
  unfold verify_auth_event_claims. case_decide as K1.
  - intros (Hv & Hs & Hu & Hm & Hx)%verify_bound_ok. split; [done |]. split; [| auto].
    eexists. split; [exact Hm |]. apply lowercase_uppercase.
  - case_decide as K2; [| done]. intros (_ & _ & Hu & (v & Hm & Hv) & Hp & _)%verify_nip98_ok.
    split; [done |]. split.
    + exists v. split; [done |]. by apply bool_decide_eq_true in Hv.
    + intros x ->. right. split; [done |]. intros Hin. apply Hp. by rewrite decide_True.
Qed.

Lemma unique_tag_fun e n v w : unique_tag e n v → unique_tag e n w → v = w.
Proof. unfold unique_tag. congruence. Qed.

Lemma serve_wf seen now e : ReplayCache.wf seen → ReplayCache.wf (mark_auth_event_once seen now e).1.
Proof.
  intros W. unfold mark_auth_event_once.
  pose proof (ReplayCache.check_and_insert_wf seen (ev_pubkey e) (ev_id e) now (sat_add now 120) W).
  by destruct (ReplayCache.check_and_insert _ _ _ _ _).
Qed.
End request_auth.

(** ** Theorems *)

Section theorems.
Context `{CratesLaws}.

Lemma extract_header h e :
  header_str h "authorization" = Some (auth_header_value e) → extract_auth_event h = Ok e.
Proof.
  intros Hh. unfold extract_auth_event. rewrite Hh. cbn [ok_or]. unfold auth_header_value.
  by rewrite strip_prefix_app, base64url_decode_encode, event_json_roundtrip.
Qed.

(** The header a client builds for an event is decoded by the server to
    that very event, and its base64url text is free of [+], [/] and [=]. *)
Theorem auth_header_roundtrip (e : NostrEvent) (h : HeaderMap) :
  extract_auth_event (<["authorization" := Some (auth_header_value e)]> (h : gmap string (option string)))
  = Ok e
  ∧ ∃ b64, auth_header_value e = "Nostr " +:+ b64 ∧ str_all url_safe b64 = true.
Proof.
  split.
  - apply extract_header. unfold header_str. by rewrite lookup_insert_eq.
  - eexists. split; [reflexivity | apply base64url_safe].
Qed.

(** C18: what an accepted event proves.  [verify_blossom_auth_bound] accepts
    exactly the kind:24242 events that are fresh, carry one expiration tag in
    the window, one tag for the action, one [server], [u] and [method] tag with
    the values of the request (and one [x] tag with the hash, when one is
    required), and whose id and signature are right. *)
Theorem blossom_auth_exact now e action server url m h :
  verify_blossom_auth_bound now e action server url m h = Ok tt ↔
  ev_kind e = 24242 ∧ fresh_at now e ∧ expiration_ok now e ∧ has_action e action ∧ authentic e
  ∧ unique_tag e "server" server ∧ unique_tag e "u" url
  ∧ unique_tag e "method" (to_ascii_uppercase m) ∧ (∀ x, h = Some x → unique_tag e "x" x).
Proof. rewrite verify_bound_ok, verify_blossom_auth_ok. tauto. Qed.

(** An event authorizes one request only.  If it is accepted for two
    requests, they have the same URL and the same method (up to ASCII case),
    and the same content hash where the event has to bind one: always for
    kind:24242, and for the methods with a body for NIP-98. *)
Theorem event_binds_request now1 now2 e a1 a2 base1 base2 path1 path2 m1 m2 h1 h2 :
  verify_auth_event_claims now1 e a1 base1 path1 m1 h1 = Ok tt →
  verify_auth_event_claims now2 e a2 base2 path2 m2 h2 = Ok tt →
  trim_end_matches "/" base1 +:+ path1 = trim_end_matches "/" base2 +:+ path2
  ∧ to_ascii_lowercase m1 = to_ascii_lowercase m2
  ∧ (∀ x1 x2, h1 = Some x1 → h2 = Some x2 →
      (ev_kind e = 24242 ∨ m1 ∈ ["POST"; "PUT"; "PATCH"] ∧ m2 ∈ ["POST"; "PUT"; "PATCH"]) → x1 = x2).
Proof.
  intros (Hu1 & (v1 & Hm1 & Hv1) & Hx1)%verify_claims_tags
         (Hu2 & (v2 & Hm2 & Hv2) & Hx2)%verify_claims_tags.
  split; [by eapply unique_tag_fun |]. split.
  - rewrite <- Hv1, <- Hv2. f_equal. by eapply unique_tag_fun.
  - intros x1 x2 E1 E2 Hk. specialize (Hx1 x1 E1). specialize (Hx2 x2 E2).
    destruct Hx1 as [[K1 T1] | [K1 T1]], Hx2 as [[K2 T2] | [K2 T2]]; try congruence.
    destruct Hk as [? | [I1 I2]]; [congruence |].
    eapply unique_tag_fun; [exact (T1 I1) | exact (T2 I2)].
Qed.

(** C19: an event is accepted once.  After [verify_auth_event] has accepted an
    event, every later call with that event is refused, whatever request it is
    presented for and whatever requests came in between, as long as the cache
    does not overflow: either it is no longer fresh, or its id is still in the
    cache.  The two clock readings of a call are assumed less than 30 seconds
    apart and in order. *)
Theorem auth_event_accepted_once seen now1 mark1 e a1 base1 path1 m1 h1 seen1 rs
    now2 mark2 a2 base2 path2 m2 h2 :
  ReplayCache.wf seen →
  verify_auth_event seen now1 mark1 e a1 base1 path1 m1 h1 = (seen1, Ok tt) →
  now1 <= mark1 → 0 <= ev_created_at e → mark1 + 120 <= u64_max →
  now2 <= mark2 < now2 + 30 →
  Forall (fun r => ReplayCache.rq_now r <= mark2) rs →
  Z.of_nat (ReplayCache.from_principal (ev_pubkey e) rs) < per_principal seen →
  Z.of_nat (size (entries seen1)) + vec_len rs <= capacity seen →
  (verify_auth_event (ReplayCache.serve_all seen1 rs) now2 mark2 e a2 base2 path2 m2 h2).2 ≠ Ok tt.
Proof.
  intros W Hacc Hord Hc Hmax Hmark Hrs Hper Hcap Hagain. unfold verify_auth_event in *.
  destruct (verify_auth_event_claims now1 e a1 base1 path1 m1 h1) as [[]|] eqn:V1; [| done].
  destruct (verify_auth_event_claims now2 e a2 base2 path2 m2 h2) as [[]|] eqn:V2; [| done].
  apply verify_claims_fresh in V1 as [V1 _]. apply verify_claims_fresh in V2 as [_ V2].
  unfold sat_add in V1. unfold sat_sub in V2. unfold mark_auth_event_once in *.
  destruct (ReplayCache.check_and_insert seen _ _ mark1 _) as [seen1' ok1] eqn:E1.
  destruct ok1; [| done]. injection Hacc as ->.
  assert (Hexp : mark2 < sat_add mark1 120) by (unfold sat_add; lia).
  pose proof (ReplayCache.serve_rejects_replay _ _ _ _ _ _ rs (ev_pubkey e) mark2 (sat_add mark2 120)
    W E1) as Hrej.
  destruct (ReplayCache.check_and_insert (ReplayCache.serve_all seen1 rs) _ _ _ _) as [s2 ok2].
  simpl in *. rewrite Hrej in Hagain; [done | | done | done | done].
  eapply Forall_impl; [| exact Hrs]. simpl. lia.
Qed.

(** A client is understood by the server.  The event a client builds for
    a request, sent in the header it builds, is decoded by the server and
    verified for that request for as long as its expiration says, 60 seconds,
    with any extra tags that do not reuse the names of the bound ones. *)
Theorem client_request_verifies `{BlossomSigner} `{!SignerLaws} h created now nonce action hash
    base path m content extra :
  header_str h "authorization" = Some (auth_header_value
    (build_blossom_auth_for_request_with_extra_tags created nonce action hash base
       (trim_end_matches "/" base +:+ path) m content extra)) →
  in_u64 created → created + 60 <= u64_max → created <= now <= created + 60 →
  extra_ok action extra = true →
  ∃ e, extract_auth_event h = Ok e ∧ verify_auth_event_claims now e action base path m hash = Ok tt.
Proof.
  intros Hh Hc Hmax Hn Hx. eexists. split; [by apply extract_header |].
  unfold verify_auth_event_claims. rewrite decide_True by done. by apply build_request_verifies.
Qed.
End theorems.

(** ** Witnesses: a concrete signer and a concrete request *)
Module RequestAuthExamples.
Import Concrete.
Definition key : list byte := replicate 32 x01.

#[export] Instance signer : BlossomSigner := {|
  public_key_hex := hex_encode key;
  sign_schnorr m := hex_encode (key ++ m)%list
|}.

#[export] Instance signer_laws : SignerLaws.
Proof.
  split. intros m Hm. unfold Signer_verify, public_key_hex, sign_schnorr, signer.
  rewrite !hex_decode_encode. rewrite decide_True by done.
  rewrite decide_True by (rewrite length_app, Hm; done).
  cbn [schnorr_verify crates]. by apply bool_decide_eq_true_2.
Qed.

Definition event : NostrEvent :=
  build_blossom_auth_for_request 1000 "n" "upload" (Some "aa") "http://s/" "http://s/upload" "PUT" "".

Lemma event_verifies : verify_auth_event_claims 1060 event "upload" "http://s/" "/upload" "PUT" (Some "aa") = Ok tt.
Proof. vm_compute. reflexivity. Qed.

Definition first_use : ReplayCache * result unit AuthError :=
  verify_auth_event SEEN_AUTH_EVENTS 1000 1001 event "upload" "http://s/" "/upload" "PUT" (Some "aa").

Lemma first_use_ok :
  verify_auth_event SEEN_AUTH_EVENTS 1000 1001 event "upload" "http://s/" "/upload" "PUT" (Some "aa")
  = (first_use.1, Ok tt).
Proof.
  assert (E : first_use.2 = Ok tt) by (vm_compute; reflexivity).
  rewrite <- E. unfold first_use. apply surjective_pairing.
Qed.

Lemma auth_event_accepted_once_witness :
  (verify_auth_event (ReplayCache.serve_all first_use.1 []) 1050 1051 event "upload" "http://s/" "/upload" "PUT" (Some "aa")).2 ≠ Ok tt.
Proof.
  assert (W : ReplayCache.wf SEEN_AUTH_EVENTS) by (apply ReplayCache.new_wf; done).
  assert (Hcap : Z.of_nat (size (entries first_use.1)) + 0 <= capacity SEEN_AUTH_EVENTS)
    by (vm_compute; discriminate).
  assert (Hc : 0 <= ev_created_at event) by (vm_compute; discriminate).
  assert (Hper : Z.of_nat (ReplayCache.from_principal (ev_pubkey event) []) < per_principal SEEN_AUTH_EVENTS)
    by reflexivity.
  exact (auth_event_accepted_once SEEN_AUTH_EVENTS 1000 1001 event "upload" "http://s/" "/upload" "PUT"
    (Some "aa") first_use.1 [] 1050 1051 "upload" "http://s/" "/upload" "PUT" (Some "aa") W first_use_ok
    ltac:(lia) Hc ltac:(done) ltac:(lia) (List.Forall_nil _) Hper Hcap).
Defined.
End RequestAuthExamples.
