(* ===== verification/RateLimit.v ===== *)
(** * The token-bucket rate limiter ([src/src/ratelimit.rs])

    One bucket per key.  [check] holds the bucket's map entry exclusively from
    the refill to the consumption, so a call is one step; the
    [compare_exchange_weak] loop succeeds on the value it has just read.  The
    refill is computed in [f64], here with the IEEE 754 operations of
    [SpecFloat]. *)

From Stdlib Require Import ZArith Lia Ascii String.
From Stdlib Require Import Floats.SpecFloat.
From stdpp Require Import base list gmap strings numbers.
From S2P Require Import Prelude.

Open Scope string_scope.
Open Scope Z_scope.

(** ** [f64] *)

Definition f64 := spec_float.
(** [n as f64] for an unsigned integer. *)
Definition u64_as_f64 (n : Z) : f64 := binary_normalize 53 1024 n 0 false.
Definition f64_div : f64 → f64 → f64 := SFdiv 53 1024.
Definition f64_mul : f64 → f64 → f64 := SFmul 53 1024.
(** [x as u64]: truncation, saturating, and 0 for a NaN. *)
Definition f64_as_u64 (x : f64) : Z :=
  match x with
  | S754_finite false m e => Z.min (Z.shiftl (Zpos m) e) u64_max
  | S754_infinity false => u64_max
  | _ => 0
  end.

(** ** State *)

(** [RateLimitConfig]. *)
Record RateLimitConfig := mkConfig {
  max_tokens : Z;
  refill_rate : f64
}.

(** [RateLimitConfig::default]. *)
Definition default_config : RateLimitConfig := mkConfig 60 (u64_as_f64 1).

(** [Bucket]. *)
Record Bucket := mkBucket {
  tokens : Z;
  last_refill : Z
}.

(** [RateLimiter]. *)
Record RateLimiter := mkLimiter {
  buckets : gmap string Bucket;
  config : RateLimitConfig
}.

Definition MAX_TRACKED_KEYS : Z := 10000.

Module RateLimiter.

(** [RateLimiter::new]. *)
Definition new (config : RateLimitConfig) : RateLimiter := mkLimiter ∅ config.

(** [RateLimiter::tracked_keys]. *)
Definition tracked_keys (l : RateLimiter) : Z := Z.of_nat (size (buckets l)).

(** [RateLimiter::remaining]. *)
Definition remaining (l : RateLimiter) (key : string) : Z :=
  match buckets l !! key with
  | Some b => tokens b
  | None => max_tokens (config l)
  end.

(** [RateLimiter::cleanup] at the clock reading [now_ms]. *)
Definition cleanup (l : RateLimiter) (now_ms max_age_ms : Z) : RateLimiter :=
  let threshold := sat_sub now_ms max_age_ms in
  mkLimiter (filter (fun kb => last_refill kb.2 > threshold) (buckets l)) (config l).

(** The [f64] expression of the refill. *)
Definition new_tokens (rate : f64) (elapsed_ms : Z) : Z :=
  f64_as_u64 (f64_mul (f64_div (u64_as_f64 elapsed_ms) (u64_as_f64 1000)) rate).

(** The refill of a bucket. *)
Definition refill (cfg : RateLimitConfig) (b : Bucket) (now_ms : Z) : Bucket :=
  let elapsed_ms := sat_sub now_ms (last_refill b) in
  if decide (elapsed_ms > 0) then
    let new := new_tokens (refill_rate cfg) elapsed_ms in
    if decide (new > 0) then
      mkBucket (Z.min (sat_add (tokens b) new) (max_tokens cfg)) now_ms
    else b
  else b.

(** The part of [check] that works on the entry of [key]. *)
Definition consume (l : RateLimiter) (key : string) (now_ms : Z) : RateLimiter * bool :=
  let entry := default (mkBucket (max_tokens (config l)) now_ms) (buckets l !! key) in
  let b := refill (config l) entry now_ms in
  if decide (tokens b = 0) then (mkLimiter (<[key := b]> (buckets l)) (config l), false)
  else (mkLimiter (<[key := mkBucket (tokens b - 1) (last_refill b)]> (buckets l)) (config l), true).

(** [RateLimiter::check]; [now_ms] is the reading of the clock by the call
    and, when it cleans up, [now_cleanup] that of [cleanup]. *)
Definition check (l : RateLimiter) (key : string) (now_ms now_cleanup : Z) : RateLimiter * bool :=
  if negb (bool_decide (is_Some (buckets l !! key)))
     && bool_decide (tracked_keys l >= MAX_TRACKED_KEYS) then
    let l := cleanup l now_cleanup (10 * 60 * 1000) in
    if decide (tracked_keys l >= MAX_TRACKED_KEYS) then (l, false)
    else consume l key now_ms
  else consume l key now_ms.

Arguments new_tokens : simpl never.
Arguments refill : simpl never.
Arguments consume : simpl never.
Arguments cleanup : simpl never.

(** ** Sequences of requests *)

Record request := mkRequest { rq_key : string; rq_ms : Z; rq_cleanup_ms : Z }.

Definition serve (l : RateLimiter) (r : request) : RateLimiter :=
  (check l (rq_key r) (rq_ms r) (rq_cleanup_ms r)).1.
Definition serve_all (l : RateLimiter) (rs : list request) : RateLimiter := foldl serve l rs.

(** How many requests of [key] are let through. *)
Fixpoint allowed (key : string) (l : RateLimiter) (rs : list request) : Z :=
  match rs with
  | [] => 0
  | r :: rs =>
      (if decide (rq_key r = key) then
         if (check l (rq_key r) (rq_ms r) (rq_cleanup_ms r)).2 then 1 else 0
       else 0) + allowed key (serve l r) rs
  end.

(** ** Invariant *)

Definition bucket_ok (cfg : RateLimitConfig) (b : Bucket) : Prop :=
  0 <= tokens b <= max_tokens cfg.

Record wf (l : RateLimiter) : Prop := {
  wf_config : in_u64 (max_tokens (config l));
  wf_tokens : map_Forall (fun _ b => bucket_ok (config l) b) (buckets l);
  wf_keys : tracked_keys l <= MAX_TRACKED_KEYS
}.

Lemma new_tokens_nonneg rate e : 0 <= new_tokens rate e.
Proof.
  unfold new_tokens, f64_as_u64. repeat case_match; try (unfold u64_max; lia).
  apply Z.min_glb; [apply Z.shiftl_nonneg; lia | done].
Qed.

Lemma refill_ok cfg b now : bucket_ok cfg b → bucket_ok cfg (refill cfg b now).
Proof.
  unfold bucket_ok, refill, sat_add. intros Hb. repeat case_decide; simpl; try done.
  unfold u64_max in *. lia.
Qed.

Lemma cleanup_wf l now age : wf l → wf (cleanup l now age).
Proof.
  intros [Hc Ht Hk]. split; simpl; [done | |].
  { intros k b [Hb _]%map_lookup_filter_Some. by apply (Ht k). }
  unfold tracked_keys in *. simpl. etrans; [| exact Hk].
  apply inj_le, map_subseteq_size, map_filter_subseteq.
Qed.

Lemma consume_wf l key now :
  wf l → is_Some (buckets l !! key) ∨ tracked_keys l < MAX_TRACKED_KEYS → wf (consume l key now).1.
Proof.
  intros [Hc Ht Hk] Hroom. unfold consume.
  assert (He : bucket_ok (config l) (default (mkBucket (max_tokens (config l)) now) (buckets l !! key))).
  { destruct (buckets l !! key) as [b|] eqn:E; simpl; [by apply (Ht key) |].
    unfold bucket_ok, in_u64 in *. simpl. lia. }
  pose proof (refill_ok _ _ now He) as Hr. unfold bucket_ok in *.
  assert (Hsz : ∀ b, Z.of_nat (size (<[key:=b]> (buckets l))) <= MAX_TRACKED_KEYS).
  { intros b. unfold tracked_keys in *. destruct (buckets l !! key) eqn:E.
    - rewrite map_size_insert_Some by done. lia.
    - rewrite map_size_insert_None by done. destruct Hroom as [[? ?]|]; [done | lia]. }
  case_decide; split; simpl; try done; try apply Hsz; apply map_Forall_insert_2; try done;
    unfold bucket_ok; simpl; lia.
Qed.

Lemma check_wf l key now now' : wf l → wf (check l key now now').1.
Proof.
  intros W. unfold check. destruct (bool_decide_reflect (is_Some (buckets l !! key))); simpl.
  { apply consume_wf; auto. }
  case_bool_decide.
  - pose proof (cleanup_wf l now' (10 * 60 * 1000) W) as W'.
    case_decide; [done |]. apply consume_wf; [done | right; lia].
  - apply consume_wf; [done | right; lia].
Qed.

Lemma limiter_serve_all_wf l rs : wf l → wf (serve_all l rs).
Proof. revert l. induction rs as [|r rs IH]; intros l W; [done |]. by apply IH, check_wf. Qed.

Lemma limiter_new_wf cfg : in_u64 (max_tokens cfg) → wf (new cfg).
Proof.
  intros Hc. split; simpl; [done | apply map_Forall_empty |].
  unfold tracked_keys. simpl. by rewrite map_size_empty.
Qed.

Lemma check_config l key now now' : config (check l key now now').1 = config l.
Proof. unfold check, consume. repeat case_match; simplify_eq; done. Qed.
Lemma serve_all_config l rs : config (serve_all l rs) = config l.
Proof.
  revert l. induction rs as [|r rs IH]; intros l; [done |].
  change (config (serve_all (serve l r) rs) = config l). by rewrite IH, <- (check_config l (rq_key r) (rq_ms r) (rq_cleanup_ms r)).
Qed.

Lemma refill_empty cfg b now : bucket_ok cfg b → tokens (refill cfg b now) = 0 → tokens b = 0.
Proof.
  unfold bucket_ok, refill, sat_add. intros Hb. repeat case_decide; simpl; [| done | done].
  unfold u64_max. lia.
Qed.

Lemma consume_refuses l key now :
  wf l → (consume l key now).2 = false → remaining l key = 0.
Proof.
  intros [Wc Wt _]. unfold consume, remaining. case_decide as E; [| done]. intros _.
  destruct (buckets l !! key) as [b|] eqn:Eb; simpl in *.
  - apply (refill_empty (config l) b now); [by apply (Wt key) | done].
  - apply (refill_empty (config l) (mkBucket (max_tokens (config l)) now) now); [| done].
    unfold bucket_ok, in_u64 in *. simpl. lia.
Qed.

Lemma check_refuses l key now now' :
  wf l → (check l key now now').2 = false →
  remaining l key = 0 ∨ buckets l !! key = None ∧ tracked_keys l >= MAX_TRACKED_KEYS.
Proof.
  intros W. unfold check. case_bool_decide as Hk; simpl.
  { intros Hc. left. by eapply consume_refuses. }
  case_bool_decide.
  - intros _. right. split; [| done]. by apply eq_None_not_Some.
  - intros Hc. left. by eapply consume_refuses.
Qed.

Lemma remaining_range l key : wf l → 0 <= remaining l key <= max_tokens (config l).
Proof.
  intros [Wc Wt _]. unfold remaining. destruct (buckets l !! key) as [b|] eqn:E.
  - by apply (Wt key).
  - unfold in_u64 in Wc. lia.
Qed.

(** Whatever requests come, the limiter tracks at most 10,000 keys, no
    key ever has more than [max_tokens] tokens, and a request is refused only
    for an empty bucket or a full table. *)
Theorem limiter_bounded cfg rs key now now' :
  in_u64 (max_tokens cfg) →
  let l := serve_all (new cfg) rs in
  tracked_keys l <= MAX_TRACKED_KEYS
  ∧ 0 <= remaining l key <= max_tokens cfg
  ∧ ((check l key now now').2 = false →
       remaining l key = 0 ∨ buckets l !! key = None ∧ tracked_keys l >= MAX_TRACKED_KEYS).
Proof.
  intros Hc. cbv zeta. pose proof (limiter_serve_all_wf _ rs (limiter_new_wf cfg Hc)) as W.
  pose proof (remaining_range _ key W) as Hr. rewrite serve_all_config in Hr.
  split; [apply W |]. split; [exact Hr | by apply check_refuses].
Qed.

(** ** The rate *)

(** The refill gives at most [r] tokens a second over the first [T]
    milliseconds. *)
Definition rate_at_most (rate : f64) (r T : Z) : Prop :=
  ∀ e, 0 <= e <= T → 1000 * new_tokens rate e <= r * e.

(** A refill after [p] milliseconds or more, up to [E], gives something. *)
Definition refills_after (rate : f64) (p E : Z) : Prop := ∀ e, p <= e <= E → 0 < new_tokens rate e.

(** The budget of [key] after [n] grants in a window that began at [t0], at the
    time [now]: once it was granted something its bucket was filled up no longer
    than [p] milliseconds before the window, and is within the budget counted from
    there.  No bucket is older than [s0]. *)
Definition budget (s0 t0 p r now n : Z) (l : RateLimiter) (key : string) : Prop :=
  match buckets l !! key with
  | None => n = 0
  | Some b => s0 <= last_refill b <= now
      ∧ (n = 0 ∨ t0 - p <= last_refill b
                 ∧ 1000 * (n + tokens b) <= 1000 * max_tokens (config l) + r * (last_refill b - (t0 - p)))
  end.

Lemma refill_within t0 r T cfg b now n :
  0 <= r → rate_at_most (refill_rate cfg) r T → now <= t0 + T → last_refill b <= now →
  t0 <= last_refill b →
  1000 * (n + tokens b) <= 1000 * max_tokens cfg + r * (last_refill b - t0) →
  let b' := refill cfg b now in
  t0 <= last_refill b' <= now
  ∧ 1000 * (n + tokens b') <= 1000 * max_tokens cfg + r * (last_refill b' - t0).
Proof.
  intros Hr Hrate Hnow Hl Ht Hb. cbv zeta. unfold refill. case_decide as H1; [| lia]. case_decide as H2; [| lia].
  simpl. split; [lia |]. unfold sat_sub in *.
  replace (Z.max (now - last_refill b) 0) with (now - last_refill b) in * by lia.
  specialize (Hrate (now - last_refill b) ltac:(lia)).
  assert (Z.min (sat_add (tokens b) (new_tokens (refill_rate cfg) (now - last_refill b))) (max_tokens cfg)
    <= tokens b + new_tokens (refill_rate cfg) (now - last_refill b)) by (unfold sat_add; lia).
  nia.
Qed.

(** However long a bucket was not used, a use leaves it filled up recently. *)
Lemma refill_recent cfg s0 p E b now :
  1 <= p → refills_after (refill_rate cfg) p E → s0 <= last_refill b <= now → now - s0 <= E →
  now - p <= last_refill (refill cfg b now) <= now ∧ s0 <= last_refill (refill cfg b now).
Proof.
  intros Hp Hre Hb HE. unfold refill, sat_sub. case_decide as H1; [| lia].
  replace (Z.max (now - last_refill b) 0) with (now - last_refill b) in * by lia.
  case_decide as H2; simpl; [lia |]. destruct (decide (p <= now - last_refill b)); [| lia].
  pose proof (Hre (now - last_refill b) ltac:(lia)). lia.
Qed.

Lemma budget_same s0 t0 p r now n l l' key :
  buckets l' !! key = buckets l !! key → config l' = config l →
  budget s0 t0 p r now n l key → budget s0 t0 p r now n l' key.
Proof. unfold budget. by intros -> ->. Qed.

Lemma budget_later s0 t0 p r now now' n l key :
  now <= now' → budget s0 t0 p r now n l key → budget s0 t0 p r now' n l key.
Proof. intros Hn. unfold budget. destruct (buckets l !! key); [| done]. intros [? ?]. split; [lia | done]. Qed.

(** A cleanup in the window drops no bucket that was used in it. *)
Lemma cleanup_budget s0 t0 p r now n l c age key :
  1 <= s0 → c < t0 - p + age → budget s0 t0 p r now n l key → budget s0 t0 p r now n (cleanup l c age) key.
Proof.
  intros Hs Hc. unfold budget. simpl. destruct (filter _ _ !! key) as [b|] eqn:E.
  - apply map_lookup_filter_Some in E as [E _]. by rewrite E.
  - destruct (buckets l !! key) as [b|] eqn:Eb; [| done]. intros [Hb [Hn | [Hl _]]]; [done |]. exfalso.
    apply map_lookup_filter_None in E as [E | E]; [congruence |]. apply (E _ Eb). simpl. unfold sat_sub. lia.
Qed.

Lemma consume_budget s0 t0 p r T E l key now n :
  wf l → 0 <= r → 1 <= p → rate_at_most (refill_rate (config l)) r (T + p) → refills_after (refill_rate (config l)) p E →
  t0 <= now <= t0 + T → s0 <= t0 → t0 + T - s0 <= E → 0 <= n →
  budget s0 t0 p r now n l key →
  budget s0 t0 p r now (n + if (consume l key now).2 then 1 else 0) (consume l key now).1 key.
Proof.
  intros W Hr Hp Hrate Hre Hnow Hs HE Hn Hb. unfold consume. set (b := default _ _).
  assert (Hok : bucket_ok (config l) b ∧ s0 <= last_refill b <= now
    ∧ (n = 0 ∨ t0 - p <= last_refill b
        ∧ 1000 * (n + tokens b) <= 1000 * max_tokens (config l) + r * (last_refill b - (t0 - p)))).
  { subst b. unfold budget in Hb. destruct (buckets l !! key) as [b|] eqn:Eb; simpl.
    - split; [by apply (wf_tokens _ W key) | done].
    - pose proof (wf_config _ W) as Wc. unfold bucket_ok, in_u64 in *. simpl. split; [lia |]. split; [lia | by left]. }
  destruct Hok as (Hok & Hl & Hbud).
  destruct (refill_recent (config l) s0 p E b now Hp Hre Hl ltac:(lia)) as [R1 R2].
  pose proof (refill_ok (config l) b now Hok) as R3. unfold bucket_ok in R3. set (b' := refill _ _ _) in *.
  assert (R4 : 1000 * (n + tokens b') <= 1000 * max_tokens (config l) + r * (last_refill b' - (t0 - p))).
  { destruct Hbud as [-> | [B1 B2]]; [nia |].
    by apply (refill_within (t0 - p) r (T + p) (config l) b now n); try lia. }
  unfold budget. case_decide; simpl; rewrite lookup_insert_eq; simpl; (split; [lia | right; lia]).
Qed.

Lemma consume_other l key key' now :
  key' ≠ key → buckets (consume l key' now).1 !! key = buckets l !! key.
Proof. intros Hne. unfold consume. case_decide; simpl; by rewrite lookup_insert_ne. Qed.
Lemma consume_config l key now : config (consume l key now).1 = config l.
Proof. unfold consume. by case_decide. Qed.

(** One request of the window keeps the budget. *)
Lemma check_budget s0 t0 p r T E l key q n :
  wf l → 1 <= s0 <= t0 → 0 <= r → 1 <= p → T + p < 600000 → t0 + T - s0 <= E → 0 <= n →
  rate_at_most (refill_rate (config l)) r (T + p) → refills_after (refill_rate (config l)) p E →
  t0 <= rq_ms q <= t0 + T → rq_cleanup_ms q <= t0 + T →
  budget s0 t0 p r (rq_ms q) n l key →
  let out := check l (rq_key q) (rq_ms q) (rq_cleanup_ms q) in
  budget s0 t0 p r (rq_ms q) (n + if decide (rq_key q = key) then if out.2 then 1 else 0 else 0) out.1 key.
Proof.
  intros W Hs Hr Hp HT HE Hn Hrate Hre Hq Hqc Hb. cbv zeta.
  pose proof (cleanup_budget s0 t0 p r (rq_ms q) n l (rq_cleanup_ms q) (10 * 60 * 1000) key ltac:(lia) ltac:(lia) Hb) as Hc.
  pose proof (cleanup_wf l (rq_cleanup_ms q) (10 * 60 * 1000) W) as Wc.
  assert (Hgo : ∀ l', wf l' → config l' = config l → budget s0 t0 p r (rq_ms q) n l' key →
    budget s0 t0 p r (rq_ms q) (n + if decide (rq_key q = key)
      then if (consume l' (rq_key q) (rq_ms q)).2 then 1 else 0 else 0)
      (consume l' (rq_key q) (rq_ms q)).1 key).
  { intros l' W' Hl' Hb'. case_decide as Hk.
    - rewrite Hk. apply (consume_budget s0 t0 p r T E); rewrite ?Hl'; try done; lia.
    - rewrite Z.add_0_r. eapply budget_same; [| | exact Hb'].
      + by apply consume_other.
      + apply consume_config. }
  unfold check. destruct (negb _ && _); [| by apply Hgo].
  destruct (decide (tracked_keys _ >= MAX_TRACKED_KEYS)); [| by apply Hgo]. simpl. replace (n + _) with n by (case_decide; lia). done.
Qed.

(** Requests in the order of the clock, within a window. *)
Fixpoint in_window (lo hi : Z) (rs : list request) : bool :=
  match rs with
  | [] => true
  | q :: rs => bool_decide (lo <= rq_ms q <= hi ∧ rq_cleanup_ms q <= hi) && in_window (rq_ms q) hi rs
  end.

Lemma allowed_nonneg key l rs : 0 <= allowed key l rs.
Proof. revert l. induction rs as [|q rs IH]; intros l; [done |]. simpl. specialize (IH (serve l q)). repeat case_match; lia. Qed.

Lemma allowed_budget s0 t0 p r T E key rs l n now :
  wf l → 1 <= s0 <= t0 → 0 <= r → 1 <= p → T + p < 600000 → t0 + T - s0 <= E → 0 <= n →
  rate_at_most (refill_rate (config l)) r (T + p) → refills_after (refill_rate (config l)) p E →
  t0 <= now → in_window now (t0 + T) rs = true → budget s0 t0 p r now n l key →
  ∃ now', now' <= Z.max now (t0 + T) ∧ budget s0 t0 p r now' (n + allowed key l rs) (serve_all l rs) key.
Proof.
  intros W Hs Hr Hp HT HE. revert l n now W. induction rs as [|q rs IH]; intros l n now W Hn Hrate Hre Hnow Hwin Hb.
  { exists now. simpl. rewrite Z.add_0_r. split; [lia | done]. }
  simpl in Hwin. apply andb_true_iff in Hwin as [[[Hq1 Hq2] Hq3]%bool_decide_eq_true Hwin].
  pose proof (check_budget s0 t0 p r T E l key q n W Hs Hr Hp HT HE Hn Hrate Hre ltac:(lia) Hq3
    (budget_later _ _ _ _ _ _ _ _ _ Hq1 Hb)) as Hb'.
  destruct (IH (serve l q) (n + if decide (rq_key q = key) then if (check l (rq_key q) (rq_ms q) (rq_cleanup_ms q)).2 then 1 else 0 else 0)
    (rq_ms q)) as (now' & Hnow' & Hfin);
    [by apply check_wf | repeat case_match; lia | unfold serve; by rewrite check_config.. | lia | exact Hwin | exact Hb' |].
  exists now'. split; [lia |]. simpl. by rewrite Z.add_assoc.
Qed.

(** The buckets of a limiter that served requests from [s0] to [t0]. *)
Lemma served_ages cfg s0 t0 key rs : ∀ l now, config l = cfg → s0 <= now →
  (∀ b, buckets l !! key = Some b → s0 <= last_refill b <= now) → in_window now t0 rs = true →
  ∀ b, buckets (serve_all l rs) !! key = Some b → s0 <= last_refill b <= Z.max now t0.
Proof.
  induction rs as [|q rs IH]; intros l now Hc Hs Hl Hwin b; [intros Hb; specialize (Hl b Hb); lia |].
  simpl in Hwin. apply andb_true_iff in Hwin as [[[Hq1 Hq2] Hq3]%bool_decide_eq_true Hwin]. intros Hb.
  enough (s0 <= last_refill b <= Z.max (rq_ms q) t0) by lia.
  refine (IH (serve l q) (rq_ms q) _ _ _ Hwin b Hb); [by unfold serve; rewrite check_config | lia |].
  assert (Hgo : ∀ l', config l' = config l → (∀ b, buckets l' !! key = Some b → s0 <= last_refill b <= now) →
    ∀ b, buckets (consume l' (rq_key q) (rq_ms q)).1 !! key = Some b → s0 <= last_refill b <= rq_ms q).
  { intros l' Hc' Hl' b' Hb'. destruct (decide (rq_key q = key)) as [Hk|Hk].
    2: { rewrite consume_other in Hb' by done. specialize (Hl' _ Hb'). lia. }
    rewrite Hk in Hb'. unfold consume in Hb'. set (e := default _ _) in Hb'.
    assert (He : s0 <= last_refill e <= rq_ms q).
    { subst e. destruct (buckets l' !! key) as [x|] eqn:Ex; simpl; [specialize (Hl' x eq_refl); lia | lia]. }
    assert (Hr : s0 <= last_refill (refill (config l') e (rq_ms q)) <= rq_ms q)
      by (unfold refill; repeat case_decide; simpl; lia).
    revert Hb'. case_decide; simpl; rewrite lookup_insert_eq; intros [= <-]; exact Hr. }
  unfold serve, check. destruct (negb _ && _); [| by apply Hgo].
  assert (Hcl : ∀ b, buckets (cleanup l (rq_cleanup_ms q) (10 * 60 * 1000)) !! key = Some b → s0 <= last_refill b <= now)
    by (intros x [Hx _]%map_lookup_filter_Some; by apply Hl).
  destruct (decide _); [| by apply Hgo]. intros x Hx. specialize (Hcl x Hx). lia.
Qed.

(** C39: the rate limit.  Take a limiter whose rate gives at most [r] tokens a
    second and at least one every [p] milliseconds, over the times that occur.
    Whatever requests it served before, in any window of [T] milliseconds, with
    [T + p] less than ten minutes, a key is granted at most its burst and the
    refill of [T + p], [max_tokens + r * (T + p) / 1000], however its requests are
    spaced, whatever other keys do, and even if the table of buckets overflows
    and idle buckets are dropped meanwhile. *)
Theorem rate_limited cfg key before rs s0 t0 T p r :
  in_u64 (max_tokens cfg) → 1 <= s0 <= t0 → 0 <= T → 1 <= p → T + p < 600000 → 0 <= r →
  rate_at_most (refill_rate cfg) r (T + p) → refills_after (refill_rate cfg) p (t0 + T - s0) →
  in_window s0 t0 before = true → in_window t0 (t0 + T) rs = true →
  1000 * allowed key (serve_all (new cfg) before) rs <= 1000 * max_tokens cfg + r * (T + p).
Proof.
  intros Hcfg Hs HT0 Hp HT Hr Hrate Hre Hbefore Hwin. set (l := serve_all (new cfg) before).
  assert (Hc : config l = cfg) by (unfold l; by rewrite serve_all_config).
  assert (W : wf l) by (by apply limiter_serve_all_wf, limiter_new_wf).
  assert (Hstart : budget s0 t0 p r t0 0 l key).
  { unfold budget. destruct (buckets l !! key) as [b|] eqn:E; [| done]. split; [| by left].
    pose proof (served_ages cfg s0 t0 key before (new cfg) s0 eq_refl ltac:(lia)) as Ha.
    specialize (Ha ltac:(intros x Hx; cbn in Hx; by rewrite lookup_empty in Hx) Hbefore b E). lia. }
  destruct (allowed_budget s0 t0 p r T (t0 + T - s0) key rs l 0 t0) as (now' & Hnow' & Hb);
    rewrite ?Hc; try done; try lia.
  pose proof (allowed_nonneg key l rs) as Hn. rewrite Z.add_0_l in Hb. unfold budget in Hb. rewrite serve_all_config, Hc in Hb.
  assert (0 <= max_tokens cfg) by (unfold in_u64 in Hcfg; lia).
  destruct (buckets (serve_all l rs) !! key) as [b|] eqn:E; [| nia]. destruct Hb as [B1 [B2 | [B2 B3]]]; [nia |].
  pose proof (wf_tokens _ (limiter_serve_all_wf l rs W) key b E) as Hb. unfold bucket_ok in Hb. nia.
Qed.

(** A boolean test of [rate_at_most], for concrete rates. *)
Definition rate_check (rate : f64) (r : Z) (n : nat) : bool :=
  forallb (fun e => 1000 * new_tokens rate (Z.of_nat e) <=? r * Z.of_nat e) (seq 0 (S n)).
Lemma rate_check_ok rate r n : rate_check rate r n = true → rate_at_most rate r (Z.of_nat n).
Proof.
  unfold rate_check. rewrite forallb_forall. intros Hall e He.
  specialize (Hall (Z.to_nat e)). rewrite Z2Nat.id in Hall by lia.
  apply Z.leb_le, Hall, in_seq. lia.
Qed.

Definition refill_check (rate : f64) (p : Z) (n : nat) : bool :=
  forallb (fun e => bool_decide (p <= Z.of_nat e → 0 < new_tokens rate (Z.of_nat e))) (seq 0 (S n)).
Lemma refill_check_ok rate p n : 0 <= p → refill_check rate p n = true → refills_after rate p (Z.of_nat n).
Proof.
  unfold refill_check. rewrite forallb_forall. intros Hp Hall e He.
  specialize (Hall (Z.to_nat e) ltac:(apply in_seq; lia)). apply bool_decide_eq_true in Hall.
  rewrite Z2Nat.id in Hall by lia. apply Hall. lia.
Qed.

(** A token a second and a burst of two, after a pause. *)
Lemma rate_limited_witness :
  let before := [mkRequest "a" 1000 1000; mkRequest "b" 1001 1001; mkRequest "a" 1002 1002] in
  let rs := [mkRequest "a" 3500 3500; mkRequest "a" 3501 3501; mkRequest "a" 3502 3502; mkRequest "a" 4500 4500] in
  1000 * allowed "a" (serve_all (new (mkConfig 2 (u64_as_f64 1))) before) rs <= 1000 * 2 + 1 * (1500 + 1000)
  ∧ allowed "a" (serve_all (new (mkConfig 2 (u64_as_f64 1))) before) rs = 3.
Proof.
  cbv zeta. split; [| vm_compute; reflexivity].
  apply (rate_limited (mkConfig 2 (u64_as_f64 1)) "a" _ _ 1000 3000 1500 1000 1); try lia; try done.
  - apply (rate_check_ok _ 1 2500). vm_compute. reflexivity.
  - apply (refill_check_ok _ 1000 3500); [lia | vm_compute; reflexivity].
Defined.
(** A bucket that gains nothing in ten minutes counts as idle while it is in use:
    a cleanup drops it, and its key has a full burst again. *)
Example used_bucket_dropped :
  let '(l, first) := check (new (mkConfig 1 (u64_as_f64 0))) "a" 1000 1000 in
  let '(l, second) := check l "a" 601500 601500 in
  let '(l, third) := check (cleanup l 601501 600000) "a" 601502 601502 in
  (first, second, third) = (true, false, true).
Proof. vm_compute. reflexivity. Qed.
End RateLimiter.
