(* ===== verification/Database.v ===== *)
(** * Blob metadata ([src/src/db/mod.rs], [src/src/db/memory.rs])

    [BlobDatabase] is the interface the server is written against: upload
    records, ownership, quotas, statistics and roles.  [AbsDb] is what it
    promises, with the bytes a user has stored derived from the ownership
    records; [BlobDatabaseLaws] says that an implementation refines it.
    [MemoryDatabase] is the in-memory implementation, which keeps a counter per
    user, and the proof that it does. *)

From Stdlib Require Import ZArith Lia Ascii String.
From stdpp Require Import base list gmap strings numbers sorting.
From S2P Require Import Prelude.

Open Scope string_scope.
Open Scope Z_scope.

(** ** Data *)

(** [UploadRecord]. *)
Record UploadRecord := mkUpload {
  r_sha256 : string;
  r_size : Z;
  r_mime_type : string;
  r_pubkey : string;
  r_created_at : Z;
  r_phash : option Z
}.

(** [UserRecord]. *)
Record UserRecord := mkUser {
  us_pubkey : string;
  us_role : string;
  us_quota_bytes : option Z;
  us_used_bytes : Z
}.

(** [FileStats]. *)
Record FileStats := mkStats {
  st_sha256 : string;
  st_egress_bytes : Z;
  st_last_accessed : Z
}.

(** [DbError]. *)
Inductive DbError :=
| QuotaExceeded (used requested limit : Z)
| NotFound
| Internal (msg : string).

#[export] Instance upload_eq_dec : EqDecision UploadRecord.
Proof. solve_decision. Defined.
#[export] Instance db_error_eq_dec : EqDecision DbError.
Proof. solve_decision. Defined.

(** ** The interface *)

Class BlobDatabase (D : Type) : Type := {
  record_upload : D → UploadRecord → D * result unit DbError;
  get_upload : D → string → result UploadRecord DbError;
  list_uploads_by_pubkey : D → string → result (list UploadRecord) DbError;
  delete_upload : D → string → D * result bool DbError;
  is_upload_owner : D → string → string → result bool DbError;
  upload_owner_count : D → string → result Z DbError;
  delete_upload_owner : D → string → string → D * result bool DbError;
  get_or_create_user : D → string → D * result UserRecord DbError;
  set_quota : D → string → option Z → D * result unit DbError;
  check_quota : D → string → Z → result unit DbError;
  update_used_bytes : D → string → Z → D * result unit DbError;
  record_access : D → Z → string → Z → D * result unit DbError;
  get_stats : D → string → result FileStats DbError;
  upload_count : D → Z;
  user_count : D → Z;
  set_role : D → string → string → D * result unit DbError;
  get_role : D → string → string;
  list_users_by_role : D → string → result (list UserRecord) DbError;
  find_by_phash : D → Z → result (list UploadRecord) DbError
}.

(** ** The abstract database *)

Notation owner_map := (gmap (string * string) UploadRecord).

Record AbsDb := mkAbs {
  a_uploads : gmap string UploadRecord;
  a_owners : owner_map;
  a_quota : gmap string Z
}.

(** The bytes the blobs of a user take. *)
Definition add_size (p : string) (k : string * string) (r : UploadRecord) (acc : Z) : Z :=
  if decide (k.2 = p) then r_size r + acc else acc.
Definition used_by (o : owner_map) (p : string) : Z := map_fold (add_size p) 0 o.

Module Abs.
Definition record_upload (a : AbsDb) (r : UploadRecord) : AbsDb * result unit DbError :=
  match a_owners a !! (r_sha256 r, r_pubkey r) with
  | Some _ => (a, Ok tt)
  | None =>
      let used := used_by (a_owners a) (r_pubkey r) in
      if decide (u64_max < used + r_size r) then (a, Err (Internal "used byte count overflow"))
      else
        let done :=
          (mkAbs (match a_uploads a !! r_sha256 r with
                  | Some _ => a_uploads a
                  | None => <[r_sha256 r := r]> (a_uploads a)
                  end)
                 (<[(r_sha256 r, r_pubkey r) := r]> (a_owners a)) (a_quota a), Ok tt) in
        match a_quota a !! r_pubkey r with
        | Some limit =>
            if decide (limit < used + r_size r) then (a, Err (QuotaExceeded used (r_size r) limit))
            else done
        | None => done
        end
  end.

(** Without the quota, for a database that leaves it to its callers. *)
Definition record_unmetered (a : AbsDb) (r : UploadRecord) : AbsDb * result unit DbError :=
  match a_owners a !! (r_sha256 r, r_pubkey r) with
  | Some _ => (a, Ok tt)
  | None =>
      (mkAbs (match a_uploads a !! r_sha256 r with
              | Some _ => a_uploads a
              | None => <[r_sha256 r := r]> (a_uploads a)
              end)
             (<[(r_sha256 r, r_pubkey r) := r]> (a_owners a)) (a_quota a), Ok tt)
  end.

Definition delete_upload (a : AbsDb) (sha256 : string) : AbsDb * result bool DbError :=
  match a_uploads a !! sha256 with
  | None => (a, Ok false)
  | Some _ =>
      (mkAbs (delete sha256 (a_uploads a))
             (filter (fun kr => kr.1.1 ≠ sha256) (a_owners a)) (a_quota a), Ok true)
  end.

Definition delete_upload_owner (a : AbsDb) (sha256 pubkey : string) : AbsDb * result bool DbError :=
  match a_owners a !! (sha256, pubkey) with
  | None => (a, Ok false)
  | Some _ => (mkAbs (a_uploads a) (delete (sha256, pubkey) (a_owners a)) (a_quota a), Ok true)
  end.

Definition owners_of (a : AbsDb) (sha256 : string) : owner_map :=
  filter (fun kr => kr.1.1 = sha256) (a_owners a).

Definition set_quota (a : AbsDb) (pubkey : string) (quota : option Z) : AbsDb * result unit DbError :=
  (mkAbs (a_uploads a) (a_owners a) (match quota with Some l => <[pubkey := l]> (a_quota a) | None => delete pubkey (a_quota a) end),
   Ok tt).

Definition check_quota (a : AbsDb) (pubkey : string) (additional : Z) : result unit DbError :=
  match a_quota a !! pubkey with
  | None => Ok tt
  | Some limit =>
      let used := used_by (a_owners a) pubkey in
      if decide (limit < used + additional ∨ u64_max < used + additional)
      then Err (QuotaExceeded used additional limit) else Ok tt
  end.
End Abs.

(** What two states of a database may differ in: the perceptual hashes, and the
    content types of the owners after the first. *)
Definition erase_phash (r : UploadRecord) : UploadRecord :=
  mkUpload (r_sha256 r) (r_size r) (r_mime_type r) (r_pubkey r) (r_created_at r) None.
Definition charge (r : UploadRecord) : Z * Z := (r_size r, r_created_at r).

#[export] Instance abs_equiv : Equiv AbsDb := fun a b =>
  erase_phash <$> a_uploads a = erase_phash <$> a_uploads b
  ∧ charge <$> a_owners a = charge <$> a_owners b ∧ a_quota a = a_quota b.
#[export] Instance abs_equivalence : Equivalence (≡@{AbsDb}).
Proof.
  split; [by intros a | by intros a b (? & ? & ?) |].
  intros a b c (? & ? & ?) (? & ? & ?). split; [| split]; congruence.
Qed.

(** A result that is the abstract one, or a failure of the storage that left
    the abstract state as it was. *)
Definition refines {A} (ares : AbsDb * result A DbError) (a a' : AbsDb) (res : result A DbError) : Prop :=
  (a' ≡ ares.1 ∧ res = ares.2) ∨ (a' ≡ a ∧ ∃ msg, res = Err (Internal msg)).
Definition reads {A} (ares res : result A DbError) : Prop :=
  res = ares ∨ ∃ msg, res = Err (Internal msg).

(** The range of what a database may hold: a signed 64-bit number of bytes per
    user, and one size per blob. *)
Definition i64_max : Z := 9223372036854775807.
Definition may_record (a : AbsDb) (r : UploadRecord) : Prop :=
  0 <= r_size r ∧ in_u64 (r_created_at r) ∧ used_by (a_owners a) (r_pubkey r) + r_size r <= i64_max
  ∧ ∀ u, a_uploads a !! r_sha256 r = Some u → r_size u = r_size r.

Definition map_ok {A B E} (f : A → B) (r : result A E) : result B E :=
  match r with Ok a => Ok (f a) | Err e => Err e end.

(** What the server may rely on. *)
Class BlobDatabaseLaws (D : Type) `{BlobDatabase D} : Type := {
  db_abs : D → AbsDb;
  db_wf : D → Prop;
  record_upload_refines : ∀ d r, db_wf d → may_record (db_abs d) r →
    db_wf (record_upload d r).1
    ∧ ∃ metered : bool,
        refines ((if metered then Abs.record_upload else Abs.record_unmetered) (db_abs d) r)
          (db_abs d) (db_abs (record_upload d r).1) (record_upload d r).2;
  get_upload_reads : ∀ d h, db_wf d →
    reads (ok_or (erase_phash <$> a_uploads (db_abs d) !! h) NotFound) (map_ok erase_phash (get_upload d h));
  delete_upload_refines : ∀ d h, db_wf d →
    db_wf (delete_upload d h).1
    ∧ refines (Abs.delete_upload (db_abs d) h) (db_abs d) (db_abs (delete_upload d h).1) (delete_upload d h).2;
  is_upload_owner_reads : ∀ d h p, db_wf d →
    reads (Ok (bool_decide (is_Some (a_owners (db_abs d) !! (h, p))))) (is_upload_owner d h p);
  upload_owner_count_reads : ∀ d h, db_wf d →
    reads (Ok (Z.of_nat (size (Abs.owners_of (db_abs d) h)))) (upload_owner_count d h);
  delete_upload_owner_refines : ∀ d h p, db_wf d →
    db_wf (delete_upload_owner d h p).1
    ∧ refines (Abs.delete_upload_owner (db_abs d) h p) (db_abs d)
        (db_abs (delete_upload_owner d h p).1) (delete_upload_owner d h p).2;
  check_quota_reads : ∀ d p n, db_wf d → 0 <= n <= i64_max →
    reads (Abs.check_quota (db_abs d) p n) (check_quota d p n);
  set_quota_refines : ∀ d p q, db_wf d → (∀ l, q = Some l → in_u64 l) →
    db_wf (set_quota d p q).1
    ∧ refines (Abs.set_quota (db_abs d) p q) (db_abs d) (db_abs (set_quota d p q).1) (set_quota d p q).2;
  get_or_create_user_refines : ∀ d p, db_wf d →
    db_wf (get_or_create_user d p).1 ∧ db_abs (get_or_create_user d p).1 ≡ db_abs d;
  record_access_refines : ∀ d now h n, db_wf d →
    db_wf (record_access d now h n).1 ∧ db_abs (record_access d now h n).1 ≡ db_abs d;
  set_role_refines : ∀ d p role, db_wf d →
    db_wf (set_role d p role).1 ∧ db_abs (set_role d p role).1 ≡ db_abs d
}.

Lemma add_size_comm p k1 k2 r1 r2 acc :
  add_size p k1 r1 (add_size p k2 r2 acc) = add_size p k2 r2 (add_size p k1 r1 acc).
Proof. unfold add_size. repeat case_decide; lia. Qed.

Lemma used_by_insert o p k r :
  o !! k = None → used_by (<[k := r]> o) p = add_size p k r (used_by o p).
Proof.
  intros Hk. unfold used_by. apply (map_fold_insert_L (add_size p) 0 k r o); [| done].
  intros. apply add_size_comm.
Qed.

Lemma used_by_delete o p k r :
  o !! k = Some r → used_by o p = add_size p k r (used_by (delete k o) p).
Proof.
  intros Hk. rewrite <- (used_by_insert (delete k o) p k r) by apply lookup_delete_eq.
  by rewrite insert_delete_id.
Qed.

Lemma used_by_nonneg (o : owner_map) p : map_Forall (fun _ r => 0 <= r_size r) o → 0 <= used_by o p.
Proof.
  induction o as [|k r o Hk IH] using map_ind; intros Hall; [done |].
  apply map_Forall_insert in Hall as [Hr Ho]; [| done].
  rewrite used_by_insert by done. specialize (IH Ho). unfold add_size. case_decide; lia.
Qed.

Lemma used_by_charge (o o' : owner_map) p : charge <$> o = charge <$> o' → used_by o p = used_by o' p.
Proof.
  assert (E : ∀ o : owner_map, used_by o p = map_fold (fun k c acc => if decide (k.2 = p) then c.1 + acc else acc) 0 (charge <$> o)).
  { intros m. unfold used_by. by rewrite map_fold_fmap. }
  intros Ho. by rewrite !E, Ho.
Qed.
#[export] Instance used_by_proper : Proper ((≡) ==> (=) ==> (=)) (fun a p => used_by (a_owners a) p).
Proof. intros a b (_ & Ho & _) p ? <-. by apply used_by_charge. Qed.

(** Taking a blob away takes its size off each account. *)
Lemma used_by_without (o : owner_map) h p :
  used_by o p = used_by (filter (fun kr => kr.1.1 ≠ h) o) p + match o !! (h, p) with Some r => r_size r | None => 0 end.
Proof.
  induction o as [|k r o Hk IH] using map_ind; [by rewrite map_filter_empty, lookup_empty |].
  rewrite used_by_insert, map_filter_insert by done. destruct k as [h' p']. case_decide as Hh; simpl in Hh.
  - rewrite used_by_insert by (apply map_lookup_filter_None; by left). rewrite lookup_insert_ne by congruence.
    unfold add_size. simpl. case_decide; lia.
  - subst h'. rewrite delete_id by done. unfold add_size. simpl. case_decide as Hp.
    + subst p'. rewrite lookup_insert_eq. rewrite Hk in IH. lia.
    + rewrite lookup_insert_ne by congruence. done.
Qed.

(** ** The in-memory database *)

(** [MemoryDatabase]. *)
Record MemoryDatabase := mkDb {
  uploads : gmap string UploadRecord;
  owners : owner_map;
  users : gmap string UserRecord;
  stats : gmap string FileStats
}.

Module MemoryDatabase.
Section ops.
Context `{HashOrder}.

(** [MemoryDatabase::new]. *)
Definition new : MemoryDatabase := mkDb ∅ ∅ ∅ ∅.

Definition with_users (d : MemoryDatabase) u := mkDb (uploads d) (owners d) u (stats d).

(** The record [or_insert_with] creates. *)
Definition fresh_user (pubkey : string) : UserRecord := mkUser pubkey "member" None 0.
Definition user_entry (d : MemoryDatabase) (pubkey : string) : UserRecord :=
  default (fresh_user pubkey) (users d !! pubkey).

Definition set_used (u : UserRecord) (n : Z) : UserRecord :=
  mkUser (us_pubkey u) (us_role u) (us_quota_bytes u) n.

(** [get_or_create_user]. *)
Definition get_or_create_user (d : MemoryDatabase) (pubkey : string)
    : MemoryDatabase * result UserRecord DbError :=
  let u := user_entry d pubkey in
  (with_users d (<[pubkey := u]> (users d)), Ok u).

(** [set_quota]. *)
Definition set_quota (d : MemoryDatabase) (pubkey : string) (quota_bytes : option Z)
    : MemoryDatabase * result unit DbError :=
  let u := user_entry d pubkey in
  (with_users d (<[pubkey := mkUser (us_pubkey u) (us_role u) quota_bytes (us_used_bytes u)]> (users d)),
   Ok tt).

(** [update_used_bytes]. *)
Definition update_used_bytes (d : MemoryDatabase) (pubkey : string) (used_bytes : Z)
    : MemoryDatabase * result unit DbError :=
  (with_users d (<[pubkey := set_used (user_entry d pubkey) used_bytes]> (users d)), Ok tt).

(** [record_upload]. *)
Definition record_upload (d : MemoryDatabase) (record : UploadRecord)
    : MemoryDatabase * result unit DbError :=
  let owner_key := (r_sha256 record, r_pubkey record) in
  if decide (is_Some (owners d !! owner_key)) then (d, Ok tt)
  else
    match get_or_create_user d (r_pubkey record) with
    | (d, Err e) => (d, Err e)
    | (d, Ok user) =>
        match checked_add (us_used_bytes user) (r_size record) with
        | None => (d, Err (Internal "used byte count overflow"))
        | Some new_used =>
            let store :=
              let d := mkDb (match uploads d !! r_sha256 record with
                             | Some _ => uploads d
                             | None => <[r_sha256 record := record]> (uploads d)
                             end)
                            (<[owner_key := record]> (owners d)) (users d) (stats d) in
              match update_used_bytes d (r_pubkey record) new_used with
              | (d, Err e) => (d, Err e)
              | (d, Ok _) => (d, Ok tt)
              end in
            match us_quota_bytes user with
            | Some limit =>
                if decide (new_used > limit)
                then (d, Err (QuotaExceeded (us_used_bytes user) (r_size record) limit))
                else store
            | None => store
            end
        end
    end.

(** [get_upload]. *)
Definition get_upload (d : MemoryDatabase) (sha256 : string) : result UploadRecord DbError :=
  ok_or (uploads d !! sha256) NotFound.

(** [list_uploads_by_pubkey]: [sort_by_key] with the reversed key. *)
Definition list_uploads_by_pubkey (d : MemoryDatabase) (pubkey : string)
    : result (list UploadRecord) DbError :=
  let records := List.filter (fun r => bool_decide (r_pubkey r = pubkey)) (hm_values (owners d)) in
  Ok (sort_by_key (fun r => - r_created_at r) records).

(** [user.used_bytes = user.used_bytes.saturating_sub(size)], if the user exists. *)
Definition debit (us : gmap string UserRecord) (pubkey : string) (size : Z) : gmap string UserRecord :=
  match us !! pubkey with
  | Some u => <[pubkey := set_used u (sat_sub (us_used_bytes u) size)]> us
  | None => us
  end.

(** The body of the loop of [delete_upload]. *)
Definition drop_owner (d : MemoryDatabase) (key : string * string) : MemoryDatabase :=
  match owners d !! key with
  | Some owner =>
      mkDb (uploads d) (delete key (owners d)) (debit (users d) (r_pubkey owner) (r_size owner)) (stats d)
  | None => d
  end.

(** [delete_upload]. *)
Definition delete_upload (d : MemoryDatabase) (sha256 : string) : MemoryDatabase * result bool DbError :=
  match uploads d !! sha256 with
  | Some _ =>
      let d := mkDb (delete sha256 (uploads d)) (owners d) (users d) (stats d) in
      let keys := List.filter (fun k => bool_decide (k.1 = sha256)) (hm_keys (owners d)) in
      let d := foldl drop_owner d keys in
      (mkDb (uploads d) (owners d) (users d) (delete sha256 (stats d)), Ok true)
  | None => (d, Ok false)
  end.

(** [is_upload_owner]. *)
Definition is_upload_owner (d : MemoryDatabase) (sha256 pubkey : string) : result bool DbError :=
  Ok (bool_decide (is_Some (owners d !! (sha256, pubkey)))).

(** [upload_owner_count]. *)
Definition upload_owner_count (d : MemoryDatabase) (sha256 : string) : result Z DbError :=
  Ok (vec_len (List.filter (fun k => bool_decide (k.1 = sha256)) (hm_keys (owners d)))).

(** [delete_upload_owner]. *)
Definition delete_upload_owner (d : MemoryDatabase) (sha256 pubkey : string)
    : MemoryDatabase * result bool DbError :=
  match owners d !! (sha256, pubkey) with
  | None => (d, Ok false)
  | Some record =>
      (mkDb (uploads d) (delete (sha256, pubkey) (owners d)) (debit (users d) pubkey (r_size record))
            (stats d), Ok true)
  end.

(** [check_quota]. *)
Definition check_quota (d : MemoryDatabase) (pubkey : string) (additional_bytes : Z)
    : result unit DbError :=
  match users d !! pubkey with
  | None => Ok tt
  | Some user =>
      match us_quota_bytes user with
      | None => Ok tt
      | Some limit =>
          let exceeds_limit :=
            match checked_add (us_used_bytes user) additional_bytes with
            | Some total => bool_decide (total > limit)
            | None => true
            end in
          if exceeds_limit : bool then Err (QuotaExceeded (us_used_bytes user) additional_bytes limit)
          else Ok tt
      end
  end.

(** [record_access]; [now] is the clock.  [+=] on [u64] wraps in a release
    build. *)
Definition record_access (d : MemoryDatabase) (now : Z) (sha256 : string) (bytes_served : Z)
    : MemoryDatabase * result unit DbError :=
  let s := default (mkStats sha256 0 0) (stats d !! sha256) in
  (mkDb (uploads d) (owners d) (users d)
     (<[sha256 := mkStats (st_sha256 s) (wrap_u64 (st_egress_bytes s + bytes_served)) now]> (stats d)),
   Ok tt).

(** [get_stats]. *)
Definition get_stats (d : MemoryDatabase) (sha256 : string) : result FileStats DbError :=
  ok_or (stats d !! sha256) NotFound.

(** [upload_count], [user_count]. *)
Definition upload_count (d : MemoryDatabase) : Z := Z.of_nat (size (uploads d)).
Definition user_count (d : MemoryDatabase) : Z := Z.of_nat (size (users d)).

(** [set_role]. *)
Definition set_role (d : MemoryDatabase) (pubkey role : string) : MemoryDatabase * result unit DbError :=
  let u := user_entry d pubkey in
  (with_users d (<[pubkey := mkUser (us_pubkey u) role (us_quota_bytes u) (us_used_bytes u)]> (users d)),
   Ok tt).

(** [get_role]. *)
Definition get_role (d : MemoryDatabase) (pubkey : string) : string :=
  match users d !! pubkey with Some u => us_role u | None => "member" end.

(** [list_users_by_role]. *)
Definition list_users_by_role (d : MemoryDatabase) (role : string) : result (list UserRecord) DbError :=
  Ok (List.filter (fun u => bool_decide (us_role u = role)) (hm_values (users d))).

(** The default [find_by_phash] of the trait, which this backend keeps. *)
Definition find_by_phash (d : MemoryDatabase) (phash : Z) : result (list UploadRecord) DbError := Ok [].

#[export] Instance impl : BlobDatabase MemoryDatabase := {|
  Database.record_upload := record_upload;
  Database.get_upload := get_upload;
  Database.list_uploads_by_pubkey := list_uploads_by_pubkey;
  Database.delete_upload := delete_upload;
  Database.is_upload_owner := is_upload_owner;
  Database.upload_owner_count := upload_owner_count;
  Database.delete_upload_owner := delete_upload_owner;
  Database.get_or_create_user := get_or_create_user;
  Database.set_quota := set_quota;
  Database.check_quota := check_quota;
  Database.update_used_bytes := update_used_bytes;
  Database.record_access := record_access;
  Database.get_stats := get_stats;
  Database.upload_count := upload_count;
  Database.user_count := user_count;
  Database.set_role := set_role;
  Database.get_role := get_role;
  Database.list_users_by_role := list_users_by_role;
  Database.find_by_phash := find_by_phash
|}.
End ops.

(** ** Refinement *)

Definition abs (d : MemoryDatabase) : AbsDb :=
  mkAbs (uploads d) (owners d) (omap us_quota_bytes (users d)).

Definition used (d : MemoryDatabase) (p : string) : Z :=
  match users d !! p with Some u => us_used_bytes u | None => 0 end.

Record wf (d : MemoryDatabase) : Prop := {
  wf_keys : ∀ h p r, owners d !! (h, p) = Some r → r_sha256 r = h ∧ r_pubkey r = p ∧ 0 <= r_size r;
  wf_used : ∀ p, used d p = used_by (owners d) p
}.

(** Every owner refers to an upload. *)
Definition owned_stored (d : MemoryDatabase) : Prop :=
  ∀ h p, is_Some (owners d !! (h, p)) → is_Some (uploads d !! h).

Lemma wf_sizes d : wf d → map_Forall (fun _ r => 0 <= r_size r) (owners d).
Proof. intros [Hk _] [h p] r Hr. by apply Hk in Hr as (_ & _ & ?). Qed.

Lemma used_nonneg d p : wf d → 0 <= used d p.
Proof. intros W. rewrite (wf_used _ W). by apply used_by_nonneg, wf_sizes. Qed.

Lemma quota_entry d p u :
  us_quota_bytes u = us_quota_bytes (user_entry d p) →
  omap us_quota_bytes (<[p := u]> (users d)) = omap us_quota_bytes (users d).
Proof.
  intros Hu. apply map_eq. intros q. rewrite !lookup_omap. destruct (decide (p = q)) as [->|Hne].
  - rewrite lookup_insert_eq. simpl. rewrite Hu. unfold user_entry. by destruct (users d !! q).
  - by rewrite lookup_insert_ne.
Qed.

Lemma used_entry d p : us_used_bytes (user_entry d p) = used d p.
Proof. unfold user_entry, used. by destruct (users d !! p). Qed.

(** Creating a user changes nothing observable. *)
Lemma create_wf d p : wf d → wf (get_or_create_user d p).1.
Proof.
  intros [Hk Hu]. split; simpl; [done |]. intros q. rewrite <- Hu. unfold used. simpl.
  destruct (decide (p = q)) as [->|].
  - rewrite lookup_insert_eq. apply used_entry.
  - by rewrite lookup_insert_ne.
Qed.
Lemma create_abs d p : abs (get_or_create_user d p).1 = abs d.
Proof. unfold abs. simpl. f_equal. by apply quota_entry. Qed.
Lemma create_used d p q : used (get_or_create_user d p).1 q = used d q.
Proof.
  unfold used. simpl. destruct (decide (p = q)) as [->|].
  - rewrite lookup_insert_eq. apply used_entry.
  - by rewrite lookup_insert_ne.
Qed.

(** The state [record_upload] stores. *)
Lemma store_wf d r d' :
  wf d → owners d !! (r_sha256 r, r_pubkey r) = None → 0 <= r_size r →
  owners d' = <[(r_sha256 r, r_pubkey r) := r]> (owners d) →
  (∀ q, used d' q = if decide (q = r_pubkey r) then used d q + r_size r else used d q) →
  wf d'.
Proof.
  intros [Hk Hu] Hn Hsz Ho Hused. split; rewrite Ho.
  - intros h p x. rewrite lookup_insert_Some. intros [[[= <- <-] <-] | [_ Hx]]; [done | by apply Hk].
  - intros q. rewrite Hused, Hu, used_by_insert by done. unfold add_size. simpl.
    repeat case_decide; subst; try done; lia.
Qed.

Lemma mem_record_upload_refines d r :
  wf d → in_u64 (r_size r) →
  wf (record_upload d r).1
  ∧ (abs (record_upload d r).1, (record_upload d r).2) = Abs.record_upload (abs d) r.
Proof.
  intros W Hsz. unfold record_upload, Abs.record_upload.
  case_decide as Hown; [destruct Hown as [x Hx]; simpl; by rewrite Hx |].
  apply eq_None_not_Some in Hown. simpl a_owners. rewrite Hown.
  pose proof (create_wf d (r_pubkey r) W) as W1. pose proof (create_abs d (r_pubkey r)) as A1.
  pose proof (create_used d (r_pubkey r)) as U1.
  simpl a_quota. rewrite lookup_omap, <- (wf_used _ W).
  unfold get_or_create_user in *. simpl fst in *. cbv beta iota zeta.
  assert (Hq : users d !! r_pubkey r ≫= us_quota_bytes = us_quota_bytes (user_entry d (r_pubkey r))).
  { unfold user_entry. by destruct (users d !! r_pubkey r). }
  rewrite Hq, used_entry. unfold checked_add.
  destruct (decide (used d (r_pubkey r) + r_size r <= u64_max)) as [Hle|Hgt].
  2: { rewrite decide_True by lia. simpl. by rewrite A1. }
  rewrite decide_False by lia.
  set (store := update_used_bytes _ _ _).
  assert (Hst : wf store.1 ∧ abs store.1 =
    mkAbs (match uploads d !! r_sha256 r with Some _ => uploads d | None => <[r_sha256 r := r]> (uploads d) end)
      (<[(r_sha256 r, r_pubkey r) := r]> (owners d)) (omap us_quota_bytes (users d))).
  { split.
    - apply (store_wf d r); try done; [apply Hsz |]. intros q. unfold used, store. simpl.
      case_decide as Eq.
      + subst q. by rewrite lookup_insert_eq.
      + by rewrite !lookup_insert_ne.
    - unfold abs, store. simpl. f_equal. rewrite insert_insert_eq. apply quota_entry.
      unfold user_entry. simpl. by rewrite lookup_insert_eq. }
  destruct (us_quota_bytes _) as [limit|].
  - case_decide as Hl; [rewrite decide_True by lia; simpl; by rewrite A1 |].
    rewrite decide_False by lia. destruct Hst as [? Ha]. split; [done |]. exact (f_equal (fun a => (a, Ok tt)) Ha).
  - destruct Hst as [? Ha]. split; [done |]. exact (f_equal (fun a => (a, Ok tt)) Ha).
Qed.

Lemma debit_quota us p n : omap us_quota_bytes (debit us p n) = omap us_quota_bytes us.
Proof.
  unfold debit. destruct (us !! p) as [u|] eqn:E; [| done]. apply map_eq. intros q.
  rewrite !lookup_omap. destruct (decide (p = q)) as [->|]; [rewrite lookup_insert_eq, E; done |].
  by rewrite lookup_insert_ne.
Qed.

(** Dropping an ownership record debits its size. *)
Lemma drop_wf d k r d' :
  wf d → owners d !! k = Some r → owners d' = delete k (owners d) →
  users d' = debit (users d) (r_pubkey r) (r_size r) → wf d'.
Proof.
  intros W Hk Ho Hus. destruct k as [h p]. pose proof W as [Wk Wu].
  destruct (Wk _ _ _ Hk) as (<- & <- & Hsz). split; rewrite Ho.
  - intros h p x [_ Hx]%lookup_delete_Some. by apply Wk.
  - intros q. specialize (Wu q). rewrite (used_by_delete _ q _ _ Hk) in Wu.
    unfold add_size in Wu. simpl in Wu.
    assert (Hnn : 0 <= used_by (delete (r_sha256 r, r_pubkey r) (owners d)) q).
    { apply used_by_nonneg, map_Forall_delete, wf_sizes, W. }
    unfold used in *. rewrite Hus. unfold debit.
    destruct (decide (r_pubkey r = q)) as [<-|Hne].
    + destruct (users d !! r_pubkey r) as [u|] eqn:E.
      * rewrite lookup_insert_eq. simpl. unfold sat_sub. lia.
      * rewrite E. lia.
    + destruct (users d !! r_pubkey r) as [u|]; [| exact Wu]. by rewrite lookup_insert_ne.
Qed.

Lemma drop_owner_wf d k : wf d → wf (drop_owner d k).
Proof.
  intros W. unfold drop_owner. destruct (owners d !! k) as [r|] eqn:E; [| done].
  by eapply (drop_wf d k r).
Qed.

Lemma drop_owner_owners d k : owners (drop_owner d k) = delete k (owners d).
Proof.
  unfold drop_owner. destruct (owners d !! k) eqn:E; [done |]. symmetry. by apply delete_id.
Qed.

Lemma drop_owner_rest d k :
  uploads (drop_owner d k) = uploads d
  ∧ omap us_quota_bytes (users (drop_owner d k)) = omap us_quota_bytes (users d).
Proof. unfold drop_owner. destruct (owners d !! k); simpl; by rewrite ?debit_quota. Qed.

Lemma drop_owners d ks :
  wf d →
  let d' := foldl drop_owner d ks in
  wf d' ∧ uploads d' = uploads d
  ∧ owners d' = filter (fun kr => kr.1 ∉ ks) (owners d)
  ∧ omap us_quota_bytes (users d') = omap us_quota_bytes (users d).
Proof.
  cbv zeta. revert d. induction ks as [|k ks IH]; intros d W; simpl.
  - split; [done |]. split; [done |]. split; [| done]. symmetry. apply map_filter_id. intros. apply not_elem_of_nil.
  - destruct (IH (drop_owner d k) (drop_owner_wf d k W)) as (H1 & H2 & H3 & H4).
    destruct (drop_owner_rest d k) as [R1 R2]. rewrite H2, H3, H4, R1, R2, drop_owner_owners.
    split; [done |]. split; [done |]. split; [| done]. apply map_eq. intros j. apply option_eq. intros x.
    rewrite !map_lookup_filter_Some, lookup_delete_Some, not_elem_of_cons. simpl. naive_solver.
Qed.

Section with_order.
Context `{HashOrder}.

Lemma mem_delete_upload_refines d h :
  wf d → wf (delete_upload d h).1
  ∧ (abs (delete_upload d h).1, (delete_upload d h).2) = Abs.delete_upload (abs d) h.
Proof.
  intros W. unfold delete_upload, Abs.delete_upload. simpl a_uploads.
  destruct (uploads d !! h) as [u|] eqn:E; [| done].
  set (d1 := mkDb (delete h (uploads d)) (owners d) (users d) (stats d)).
  assert (W1 : wf d1) by (split; apply W).
  set (ks := List.filter _ (hm_keys (owners d1))).
  destruct (drop_owners d1 ks W1) as (H1 & H2 & H3 & H4).
  split; [split; apply H1 |]. simpl. unfold abs. simpl. rewrite H2, H3, H4.
  do 2 f_equal. simpl. apply map_filter_ext. intros [h' p'] r Hr. simpl.
  subst ks. rewrite list_elem_of_In, filter_In, <- list_elem_of_In, elem_of_hm_keys, bool_decide_eq_true.
  simpl. rewrite Hr. naive_solver.
Qed.

Lemma mem_delete_upload_owner_refines d h p :
  wf d → wf (delete_upload_owner d h p).1
  ∧ (abs (delete_upload_owner d h p).1, (delete_upload_owner d h p).2) = Abs.delete_upload_owner (abs d) h p.
Proof.
  intros W. unfold delete_upload_owner, Abs.delete_upload_owner. simpl a_owners.
  destruct (owners d !! (h, p)) as [r|] eqn:E; [| done]. simpl.
  destruct (wf_keys _ W _ _ _ E) as (_ & Hp & _). split.
  - apply (drop_wf d (h, p) r); try done. by rewrite Hp.
  - unfold abs. simpl. by rewrite debit_quota.
Qed.

Lemma check_quota_refines d p n : wf d → check_quota d p n = Abs.check_quota (abs d) p n.
Proof.
  intros W. unfold check_quota, Abs.check_quota. simpl a_quota. rewrite lookup_omap.
  pose proof (wf_used _ W p) as Hu. unfold used in Hu. simpl a_owners.
  destruct (users d !! p) as [u|]; simpl; [| done]. destruct (us_quota_bytes u) as [limit|]; [| done].
  rewrite <- Hu. unfold checked_add. case_decide.
  - case_bool_decide; [rewrite decide_True by lia | rewrite decide_False by lia]; done.
  - rewrite decide_True by lia. done.
Qed.

Lemma owner_count_refines d h :
  upload_owner_count d h = Ok (Z.of_nat (size (Abs.owners_of (abs d) h))).
Proof.
  unfold upload_owner_count, Abs.owners_of, vec_len. do 2 f_equal. simpl.
  rewrite (length_filter_hm_keys (fun k => bool_decide (k.1 = h))). f_equal. apply map_filter_ext.
  intros k r _. simpl. apply bool_decide_eq_true.
Qed.

Lemma set_quota_wf d p q : wf d → wf (set_quota d p q).1.
Proof.
  intros W. split; simpl; [apply W |]. intros p'. rewrite <- (wf_used _ W). unfold used. simpl.
  destruct (decide (p = p')) as [->|]; [rewrite lookup_insert_eq; apply used_entry | by rewrite lookup_insert_ne].
Qed.
Lemma set_role_wf d p role : wf d → wf (set_role d p role).1.
Proof.
  intros W. split; simpl; [apply W |]. intros p'. rewrite <- (wf_used _ W). unfold used. simpl.
  destruct (decide (p = p')) as [->|]; [rewrite lookup_insert_eq; apply used_entry | by rewrite lookup_insert_ne].
Qed.
Lemma set_role_abs d p role : abs (set_role d p role).1 = abs d.
Proof. unfold abs. simpl. f_equal. by apply quota_entry. Qed.
Lemma set_quota_abs d p q :
  abs (set_quota d p q).1 =
  mkAbs (uploads d) (owners d)
    (match q with Some l => <[p := l]> (omap us_quota_bytes (users d))
                | None => delete p (omap us_quota_bytes (users d)) end).
Proof.
  unfold abs. simpl. f_equal. apply map_eq. intros p'. rewrite lookup_omap.
  destruct (decide (p = p')) as [->|].
  - rewrite lookup_insert_eq. simpl. destruct q; by rewrite ?lookup_insert_eq, ?lookup_delete_eq.
  - rewrite lookup_insert_ne by done. destruct q; by rewrite ?lookup_insert_ne, ?lookup_delete_ne, lookup_omap.
Qed.

Lemma refines_of {A} (ares : AbsDb * result A DbError) a a' res :
  (a', res) = ares → refines ares a a' res.
Proof. intros <-. by left. Qed.

(** The in-memory database meets the interface, and enforces the quotas. *)
#[export] Instance laws : BlobDatabaseLaws MemoryDatabase.
Proof.
  refine (Build_BlobDatabaseLaws _ _ abs wf _ _ _ _ _ _ _ _ _ _ _).
  - intros d r W (Hsz & _ & Hmax & _). destruct (mem_record_upload_refines d r W) as [W' E].
    { split; [done |]. pose proof (used_by_nonneg (owners d) (r_pubkey r) (wf_sizes _ W)). simpl in Hmax. unfold i64_max, u64_max in *. lia. }
    split; [done |]. exists true. by apply refines_of.
  - intros d h W. left. simpl. unfold get_upload. by destruct (uploads d !! h).
  - intros d h W. destruct (mem_delete_upload_refines d h W). split; [done | by apply refines_of].
  - intros d h p W. by left.
  - intros d h W. left. apply owner_count_refines.
  - intros d h p W. destruct (mem_delete_upload_owner_refines d h p W). split; [done | by apply refines_of].
  - intros d p n W _. left. by apply check_quota_refines.
  - intros d p q W _. split; [by apply set_quota_wf |]. apply refines_of. unfold Abs.set_quota.
    change (abs d) with (mkAbs (uploads d) (owners d) (omap us_quota_bytes (users d))). cbn [a_uploads a_owners a_quota].
    by rewrite <- set_quota_abs.
  - intros d p W. split; [by apply create_wf |]. change (abs (get_or_create_user d p).1 ≡ abs d). by rewrite create_abs.
  - intros d now h n W. split; [split; apply W | done].
  - intros d p role W. split; [by apply set_role_wf |]. change (abs (set_role d p role).1 ≡ abs d). by rewrite set_role_abs.
Defined.

(** ** Runs *)

Inductive op :=
| RecordUpload (r : UploadRecord)
| DeleteUpload (h : string)
| DeleteOwner (h p : string)
| CreateUser (p : string)
| SetQuota (p : string) (q : option Z)
| RecordAccess (now : Z) (h : string) (n : Z)
| SetRole (p role : string).

(** What the caller of an operation learns. *)
Inductive answer := Done (r : result unit DbError) | Deleted (r : result bool DbError) | Silent.

Definition apply_op (d : MemoryDatabase) (o : op) : MemoryDatabase * answer :=
  match o with
  | RecordUpload r => let '(d, a) := record_upload d r in (d, Done a)
  | DeleteUpload h => let '(d, a) := delete_upload d h in (d, Deleted a)
  | DeleteOwner h p => let '(d, a) := delete_upload_owner d h p in (d, Deleted a)
  | CreateUser p => let '(d, _) := get_or_create_user d p in (d, Silent)
  | SetQuota p q => let '(d, a) := set_quota d p q in (d, Done a)
  | RecordAccess now h n => let '(d, a) := record_access d now h n in (d, Done a)
  | SetRole p role => let '(d, a) := set_role d p role in (d, Done a)
  end.

Definition abs_op (a : AbsDb) (o : op) : AbsDb * answer :=
  match o with
  | RecordUpload r => let '(a, x) := Abs.record_upload a r in (a, Done x)
  | DeleteUpload h => let '(a, x) := Abs.delete_upload a h in (a, Deleted x)
  | DeleteOwner h p => let '(a, x) := Abs.delete_upload_owner a h p in (a, Deleted x)
  | CreateUser p => (a, Silent)
  | SetQuota p q =>
      (mkAbs (a_uploads a) (a_owners a)
         (match q with Some l => <[p := l]> (a_quota a) | None => delete p (a_quota a) end), Done (Ok tt))
  | RecordAccess _ _ _ | SetRole _ _ => (a, Done (Ok tt))
  end.

Fixpoint run {S} (step : S → op → S * answer) (s : S) (ops : list op) : S * list answer :=
  match ops with
  | [] => (s, [])
  | o :: ops => let '(s, x) := step s o in let '(s, xs) := run step s ops in (s, x :: xs)
  end.

Definition op_ok (o : op) : bool :=
  match o with RecordUpload r => bool_decide (0 <= r_size r <= u64_max) | _ => true end.

Lemma apply_op_refines d o :
  wf d → op_ok o = true →
  wf (apply_op d o).1 ∧ (abs (apply_op d o).1, (apply_op d o).2) = abs_op (abs d) o.
Proof.
  intros W Hok. destruct o as [r|h|h p|p|p q|now h n|p role]; unfold apply_op, abs_op.
  - apply bool_decide_eq_true in Hok. destruct (mem_record_upload_refines d r W Hok) as [W' R].
    rewrite <- R. by destruct (record_upload d r).
  - destruct (mem_delete_upload_refines d h W) as [W' R]. rewrite <- R. by destruct (delete_upload d h).
  - destruct (mem_delete_upload_owner_refines d h p W) as [W' R]. rewrite <- R.
    by destruct (delete_upload_owner d h p).
  - pose proof (create_wf d p W) as W'. pose proof (create_abs d p) as A.
    destruct (get_or_create_user d p). simpl in *. by rewrite A.
  - pose proof (set_quota_wf d p q W) as W'. pose proof (set_quota_abs d p q) as A.
    unfold set_quota in *. simpl in *. by rewrite A.
  - split; [split; apply W | done].
  - split; [by apply set_role_wf | simpl; by rewrite <- (set_role_abs d p role)].
Qed.

Lemma run_refines d ops :
  wf d → Forall (fun o => op_ok o = true) ops →
  wf (run apply_op d ops).1 ∧ (abs (run apply_op d ops).1, (run apply_op d ops).2) = run abs_op (abs d) ops.
Proof.
  intros W Hok. revert d W. induction Hok as [|o ops Ho _ IH]; intros d W; [done |].
  destruct (apply_op_refines d o W Ho) as [W' R]. simpl. rewrite <- R.
  destruct (apply_op d o) as [d' x]. simpl in *. destruct (IH d' W') as [W'' R'].
  rewrite <- R'. by destruct (run apply_op d' ops).
Qed.

Lemma mem_new_wf : wf new.
Proof. split; simpl; [intros h p r Hr; by rewrite lookup_empty in Hr | done]. Qed.

(** Ownership implies an upload record, along every run. *)
Lemma abs_op_stored a o :
  (∀ h p, is_Some (a_owners a !! (h, p)) → is_Some (a_uploads a !! h)) →
  ∀ h p, is_Some (a_owners (abs_op a o).1 !! (h, p)) → is_Some (a_uploads (abs_op a o).1 !! h).
Proof.
  intros Hs h p. destruct o as [r|h'|h' p'|p'|p' q|now h' n|p' role]; try apply Hs; simpl.
  - unfold Abs.record_upload. destruct (a_owners a !! _); [apply Hs |].
    case_decide; [apply Hs |].
    destruct (a_quota a !! _); [case_decide; [apply Hs |] |]; simpl;
      (rewrite lookup_insert_is_Some; destruct (a_uploads a !! r_sha256 r) eqn:E;
       [intros [[= <- <-] | [_ Ho]]; [by rewrite E | by eapply Hs]
       |rewrite lookup_insert_is_Some; intros [[= <- <-] | [_ Ho]];
        [by left | destruct (decide (r_sha256 r = h)); [by left | right; split; [done | by eapply Hs]]]]).
  - unfold Abs.delete_upload. destruct (a_uploads a !! h'); [| apply Hs]. simpl.
    intros [x [Hx Hne]%map_lookup_filter_Some]. simpl in Hne. rewrite lookup_delete_ne by done.
    by eapply Hs.
  - unfold Abs.delete_upload_owner. destruct (a_owners a !! _); [| apply Hs]. simpl.
    intros [_ Ho]%lookup_delete_is_Some. by eapply Hs.
Qed.

Lemma abs_run_stored a ops :
  (∀ h p, is_Some (a_owners a !! (h, p)) → is_Some (a_uploads a !! h)) →
  ∀ h p, is_Some (a_owners (run abs_op a ops).1 !! (h, p)) → is_Some (a_uploads (run abs_op a ops).1 !! h).
Proof.
  revert a. induction ops as [|o ops IH]; intros a Hs; [done |]. simpl.
  pose proof (abs_op_stored a o Hs) as Hs'. destruct (abs_op a o) as [a' x].
  specialize (IH a' Hs'). by destruct (run abs_op a' ops).
Qed.

(** C25: the in-memory database refines the abstract one.  Along every sequence
    of the seven operations by which the server changes it (recording and
    deleting an upload, giving up an ownership, creating a user, setting a quota
    or a role, recording an access), with sizes that are [u64]s, those that
    answer more than a user answer the same; its uploads, owners and quotas are
    the abstract ones; and it answers as the abstract database what an upload is,
    who owns it, how many do, whether a quota has room, how many uploads there
    are, and a user's quota and bytes, although it decides on quotas with a
    counter per user that it never recomputes.  ([update_used_bytes], which sets
    that counter, is called by [record_upload] only.) *)
Theorem memory_refines_abstract ops :
  Forall (fun o => op_ok o = true) ops →
  let '(d, answers) := run apply_op new ops in
  let '(a, abs_answers) := run abs_op (mkAbs ∅ ∅ ∅) ops in
  abs d = a ∧ answers = abs_answers
  ∧ (∀ h, get_upload d h = ok_or (a_uploads a !! h) NotFound)
  ∧ (∀ h p, is_upload_owner d h p = Ok (bool_decide (is_Some (a_owners a !! (h, p)))))
  ∧ (∀ h, upload_owner_count d h = Ok (Z.of_nat (size (Abs.owners_of a h))))
  ∧ (∀ p n, check_quota d p n = Abs.check_quota a p n)
  ∧ upload_count d = Z.of_nat (size (a_uploads a))
  ∧ ∀ p, ∃ u, (get_or_create_user d p).2 = Ok u ∧ us_quota_bytes u = a_quota a !! p
      ∧ us_used_bytes u = used_by (a_owners a) p.
Proof.
  intros Hok. destruct (run_refines new ops mem_new_wf Hok) as [W R].
  destruct (run apply_op new ops) as [d xs]. simpl in W, R.
  assert (Hn : abs new = mkAbs ∅ ∅ ∅) by (unfold abs; simpl; by rewrite omap_empty).
  rewrite Hn in R. rewrite <- R. do 5 (split; [done || (intros; apply owner_count_refines) |]).
  split; [intros p n; by apply check_quota_refines |]. split; [done |].
  intros p. exists (user_entry d p). split; [done |]. split; [| rewrite used_entry; apply W].
  simpl. rewrite lookup_omap. unfold user_entry. by destruct (users d !! p).
Qed.

(** The accounting is exact.  After any sequence of operations the
    [used_bytes] of every user is the sum of the sizes of the blobs the user
    owns, and every blob that somebody owns has an upload record. *)
Theorem accounting_exact ops :
  Forall (fun o => op_ok o = true) ops →
  let d := (run apply_op new ops).1 in
  (∀ p, used d p = used_by (owners d) p) ∧ owned_stored d.
Proof.
  intros Hok. cbv zeta. destruct (run_refines new ops mem_new_wf Hok) as [W R].
  split; [apply W |]. intros h p. pose proof (abs_run_stored (abs new) ops) as Hs.
  rewrite <- R in Hs. simpl in Hs. apply (Hs ltac:(intros ? ? [? Hx]; by rewrite lookup_empty in Hx)).
Qed.

(** Quotas hold along runs that do not change them. *)
Definition keeps_quota (p : string) (o : op) : bool :=
  match o with SetQuota p' _ => negb (bool_decide (p' = p)) | _ => true end.

Lemma used_by_filter_le (P : string * string * UploadRecord → Prop) `{!∀ x, Decision (P x)} (o : owner_map) p :
  map_Forall (fun _ r => 0 <= r_size r) o → used_by (filter P o) p <= used_by o p.
Proof.
  induction o as [|k r o Hk IH] using map_ind; intros Hall; [by rewrite map_filter_empty |].
  apply map_Forall_insert in Hall as [Hr Ho]; [| done]. specialize (IH Ho).
  rewrite map_filter_insert. case_decide.
  - rewrite !used_by_insert by (done || by apply map_lookup_filter_None; left).
    unfold add_size. case_decide; lia.
  - rewrite (used_by_insert o) by done. rewrite delete_id by done. unfold add_size. case_decide; lia.
Qed.

Lemma apply_op_quota d o p limit b :
  wf d → op_ok o = true → keeps_quota p o = true → limit <= b →
  omap us_quota_bytes (users d) !! p = Some limit → used_by (owners d) p <= b →
  omap us_quota_bytes (users (apply_op d o).1) !! p = Some limit
  ∧ used_by (owners (apply_op d o).1) p <= b.
Proof.
  intros W Hok Hkeep Hb Hq Hle. destruct (apply_op_refines d o W Hok) as [W' R].
  assert (Ha : omap us_quota_bytes (users (apply_op d o).1) = a_quota (abs_op (abs d) o).1
    ∧ owners (apply_op d o).1 = a_owners (abs_op (abs d) o).1) by (by rewrite <- R).
  destruct Ha as [-> ->]. clear R W'. pose proof (wf_sizes _ W) as Hsz.
  destruct o as [r|h|h p'|p'|p' q|now h n|p' role]; simpl; try done.
  - unfold Abs.record_upload. simpl a_owners. destruct (owners d !! _) eqn:E; [done |].
    case_decide; [done |]. simpl a_quota.
    destruct (omap us_quota_bytes (users d) !! r_pubkey r) as [l|] eqn:Eq.
    + case_decide; [done |]. simpl. rewrite used_by_insert by done. split; [done |].
      unfold add_size. simpl. case_decide as Hp; [| done]. rewrite Hp in *. simplify_eq. lia.
    + simpl. rewrite used_by_insert by done. split; [done |].
      unfold add_size. simpl. case_decide as Hp; [| done]. rewrite Hp in *. congruence.
  - unfold Abs.delete_upload. simpl a_uploads. destruct (uploads d !! h); [| done]. simpl.
    split; [done |]. etrans; [| exact Hle]. by apply used_by_filter_le.
  - unfold Abs.delete_upload_owner. simpl a_owners. destruct (owners d !! _) as [r|] eqn:E; [| done].
    simpl. split; [done |]. rewrite (used_by_delete _ p _ _ E) in Hle. unfold add_size in Hle.
    specialize (Hsz _ _ E). simpl in Hsz. case_decide; lia.
  - simpl in Hkeep. case_bool_decide; [done |].
    destruct q; by rewrite ?lookup_insert_ne, ?lookup_delete_ne.
Qed.

(** C24: quotas are enforced.  Once a quota is set for a user of the in-memory
    database, and until it is changed, whatever sequence of operations follows,
    the blobs the user owns never add up to more than the quota, or than they did
    when it was set if that was more already. *)
Theorem quota_enforced ops ops' p limit :
  Forall (fun o => op_ok o = true) (ops ++ ops') →
  Forall (fun o => keeps_quota p o = true) ops' →
  let d := (set_quota (run apply_op new ops).1 p (Some limit)).1 in
  used_by (owners (run apply_op d ops').1) p <= Z.max limit (used_by (owners d) p).
Proof.
  intros [Hok1 Hok2]%Forall_app Hkeep d.
  destruct (run_refines new ops mem_new_wf Hok1) as [W _].
  assert (Wd : wf d) by (by apply set_quota_wf).
  assert (Hq : omap us_quota_bytes (users d) !! p = Some limit).
  { change (a_quota (abs d) !! p = Some limit). unfold d. rewrite set_quota_abs. apply lookup_insert_eq. }
  assert (Hle : used_by (owners d) p <= Z.max limit (used_by (owners d) p)) by lia.
  assert (Hb : limit <= Z.max limit (used_by (owners d) p)) by lia.
  revert Hle Hb. generalize (Z.max limit (used_by (owners d) p)). intros b Hle Hb.
  clearbody d. clear Hok1 W. revert d Wd Hq Hle.
  induction Hok2 as [|o ops' Ho _ IH]; intros d Wd Hq Hle; [done |].
  inversion Hkeep as [|? ? Hk1 Hk2]; subst. simpl.
  destruct (apply_op_quota d o p limit b Wd Ho Hk1 Hb Hq Hle) as [Hq' Hle'].
  destruct (apply_op_refines d o Wd Ho) as [Wd' _].
  destruct (apply_op d o) as [d' x]. simpl in *. specialize (IH Hk2 d' Wd' Hq' Hle').
  by destruct (run apply_op d' ops').
Qed.

(** A listing is complete and ordered, whatever the iteration order of the hash
    map: one record for each blob the user owns and no other, newest first. *)
Lemma list_uploads_spec ops p :
  Forall (fun o => op_ok o = true) ops →
  let d := (run apply_op new ops).1 in
  ∃ l, list_uploads_by_pubkey d p = Ok l
    ∧ StronglySorted (fun a b => r_created_at b <= r_created_at a) l
    ∧ NoDup (r_sha256 <$> l)
    ∧ ∀ r, r ∈ l ↔ owners d !! (r_sha256 r, p) = Some r.
Proof.
  intros Hok. cbv zeta. destruct (run_refines new ops mem_new_wf Hok) as [W _].
  set (d := (run apply_op new ops).1) in *. clearbody d. eexists. split; [reflexivity |].
  set (l0 := List.filter _ (hm_values (owners d))).
  split.
  { pose proof (sort_by_key_sorted (fun r => - r_created_at r) l0) as Hs.
    induction Hs as [|r l Hs IH Hall]; constructor; [done |].
    eapply Forall_impl; [exact Hall |]. unfold key_le. simpl. lia. }
  assert (Hin : ∀ r, r ∈ l0 ↔ owners d !! (r_sha256 r, p) = Some r).
  { intros r. unfold l0. rewrite list_elem_of_In, filter_In, <- list_elem_of_In, elem_of_hm_values, bool_decide_eq_true.
    split.
    - intros [[[h q] Hk] <-]. by destruct (wf_keys _ W _ _ _ Hk) as (-> & -> & _).
    - intros Hk. split; [by eexists | by destruct (wf_keys _ W _ _ _ Hk) as (_ & -> & _)]. }
  assert (Hperm : sort_by_key (fun r => - r_created_at r) l0 ≡ₚ l0) by apply sort_by_key_perm.
  split; [| intros r; by rewrite Hperm]. rewrite Hperm.
  apply NoDup_fmap_2_strong.
  - intros r1 r2 H1 H2 Heq. apply Hin in H1. apply Hin in H2. rewrite Heq in H1. congruence.
  - unfold l0. apply NoDup_ListNoDup, List.NoDup_filter, NoDup_ListNoDup.
    unfold hm_values. apply NoDup_fmap_2_strong.
    + intros [[h1 p1] r1] [[h2 p2] r2] H1 H2. simpl. intros <-.
      apply elem_of_hm_iter in H1. apply elem_of_hm_iter in H2.
      destruct (wf_keys _ W _ _ _ H1) as (<- & <- & _), (wf_keys _ W _ _ _ H2) as (<- & <- & _). done.
    + rewrite hm_iter_perm. apply NoDup_map_to_list.
Qed.
End with_order.

(** Two users share a blob; one of them deletes it. *)
Definition demo : list op :=
  [SetQuota "a" (Some 100); RecordUpload (mkUpload "h1" 40 "" "a" 10 None);
   RecordUpload (mkUpload "h1" 40 "" "b" 11 None); RecordUpload (mkUpload "h2" 70 "" "a" 12 None);
   RecordUpload (mkUpload "h3" 50 "" "a" 13 None); DeleteOwner "h1" "a"; DeleteUpload "h4"].
Lemma demo_ok : Forall (fun o => op_ok o = true) demo.
Proof. repeat constructor. Qed.

Lemma memory_refines_abstract_witness :
  (run apply_op new demo).2 = (run abs_op (mkAbs ∅ ∅ ∅) demo).2
  ∧ (run apply_op new demo).2 = [Done (Ok tt); Done (Ok tt); Done (Ok tt); Done (Err (QuotaExceeded 40 70 100));
       Done (Ok tt); Deleted (Ok true); Deleted (Ok false)].
Proof.
  pose proof (memory_refines_abstract demo demo_ok) as H.
  destruct (run apply_op new demo) as [d xs] eqn:E. destruct (run abs_op (mkAbs ∅ ∅ ∅) demo) as [a ys].
  destruct H as (_ & H & _).
  split; [exact H | change xs with (d, xs).2; rewrite <- E; vm_compute; reflexivity].
Defined.

Lemma quota_enforced_witness :
  let d := (set_quota (run apply_op new []).1 "a" (Some 100)).1 in
  used_by (owners (run apply_op d (tail demo)).1) "a" <= Z.max 100 (used_by (owners d) "a").
Proof.
  apply (quota_enforced [] (tail demo) "a" 100).
  - repeat constructor.
  - repeat constructor.
Defined.

End MemoryDatabase.

#[export] Instance memory_database `{HashOrder} : BlobDatabase MemoryDatabase := MemoryDatabase.impl.
#[export] Instance memory_database_laws `{HashOrder} : BlobDatabaseLaws MemoryDatabase := MemoryDatabase.laws.
