(* ===== verification/Access.v ===== *)
(** * Access control ([src/src/access/mod.rs])

    The [AccessControl] interface, its three implementations, and the role
    changes that keep the in-memory sets and the database in step.  [bech32] is
    the decoder of the bech32 crate.  A [try_read] of a lock may fail; whether it
    does is an argument. *)

From Stdlib Require Import ZArith Lia Ascii String.
From Stdlib Require Import Strings.Byte.
From stdpp Require Import base list gmap strings numbers sets.
From S2P Require Import Prelude Protocol Database.

Open Scope string_scope.
Open Scope Z_scope.

(** [Action]. *)
Inductive Action := Upload | Download | Delete | List_ | Mirror | Admin | Lock.
(** [Role]. *)
Inductive Role := RAdmin | RMember | RDenied.

#[export] Instance action_eq_dec : EqDecision Action.
Proof. solve_decision. Defined.
#[export] Instance role_eq_dec : EqDecision Role.
Proof. solve_decision. Defined.

(** [AccessControl]. *)
Class AccessControl : Type := {
  is_allowed : string → Action → bool;
  role : string → Role
}.

(** The default [role] of the trait. *)
Definition default_role (is_allowed : string → Action → bool) (pubkey : string) : Role :=
  if is_allowed pubkey Admin then RAdmin
  else if is_allowed pubkey Upload then RMember
  else RDenied.

(** [OpenAccess]. *)
Definition OpenAccess : AccessControl := {|
  is_allowed _ _ := true;
  role _ := RMember
|}.

(** [str::lines]: the parts between line feeds, without a last empty one and
    without a carriage return before the line feed. *)
Fixpoint split_lf (acc : list ascii) (s : string) : list (list ascii) :=
  match s with
  | EmptyString => match acc with [] => [] | _ => [rev acc] end
  | String c r =>
      if decide (c = "010"%char) then
        rev (match acc with d :: acc' => if decide (d = "013"%char) then acc' else acc | [] => [] end)
        :: split_lf [] r
      else split_lf (c :: acc) r
  end.
Definition lines (s : string) : list string := map of_chars (split_lf [] s).

Section access.
Context `{Crates}.
Variable bech32 : string → option (string * list byte).

(** [normalize_pubkey]. *)
Definition normalize_pubkey (input : string) : option string :=
  let input := trim input in
  if starts_with "npub1" input then
    match bech32 input with
    | None => None
    | Some (hrp, data) =>
        if decide (hrp ≠ "npub" ∨ length data ≠ 32%nat) then None else Some (hex_encode data)
    end
  else if bool_decide (str_len input = 64) && str_all is_ascii_hexdigit input then Some input
  else None.

Definition normalized (pubkey : string) : string := default pubkey (normalize_pubkey pubkey).

(** [Whitelist::parse_pubkeys], and the parsing of [RoleBasedAccess::parse_file]. *)
Definition parse_pubkeys (content : string) : gset string :=
  list_to_set (omap normalize_pubkey
    (List.filter (fun line => negb (bool_decide (line = "")) && negb (starts_with "#" line))
       (map trim (lines content)))).

(** ** [Whitelist] *)
Definition Whitelist := gset string.

Definition wl_new (pubkeys : gset string) : Whitelist := pubkeys.
(** [Whitelist::reload] with the text read from the file. *)
Definition wl_reload (content : string) (w : Whitelist) : Whitelist := parse_pubkeys content.
Definition wl_add (w : Whitelist) (pubkey : string) : Whitelist := {[normalized pubkey]} ∪ w.
Definition wl_remove (w : Whitelist) (pubkey : string) : Whitelist := w ∖ {[normalized pubkey]}.
Definition wl_contains (w : Whitelist) (pubkey : string) : bool := bool_decide (pubkey ∈ (w : gset string)).
Definition wl_is_allowed (try_read : bool) (w : Whitelist) (pubkey : string) (action : Action) : bool :=
  if try_read then wl_contains w pubkey else false.
Definition wl_role (try_read : bool) (w : Whitelist) (pubkey : string) : Role :=
  if wl_is_allowed try_read w pubkey Upload then RMember else RDenied.
Definition whitelist_access (try_read : bool) (w : Whitelist) : AccessControl := {|
  is_allowed := wl_is_allowed try_read w;
  role := wl_role try_read w
|}.

(** ** [RoleBasedAccess] *)
Record RoleBasedAccess := mkRba { admins : gset string; members : gset string }.

(** [role]; the two flags say which of the two locks could be read. *)
Definition rba_role (ra rm : bool) (a : RoleBasedAccess) (pubkey : string) : Role :=
  if ra && bool_decide (pubkey ∈ admins a) then RAdmin
  else if rm && bool_decide (pubkey ∈ members a) then RMember
  else RDenied.
Definition rba_is_allowed (ra rm : bool) (a : RoleBasedAccess) (pubkey : string) (action : Action) : bool :=
  match rba_role ra rm a pubkey with
  | RAdmin => true
  | RMember => negb (bool_decide (action = Admin))
  | RDenied => false
  end.
Definition rba_access (ra rm : bool) (a : RoleBasedAccess) : AccessControl := {|
  is_allowed := rba_is_allowed ra rm a;
  role := rba_role ra rm a
|}.

(** [RoleBasedAccess::from_files] and [reload], with the texts read. *)
Definition rba_from_files (admin_text member_text : string) : RoleBasedAccess :=
  mkRba (parse_pubkeys admin_text) (parse_pubkeys member_text).
Definition rba_add_admin (a : RoleBasedAccess) (pubkey : string) : RoleBasedAccess :=
  mkRba ({[normalized pubkey]} ∪ admins a) (members a).
Definition rba_add_member (a : RoleBasedAccess) (pubkey : string) : RoleBasedAccess :=
  mkRba (admins a) ({[normalized pubkey]} ∪ members a).
Definition rba_remove (a : RoleBasedAccess) (pubkey : string) : RoleBasedAccess :=
  mkRba (admins a ∖ {[normalized pubkey]}) (members a ∖ {[normalized pubkey]}).

Section database.
Context {D} `{BlobDatabase D}.

(** [RoleBasedAccess::load_from_database]. *)
Definition load_from_database (d : D) : RoleBasedAccess :=
  let keys r := list_to_set (map us_pubkey (unwrap_or (list_users_by_role d r) [])) in
  mkRba (keys "admin") (keys "member").

(** [RoleBasedAccess::promote_admin]. *)
Definition promote_admin (a : RoleBasedAccess) (pubkey : string) (d : D)
    : RoleBasedAccess * D * result unit DbError :=
  let n := normalized pubkey in
  match set_role d n "admin" with
  | (d, Err e) => (a, d, Err e)
  | (d, Ok _) => (mkRba ({[n]} ∪ admins a) (members a ∖ {[n]}), d, Ok tt)
  end.

(** [RoleBasedAccess::demote_to_member]. *)
Definition demote_to_member (a : RoleBasedAccess) (pubkey : string) (d : D)
    : RoleBasedAccess * D * result unit DbError :=
  let n := normalized pubkey in
  match set_role d n "member" with
  | (d, Err e) => (a, d, Err e)
  | (d, Ok _) => (mkRba (admins a ∖ {[n]}) ({[n]} ∪ members a), d, Ok tt)
  end.

(** [RoleBasedAccess::set_role]. *)
Definition rba_set_role (a : RoleBasedAccess) (pubkey role : string) (d : D)
    : RoleBasedAccess * D * result unit DbError :=
  let n := normalized pubkey in
  match set_role d n role with
  | (d, Err e) => (a, d, Err e)
  | (d, Ok _) =>
      let adm := admins a ∖ {[n]} in
      let mem := members a ∖ {[n]} in
      (if decide (role = "admin") then mkRba ({[n]} ∪ adm) mem
       else if decide (role = "member") then mkRba adm ({[n]} ∪ mem)
       else mkRba adm mem, d, Ok tt)
  end.
End database.
End access.

(** ** Keys *)

Lemma hex_not_space c : is_ascii_hexdigit c = true → ∀ l, ws_prefix (code c :: l) = 0%nat.
Proof.
  intros Hc l. assert (Hr : 48 <= code c <= 102).
  { unfold is_ascii_hexdigit, is_ascii_digit, between in Hc.
    rewrite !orb_true_iff, !andb_true_iff, !Z.leb_le in Hc. lia. }
  unfold ws_prefix, between.
  destruct l as [|b1 [|b2 l]];
    repeat match goal with |- context [?a <=? ?b] => destruct (Z.leb_spec a b); try lia end;
    repeat match goal with |- context [code c =? ?b] => destruct (Z.eqb_spec (code c) b); try lia end; done.
Qed.

Lemma hex_not_space_suffix c : is_ascii_hexdigit c = true → ∀ l, ws_suffix (code c :: l) = 0%nat.
Proof.
  intros Hc l. assert (Hr : 48 <= code c <= 102).
  { unfold is_ascii_hexdigit, is_ascii_digit, between in Hc.
    rewrite !orb_true_iff, !andb_true_iff, !Z.leb_le in Hc. lia. }
  assert (H1 : ∀ b, (ws_prefix [b; code c] =? 2)%nat = false).
  { intros b. unfold ws_prefix, between. destruct (_ || _); [done |].
    destruct (Z.eqb_spec (code c) 133), (Z.eqb_spec (code c) 160); try lia.
    simpl. by rewrite andb_false_r. }
  assert (H2 : ∀ a b, (ws_prefix [a; b; code c] =? 3)%nat = false).
  { intros a b. unfold ws_prefix, between. destruct (_ || _); [done |]. destruct (_ && _); [done |].
    repeat match goal with |- context [code c =? ?z] => destruct (Z.eqb_spec (code c) z); [lia |] end.
    destruct (Z.leb_spec 128 (code c)); [lia |]. simpl. by rewrite !andb_false_r. }
  unfold ws_suffix. rewrite (proj2 (orb_false_iff _ _)).
  2: { unfold between. destruct (Z.leb_spec 9 (code c)), (Z.leb_spec (code c) 13), (Z.eqb_spec (code c) 32); lia || done. }
  destruct l as [|b1 l]; [done |]. rewrite H1. destruct l as [|b2 l]; [done |]. by rewrite H2.
Qed.

Lemma trim_with_id w fuel l : w (map code l) = 0%nat → trim_with w fuel l = l.
Proof. intros Hw. destruct fuel; [done |]. simpl. by rewrite Hw. Qed.

Lemma trim_hex s : str_all is_ascii_hexdigit s = true → trim s = s.
Proof.
  unfold str_all, trim, trim_end, trim_start. intros Hall.
  rewrite (trim_with_id ws_prefix).
  2: { destruct (chars s) as [|c l]; [done |]. simpl in Hall. apply andb_true_iff in Hall as [Hc _].
       by apply hex_not_space. }
  rewrite chars_of_chars, (trim_with_id ws_suffix).
  2: { destruct (rev (chars s)) as [|c l] eqn:E; [done |]. apply hex_not_space_suffix.
       rewrite forallb_forall in Hall. apply Hall. apply in_rev. rewrite E. by left. }
  by rewrite rev_involutive, of_chars_chars.
Qed.

Lemma lower_hex_hexdigit c : is_lower_hex c = true → is_ascii_hexdigit c = true.
Proof. unfold is_lower_hex, is_ascii_hexdigit. destruct (is_ascii_digit c), (between 97 (code c) 102); done. Qed.

Lemma hex_not_npub s : str_all is_ascii_hexdigit s = true → starts_with "npub1" s = false.
Proof.
  intros Hall. unfold starts_with. apply bool_decide_eq_false. intros [r Hr].
  apply strip_prefix_Some in Hr. subst s. by vm_compute in Hall.
Qed.

Section normalize_facts.
Context `{CratesLaws}.
Variable bech32 : string → option (string * list byte).

Lemma normalize_hex k :
  str_len k = 64 → str_all is_ascii_hexdigit k = true → normalize_pubkey bech32 k = Some k.
Proof.
  intros Hl Hh. unfold normalize_pubkey. rewrite trim_hex by done. rewrite hex_not_npub by done.
  by rewrite bool_decide_eq_true_2, Hh.
Qed.

Lemma normalize_canonical s k :
  normalize_pubkey bech32 s = Some k →
  str_len k = 64 ∧ str_all is_ascii_hexdigit k = true ∧ normalize_pubkey bech32 k = Some k.
Proof.
  intros Hn. assert (Hk : str_len k = 64 ∧ str_all is_ascii_hexdigit k = true).
  { unfold normalize_pubkey in Hn. destruct (starts_with _ _).
    - destruct (bech32 (trim s)) as [[hrp data]|]; [| done]. case_decide as Hd; [done |].
      injection Hn as <-. assert (length data = 32%nat) by (destruct (decide (length data = 32%nat)); tauto).
      unfold str_len. rewrite hex_encode_length. split; [lia |].
      pose proof (hex_encode_lower data) as Hl. unfold str_all in *. rewrite forallb_forall in *.
      intros c Hc. by apply lower_hex_hexdigit, Hl.
    - case_bool_decide as Hl; [| done]. simpl in Hn.
      destruct (str_all is_ascii_hexdigit (trim s)) eqn:E; [| done]. injection Hn as <-. done. }
  destruct Hk. split; [done |]. split; [done |]. by apply normalize_hex.
Qed.

Lemma normalized_idem s : normalized bech32 (normalized bech32 s) = normalized bech32 s.
Proof.
  unfold normalized. destruct (normalize_pubkey bech32 s) as [k|] eqn:E; cbn; [| by rewrite E].
  destruct (normalize_canonical s k E) as (_ & _ & Hk). by rewrite Hk.
Qed.

(** What [normalize_pubkey] returns is a canonical key: 64 hexadecimal
    digits, and a fixed point of [normalize_pubkey], for both input formats and
    for whatever the bech32 decoder answers. *)
Theorem normalize_pubkey_canonical s k :
  normalize_pubkey bech32 s = Some k →
  str_len k = 64 ∧ str_all is_ascii_hexdigit k = true ∧ normalize_pubkey bech32 k = Some k.
Proof. apply normalize_canonical. Qed.
End normalize_facts.

(** ** Roles and the database *)

Section roles.
Context `{Crates} `{HashOrder}.
Variable bech32 : string → option (string * list byte).

Definition role_rank (r : Role) : Z := match r with RAdmin => 2 | RMember => 1 | RDenied => 0 end.

(** A lock that cannot be read never grants anything: with a failed
    [try_read], [RoleBasedAccess] and [Whitelist] give a caller at most the
    role, and allow at most the actions, they would with the lock held. *)
Theorem access_fails_closed ra rm tr a w p act :
  role_rank (rba_role ra rm a p) <= role_rank (rba_role true true a p)
  ∧ (rba_is_allowed ra rm a p act = true → rba_is_allowed true true a p act = true)
  ∧ (wl_is_allowed tr w p act = true → wl_is_allowed true w p act = true)
  ∧ role_rank (wl_role tr w p) <= role_rank (wl_role true w p).
Proof.
  unfold rba_is_allowed, rba_role, wl_role, wl_is_allowed.
  destruct ra, rm, tr, (bool_decide (p ∈ admins a)), (bool_decide (p ∈ members a)), (wl_contains w p);
    simpl; repeat split; try done; try lia; by destruct act.
Qed.

(** The users with a role, in the database. *)
Definition roles_in (d : MemoryDatabase) (r : string) : gset string :=
  dom (filter (fun kv => us_role kv.2 = r) (users d)).
Definition user_keys (d : MemoryDatabase) : Prop :=
  ∀ p u, users d !! p = Some u → us_pubkey u = p.

Lemma elem_of_roles_in d r p :
  p ∈ roles_in d r ↔ ∃ u, users d !! p = Some u ∧ us_role u = r.
Proof.
  unfold roles_in. rewrite elem_of_dom. unfold is_Some. setoid_rewrite map_lookup_filter_Some. done.
Qed.

Lemma load_roles d : user_keys d → load_from_database d = mkRba (roles_in d "admin") (roles_in d "member").
Proof.
  intros Hk. unfold load_from_database. simpl.
  assert (Hset : ∀ r, list_to_set (map us_pubkey
    (List.filter (fun u => bool_decide (us_role u = r)) (hm_values (users d)))) =@{gset string} roles_in d r).
  { intros r. apply set_eq. intros p. rewrite elem_of_list_to_set, elem_of_roles_in, list_elem_of_In, in_map_iff.
    setoid_rewrite filter_In. setoid_rewrite <- list_elem_of_In. setoid_rewrite elem_of_hm_values.
    setoid_rewrite bool_decide_eq_true. split.
    - intros (u & <- & [p' Hp] & Hr). rewrite (Hk _ _ Hp). eauto.
    - intros (u & Hp & Hr). exists u. split; [by apply Hk |]. eauto. }
  by rewrite !Hset.
Qed.

Lemma roles_in_set_role d n r r' :
  roles_in (MemoryDatabase.set_role d n r').1 r =
  if decide (r = r') then {[n]} ∪ roles_in d r else roles_in d r ∖ {[n]}.
Proof.
  apply set_eq. intros p. rewrite elem_of_roles_in. simpl. destruct (decide (p = n)) as [->|Hne].
  - rewrite lookup_insert_eq. case_decide; set_solver.
  - rewrite lookup_insert_ne by done. rewrite <- elem_of_roles_in. case_decide; set_solver.
Qed.

Lemma set_role_user_keys d n r : user_keys d → user_keys (MemoryDatabase.set_role d n r).1.
Proof.
  intros Hk p u. simpl. rewrite lookup_insert_Some. intros [[<- <-] | [_ Hp]]; [| by apply Hk].
  simpl. unfold MemoryDatabase.user_entry. destruct (users d !! n) as [u|] eqn:E; [by apply Hk | done].
Qed.

(** Role changes made through the server. *)
Inductive role_change := Promote (p : string) | Demote (p : string) | Change (p role : string).

Definition apply_change (s : RoleBasedAccess * MemoryDatabase) (c : role_change)
    : RoleBasedAccess * MemoryDatabase :=
  let '(a, d) := s in
  match c with
  | Promote p => (promote_admin bech32 a p d).1
  | Demote p => (demote_to_member bech32 a p d).1
  | Change p r => (rba_set_role bech32 a p r d).1
  end.
Definition apply_changes := foldl apply_change.

Definition in_sync (s : RoleBasedAccess * MemoryDatabase) : Prop :=
  user_keys s.2 ∧ s.1 = mkRba (roles_in s.2 "admin") (roles_in s.2 "member").

Lemma set_role_result d n r :
  set_role (D := MemoryDatabase) d n r = ((MemoryDatabase.set_role d n r).1, Ok tt).
Proof. reflexivity. Qed.

Lemma add_back (n : string) (X : gset string) : {[n]} ∪ X ∖ {[n]} = {[n]} ∪ X.
Proof. apply set_eq. intros x. destruct (decide (x = n)); set_solver. Qed.

Lemma apply_change_sync s c : in_sync s → in_sync (apply_change s c).
Proof.
  destruct s as [a d]. intros [Hk Hs]. cbn [fst snd] in *. subst a.
  destruct c as [p|p|p r]; unfold apply_change, promote_admin, demote_to_member, rba_set_role;
    rewrite set_role_result; cbv zeta; cbn [fst snd admins members];
    (split; cbn [fst snd]; [apply set_role_user_keys, Hk |]); rewrite !roles_in_set_role.
  - by rewrite decide_True, decide_False.
  - by rewrite decide_False, decide_True.
  - destruct (decide (r = "admin")) as [->|Ha].
    + rewrite decide_True, decide_False by done. by rewrite add_back.
    + destruct (decide (r = "member")) as [->|Hm].
      * rewrite decide_False, decide_True by done. by rewrite add_back.
      * by rewrite !decide_False by congruence.
Qed.

Lemma apply_changes_sync s cs : in_sync s → in_sync (apply_changes s cs).
Proof. revert s. induction cs as [|c cs IH]; intros s Hs; [done |]. by apply IH, apply_change_sync. Qed.

(** Role changes survive a restart.  Starting from the roles loaded from
    a database, after any sequence of promotions, demotions and role changes the
    in-memory sets are exactly what loading the database again would give, so
    every caller has the role the database records. *)
Theorem roles_survive_restart d cs :
  user_keys d →
  let '(a, d') := apply_changes (load_from_database d, d) cs in
  load_from_database d' = a
  ∧ ∀ p, rba_role true true a p =
      match users d' !! p with
      | Some u => if decide (us_role u = "admin") then RAdmin
                  else if decide (us_role u = "member") then RMember else RDenied
      | None => RDenied
      end.
Proof.
  intros Hk. pose proof (apply_changes_sync (load_from_database d, d) cs) as Hs.
  destruct (apply_changes _ cs) as [a d']. destruct Hs as [Hk' Ha]; [by split; [| apply load_roles] |].
  simpl in Hk', Ha. split; [by rewrite load_roles |]. intros p. subst a. unfold rba_role. simpl.
  destruct (users d' !! p) as [u|] eqn:E.
  - assert (Hr : ∀ r, bool_decide (p ∈ roles_in d' r) = bool_decide (us_role u = r)).
    { intros r. apply bool_decide_ext. rewrite elem_of_roles_in, E. naive_solver. }
    rewrite !Hr. repeat case_bool_decide; repeat case_decide; congruence.
  - rewrite !bool_decide_eq_false_2; [done | |]; rewrite elem_of_roles_in, E; naive_solver.
Qed.
End roles.

Module AccessExamples.
Import Concrete.
Definition no_bech32 (s : string) : option (string * list byte) := None.
Definition key64 : string := of_chars (replicate 64 "a"%char).

(** A user record that exists only because it was looked up counts as a
    membership at the next start: [get_or_create_user] gives it the role
    [member]. *)
Example lookup_grants_membership :
  let d := (MemoryDatabase.set_role MemoryDatabase.new "a" "admin").1 in
  let d' := (MemoryDatabase.get_or_create_user d "x").1 in
  rba_role true true (load_from_database d) "x" = RDenied
  ∧ rba_role true true (load_from_database d') "x" = RMember.
Proof. vm_compute. split; reflexivity. Qed.

(** Open and whitelisted servers give no one the role of an administrator but
    allow everyone they admit the administrator's action. *)
Example member_allowed_admin_action :
  role (AccessControl := OpenAccess) "x" = RMember
  ∧ is_allowed (AccessControl := OpenAccess) "x" Admin = true
  ∧ wl_role true {["x"]} "x" = RMember ∧ wl_is_allowed true {["x"]} "x" Admin = true.
Proof. vm_compute. repeat split; reflexivity. Qed.
End AccessExamples.
