(* ===== verification/Storage.v ===== *)
(** * Blob storage ([src/src/storage/mod.rs], [memory.rs], [filesystem.rs])

    [BlobBackend] is the interface, [BlobBackendLaws] what the server relies on:
    a backend is a map from hashes to bytes, an operation that fails leaves the
    map as it was.  [MemoryBackend] and [FilesystemBackend] implement it; the
    second works on a directory whose operations may fail at any step, and its
    writes are shown to be atomic under a crash. *)

From Stdlib Require Import ZArith Lia Ascii String.
From Stdlib Require Import Strings.Byte.
From stdpp Require Import base list gmap strings numbers sets.
From S2P Require Import Prelude Protocol.

Open Scope string_scope.
Open Scope Z_scope.

(** The environment of a call: the clock, the random name it draws and, for
    each system call it makes, the error it meets, if any ([f_write] with the
    number of bytes written before the error). *)
Record Faults := mkFaults {
  f_create : option string;
  f_write : option (nat * string);
  f_sync : option string;
  f_rename : option string;
  f_cleanup : option string;
  f_read : option string;
  f_remove : option string
}.
Definition no_faults : Faults := mkFaults None None None None None None None.

Record Env := mkEnv {
  env_now : Z;
  env_uuid : string;
  env_faults : Faults
}.

(** ** The interface *)

Class BlobBackend (B : Type) : Type := {
  insert_blob : Env → B → list byte → string → B * BlobDescriptor;
  try_insert : Env → B → list byte → string → B * result BlobDescriptor string;
  insert_with_hash : Env → B → list byte → string → Z → string → B * BlobDescriptor;
  try_insert_with_hash : Env → B → list byte → string → Z → string → B * result BlobDescriptor string;
  get : Env → B → string → option (list byte);
  exists_blob : B → string → bool;
  delete_blob : Env → B → string → B * bool;
  try_delete : Env → B → string → B * result bool string;
  len : B → Z;
  total_bytes : B → Z;
  insert_stream : Env → B → reader → Z → string → B * result BlobDescriptor string
}.

(** [FilesystemBackend::valid_hash]: 64 lower-case hexadecimal digits. *)
Definition valid_hash (sha256 : string) : bool :=
  bool_decide (str_len sha256 = 64) && str_all is_lower_hex sha256.

Section descriptors.
Context `{Crates}.

(** [make_descriptor_from_hash]. *)
Definition make_descriptor_from_hash (now : Z) (hash : string) (size : Z) (base_url : string)
    : BlobDescriptor :=
  mkDescriptor hash size (Some "application/octet-stream") (Some (base_url +:+ "/" +:+ hash)) (Some now).

(** [make_descriptor]. *)
Definition make_descriptor (now : Z) (data : list byte) (base_url : string) : BlobDescriptor :=
  make_descriptor_from_hash now (sha256_hex data) (vec_len data) base_url.

Lemma valid_hash_sha256 `{!CratesLaws} data : valid_hash (sha256_hex data) = true.
Proof.
  unfold valid_hash, sha256_hex, str_len. rewrite hex_encode_length, hasher_finalize_length.
  by rewrite hex_encode_lower.
Qed.

(** What the server relies on of a backend. *)
Class BlobBackendLaws (B : Type) `{BlobBackend B} : Type := {
  contents : B → gmap string (list byte);
  backend_wf : B → Prop;
  try_insert_law : ∀ env b data url, backend_wf b →
    let '(b', r) := try_insert env b data url in
    backend_wf b' ∧ match r with
      | Ok d => contents b' = <[sha256_hex data := data]> (contents b)
                ∧ d = make_descriptor (env_now env) data url
      | Err _ => contents b' = contents b
      end;
  try_insert_with_hash_law : ∀ env b data h size url, backend_wf b → valid_hash h = true →
    let '(b', r) := try_insert_with_hash env b data h size url in
    backend_wf b' ∧ match r with
      | Ok d => contents b' = <[h := data]> (contents b)
                ∧ d = make_descriptor_from_hash (env_now env) h size url
      | Err _ => contents b' = contents b
      end;
  get_law : ∀ env b h, backend_wf b →
    (f_read (env_faults env) = None → get env b h = contents b !! h)
    ∧ (∀ x, get env b h = Some x → contents b !! h = Some x);
  exists_law : ∀ b h, backend_wf b → valid_hash h = true →
    exists_blob b h = bool_decide (is_Some (contents b !! h));
  try_delete_law : ∀ env b h, backend_wf b → valid_hash h = true →
    let '(b', r) := try_delete env b h in
    backend_wf b' ∧ match r with
      | Ok existed => contents b' = delete h (contents b)
                      ∧ existed = bool_decide (is_Some (contents b !! h))
      | Err _ => contents b' = contents b
      end
}.
End descriptors.

(** ** [MemoryBackend] *)

Record MemoryBackend := mkMem {
  blobs : gmap string (list byte);
  index : gmap string Z
}.

Module MemoryBackend.
Section ops.
Context `{Crates}.

(** [MemoryBackend::new]. *)
Definition new : MemoryBackend := mkMem ∅ ∅.

Definition put (m : MemoryBackend) (desc : BlobDescriptor) (data : list byte) : MemoryBackend :=
  mkMem (<[d_sha256 desc := data]> (blobs m)) (<[d_sha256 desc := d_size desc]> (index m)).

(** [insert]. *)
Definition insert (env : Env) (m : MemoryBackend) (data : list byte) (base_url : string)
    : MemoryBackend * BlobDescriptor :=
  let desc := make_descriptor (env_now env) data base_url in
  (put m desc data, desc).

(** [insert_with_hash]. *)
Definition insert_with_hash (env : Env) (m : MemoryBackend) (data : list byte) (hash : string)
    (original_size : Z) (base_url : string) : MemoryBackend * BlobDescriptor :=
  let desc := make_descriptor_from_hash (env_now env) hash original_size base_url in
  (put m desc data, desc).

(** [get]. *)
Definition get (m : MemoryBackend) (sha256 : string) : option (list byte) := blobs m !! sha256.

(** [exists]. *)
Definition exists_ (m : MemoryBackend) (sha256 : string) : bool :=
  bool_decide (is_Some (index m !! sha256)).

(** [delete]. *)
Definition delete_ (m : MemoryBackend) (sha256 : string) : MemoryBackend * bool :=
  (mkMem (delete sha256 (blobs m)) (delete sha256 (index m)),
   bool_decide (is_Some (index m !! sha256))).

(** [len], [total_bytes]. *)
Definition len (m : MemoryBackend) : Z := Z.of_nat (size (index m)).
Definition total_bytes (m : MemoryBackend) : Z := wrap_u64 (map_fold (fun _ n acc => n + acc) 0 (index m)).

(** [Read::read_to_end]. *)
Definition read_to_end (rd : reader) : result (list byte) string :=
  match read_error rd with Some e => Err ("read stream: " +:+ e) | None => Ok (delivered rd) end.

(** The default [insert_stream] of the trait. *)
Definition insert_stream (env : Env) (m : MemoryBackend) (rd : reader) (base_url : string)
    : MemoryBackend * result BlobDescriptor string :=
  match read_to_end rd with
  | Err e => (m, Err e)
  | Ok data => let '(m, d) := insert env m data base_url in (m, Ok d)
  end.

(** The fallible variants are the defaults of the trait. *)
#[export] Instance impl : BlobBackend MemoryBackend := {|
  insert_blob := insert;
  try_insert env m data url := let '(m, d) := insert env m data url in (m, Ok d);
  Storage.insert_with_hash := insert_with_hash;
  try_insert_with_hash env m data h sz url :=
    let '(m, d) := insert_with_hash env m data h sz url in (m, Ok d);
  Storage.get _ := get;
  exists_blob := exists_;
  delete_blob _ := delete_;
  try_delete _ m h := let '(m, b) := delete_ m h in (m, Ok b);
  Storage.len := len;
  Storage.total_bytes := total_bytes;
  Storage.insert_stream env m rd _ url := insert_stream env m rd url
|}.

(** The index and the data have the same keys. *)
Definition wf (m : MemoryBackend) : Prop := dom (index m) = dom (blobs m).

Lemma wf_is_Some m h : wf m → is_Some (index m !! h) ↔ is_Some (blobs m !! h).
Proof. intros W. rewrite <- !elem_of_dom. by rewrite W. Qed.

#[export] Instance laws : BlobBackendLaws MemoryBackend.
Proof.
  refine (Build_BlobBackendLaws _ _ blobs wf _ _ _ _ _); unfold wf; simpl.
  - intros env b data url W. split; [set_solver | done].
  - intros env b data h sz url W _. split; [set_solver | done].
  - done.
  - intros b h W _. apply bool_decide_ext. by apply wf_is_Some.
  - intros env b h W _. split; [set_solver | split; [done |]]. apply bool_decide_ext. by apply wf_is_Some.
Defined.
End ops.
End MemoryBackend.

(** ** [FilesystemBackend] *)

(** The regular files of the data directory, by name. *)
Notation disk := (gmap string (list byte)).

(** [FilesystemBackend] and the directory it works on. *)
Record FilesystemBackend := mkFs {
  files : disk;
  fs_index : gmap string Z
}.

Module FilesystemBackend.
Section ops.
Context `{Crates} `{HashOrder}.

(** The body of the directory scan of [FilesystemBackend::new]. *)
Definition scan_entry (index : gmap string Z) (entry : string * list byte) : gmap string Z :=
  let '(name, data) := entry in
  if ends_with ".blob" name then
    let hash := trim_end_matches_str ".blob" name in
    if valid_hash hash then <[hash := vec_len data]> index else index
  else index.
Definition scan (d : disk) : gmap string Z := foldl scan_entry ∅ (hm_iter string (list byte) d).

(** [FilesystemBackend::new] on a directory, which may not be readable. *)
Definition new (env : Env) (d : disk) : result FilesystemBackend string :=
  match f_read (env_faults env) with
  | Some e => Err e
  | None => Ok (mkFs d (scan d))
  end.

(** [blob_path], relative to the data directory. *)
Definition blob_path (sha256 : string) : option string :=
  if valid_hash sha256 then Some (sha256 +:+ ".blob") else None.

Definition tmp_path (env : Env) : string := ".tmp_" +:+ env_uuid env.

(** The closure of [atomic_write]: the disk it leaves and its result. *)
Definition write_and_rename (env : Env) (d : disk) (final_path : string) (data : list byte)
    : disk * result unit string :=
  let f := env_faults env in
  let tmp := tmp_path env in
  match f_create f with
  | Some e => (d, Err ("create temp blob: " +:+ e))
  | None =>
      if decide (is_Some (d !! tmp)) then (d, Err "create temp blob: file exists")
      else
        match f_write f with
        | Some (n, e) => (<[tmp := take n data]> d, Err ("write temp blob: " +:+ e))
        | None =>
            let d1 := <[tmp := data]> d in
            match f_sync f with
            | Some e => (d1, Err ("sync temp blob: " +:+ e))
            | None =>
                match f_rename f with
                | Some e => (d1, Err ("commit blob: " +:+ e))
                | None => (<[final_path := data]> (delete tmp d1), Ok tt)
                end
            end
        end
  end.

(** [let _ = std::fs::remove_file(&tmp_path)]. *)
Definition cleanup (env : Env) (d : disk) : disk :=
  match f_cleanup (env_faults env) with Some _ => d | None => delete (tmp_path env) d end.

(** [atomic_write]. *)
Definition atomic_write (env : Env) (d : disk) (hash : string) (data : list byte)
    : disk * result unit string :=
  match blob_path hash with
  | None => (d, Err "invalid SHA256 storage key")
  | Some final_path =>
      match write_and_rename env d final_path data with
      | (d, Ok _) => (d, Ok tt)
      | (d, Err e) => (cleanup env d, Err e)
      end
  end.

(** The common part of the four inserting methods. *)
Definition store (env : Env) (fs : FilesystemBackend) (desc : BlobDescriptor) (data : list byte)
    : FilesystemBackend * result BlobDescriptor string :=
  match atomic_write env (files fs) (d_sha256 desc) data with
  | (d, Err e) => (mkFs d (fs_index fs), Err e)
  | (d, Ok _) => (mkFs d (<[d_sha256 desc := d_size desc]> (fs_index fs)), Ok desc)
  end.

(** [try_insert], [insert]. *)
Definition try_insert (env : Env) (fs : FilesystemBackend) (data : list byte) (base_url : string)
    : FilesystemBackend * result BlobDescriptor string :=
  store env fs (make_descriptor (env_now env) data base_url) data.
Definition insert (env : Env) (fs : FilesystemBackend) (data : list byte) (base_url : string)
    : FilesystemBackend * BlobDescriptor :=
  let desc := make_descriptor (env_now env) data base_url in
  ((store env fs desc data).1, desc).

(** [try_insert_with_hash], [insert_with_hash]. *)
Definition try_insert_with_hash (env : Env) (fs : FilesystemBackend) (data : list byte) (hash : string)
    (original_size : Z) (base_url : string) : FilesystemBackend * result BlobDescriptor string :=
  store env fs (make_descriptor_from_hash (env_now env) hash original_size base_url) data.
Definition insert_with_hash (env : Env) (fs : FilesystemBackend) (data : list byte) (hash : string)
    (original_size : Z) (base_url : string) : FilesystemBackend * BlobDescriptor :=
  let desc := make_descriptor_from_hash (env_now env) hash original_size base_url in
  ((store env fs desc data).1, desc).

(** [get]. *)
Definition get (env : Env) (fs : FilesystemBackend) (sha256 : string) : option (list byte) :=
  match blob_path sha256 with
  | None => None
  | Some path =>
      match files fs !! path with
      | None => None
      | Some data => match f_read (env_faults env) with Some _ => None | None => Some data end
      end
  end.

Definition is_file (fs : FilesystemBackend) (path : string) : bool :=
  bool_decide (is_Some (files fs !! path)).

(** [exists]. *)
Definition exists_ (fs : FilesystemBackend) (sha256 : string) : bool :=
  bool_decide (is_Some (fs_index fs !! sha256))
  || match blob_path sha256 with Some path => is_file fs path | None => false end.

(** [try_delete]. *)
Definition try_delete (env : Env) (fs : FilesystemBackend) (sha256 : string)
    : FilesystemBackend * result bool string :=
  match blob_path sha256 with
  | None => (fs, Err "invalid SHA256 storage key")
  | Some path =>
      let existed := bool_decide (is_Some (fs_index fs !! sha256)) || is_file fs path in
      if existed then
        match f_remove (env_faults env) with
        | Some e => (fs, Err ("delete blob: " +:+ e))
        | None =>
            if is_file fs path then
              (mkFs (delete path (files fs)) (delete sha256 (fs_index fs)), Ok true)
            else (fs, Err "delete blob: no such file")
        end
      else (fs, Ok false)
  end.

(** [delete]. *)
Definition delete_ (env : Env) (fs : FilesystemBackend) (sha256 : string) : FilesystemBackend * bool :=
  let '(fs, r) := try_delete env fs sha256 in (fs, unwrap_or r false).

(** [len], [total_bytes]. *)
Definition len (fs : FilesystemBackend) : Z := Z.of_nat (size (fs_index fs)).
Definition total_bytes (fs : FilesystemBackend) : Z :=
  wrap_u64 (map_fold (fun _ n acc => n + acc) 0 (fs_index fs)).

(** The copy loop of [insert_stream]: what it has written to the temporary
    file, and the hash and the size. *)
Fixpoint stream_loop (f : Faults) (rd : reader) (h : hasher) (total : Z) (acc : list byte)
    : list byte * result (string * Z) string :=
  match rd with
  | [] => (acc, Ok (hex_encode (hasher_finalize h), total))
  | Err e :: _ => (acc, Err ("read stream: " +:+ e))
  | Ok [] :: _ => (acc, Ok (hex_encode (hasher_finalize h), total))
  | Ok buf :: rd' =>
      let h := hasher_update h buf in
      match f_write f with
      | Some (n, e) =>
          if decide (n < length (acc ++ buf))%nat then (take n (acc ++ buf)%list, Err ("write temp: " +:+ e))
          else stream_loop f rd' h (total + vec_len buf) (acc ++ buf)%list
      | None => stream_loop f rd' h (total + vec_len buf) (acc ++ buf)%list
      end
  end.

(** The closure of [insert_stream]; [File::create] truncates. *)
Definition stream_to_blob (env : Env) (fs : FilesystemBackend) (rd : reader) (base_url : string)
    : FilesystemBackend * result BlobDescriptor string :=
  let f := env_faults env in
  let tmp := tmp_path env in
  match f_create f with
  | Some e => (fs, Err ("create temp: " +:+ e))
  | None =>
      let '(written, r) := stream_loop f rd hasher_new 0 [] in
      let d1 := <[tmp := written]> (files fs) in
      match r with
      | Err e => (mkFs d1 (fs_index fs), Err e)
      | Ok (hash, total) =>
          match f_sync f with
          | Some e => (mkFs d1 (fs_index fs), Err ("flush temp: " +:+ e))
          | None =>
              match blob_path hash with
              | None => (mkFs d1 (fs_index fs), Err "invalid computed SHA256")
              | Some final_path =>
                  match f_rename f with
                  | Some e => (mkFs d1 (fs_index fs), Err ("rename temp to blob: " +:+ e))
                  | None =>
                      (mkFs (<[final_path := written]> (delete tmp d1)) (<[hash := total]> (fs_index fs)),
                       Ok (make_descriptor_from_hash (env_now env) hash total base_url))
                  end
              end
          end
      end
  end.

(** [insert_stream]. *)
Definition insert_stream (env : Env) (fs : FilesystemBackend) (rd : reader) (base_url : string)
    : FilesystemBackend * result BlobDescriptor string :=
  match stream_to_blob env fs rd base_url with
  | (fs, Ok d) => (fs, Ok d)
  | (fs, Err e) => (mkFs (cleanup env (files fs)) (fs_index fs), Err e)
  end.

#[export] Instance impl : BlobBackend FilesystemBackend := {|
  insert_blob := insert;
  Storage.try_insert := try_insert;
  Storage.insert_with_hash := insert_with_hash;
  Storage.try_insert_with_hash := try_insert_with_hash;
  Storage.get := get;
  exists_blob := exists_;
  delete_blob := delete_;
  Storage.try_delete := try_delete;
  Storage.len := len;
  Storage.total_bytes := total_bytes;
  Storage.insert_stream env fs rd _ url := insert_stream env fs rd url
|}.
End ops.

(** ** The blobs on a disk *)

Lemma blob_name_inj a b : a +:+ ".blob" = b +:+ ".blob" → a = b.
Proof.
  intros E. pose proof (proj2 (strip_suffix_Some ".blob" _ a) eq_refl) as Ha.
  rewrite E, (proj2 (strip_suffix_Some ".blob" _ b) eq_refl) in Ha. congruence.
Qed.

Definition blob_of (nd : string * list byte) : option (string * list byte) :=
  match strip_suffix ".blob" nd.1 with
  | Some h => if valid_hash h then Some (h, nd.2) else None
  | None => None
  end.
Definition blobs_on (d : disk) : gmap string (list byte) :=
  list_to_map (omap blob_of (map_to_list d)).

Lemma blob_of_Some nd h x :
  blob_of nd = Some (h, x) ↔ nd = (h +:+ ".blob", x) ∧ valid_hash h = true.
Proof.
  destruct nd as [n y]. unfold blob_of. simpl. split.
  - destruct (strip_suffix ".blob" n) as [h'|] eqn:E; [| done]. apply strip_suffix_Some in E.
    destruct (valid_hash h') eqn:V; [| done]. intros [= -> ->]. by subst.
  - intros [[= -> ->] V]. rewrite (proj2 (strip_suffix_Some ".blob" _ h) eq_refl). by rewrite V.
Qed.

Lemma blobs_on_lookup d h :
  blobs_on d !! h = if valid_hash h then d !! (h +:+ ".blob") else None.
Proof.
  assert (Hin : ∀ x, blobs_on d !! h = Some x ↔ valid_hash h = true ∧ d !! (h +:+ ".blob") = Some x).
  { intros x. unfold blobs_on. rewrite <- elem_of_list_to_map.
    - rewrite list_elem_of_omap. split.
      + intros (nd & Hnd & [-> V]%blob_of_Some). by apply elem_of_map_to_list in Hnd.
      + intros [V Hd]. exists (h +:+ ".blob", x). by rewrite elem_of_map_to_list, blob_of_Some.
    - apply (NoDup_fmap_1 (fun h => h +:+ ".blob")).
      assert (Hsub : ∀ l : list (string * list byte), NoDup l.*1 →
        NoDup ((fun h => h +:+ ".blob") <$> (omap blob_of l).*1)
        ∧ ∀ n, n ∈ ((fun h => h +:+ ".blob") <$> (omap blob_of l).*1) → n ∈ l.*1).
      { induction l as [|nd l IH]; intros Hnd; simpl; [split; [constructor | done] |].
        apply NoDup_cons in Hnd as [Hn Hnd]. destruct (IH Hnd) as [I1 I2].
        destruct (blob_of nd) as [[h' x']|] eqn:E; simpl.
        - apply blob_of_Some in E as [-> V]. simpl in *. split.
          + apply NoDup_cons. split; [| done]. intros Hc. by apply Hn, I2.
          + intros n [-> | Hn']%elem_of_cons; [by left | right; by apply I2].
        - split; [done |]. intros n Hn'. right. by apply I2. }
      apply Hsub, NoDup_fst_map_to_list. }
  apply option_eq. intros x. rewrite Hin. destruct (valid_hash h); naive_solver.
Qed.

(** A temporary file is never a blob. *)
Lemma tmp_not_blob env h : valid_hash h = true → tmp_path env ≠ h +:+ ".blob".
Proof.
  unfold valid_hash, tmp_path. intros [Hl Hh]%andb_true_iff E.
  apply bool_decide_eq_true in Hl. destruct h as [|c h]; [done |]. simpl in E. injection E as <- _.
  unfold str_all in Hh. simpl in Hh. done.
Qed.

Lemma write_and_rename_blob env d h h' data :
  valid_hash h' = true →
  let '(d', r) := write_and_rename env d (h +:+ ".blob") data in
  d' !! (h' +:+ ".blob") =
    match r with
    | Ok _ => if decide (h' = h) then Some data else d !! (h' +:+ ".blob")
    | Err _ => d !! (h' +:+ ".blob")
    end.
Proof.
  intros V'. pose proof (tmp_not_blob env h' V') as Hne. unfold write_and_rename.
  destruct (f_create _); [done |]. destruct (decide (is_Some (d !! _))); [done |].
  destruct (f_write _) as [[k e]|]; [by rewrite lookup_insert_ne |].
  destruct (f_sync _); [by rewrite lookup_insert_ne |].
  destruct (f_rename _); [by rewrite lookup_insert_ne |].
  destruct (decide (h' = h)) as [->|Hh]; [by rewrite lookup_insert_eq |].
  rewrite lookup_insert_ne by (intros Hc; by apply Hh, eq_sym, blob_name_inj).
  by rewrite lookup_delete_ne, lookup_insert_ne.
Qed.

Lemma cleanup_blob env d h' :
  valid_hash h' = true → cleanup env d !! (h' +:+ ".blob") = d !! (h' +:+ ".blob").
Proof.
  intros V'. unfold cleanup. destruct (f_cleanup _); [done |].
  by rewrite lookup_delete_ne by (by apply tmp_not_blob).
Qed.

Lemma atomic_write_blobs env d h data :
  valid_hash h = true →
  let '(d', r) := atomic_write env d h data in
  blobs_on d' = match r with Ok _ => <[h := data]> (blobs_on d) | Err _ => blobs_on d end.
Proof.
  intros V. unfold atomic_write, blob_path. rewrite V.
  pose proof (fun h' => write_and_rename_blob env d h h' data) as Hl.
  destruct (write_and_rename env d _ data) as [d' r].
  assert (Hgoal : blobs_on (match r with Ok _ => d' | Err _ => cleanup env d' end) =
    match r with Ok _ => <[h := data]> (blobs_on d) | Err _ => blobs_on d end);
    [| by destruct r as [[]|]].
  apply map_eq. intros h'. destruct r as [[]|].
  - destruct (decide (h = h')) as [<-|Hne].
    + rewrite lookup_insert_eq, blobs_on_lookup, V, Hl by done. by rewrite decide_True.
    + rewrite lookup_insert_ne, !blobs_on_lookup by done. destruct (valid_hash h') eqn:V'; [| done].
      rewrite Hl by done. by rewrite decide_False.
  - rewrite !blobs_on_lookup. destruct (valid_hash h') eqn:V'; [| done]. by rewrite cleanup_blob, Hl.
Qed.

(** The index holds the valid hashes whose file exists. *)
Definition wf (fs : FilesystemBackend) : Prop :=
  ∀ h, is_Some (fs_index fs !! h) ↔ is_Some (blobs_on (files fs) !! h).

Section laws.
Context `{CratesLaws} `{HashOrder}.

Lemma store_law env fs desc data :
  wf fs → valid_hash (d_sha256 desc) = true →
  let '(fs', r) := store env fs desc data in
  wf fs' ∧ match r with
    | Ok d => blobs_on (files fs') = <[d_sha256 desc := data]> (blobs_on (files fs)) ∧ d = desc
    | Err _ => blobs_on (files fs') = blobs_on (files fs)
    end.
Proof.
  intros W V. unfold store. pose proof (atomic_write_blobs env (files fs) _ data V) as Hb.
  destruct (atomic_write _ _ _ _) as [d' [[]|e]]; simpl in *.
  - split; [| done]. intros h. simpl. rewrite Hb, !lookup_insert_is_Some. by rewrite (W h).
  - split; [| done]. intros h. simpl. rewrite Hb. apply W.
Qed.

Lemma is_file_blob fs h : valid_hash h = true → is_file fs (h +:+ ".blob") = bool_decide (is_Some (blobs_on (files fs) !! h)).
Proof. intros V. unfold is_file. by rewrite blobs_on_lookup, V. Qed.

Lemma blobs_on_delete d h :
  valid_hash h = true → blobs_on (delete (h +:+ ".blob") d) = delete h (blobs_on d).
Proof.
  intros V. apply map_eq. intros h'. rewrite blobs_on_lookup. destruct (decide (h = h')) as [<-|Hne].
  - by rewrite V, !lookup_delete_eq.
  - rewrite (lookup_delete_ne (blobs_on d)) by done. rewrite blobs_on_lookup. destruct (valid_hash h'); [| done].
    rewrite lookup_delete_ne; [done |]. intros Hc. by apply Hne, blob_name_inj.
Qed.

Lemma try_delete_fs env fs h :
  wf fs → valid_hash h = true →
  let '(fs', r) := try_delete env fs h in
  wf fs' ∧ match r with
    | Ok existed => blobs_on (files fs') = delete h (blobs_on (files fs))
                    ∧ existed = bool_decide (is_Some (blobs_on (files fs) !! h))
    | Err _ => blobs_on (files fs') = blobs_on (files fs)
    end.
Proof.
  intros W V. unfold try_delete, blob_path. rewrite V, is_file_blob by done.
  rewrite (bool_decide_ext _ _ (W h)), orb_diag. case_bool_decide as Hx.
  - destruct (f_remove _); [done |]. simpl. rewrite blobs_on_delete by done. split; [| done].
    intros h'. simpl. rewrite blobs_on_delete, !lookup_delete_is_Some by done. by rewrite (W h').
  - split; [done |]. split; [| done]. symmetry. apply delete_id. by apply eq_None_not_Some.
Qed.

#[export] Instance fs_laws : BlobBackendLaws FilesystemBackend.
Proof.
  refine (Build_BlobBackendLaws _ _ (fun fs => blobs_on (files fs)) wf _ _ _ _ _).
  - intros env fs data url W. apply store_law; [done | apply valid_hash_sha256].
  - intros env fs data h sz url W V. by apply store_law.
  - intros env fs h W. rewrite blobs_on_lookup. simpl. unfold get, blob_path.
    destruct (valid_hash h); [| done]. destruct (files fs !! _), (f_read _); naive_solver.
  - intros fs h W V. simpl. unfold exists_, blob_path. rewrite V, is_file_blob by done.
    by rewrite (bool_decide_ext _ _ (W h)), orb_diag.
  - intros env fs h W V. by apply try_delete_fs.
Defined.

(** ** Streaming *)

Lemma stream_loop_spec f rd h total acc :
  match stream_loop f rd h total acc with
  | (w, Ok (hash, n)) =>
      read_error rd = None ∧ w = (acc ++ delivered rd)%list
      ∧ hash = hex_encode (hasher_finalize (hasher_update h (delivered rd)))
      ∧ n = total + vec_len (delivered rd)
  | (_, Err _) => True
  end.
Proof.
  revert h total acc. induction rd as [|[[|b buf]|e] rd IH]; intros h total acc; simpl; try done.
  - by rewrite hasher_update_nil, app_nil_r, Z.add_0_r.
  - by rewrite hasher_update_nil, app_nil_r, Z.add_0_r.
  - assert (Hgo : match stream_loop f rd (hasher_update h (b :: buf)) (total + vec_len (b :: buf)) (acc ++ b :: buf)%list with
      | (w, Ok (hash, n)) => read_error rd = None ∧ w = (acc ++ b :: buf ++ delivered rd)%list
          ∧ hash = hex_encode (hasher_finalize (hasher_update h (b :: buf ++ delivered rd)%list))
          ∧ n = total + vec_len (b :: buf ++ delivered rd)
      | (_, Err _) => True end).
    { specialize (IH (hasher_update h (b :: buf)) (total + vec_len (b :: buf)) (acc ++ b :: buf)%list).
      destruct (stream_loop _ _ _ _ _) as [w [[hash n]|]]; [| done].
      destruct IH as (I1 & I2 & I3 & I4). rewrite hasher_update_app in I3.
      rewrite <- app_assoc in I2. simpl in I2. simpl in I3. split; [done |]. split; [done |]. split; [done |].
      rewrite I4. unfold vec_len. simpl. rewrite length_app. lia. }
    destruct (f_write f) as [[k e]|]; [| exact Hgo]. case_decide; [done | exact Hgo].
Qed.

Lemma insert_blob_lookup d env h w h' :
  valid_hash h' = true →
  (<[h +:+ ".blob" := w]> (delete (tmp_path env) (<[tmp_path env := w]> d)) : disk) !! (h' +:+ ".blob")
  = if decide (h' = h) then Some w else d !! (h' +:+ ".blob").
Proof.
  intros V'. pose proof (tmp_not_blob env h' V') as Hne. case_decide as Hh; [subst; by rewrite lookup_insert_eq |].
  rewrite lookup_insert_ne by (intros Hc; by apply Hh, eq_sym, blob_name_inj).
  by rewrite lookup_delete_ne, lookup_insert_ne.
Qed.

Lemma blobs_on_tmp env d w : blobs_on (<[tmp_path env := w]> d) = blobs_on d.
Proof.
  apply map_eq. intros h. rewrite !blobs_on_lookup. destruct (valid_hash h) eqn:V; [| done].
  by rewrite lookup_insert_ne by (by apply tmp_not_blob).
Qed.
Lemma blobs_on_cleanup env d : blobs_on (cleanup env d) = blobs_on d.
Proof.
  apply map_eq. intros h. rewrite !blobs_on_lookup. destruct (valid_hash h) eqn:V; [| done].
  by apply cleanup_blob.
Qed.
Lemma blobs_on_rename env d h w :
  valid_hash h = true →
  blobs_on (<[h +:+ ".blob" := w]> (delete (tmp_path env) (<[tmp_path env := w]> d))) = <[h := w]> (blobs_on d).
Proof.
  intros V. apply map_eq. intros h'. rewrite blobs_on_lookup. destruct (valid_hash h') eqn:V'.
  - rewrite insert_blob_lookup by done. case_decide as Hh; [subst; by rewrite lookup_insert_eq |].
    rewrite lookup_insert_ne, blobs_on_lookup by done. by rewrite V'.
  - rewrite lookup_insert_ne by congruence. by rewrite blobs_on_lookup, V'.
Qed.

Lemma insert_stream_law env fs rd url :
  wf fs →
  let '(fs', r) := insert_stream env fs rd url in
  wf fs' ∧ match r with
    | Ok d => read_error rd = None ∧ d = make_descriptor (env_now env) (delivered rd) url
              ∧ blobs_on (files fs') = <[sha256_hex (delivered rd) := delivered rd]> (blobs_on (files fs))
    | Err _ => blobs_on (files fs') = blobs_on (files fs)
    end.
Proof.
  intros W. unfold insert_stream, stream_to_blob.
  assert (Herr : ∀ w, wf (mkFs (cleanup env (<[tmp_path env := w]> (files fs))) (fs_index fs))
    ∧ blobs_on (cleanup env (<[tmp_path env := w]> (files fs))) = blobs_on (files fs)).
  { intros w. assert (E : blobs_on (cleanup env (<[tmp_path env := w]> (files fs))) = blobs_on (files fs))
      by (by rewrite blobs_on_cleanup, blobs_on_tmp).
    split; [| done]. intros h. simpl. rewrite E. apply W. }
  destruct (f_create _).
  { assert (E : blobs_on (cleanup env (files fs)) = blobs_on (files fs)) by apply blobs_on_cleanup.
    split; [| done]. intros h. simpl. rewrite E. apply W. }
  pose proof (stream_loop_spec (env_faults env) rd hasher_new 0 []) as Hs.
  destruct (stream_loop _ _ _ _ _) as [w [[hash n]|e]]; [| apply Herr].
  destruct Hs as (Hre & -> & Hh & ->). fold (sha256_hex (delivered rd)) in Hh. subst hash.
  destruct (f_sync _); [apply Herr |]. unfold blob_path. rewrite valid_hash_sha256.
  destruct (f_rename _); [apply Herr |]. simpl app.
  assert (Hb : blobs_on (<[sha256_hex (delivered rd) +:+ ".blob" := delivered rd]>
      (delete (tmp_path env) (<[tmp_path env := delivered rd]> (files fs))))
    = <[sha256_hex (delivered rd) := delivered rd]> (blobs_on (files fs)))
    by apply blobs_on_rename, valid_hash_sha256.
  split; [| by split].
  intros h. cbn [files fs_index]. rewrite Hb, !lookup_insert_is_Some. by rewrite (W h).
Qed.

(** ** Restart *)

(** Names the backend itself creates. *)
Definition own_name (n : string) : Prop :=
  (∃ h, valid_hash h = true ∧ n = h +:+ ".blob") ∨ ∃ u, n = ".tmp_" +:+ u.
Definition tidy (d : disk) : Prop := ∀ n, is_Some (d !! n) → own_name n.

Lemma hex_no_blob h r : str_all is_lower_hex h = true → h ≠ r +:+ ".blob".
Proof.
  intros Hh ->. unfold str_all in Hh. rewrite chars_app, forallb_app in Hh.
  apply andb_true_iff in Hh as [_ Hh]. done.
Qed.

Lemma trim_blob_name h : valid_hash h = true → trim_end_matches_str ".blob" (h +:+ ".blob") = h.
Proof.
  intros [Hl Hh]%andb_true_iff. unfold trim_end_matches_str.
  destruct (String.length (h +:+ ".blob")) as [|n] eqn:E.
  { rewrite <- length_chars, chars_app, length_app in E. simpl in E. lia. }
  simpl. rewrite (proj2 (strip_suffix_Some ".blob" _ h) eq_refl). destruct n as [|n]; [done |]. simpl.
  destruct (strip_suffix ".blob" h) as [r|] eqn:Er; [| done].
  apply strip_suffix_Some in Er. by apply hex_no_blob in Er.
Qed.

Lemma scan_tmp idx u x : scan_entry idx (".tmp_" +:+ u, x) = idx.
Proof.
  unfold scan_entry. destruct (ends_with _ _); [| done].
  destruct (valid_hash _) eqn:V; [| done]. exfalso.
  destruct (trim_end_str_prefix (String.length (".tmp_" +:+ u)) ".blob" (".tmp_" +:+ u)) as [t Ht].
  fold (trim_end_matches_str ".blob" (".tmp_" +:+ u)) in Ht.
  destruct (trim_end_matches_str ".blob" (".tmp_" +:+ u)) as [|c r]; [done |].
  simpl in Ht. injection Ht as <- _. by apply andb_true_iff in V as [_ V].
Qed.

Lemma scan_blob idx h x : valid_hash h = true → scan_entry idx (h +:+ ".blob", x) = <[h := vec_len x]> idx.
Proof.
  intros V. unfold scan_entry, ends_with.
  rewrite (proj2 (strip_suffix_Some ".blob" _ h) eq_refl). rewrite bool_decide_eq_true_2 by done.
  by rewrite trim_blob_name, V.
Qed.

Lemma scan_list (l : list (string * list byte)) idx h :
  NoDup l.*1 → Forall (fun nd => own_name nd.1) l →
  foldl scan_entry idx l !! h =
  match list_find (fun nd => nd.1 = h +:+ ".blob") l with
  | Some (_, nd) => if valid_hash h then Some (vec_len nd.2) else idx !! h
  | None => idx !! h
  end.
Proof.
  revert idx. induction l as [|[n x] l IH]; intros idx Hnd Hown; [done |].
  apply NoDup_cons in Hnd as [Hn Hnd]. inversion Hown as [|? ? Ho Hown']; subst. simpl in Ho.
  cbn [foldl]. rewrite IH by done. cbn [list_find fst].
  assert (Hnone : n = h +:+ ".blob" → list_find (fun nd : string * list byte => nd.1 = h +:+ ".blob") l = None).
  { intros ->. apply list_find_None. apply Forall_forall. intros [n' x'] Hin Hc. simpl in *. subst.
    apply Hn. apply list_elem_of_fmap. by exists (h +:+ ".blob", x'). }
  destruct Ho as [(h' & V & ->) | (u & ->)].
  - rewrite scan_blob by done. case_decide as Hd; simpl in Hd.
    + rewrite Hnone by done. apply blob_name_inj in Hd as ->. by rewrite V, lookup_insert_eq.
    + rewrite lookup_insert_ne by congruence. by destruct (list_find _ l) as [[? ?]|].
  - rewrite scan_tmp. case_decide as Hd; simpl in Hd.
    + rewrite Hnone by done. destruct (valid_hash h) eqn:V; [| done].
      by destruct (tmp_not_blob (mkEnv 0 u no_faults) h V).
    + by destruct (list_find _ l) as [[? ?]|].
Qed.

Lemma scan_spec d h : tidy d → scan d !! h = vec_len <$> blobs_on d !! h.
Proof.
  intros Ht. unfold scan.
  assert (Hnd : NoDup (hm_iter string (list byte) d).*1) by apply NoDup_hm_keys.
  rewrite scan_list; [| done |].
  2: { apply Forall_forall. intros [n x] Hin%elem_of_hm_iter. apply Ht. by exists x. }
  rewrite blobs_on_lookup. destruct (list_find _ _) as [[i nd]|] eqn:E.
  - apply list_find_Some in E as (Hi & Hn & _). destruct nd as [n x]. simpl in *. subst n.
    apply list_elem_of_lookup_2, elem_of_hm_iter in Hi. rewrite Hi. by destruct (valid_hash h).
  - rewrite lookup_empty. destruct (valid_hash h) eqn:V; [| done].
    destruct (d !! (h +:+ ".blob")) as [x|] eqn:Ex; [| done].
    apply elem_of_hm_iter in Ex. apply list_find_None in E.
    rewrite Forall_forall in E. by destruct (E _ Ex).
Qed.

Lemma tidy_insert_tmp env d w : tidy d → tidy (<[tmp_path env := w]> d).
Proof. intros Ht n [<- | [_ Hn]]%lookup_insert_is_Some; [right; by eexists | by apply Ht]. Qed.
Lemma tidy_insert_blob d h w : valid_hash h = true → tidy d → tidy (<[h +:+ ".blob" := w]> d).
Proof. intros V Ht n [<- | [_ Hn]]%lookup_insert_is_Some; [left; eauto | by apply Ht]. Qed.
Lemma tidy_delete d n : tidy d → tidy (delete n d).
Proof. intros Ht n' [_ Hn]%lookup_delete_is_Some. by apply Ht. Qed.
Lemma tidy_cleanup env d : tidy d → tidy (cleanup env d).
Proof. unfold cleanup. destruct (f_cleanup _); [done | apply tidy_delete]. Qed.

Lemma tidy_atomic_write env d h data : tidy d → tidy (atomic_write env d h data).1.
Proof.
  intros Ht. unfold atomic_write, blob_path, write_and_rename. destruct (valid_hash h) eqn:V; [| done].
  repeat case_match; simplify_eq; simpl; auto using tidy_cleanup, tidy_insert_tmp, tidy_insert_blob, tidy_delete.
Qed.

(** Operations, with the faults they meet. *)
Inductive fs_op :=
| OpInsert (env : Env) (data : list byte) (url : string)
| OpInsertHash (env : Env) (data : list byte) (h : string) (size : Z) (url : string)
| OpDelete (env : Env) (h : string)
| OpStream (env : Env) (rd : reader) (url : string).

Definition apply_fs (fs : FilesystemBackend) (o : fs_op) : FilesystemBackend :=
  match o with
  | OpInsert env data url => (try_insert env fs data url).1
  | OpInsertHash env data h sz url => (try_insert_with_hash env fs data h sz url).1
  | OpDelete env h => (try_delete env fs h).1
  | OpStream env rd url => (insert_stream env fs rd url).1
  end.

Lemma store_tidy env fs desc data : tidy (files fs) → tidy (files (store env fs desc data).1).
Proof.
  intros Ht. pose proof (tidy_atomic_write env (files fs) (d_sha256 desc) data Ht) as Ha.
  unfold store. by destruct (atomic_write _ _ _ _) as [d [?|?]].
Qed.

Lemma fs_store_wf env fs desc data : wf fs → wf (store env fs desc data).1.
Proof.
  intros W. destruct (valid_hash (d_sha256 desc)) eqn:V.
  - pose proof (store_law env fs desc data W V) as Hs. destruct (store env fs desc data). by destruct Hs.
  - unfold store, atomic_write, blob_path. by rewrite V.
Qed.

Lemma insert_stream_tidy env fs rd url : tidy (files fs) → tidy (files (insert_stream env fs rd url).1).
Proof.
  intros Ht. unfold insert_stream, stream_to_blob, blob_path.
  destruct (f_create _); [by apply tidy_cleanup |].
  destruct (stream_loop _ _ _ _ _) as [w [[hash n]|e]]; [| by apply tidy_cleanup, tidy_insert_tmp].
  destruct (f_sync _); [by apply tidy_cleanup, tidy_insert_tmp |].
  destruct (valid_hash hash) eqn:V; [| by apply tidy_cleanup, tidy_insert_tmp].
  destruct (f_rename _); [by apply tidy_cleanup, tidy_insert_tmp |].
  by apply tidy_insert_blob, tidy_delete, tidy_insert_tmp.
Qed.

Lemma apply_fs_ok fs o : wf fs ∧ tidy (files fs) → wf (apply_fs fs o) ∧ tidy (files (apply_fs fs o)).
Proof.
  intros [W Ht]. destruct o as [env data url|env data h sz url|env h|env rd url]; simpl.
  - split; [by apply fs_store_wf | by apply store_tidy].
  - split; [by apply fs_store_wf | by apply store_tidy].
  - split.
    + destruct (valid_hash h) eqn:V.
      * pose proof (try_delete_fs env fs h W V) as Hd. destruct (try_delete env fs h). by destruct Hd.
      * unfold try_delete, blob_path. by rewrite V.
    + unfold try_delete. repeat case_match; try done. by apply tidy_delete.
  - pose proof (insert_stream_law env fs rd url W) as Hi. pose proof (insert_stream_tidy env fs rd url Ht).
    destruct (insert_stream env fs rd url). by destruct Hi.
Qed.

Lemma apply_all_ok ops fs : wf fs ∧ tidy (files fs) →
  wf (foldl apply_fs fs ops) ∧ tidy (files (foldl apply_fs fs ops)).
Proof. revert fs. induction ops as [|o ops IH]; intros fs W; [done |]. by apply IH, apply_fs_ok. Qed.

Lemma empty_ok : wf (mkFs ∅ ∅) ∧ tidy (files (mkFs ∅ ∅)).
Proof.
  split; [intros h; simpl; rewrite blobs_on_lookup, !lookup_empty; by destruct (valid_hash h) |].
  intros n [x Hx]. simpl in Hx. by rewrite lookup_empty in Hx.
Qed.

(** C31: a restart loses nothing and invents nothing.  After any sequence of
    inserts, streaming inserts and deletions, each of which may fail at any
    system call, reopening the directory gives a backend that has the same
    blobs, with the same bytes. *)
Theorem restart_preserves_blobs ops env :
  f_read (env_faults env) = None →
  let fs := foldl apply_fs (mkFs ∅ ∅) ops in
  ∃ fs', new env (files fs) = Ok fs' ∧ wf fs'
    ∧ ∀ h, exists_ fs' h = exists_ fs h ∧ ∀ env', get env' fs' h = get env' fs h.
Proof.
  intros Hr fs. destruct (apply_all_ok ops _ empty_ok) as [W Ht]. fold fs in W, Ht. clearbody fs.
  unfold new. rewrite Hr. eexists. split; [reflexivity |].
  assert (W' : wf (mkFs (files fs) (scan (files fs)))).
  { intros h. simpl. rewrite scan_spec by done. by rewrite fmap_is_Some. }
  split; [done |]. intros h. split; [| done]. unfold exists_, is_file.
  rewrite (bool_decide_ext _ _ (W' h)), (bool_decide_ext _ _ (W h)). done.
Qed.

(** ** Crashes *)

(** The states the disk goes through in [atomic_write], one per system call
    (and one per byte of a write); a crash stops at one of them. *)
Definition crash_states (env : Env) (d : disk) (hash : string) (data : list byte) : list disk :=
  let f := env_faults env in
  let tmp := tmp_path env in
  match blob_path hash with
  | None => [d]
  | Some final_path =>
      d ::
      match f_create f with
      | Some _ => [cleanup env d]
      | None =>
          if decide (is_Some (d !! tmp)) then [cleanup env d]
          else
            let n := match f_write f with Some (n, _) => n | None => length data end in
            let written := map (fun k => <[tmp := take k data]> d) (seq 0 (S n)) in
            let aborted := cleanup env (<[tmp := take n data]> d) in
            (written ++
             match f_write f, f_sync f, f_rename f with
             | None, None, None => [<[final_path := data]> (delete tmp (<[tmp := data]> d))]
             | _, _, _ => [aborted]
             end)%list
      end
  end.

(** C30: a write is atomic.  At every point at which [atomic_write] may be
    interrupted, by a failing system call or by a crash, every blob on the disk
    is intact: the one being written is there with all of its bytes or as it
    was before, and the others are untouched.  The state the call ends in is
    the last of these. *)
Theorem write_atomic_under_crash env d hash data :
  (∀ d', d' ∈ crash_states env d hash data →
     blobs_on d' = blobs_on d ∨ valid_hash hash = true ∧ blobs_on d' = <[hash := data]> (blobs_on d))
  ∧ last (crash_states env d hash data) = Some (atomic_write env d hash data).1.
Proof.
  unfold crash_states, atomic_write, write_and_rename, blob_path.
  destruct (valid_hash hash) eqn:V; [| split; [intros d' ->%list_elem_of_singleton; by left | done]].
  assert (Hcl : ∀ w, blobs_on (cleanup env (<[tmp_path env := w]> d)) = blobs_on d)
    by (intros w; by rewrite blobs_on_cleanup, blobs_on_tmp).
  destruct (f_create _).
  { split; [| done]. intros d' [-> | ->%list_elem_of_singleton]%elem_of_cons; left; [done | apply blobs_on_cleanup]. }
  destruct (decide (is_Some (d !! _))).
  { split; [| done]. intros d' [-> | ->%list_elem_of_singleton]%elem_of_cons; left; [done | apply blobs_on_cleanup]. }
  cbv zeta. split.
  - intros d' [-> | Hin]%elem_of_cons; [by left |]. apply elem_of_app in Hin as [Hin | Hin].
    + left. apply list_elem_of_In, in_map_iff in Hin as (k & <- & _). apply blobs_on_tmp.
    + destruct (f_write (env_faults env)) as [[? ?]|], (f_sync (env_faults env)), (f_rename (env_faults env)); apply list_elem_of_singleton in Hin as ->;
        first [left; apply Hcl | right; split; [done | by apply blobs_on_rename]].
  - rewrite app_comm_cons, last_app.
    destruct (f_write (env_faults env)) as [[? ?]|], (f_sync (env_faults env)), (f_rename (env_faults env)); rewrite ?firstn_all; done.
Qed.

(** Streaming an upload is the same as inserting it.  Whatever the sizes
    of the chunks a reader delivers, if [insert_stream] succeeds it stores
    exactly the bytes delivered, under their SHA-256, with the descriptor of a
    buffered insert; if it fails, no blob has changed. *)
Theorem stream_insert_equivalent env fs rd url :
  wf fs →
  match insert_stream env fs rd url with
  | (fs', Ok d) =>
      read_error rd = None
      ∧ ∃ fs'', try_insert (mkEnv (env_now env) (env_uuid env) no_faults)
                  (mkFs (delete (tmp_path env) (files fs)) (fs_index fs)) (delivered rd) url = (fs'', Ok d)
                ∧ blobs_on (files fs') = blobs_on (files fs'')
  | (fs', Err _) => blobs_on (files fs') = blobs_on (files fs)
  end.
Proof.
  intros W. pose proof (insert_stream_law env fs rd url W) as Hi.
  destruct (insert_stream env fs rd url) as [fs' [d|e]]; [| tauto].
  destruct Hi as (_ & Hre & -> & Hb). split; [done |]. rewrite Hb.
  unfold try_insert, store, atomic_write, blob_path, write_and_rename, tmp_path.
  cbn [env_faults env_uuid env_now f_create f_write f_sync f_rename no_faults make_descriptor
       make_descriptor_from_hash d_sha256]. rewrite valid_hash_sha256.
  rewrite decide_False by (cbn [files]; rewrite lookup_delete_eq; by intros [? ?]).
  eexists. split; [reflexivity |]. cbn [files fst]. fold (tmp_path env).
  rewrite blobs_on_rename by apply valid_hash_sha256. f_equal.
  apply map_eq. intros h. rewrite !blobs_on_lookup. destruct (valid_hash h) eqn:V; [| done].
  by rewrite lookup_delete_ne by (by apply tmp_not_blob).
Qed.
End laws.
End FilesystemBackend.

#[export] Instance memory_backend `{Crates} : BlobBackend MemoryBackend := MemoryBackend.impl.
#[export] Instance memory_backend_laws `{Crates} : BlobBackendLaws MemoryBackend := MemoryBackend.laws.
#[export] Instance filesystem_backend `{Crates} : BlobBackend FilesystemBackend := FilesystemBackend.impl.
#[export] Instance filesystem_backend_laws `{CratesLaws} : BlobBackendLaws FilesystemBackend :=
  FilesystemBackend.fs_laws.

Module StorageExamples.
Import Concrete.
Definition env0 : Env := mkEnv 7 "u" no_faults.
Definition data0 : list byte := [x01; x02; x03].
Definition hash0 : string := sha256_hex data0.

(** A write that fails half-way, one that succeeds. *)
Definition ops0 : list FilesystemBackend.fs_op :=
  [FilesystemBackend.OpInsert
     (mkEnv 7 "u" (mkFaults None (Some (1%nat, "disk full")) None None (Some "busy") None None)) data0 "http://s";
   FilesystemBackend.OpInsert (mkEnv 7 "v" no_faults) data0 "http://s"].

Lemma restart_preserves_blobs_witness :
  let fs := foldl FilesystemBackend.apply_fs (mkFs ∅ ∅) ops0 in
  size (files fs) = 2%nat
  ∧ ∃ fs', FilesystemBackend.new env0 (files fs) = Ok fs' ∧ FilesystemBackend.get env0 fs' hash0 = Some data0.
Proof.
  cbv zeta. split; [vm_compute; reflexivity |].
  destruct (FilesystemBackend.restart_preserves_blobs ops0 env0 eq_refl) as (fs' & Hn & _ & Hh).
  exists fs'. split; [exact Hn |]. destruct (Hh hash0) as [_ Hg]. rewrite (Hg env0). vm_compute. reflexivity.
Defined.

End StorageExamples.
