(* ===== verification/Locks.v ===== *)
(** * LFS file locks ([src/src/locks/mod.rs], [src/src/server/locks.rs])

    The lock database, the dates its records are shown with, and the four
    endpoints.  [uuid] is the identifier drawn for a new lock. *)

From Stdlib Require Import ZArith Lia Ascii String.
From stdpp Require Import base list gmap strings numbers sorting.
From S2P Require Import Prelude Protocol Auth Replay RequestAuth Access.

Open Scope string_scope.
Open Scope Z_scope.

(** ** The lock database *)

(** [LockRecord]. *)
Record LockRecord := mkLock {
  l_id : string;
  l_repo_id : string;
  l_path : string;
  l_pubkey : string;
  l_locked_at : Z
}.

(** [LockFilters]. *)
Record LockFilters := mkFilters {
  fl_path : option string;
  fl_id : option string;
  fl_cursor : option string;
  fl_limit : option Z
}.

(** [LockError]. *)
Inductive LockError :=
| Conflict (id : string)
| LockNotFound
| Forbidden (msg : string)
| LockInternal (msg : string).

(** [LockDatabase]. *)
Class LockDatabase (L : Type) : Type := {
  create_lock : L → Z → string → string → string → string → L * result LockRecord LockError;
  delete_lock : L → string → string → bool → string → L * result LockRecord LockError;
  list_locks : L → string → LockFilters → result (list LockRecord * option string) LockError;
  get_lock : L → string → string → result LockRecord LockError;
  get_lock_by_path : L → string → string → result LockRecord LockError
}.

(** [MemoryLockDatabase]. *)
Notation MemoryLockDatabase := (gmap string LockRecord).

(** [lock_key], [path_key]. *)
Definition lock_key (repo id : string) : string := repo +:+ ":" +:+ id.
Definition path_key (repo path : string) : string := repo +:+ ":" +:+ path.

(** *** Following the cursors *)

(** What a client does: follow the cursors until there is none. *)
Fixpoint all_pages (fuel : nat) (query : LockFilters → result (list LockRecord * option string) LockError)
    (filters : LockFilters) : option (list LockRecord) :=
  match fuel with
  | O => None
  | S fuel =>
      match query filters with
      | Err _ => None
      | Ok (page, None) => Some page
      | Ok (page, Some c) =>
          match all_pages fuel query (mkFilters (fl_path filters) (fl_id filters) (Some c) (fl_limit filters)) with
          | Some rest => Some (page ++ rest)%list
          | None => None
          end
      end
  end.

(** A query whose pages are the slices of [l]. *)
Definition pages_of (query : LockFilters → result (list LockRecord * option string) LockError)
    (p i : option string) (limit : Z) (l : list LockRecord) : Prop :=
  ∀ c start, 0 <= start <= vec_len l → (start = 0 ∨ start < vec_len l) →
    match c with None => start = 0 | Some c => c = u64_to_string start end →
    query (mkFilters p i c (Some limit)) =
      Ok (take (Z.to_nat limit) (drop (Z.to_nat start) l),
          if decide (start + limit < vec_len l) then Some (u64_to_string (start + limit)) else None).
Lemma pages_from query p i limit l : 1 <= limit → pages_of query p i limit l →
  ∀ fuel c start, 0 <= start <= vec_len l → (start = 0 ∨ start < vec_len l) →
    match c with None => start = 0 | Some c => c = u64_to_string start end →
    vec_len l - start < Z.of_nat fuel →
    all_pages fuel query (mkFilters p i c (Some limit)) = Some (drop (Z.to_nat start) l).
Proof.
  intros Hlim Hq. induction fuel as [|fuel IH]; intros c start Hs Hs' Hc Hf; [lia |].
  cbn [all_pages]. rewrite (Hq c start Hs Hs' Hc). case_decide as Hlt; cbn [fl_path fl_id fl_limit].
  - rewrite (IH (Some (u64_to_string (start + limit))) (start + limit)); [| lia | lia | done | lia].
    rewrite Z2Nat.inj_add by lia. rewrite <- drop_drop. f_equal. apply take_drop.
  - f_equal. apply take_ge. rewrite length_drop. unfold vec_len in *. lia.
Qed.
Lemma all_pages_complete query p i limit l : 1 <= limit → pages_of query p i limit l →
  all_pages (S (length l)) query (mkFilters p i None (Some limit)) = Some l.
Proof. intros Hl Hq. apply (pages_from query p i limit l Hl Hq _ None 0); unfold vec_len; [lia | by left | done | lia]. Qed.

Module MemoryLocks.
Section ops.
Context `{HashOrder}.

(** [create_lock]; [now] is the clock and [uuid] the id drawn. *)
Definition create_lock (db : MemoryLockDatabase) (now : Z) (uuid repo path pubkey : string)
    : MemoryLockDatabase * result LockRecord LockError :=
  let pk := path_key repo path in
  match List.find (fun l => bool_decide (path_key (l_repo_id l) (l_path l) = pk)) (hm_values db) with
  | Some existing => (db, Err (Conflict (l_id existing)))
  | None =>
      let record := mkLock uuid repo path pubkey now in
      (<[lock_key repo uuid := record]> db, Ok record)
  end.

(** [delete_lock]. *)
Definition delete_lock (db : MemoryLockDatabase) (repo id : string) (force : bool) (requester : string)
    : MemoryLockDatabase * result LockRecord LockError :=
  match db !! lock_key repo id with
  | None => (db, Err LockNotFound)
  | Some lock =>
      if negb force && negb (bool_decide (l_pubkey lock = requester)) then
        (db, Err (Forbidden "only the lock owner or an admin can unlock"))
      else (delete (lock_key repo id) db, Ok lock)
  end.

Definition opt_eq (o : option string) (s : string) : bool :=
  match o with None => true | Some p => bool_decide (s = p) end.

(** The filtered and sorted locks of [list_locks]. *)
Definition matching (db : MemoryLockDatabase) (repo : string) (filters : LockFilters) : list LockRecord :=
  sort_by_key l_locked_at
    (List.filter (fun l => opt_eq (fl_id filters) (l_id l))
      (List.filter (fun l => opt_eq (fl_path filters) (l_path l))
        (List.filter (fun l => bool_decide (l_repo_id l = repo)) (hm_values db)))).

(** [slice\[start..end\]]. *)
Definition slice {A} (l : list A) (start stop : Z) : list A :=
  take (Z.to_nat (stop - start)) (drop (Z.to_nat start) l).

(** [list_locks]; [start + limit] is a [usize] addition. *)
Definition list_locks (db : MemoryLockDatabase) (repo : string) (filters : LockFilters)
    : result (list LockRecord * option string) LockError :=
  let locks := matching db repo filters in
  let limit := default 100 (fl_limit filters) in
  let cursor_val := match fl_cursor filters with Some c => parse_u64 c | None => None end in
  let start := default 0 cursor_val in
  let stop := Z.min (wrap_u64 (start + limit)) (vec_len locks) in
  if decide (start >= vec_len locks) then Ok ([], None)
  else
    let next_cursor := if decide (stop < vec_len locks) then Some (u64_to_string stop) else None in
    Ok (slice locks start stop, next_cursor).

(** [get_lock]. *)
Definition get_lock (db : MemoryLockDatabase) (repo id : string) : result LockRecord LockError :=
  ok_or (db !! lock_key repo id) LockNotFound.

(** [get_lock_by_path]. *)
Definition get_lock_by_path (db : MemoryLockDatabase) (repo path : string) : result LockRecord LockError :=
  ok_or (List.find (fun l => bool_decide (l_repo_id l = repo) && bool_decide (l_path l = path)) (hm_values db))
    LockNotFound.

#[export] Instance impl : LockDatabase MemoryLockDatabase := {|
  Locks.create_lock := create_lock;
  Locks.delete_lock := delete_lock;
  Locks.list_locks := list_locks;
  Locks.get_lock := get_lock;
  Locks.get_lock_by_path := get_lock_by_path
|}.

(** ** Mutual exclusion *)

(** Each lock is stored under its key, and no two locks are on one file. *)
Record wf (db : MemoryLockDatabase) : Prop := {
  wf_lock_keys : ∀ k l, db !! k = Some l → k = lock_key (l_repo_id l) (l_id l);
  wf_exclusive : ∀ k1 k2 l1 l2, db !! k1 = Some l1 → db !! k2 = Some l2 →
    path_key (l_repo_id l1) (l_path l1) = path_key (l_repo_id l2) (l_path l2) → k1 = k2
}.

(** The operations of a run. *)
Inductive lock_op :=
| Create (now : Z) (uuid repo path pubkey : string)
| Delete (repo id : string) (force : bool) (requester : string).

Definition apply_lock (db : MemoryLockDatabase) (o : lock_op) : MemoryLockDatabase :=
  match o with
  | Create now uuid repo path pubkey => (create_lock db now uuid repo path pubkey).1
  | Delete repo id force requester => (delete_lock db repo id force requester).1
  end.

Lemma no_conflict (db : MemoryLockDatabase) pk :
  List.find (fun l => bool_decide (path_key (l_repo_id l) (l_path l) = pk)) (hm_values db) = None →
  ∀ k l, db !! k = Some l → path_key (l_repo_id l) (l_path l) ≠ pk.
Proof.
  intros Hf k l Hk Hpk.
  assert (Hin : In l (hm_values db)) by (apply list_elem_of_In, elem_of_hm_values; eauto).
  pose proof (List.find_none _ _ Hf l Hin) as Hn. simpl in Hn. by rewrite bool_decide_eq_true_2 in Hn.
Qed.

Lemma apply_lock_wf (db : MemoryLockDatabase) o : wf db → wf (apply_lock db o).
Proof.
  intros [Wk We]. destruct o as [now uuid repo path pubkey|repo id force requester]; simpl.
  - unfold create_lock. destruct (List.find _ _) eqn:Ef; [by split |]. simpl.
    pose proof (no_conflict db _ Ef) as Hn. split.
    + intros k l [[<- <-] | [_ Hk]]%lookup_insert_Some; [done | by apply Wk].
    + intros k1 k2 l1 l2 [[<- <-] | [_ H1]]%lookup_insert_Some [[<- <-] | [_ H2]]%lookup_insert_Some Hp;
        [done | | | by eapply We].
      * simpl in Hp. by destruct (Hn _ _ H2).
      * simpl in Hp. by destruct (Hn _ _ H1).
  - unfold delete_lock. destruct (db !! _) as [l|]; [| by split]. destruct (negb force && _); [by split |]. simpl.
    split.
    + intros k l' [_ Hk]%lookup_delete_Some. by apply Wk.
    + intros k1 k2 l1 l2 [_ H1]%lookup_delete_Some [_ H2]%lookup_delete_Some. by apply We.
Qed.

Definition run (db : MemoryLockDatabase) (ops : list lock_op) : MemoryLockDatabase := foldl apply_lock db ops.

Lemma run_wf (db : MemoryLockDatabase) ops : wf db → wf (run db ops).
Proof. revert db. induction ops as [|o ops IH]; intros db W; [done |]. by apply IH, apply_lock_wf. Qed.

Lemma empty_wf : wf ∅.
Proof. split; intros *; by rewrite lookup_empty. Qed.

(** An operation that may not take the lock away: it is not an unlock of it
    by its owner or by force, and it does not draw its identifier again. *)
Definition spares (l : LockRecord) (o : lock_op) : Prop :=
  match o with
  | Create _ uuid repo _ _ => lock_key repo uuid ≠ lock_key (l_repo_id l) (l_id l)
  | Delete repo id force requester =>
      lock_key repo id = lock_key (l_repo_id l) (l_id l) → force = false ∧ requester ≠ l_pubkey l
  end.

Lemma apply_lock_spares (db : MemoryLockDatabase) o l :
  db !! lock_key (l_repo_id l) (l_id l) = Some l → spares l o →
  apply_lock db o !! lock_key (l_repo_id l) (l_id l) = Some l.
Proof.
  intros Hl Hs. destruct o as [now uuid repo path pubkey|repo id force requester]; simpl in *.
  - unfold create_lock. destruct (List.find _ _); [done |]. simpl. by rewrite lookup_insert_ne.
  - unfold delete_lock. destruct (db !! lock_key repo id) as [l'|] eqn:E; [| done].
    destruct (decide (lock_key repo id = lock_key (l_repo_id l) (l_id l))) as [Heq|Hne].
    + destruct (Hs Heq) as [-> Hr]. rewrite Heq in E. simplify_eq. simpl.
      rewrite bool_decide_eq_false_2; done.
    + destruct (negb force && _); [done |]. simpl. by rewrite lookup_delete_ne.
Qed.

Lemma holder_found (db : MemoryLockDatabase) l k :
  wf db → db !! k = Some l →
  List.find (fun x => bool_decide (path_key (l_repo_id x) (l_path x) = path_key (l_repo_id l) (l_path l)))
    (hm_values db) = Some l.
Proof.
  intros W Hk. destruct (List.find _ _) as [l'|] eqn:E.
  - apply find_some in E as [Hin Hp]. apply bool_decide_eq_true in Hp.
    apply list_elem_of_In, elem_of_hm_values in Hin as [k' Hk'].
    rewrite (wf_exclusive _ W _ _ _ _ Hk' Hk Hp) in Hk'. congruence.
  - exfalso. by apply (no_conflict db _ E k l Hk).
Qed.

(** A lock excludes.  Once a file is locked, every attempt to lock it,
    by anyone, is answered with the identifier of the lock that holds it, until
    an unlock of that lock by its owner or by force; other repositories' and
    files' locks come and go without affecting it. *)
Theorem lock_excludes ops0 now uuid repo path pubkey db l ops now' uuid' pubkey' :
  create_lock (run ∅ ops0) now uuid repo path pubkey = (db, Ok l) →
  Forall (spares l) ops →
  create_lock (run db ops) now' uuid' repo path pubkey' = (run db ops, Err (Conflict uuid)).
Proof.
  intros Hc Hops. pose proof (run_wf _ ops0 empty_wf) as W0.
  assert (W : wf db).
  { pose proof (apply_lock_wf _ (Create now uuid repo path pubkey) W0) as W. simpl in W. by rewrite Hc in W. }
  assert (Hl : l = mkLock uuid repo path pubkey now ∧ db !! lock_key (l_repo_id l) (l_id l) = Some l).
  { unfold create_lock in Hc. destruct (List.find _ _); [done |]. injection Hc as <- <-.
    split; [done |]. apply lookup_insert_eq. }
  destruct Hl as [El Hl]. clear Hc.
  assert (Hfin : run db ops !! lock_key (l_repo_id l) (l_id l) = Some l ∧ wf (run db ops)).
  { revert db W Hl. induction Hops as [|o ops Ho _ IH]; intros db W Hl; [done |].
    apply (IH (apply_lock db o)); [by apply apply_lock_wf | by apply apply_lock_spares]. }
  destruct Hfin as [Hfin Wfin]. unfold create_lock.
  pose proof (holder_found _ _ _ Wfin Hfin) as Hf. rewrite El in Hf. simpl in Hf. by rewrite Hf.
Qed.

(** ** Pagination *)

Lemma memory_pages (db : MemoryLockDatabase) repo p i limit :
  let l := matching db repo (mkFilters p i None None) in
  1 <= limit <= u32_max → vec_len l + u32_max <= u64_max → pages_of (list_locks db repo) p i limit l.
Proof.
  intros l Hlim Hlen c start Hs Hs' Hc. unfold list_locks. cbn [fl_limit fl_cursor fl_path fl_id].
  change (default 100 (Some limit)) with limit. change (matching db repo (mkFilters p i c (Some limit))) with l.
  assert (Hcur : default 0 (match c with Some c => parse_u64 c | None => None end) = start).
  { destruct c as [c|]; [| by subst]. subst c. rewrite parse_u64_to_string; [done |].
    unfold in_u64, u32_max, u64_max in *. unfold vec_len in *. lia. }
  rewrite Hcur. unfold wrap_u64. rewrite Z.mod_small by (unfold u32_max, u64_max in *; lia).
  case_decide as H1.
  { assert (Hl0 : l = []) by (apply length_zero_iff_nil; unfold vec_len in *; lia).
    rewrite Hl0, drop_nil, take_nil. by rewrite decide_False by (unfold vec_len in *; cbn; lia). }
  unfold slice. destruct (decide (start + limit < vec_len l)) as [H2|H2].
  - rewrite Z.min_l by lia. rewrite decide_True by lia. do 3 f_equal. lia.
  - rewrite Z.min_r by lia. rewrite decide_False by lia. f_equal. f_equal.
    rewrite !take_ge; [done | rewrite length_drop; unfold vec_len in *; lia..].
Qed.

Lemma matching_NoDup (db : MemoryLockDatabase) repo filters : wf db → NoDup (matching db repo filters).
Proof.
  intros W. unfold matching. rewrite (sort_by_key_perm l_locked_at). apply NoDup_ListNoDup. do 3 apply List.NoDup_filter.
  apply NoDup_ListNoDup. unfold hm_values. apply NoDup_fmap_2_strong; [| rewrite hm_iter_perm; apply NoDup_map_to_list].
  intros [k1 l1] [k2 l2] H1%elem_of_hm_iter H2%elem_of_hm_iter E. cbn in E. subst l2.
  by rewrite (wf_lock_keys _ W _ _ H1), (wf_lock_keys _ W _ _ H2).
Qed.

(** C38: pagination loses nothing.  A client that follows the cursors with any
    page size of at least one, while the locks do not change, gets in a bounded
    number of requests exactly the locks of the repository that match the path and
    the identifier it asks for, each once, in order of creation; in a database
    that grew from an empty one by locking and unlocking. *)
Theorem pagination_complete ops repo p i limit :
  let db := run ∅ ops in
  1 <= limit <= u32_max →
  let l := matching db repo (mkFilters p i None None) in
  vec_len l + u32_max <= u64_max →
  all_pages (S (length l)) (list_locks db repo) (mkFilters p i None (Some limit)) = Some l
  ∧ NoDup l
  ∧ StronglySorted (fun a b => l_locked_at a <= l_locked_at b) l
  ∧ (∀ r, r ∈ l ↔ (∃ k, db !! k = Some r) ∧ l_repo_id r = repo ∧ opt_eq p (l_path r) = true ∧ opt_eq i (l_id r) = true).
Proof.
  intros db Hlim l Hlen. split; [| split; [| split]].
  - apply all_pages_complete; [lia | by apply memory_pages].
  - apply matching_NoDup, run_wf, empty_wf.
  - apply sort_by_key_sorted.
  - intros r. unfold l, matching. rewrite (sort_by_key_perm l_locked_at). cbn [fl_path fl_id].
    rewrite list_elem_of_In, !filter_In, <- list_elem_of_In, elem_of_hm_values, bool_decide_eq_true. tauto.
Qed.
End ops.
End MemoryLocks.

#[export] Instance memory_locks `{HashOrder} : LockDatabase MemoryLockDatabase := MemoryLocks.impl.

(** ** Dates *)

Module Dates.
(** [is_leap_year]. *)
Definition is_leap_year (y : Z) : bool :=
  ((y mod 4 =? 0) && negb (y mod 100 =? 0)) || (y mod 400 =? 0).

(** The loop over the years of [days_to_date].  A year has at least 365 days,
    so [days / 365 + 1] turns are enough. *)
Fixpoint years_loop (fuel : nat) (y remaining : Z) : Z * Z :=
  match fuel with
  | O => (y, remaining)
  | S fuel =>
      let year_len := if is_leap_year y then 366 else 365 in
      if decide (remaining < year_len) then (y, remaining)
      else years_loop fuel (y + 1) (remaining - year_len)
  end.

Definition month_days (leap : bool) : list Z :=
  [31; if leap then 29 else 28; 31; 30; 31; 30; 31; 31; 30; 31; 30; 31].

(** The loop over the months. *)
Fixpoint months_loop (mds : list Z) (m remaining : Z) : Z * Z :=
  match mds with
  | [] => (m, remaining)
  | md :: mds => if decide (remaining < md) then (m, remaining) else months_loop mds (m + 1) (remaining - md)
  end.

(** [days_to_date]. *)
Definition days_to_date (days : Z) : Z * Z * Z :=
  let '(y, remaining) := years_loop (Z.to_nat (days / 365 + 1)) 1970 days in
  let '(m, remaining) := months_loop (month_days (is_leap_year y)) 0 remaining in
  (y, m + 1, remaining + 1).

(** [{:0w}]. *)
Definition zero_pad (w : nat) (n : Z) : string :=
  let s := u64_to_string n in
  of_chars (replicate (w - String.length s) "0"%char) +:+ s.

(** [format_unix_timestamp]. *)
Definition format_unix_timestamp (secs : Z) : string :=
  let days_since_epoch := secs / 86400 in
  let time_of_day := secs mod 86400 in
  let hours := time_of_day / 3600 in
  let minutes := (time_of_day mod 3600) / 60 in
  let seconds := time_of_day mod 60 in
  let '(year, month, day) := days_to_date days_since_epoch in
  zero_pad 4 year +:+ "-" +:+ zero_pad 2 month +:+ "-" +:+ zero_pad 2 day +:+ "T"
    +:+ zero_pad 2 hours +:+ ":" +:+ zero_pad 2 minutes +:+ ":" +:+ zero_pad 2 seconds +:+ "Z".

(** *** The calendar, independently: the day number of a date. *)

(** Days from 1970-01-01 to the first of January of [y]: one leap day for
    every year divisible by 4, except centuries not divisible by 400. *)
Definition year_start (y : Z) : Z :=
  365 * (y - 1970) + ((y - 1) / 4 - 492) - ((y - 1) / 100 - 19) + ((y - 1) / 400 - 4).
(** Days from the first of January to the first of the month. *)
Definition month_start (y m : Z) : Z :=
  nth (Z.to_nat (m - 1)) [0; 31; 59; 90; 120; 151; 181; 212; 243; 273; 304; 334] 0
  + (if is_leap_year y && bool_decide (2 < m) then 1 else 0).
Definition month_length (y m : Z) : Z := nth (Z.to_nat (m - 1)) (month_days (is_leap_year y)) 0.
Definition day_number (y m d : Z) : Z := year_start y + month_start y m + (d - 1).
Definition valid_date (y m d : Z) : Prop := 1970 <= y ∧ 1 <= m <= 12 ∧ 1 <= d <= month_length y m.

Lemma year_start_succ y : year_start (y + 1) = year_start y + (if is_leap_year y then 366 else 365).
Proof.
  unfold year_start, is_leap_year. replace (y + 1 - 1) with y by lia.
  destruct (Z.eqb_spec (y mod 4) 0), (Z.eqb_spec (y mod 100) 0), (Z.eqb_spec (y mod 400) 0); simpl;
    Z.div_mod_to_equations; lia.
Qed.

Lemma years_loop_spec fuel y r :
  1970 <= y → 0 <= r < 365 * Z.of_nat fuel →
  let '(y', r') := years_loop fuel y r in
  1970 <= y' ∧ 0 <= r' < (if is_leap_year y' then 366 else 365)
  ∧ year_start y' + r' = year_start y + r.
Proof.
  revert y r. induction fuel as [|fuel IH]; intros y r Hy Hr; [lia |]. simpl.
  case_decide as Hlt; [split; [done |]; split; [lia | done] |].
  specialize (IH (y + 1) (r - (if is_leap_year y then 366 else 365)) ltac:(lia)).
  destruct (years_loop fuel _ _) as [y' r']. destruct IH as (H1 & H2 & H3).
  { destruct (is_leap_year y); lia. }
  split; [done |]. split; [done |]. rewrite H3, year_start_succ. lia.
Qed.

Lemma months_loop_spec y r :
  0 <= r < (if is_leap_year y then 366 else 365) →
  let '(m, r') := months_loop (month_days (is_leap_year y)) 0 r in
  0 <= m <= 11 ∧ 0 <= r' < month_length y (m + 1) ∧ month_start y (m + 1) + r' = r.
Proof.
  intros Hr. unfold month_length, month_start. destruct (is_leap_year y); simpl in *;
    repeat (case_decide; [split; [lia |]; split; simpl; rewrite ?bool_decide_eq_true_2, ?bool_decide_eq_false_2 by lia;
      simpl; lia |]); lia.
Qed.

(** The dates shown are right.  For every day number [days_to_date] gives
    a date of the Gregorian calendar, and that date is the one that many days
    after 1970-01-01. *)
Theorem days_to_date_correct days :
  0 <= days →
  let '(y, m, d) := days_to_date days in valid_date y m d ∧ day_number y m d = days.
Proof.
  intros Hd. unfold days_to_date.
  assert (Hq : 0 <= days / 365) by (apply Z.div_pos; lia).
  pose proof (years_loop_spec (Z.to_nat (days / 365 + 1)) 1970 days ltac:(lia)) as Hy.
  destruct (years_loop _ _ _) as [y r]. destruct Hy as (H1 & H2 & H3).
  { split; [done |]. rewrite Z2Nat.id by lia. Z.div_mod_to_equations. lia. }
  pose proof (months_loop_spec y r H2) as Hm.
  destruct (months_loop _ _ _) as [m r']. destruct Hm as (M1 & M2 & M3).
  change (year_start 1970) with 0 in H3. unfold valid_date, day_number. split; lia.
Qed.

End Dates.

(** ** The endpoints *)

(** A response: the status code and the JSON body. *)
Definition Response : Type := Z * json.
(** [error_json]. *)
Definition error_json (msg : string) : json := JObj [("error", JStr msg)].

(** What the endpoints use of the server: the events already used, the public
    URL and the lock database, if one is configured. *)
Record LockState (L : Type) := mkLockState {
  ls_seen : ReplayCache;
  ls_base_url : string;
  ls_lock_db : option L
}.
Arguments mkLockState {L} _ _ _.
Arguments ls_seen {L} _.
Arguments ls_base_url {L} _.
Arguments ls_lock_db {L} _.

Section endpoints.
Context `{Crates} `{AccessControl} {L : Type} `{LockDatabase L}.

(** [lock_record_to_lfs], serialized. *)
Definition lock_record_to_lfs (r : LockRecord) : json :=
  JObj [("id", JStr (l_id r)); ("path", JStr (l_path r));
        ("locked_at", JStr (Dates.format_unix_timestamp (l_locked_at r)));
        ("owner", JObj [("name", JStr (l_pubkey r))])].

Definition lock_not_configured : Response := (404, error_json "lock support not configured").

Definition lock_error_to_string (e : LockError) : string :=
  match e with
  | Conflict id => "path already locked: " +:+ id
  | LockNotFound => "not found"
  | Forbidden m => "forbidden: " +:+ m
  | LockInternal m => "lock database error: " +:+ m
  end.

(** [next_cursor] with [skip_serializing_if]. *)
Definition cursor_field (c : option string) : list (string * json) :=
  match c with Some c => [("next_cursor", JStr c)] | None => [] end.

(** The clock readings of a request: verification, marking and action. *)
Record Clock := mkClock { t_verify : Z; t_mark : Z; t_act : Z }.

(** The authorization all four endpoints begin with: the event, or the 401. *)
Definition authorize (s : LockState L) (t : Clock) (headers : HeaderMap) (path method : string)
    : LockState L * result NostrEvent Response :=
  match extract_auth_event headers with
  | Err e => (s, Err (401, error_json (auth_error_to_string e)))
  | Ok event =>
      let '(seen, r) :=
        verify_auth_event (ls_seen s) (t_verify t) (t_mark t) event "lock" (ls_base_url s) path method None in
      let s := mkLockState seen (ls_base_url s) (ls_lock_db s) in
      match r with
      | Err e => (s, Err (401, error_json (auth_error_to_string e)))
      | Ok _ => (s, Ok event)
      end
  end.

Definition set_lock_db (s : LockState L) (db : L) : LockState L :=
  mkLockState (ls_seen s) (ls_base_url s) (Some db).

(** [handle_create_lock]. *)
Definition handle_create_lock (s : LockState L) (t : Clock) (uuid repo_id : string) (headers : HeaderMap)
    (body_path : string) : LockState L * Response :=
  match authorize s t headers ("/lfs/" +:+ repo_id +:+ "/locks") "POST" with
  | (s, Err resp) => (s, resp)
  | (s, Ok event) =>
      let pubkey := ev_pubkey event in
      if negb (is_allowed pubkey Lock) then (s, (403, error_json "lock not allowed"))
      else
        match ls_lock_db s with
        | None => (s, lock_not_configured)
        | Some lock_db =>
            let '(lock_db, r) := create_lock lock_db (t_act t) uuid repo_id body_path pubkey in
            (set_lock_db s lock_db,
             match r with
             | Ok record => (201, JObj [("lock", lock_record_to_lfs record)])
             | Err (Conflict existing_id) =>
                 match get_lock lock_db repo_id existing_id with
                 | Ok existing =>
                     (409, JObj [("lock", lock_record_to_lfs existing);
                                 ("message", JStr "path already locked")])
                 | Err _ => (409, error_json "path already locked")
                 end
             | Err e => (500, error_json (lock_error_to_string e))
             end)
        end
  end.

(** [handle_list_locks]. *)
Definition handle_list_locks (s : LockState L) (t : Clock) (repo_id : string) (headers : HeaderMap)
    (params : LockFilters) : LockState L * Response :=
  match authorize s t headers ("/lfs/" +:+ repo_id +:+ "/locks") "GET" with
  | (s, Err resp) => (s, resp)
  | (s, Ok event) =>
      match ls_lock_db s with
      | None => (s, lock_not_configured)
      | Some lock_db =>
          (s, match list_locks lock_db repo_id params with
              | Ok (records, next_cursor) =>
                  (200, JObj ([("locks", JArr (map lock_record_to_lfs records))] ++ cursor_field next_cursor)%list)
              | Err e => (500, error_json (lock_error_to_string e))
              end)
      end
  end.

(** [handle_verify_locks]. *)
Definition handle_verify_locks (s : LockState L) (t : Clock) (repo_id : string) (headers : HeaderMap)
    (cursor : option string) (limit : option Z) : LockState L * Response :=
  match authorize s t headers ("/lfs/" +:+ repo_id +:+ "/locks/verify") "POST" with
  | (s, Err resp) => (s, resp)
  | (s, Ok event) =>
      match ls_lock_db s with
      | None => (s, lock_not_configured)
      | Some lock_db =>
          (s, match list_locks lock_db repo_id (mkFilters None None cursor limit) with
              | Ok (records, next_cursor) =>
                  let mine r := bool_decide (l_pubkey r = ev_pubkey event) in
                  let ours := map lock_record_to_lfs (List.filter mine records) in
                  let theirs := map lock_record_to_lfs (List.filter (fun r => negb (mine r)) records) in
                  (200, JObj ([("ours", JArr ours); ("theirs", JArr theirs)] ++ cursor_field next_cursor)%list)
              | Err e => (500, error_json (lock_error_to_string e))
              end)
      end
  end.

(** [handle_unlock]. *)
Definition handle_unlock (s : LockState L) (t : Clock) (repo_id lock_id : string) (headers : HeaderMap)
    (body_force : bool) : LockState L * Response :=
  match authorize s t headers ("/lfs/" +:+ repo_id +:+ "/locks/" +:+ lock_id +:+ "/unlock") "POST" with
  | (s, Err resp) => (s, resp)
  | (s, Ok event) =>
      let pubkey := ev_pubkey event in
      let is_admin := bool_decide (role pubkey = RAdmin) in
      match ls_lock_db s with
      | None => (s, lock_not_configured)
      | Some lock_db =>
          let force := body_force && is_admin in
          let '(lock_db, r) := delete_lock lock_db repo_id lock_id force pubkey in
          (set_lock_db s lock_db,
           match r with
           | Ok record => (200, JObj [("lock", lock_record_to_lfs record)])
           | Err LockNotFound => (404, error_json "lock not found")
           | Err (Forbidden msg) => (403, error_json msg)
           | Err e => (500, error_json (lock_error_to_string e))
           end)
      end
  end.
End endpoints.

Section endpoint_theorems.
Context `{CratesLaws} `{AccessControl} `{HashOrder}.

Lemma authorize_ok {L} (s : LockState L) t headers path method s' e :
  authorize s t headers path method = (s', Ok e) →
  extract_auth_event headers = Ok e ∧ authentic e ∧ fresh_at (t_verify t) e
  ∧ unique_tag e "u" (trim_end_matches "/" (ls_base_url s) +:+ path)
  ∧ ls_lock_db s' = ls_lock_db s ∧ ls_base_url s' = ls_base_url s.
Proof.
  unfold authorize. destruct (extract_auth_event headers) as [ev|]; [| done].
  unfold verify_auth_event. destruct (verify_auth_event_claims _ ev _ _ _ _ _) as [[]|] eqn:E; [| done].
  destruct (mark_auth_event_once _ _ _) as [seen [[]|]]; [| done]. intros [= <- <-].
  pose proof (verify_claims_authentic _ _ _ _ _ _ _ E). pose proof (verify_claims_fresh _ _ _ _ _ _ _ E).
  destruct (verify_claims_tags _ _ _ _ _ _ _ E) as [? _]. done.
Qed.

Lemma authorize_err {L} (s : LockState L) t headers path method s' resp :
  authorize s t headers path method = (s', Err resp) → ls_lock_db s' = ls_lock_db s ∧ resp.1 = 401.
Proof.
  unfold authorize. destruct (extract_auth_event headers) as [ev|]; [| by intros [= <- <-]].
  destruct (verify_auth_event _ _ _ _ _ _ _ _ _) as [seen [[]|]]; [done |]. by intros [= <- <-].
Qed.

(** Only its owner or an administrator takes a lock away.  If an unlock
    request removes a lock from the database, it named that lock, was authorized by an authentic, fresh event for that very URL, and
    its author is the owner of the lock or an administrator that asked for
    force. *)
Theorem unlock_authorized (s : LockState MemoryLockDatabase) t repo lock_id headers force s' resp db db' k l :
  handle_unlock s t repo lock_id headers force = (s', resp) →
  ls_lock_db s = Some db → ls_lock_db s' = Some db' →
  db !! k = Some l → db' !! k = None →
  k = lock_key repo lock_id ∧ resp.1 = 200
  ∧ ∃ e, extract_auth_event headers = Ok e ∧ authentic e ∧ fresh_at (t_verify t) e
      ∧ unique_tag e "u" (trim_end_matches "/" (ls_base_url s) +:+ "/lfs/" +:+ repo +:+ "/locks/" +:+ lock_id +:+ "/unlock")
      ∧ (ev_pubkey e = l_pubkey l ∨ force = true ∧ role (ev_pubkey e) = RAdmin).
Proof.
  intros Hh Hdb Hdb' Hk Hk'. unfold handle_unlock in Hh.
  destruct (authorize s t headers _ "POST") as [s1 [e|r]] eqn:Ea.
  2: { destruct (authorize_err _ _ _ _ _ _ _ Ea) as [El _]. injection Hh as <- <-. congruence. }
  destruct (authorize_ok _ _ _ _ _ _ _ Ea) as (A1 & A2 & A3 & A4 & A5 & A6). rewrite A5, Hdb in Hh.
  simpl in Hh. unfold MemoryLocks.delete_lock in Hh.
  destruct (db !! lock_key repo lock_id) as [l'|] eqn:El.
  2: { injection Hh as <- <-. simpl in Hdb'. congruence. }
  destruct (negb _ && _) eqn:Ef; injection Hh as <- <-; simpl in Hdb'; [congruence |].
  injection Hdb' as <-. apply lookup_delete_None in Hk' as [<- | Hk']; [| congruence].
  split; [done |]. split; [done |]. exists e. repeat (split; [done |]). simplify_eq.
  apply andb_false_iff in Ef as [Ef | Ef].
  - right. apply negb_false_iff, andb_true_iff in Ef as [-> Hr]. by apply bool_decide_eq_true in Hr.
  - left. apply negb_false_iff, bool_decide_eq_true in Ef. done.
Qed.
End endpoint_theorems.

Module LockExamples.
Import Concrete RequestAuthExamples.

Definition three_ops : list MemoryLocks.lock_op :=
  [MemoryLocks.Create 3 "i" "r" "a" "p"; MemoryLocks.Create 1 "j" "r" "b" "p"; MemoryLocks.Create 2 "k" "r" "c" "q"].
Definition three : MemoryLockDatabase := MemoryLocks.run ∅ three_ops.

Lemma pagination_complete_witness :
  all_pages (S (length (MemoryLocks.matching three "r" (mkFilters None None None None)))) (MemoryLocks.list_locks three "r")
    (mkFilters None None None (Some 2))
  = Some (MemoryLocks.matching three "r" (mkFilters None None None None))
  ∧ map l_path (MemoryLocks.matching three "r" (mkFilters None None None None)) = ["b"; "c"; "a"].
Proof.
  split; [| vm_compute; reflexivity].
  assert (Hlen : vec_len (MemoryLocks.matching three "r" (mkFilters None None None None)) + u32_max <= u64_max)
    by (vm_compute; discriminate).
  pose proof (MemoryLocks.pagination_complete three_ops "r" None None 2 ltac:(unfold u32_max; lia) Hlen) as H.
  cbv zeta in H. exact (proj1 H).
Defined.

(** With a limit of zero the cursor does not advance, and a client that
    follows it never ends. *)
Lemma limit_zero_loops fuel c :
  c = None ∨ c = Some "0" →
  all_pages fuel (MemoryLocks.list_locks three "r") (mkFilters None None c (Some 0)) = None.
Proof.
  revert c. induction fuel as [|fuel IH]; intros c Hc; [done |].
  assert (E : MemoryLocks.list_locks three "r" (mkFilters None None c (Some 0)) = Ok ([], Some "0"))
    by (destruct Hc as [-> | ->]; vm_compute; reflexivity).
  cbn [all_pages]. rewrite E. cbn [fl_path fl_id fl_limit]. by rewrite IH by auto.
Qed.

(** Keys are joined with a colon: a lock in one repository blocks a file of
    another whose name and path join to the same text. *)
Example locks_across_repositories :
  let db := (MemoryLocks.create_lock ∅ 5 "id1" "a:b" "c" "alice").1 in
  (MemoryLocks.create_lock db 6 "id2" "a" "b:c" "bob").2 = Err (Conflict "id1")
  ∧ MemoryLocks.get_lock_by_path db "a" "b:c" = Err LockNotFound.
Proof. vm_compute. split; reflexivity. Qed.

Definition unlock_event : NostrEvent :=
  build_blossom_auth_for_request 1000 "n" "lock" None "http://s" "http://s/lfs/r/locks/id1/unlock" "POST" "".
Definition unlock_headers : HeaderMap := {["authorization" := Some (auth_header_value unlock_event)]}.
Definition locked : LockState MemoryLockDatabase :=
  mkLockState SEEN_AUTH_EVENTS "http://s"
    (Some (MemoryLocks.create_lock ∅ 5 "id1" "r" "f" (ev_pubkey unlock_event)).1).

Definition unlocked : LockState MemoryLockDatabase * Response :=
  handle_unlock (H0 := OpenAccess) locked (mkClock 1010 1010 1010) "r" "id1" unlock_headers false.

End LockExamples.
