(* ===== verification/Lfs.v ===== *)
(** * LFS-aware storage ([src/src/lfs/mod.rs], [src/src/lfs/compress.rs])

    The LFS context of an upload, the version database, compression and delta
    encoding, and the reconstruction of a blob from its delta chain.  zstd and the
    C functions of xdelta3 are the fields of [Codec], with their round trips in
    [CodecLaws]; [xdelta_encode] and [xdelta_decode] are the wrapper
    [src/src/xdelta3.rs], which gives the C functions buffers of its own choice:
    a delta is decoded when its target fits the buffer ([roomy]). *)

From Stdlib Require Import ZArith Lia Ascii String.
From Stdlib Require Import Strings.Byte Floats.SpecFloat.
From stdpp Require Import base list gmap strings numbers.
From S2P Require Import Prelude Protocol RateLimit Storage.

Open Scope string_scope.
Open Scope Z_scope.

(** [x as i64], [x as u64]. *)
Definition as_i64 (z : Z) : Z := (z + 9223372036854775808) mod (u64_max + 1) - 9223372036854775808.
Definition as_u64 (z : Z) : Z := z mod (u64_max + 1).

(** ** Context *)

(** [LfsContext]. *)
Record LfsContext := mkLfsContext {
  is_lfs : bool;
  lfs_path : option string;
  lfs_repo : option string;
  lfs_base : option string;
  is_manifest : bool
}.
Definition default_lfs_context : LfsContext := mkLfsContext false None None None false.

(** The body of the loop of [LfsContext::from_event]. *)
Definition lfs_tag (ctx : LfsContext) (tag : list string) : LfsContext :=
  match tag with
  | [] => ctx
  | name :: rest =>
      if bool_decide (name = "t") && match rest with v :: _ => bool_decide (v = "lfs") | [] => false end then
        mkLfsContext true (lfs_path ctx) (lfs_repo ctx) (lfs_base ctx) (is_manifest ctx)
      else
        match rest with
        | v :: _ =>
            if decide (name = "path") then
              mkLfsContext (is_lfs ctx) (Some v) (lfs_repo ctx) (lfs_base ctx) (is_manifest ctx)
            else if decide (name = "repo") then
              mkLfsContext (is_lfs ctx) (lfs_path ctx) (Some v) (lfs_base ctx) (is_manifest ctx)
            else if decide (name = "base") then
              mkLfsContext (is_lfs ctx) (lfs_path ctx) (lfs_repo ctx) (Some v) (is_manifest ctx)
            else if decide (name = "manifest") then
              mkLfsContext (is_lfs ctx) (lfs_path ctx) (lfs_repo ctx) (lfs_base ctx) true
            else ctx
        | [] =>
            if decide (name = "manifest") then
              mkLfsContext (is_lfs ctx) (lfs_path ctx) (lfs_repo ctx) (lfs_base ctx) true
            else ctx
        end
  end.
(** [LfsContext::from_event]. *)
Definition from_event (e : NostrEvent) : LfsContext := foldl lfs_tag default_lfs_context (ev_tags e).

(** ** Versions *)

(** [LfsStorageType]. *)
Inductive LfsStorageType := Raw | Compressed | Delta.
#[export] Instance storage_type_eq_dec : EqDecision LfsStorageType.
Proof. solve_decision. Defined.

Definition storage_type_to_string (t : LfsStorageType) : string :=
  match t with Raw => "raw" | Compressed => "compressed" | Delta => "delta" end.

(** [LfsFileVersion]. *)
Record LfsFileVersion := mkVersion {
  v_repo_id : string;
  v_path : string;
  v_version : Z;
  v_sha256 : string;
  v_base_sha256 : option string;
  v_storage : LfsStorageType;
  v_delta_algo : option string;
  v_original_size : Z;
  v_stored_size : Z;
  v_created_at : Z
}.

(** [LfsVersionError]. *)
Inductive LfsVersionError := VersionNotFound | VersionInternal (msg : string).

(** [LfsStorageStats] and [LfsStorageTypeStats]. *)
Record LfsStorageTypeStats := mkTypeStats { ts_count : Z; ts_original_bytes : Z; ts_stored_bytes : Z }.
Record LfsStorageStats := mkLfsStats {
  total_versions : Z;
  total_original_bytes : Z;
  total_stored_bytes : Z;
  by_storage_type : gmap string LfsStorageTypeStats
}.

(** [LfsVersionDatabase]. *)
Class LfsVersionDatabase (V : Type) : Type := {
  record_version : V → LfsFileVersion → V * result Z LfsVersionError;
  get_by_sha256 : V → string → result (option LfsFileVersion) LfsVersionError;
  get_latest_version : V → string → string → result (option LfsFileVersion) LfsVersionError;
  delete_by_sha256 : V → string → V * result unit LfsVersionError;
  get_deltas_for_base : V → string → result (list LfsFileVersion) LfsVersionError;
  update_version : V → string → LfsStorageType → option string → Z → V * result unit LfsVersionError;
  lfs_stats : V → result LfsStorageStats LfsVersionError
}.

(** [MemoryLfsVersionDatabase]. *)
Notation MemoryLfsVersionDatabase := (list LfsFileVersion).

Module MemoryVersions.
(** [record_version]. *)
Definition record_version (db : MemoryLfsVersionDatabase) (record : LfsFileVersion)
    : MemoryLfsVersionDatabase * result Z LfsVersionError :=
  ((db ++ [record])%list, Ok (v_version record)).

(** [get_by_sha256]. *)
Definition get_by_sha256 (db : MemoryLfsVersionDatabase) (sha256 : string)
    : result (option LfsFileVersion) LfsVersionError :=
  Ok (List.find (fun v => bool_decide (v_sha256 v = sha256)) db).

(** [Iterator::max_by_key]: the last of the greatest. *)
Definition max_by_version (best : option LfsFileVersion) (v : LfsFileVersion) : option LfsFileVersion :=
  match best with
  | None => Some v
  | Some b => if decide (v_version b <= v_version v) then Some v else best
  end.
(** [get_latest_version]. *)
Definition get_latest_version (db : MemoryLfsVersionDatabase) (repo_id path : string)
    : result (option LfsFileVersion) LfsVersionError :=
  Ok (foldl max_by_version None
        (List.filter (fun v => bool_decide (v_repo_id v = repo_id) && bool_decide (v_path v = path)) db)).

(** [delete_by_sha256]. *)
Definition delete_by_sha256 (db : MemoryLfsVersionDatabase) (sha256 : string)
    : MemoryLfsVersionDatabase * result unit LfsVersionError :=
  (List.filter (fun v => negb (bool_decide (v_sha256 v = sha256))) db, Ok tt).

Definition is_delta_of (base_sha256 : string) (v : LfsFileVersion) : bool :=
  bool_decide (v_storage v = Delta) && bool_decide (v_base_sha256 v = Some base_sha256).
(** [get_deltas_for_base]. *)
Definition get_deltas_for_base (db : MemoryLfsVersionDatabase) (base_sha256 : string)
    : result (list LfsFileVersion) LfsVersionError :=
  Ok (List.filter (is_delta_of base_sha256) db).

(** [update_version]: the first record of the hash. *)
Fixpoint update_first (db : MemoryLfsVersionDatabase) (sha256 : string) (storage : LfsStorageType)
    (base : option string) (stored_size : Z) : MemoryLfsVersionDatabase :=
  match db with
  | [] => []
  | v :: db =>
      if decide (v_sha256 v = sha256) then
        mkVersion (v_repo_id v) (v_path v) (v_version v) (v_sha256 v) base storage (v_delta_algo v)
          (v_original_size v) stored_size (v_created_at v) :: db
      else v :: update_first db sha256 storage base stored_size
  end.
Definition update_version (db : MemoryLfsVersionDatabase) (sha256 : string) (storage : LfsStorageType)
    (base : option string) (stored_size : Z) : MemoryLfsVersionDatabase * result unit LfsVersionError :=
  (update_first db sha256 storage base stored_size, Ok tt).

(** The body of the loop of [lfs_stats]. *)
Definition add_stats (s : LfsStorageStats) (v : LfsFileVersion) : LfsStorageStats :=
  let key := storage_type_to_string (v_storage v) in
  let e := default (mkTypeStats 0 0 0) (by_storage_type s !! key) in
  mkLfsStats (as_i64 (total_versions s + 1)) (as_i64 (total_original_bytes s + v_original_size v))
    (as_i64 (total_stored_bytes s + v_stored_size v))
    (<[key := mkTypeStats (as_i64 (ts_count e + 1)) (as_i64 (ts_original_bytes e + v_original_size v))
                (as_i64 (ts_stored_bytes e + v_stored_size v))]> (by_storage_type s)).
(** [lfs_stats]. *)
Definition lfs_stats (db : MemoryLfsVersionDatabase) : result LfsStorageStats LfsVersionError :=
  Ok (foldl add_stats (mkLfsStats 0 0 0 ∅) db).

#[export] Instance impl : LfsVersionDatabase MemoryLfsVersionDatabase := {|
  Lfs.record_version := record_version;
  Lfs.get_by_sha256 := get_by_sha256;
  Lfs.get_latest_version := get_latest_version;
  Lfs.delete_by_sha256 := delete_by_sha256;
  Lfs.get_deltas_for_base := get_deltas_for_base;
  Lfs.update_version := update_version;
  Lfs.lfs_stats := lfs_stats
|}.
End MemoryVersions.
#[export] Instance memory_versions : LfsVersionDatabase MemoryLfsVersionDatabase := MemoryVersions.impl.

(** ** Compression *)

(** zstd at level 3; and [xd3_encode_memory input source avail_output] and
    [xd3_decode_memory] of the xdelta3 library, which write at most that many
    bytes. *)
Class Codec : Type := {
  zstd_encode : list byte → result (list byte) string;
  zstd_decode : list byte → result (list byte) string;
  xd3_encode_memory : list byte → list byte → Z → option (list byte);
  xd3_decode_memory : list byte → list byte → Z → option (list byte)
}.

(** Both are lossless, xdelta3 when the output has room for what was encoded. *)
Class CodecLaws `{Codec} : Prop := {
  zstd_roundtrip : ∀ d c, zstd_encode d = Ok c → zstd_decode c = Ok d;
  xd3_roundtrip : ∀ input source avail delta, xd3_encode_memory input source avail = Some delta →
    vec_len delta <= avail
    ∧ ∀ avail', vec_len input <= avail' → xd3_decode_memory delta source avail' = Some input
}.

(** [DELTA_THRESHOLD]: the binary64 number nearest to 0.8. *)
Definition DELTA_THRESHOLD : f64 := S754_finite false 7205759403792794 (-53).

(** [delta_is_worthwhile]. *)
Definition delta_is_worthwhile (delta_len original_len : Z) : bool :=
  if decide (original_len = 0) then false
  else SFltb (f64_div (u64_as_f64 delta_len) (u64_as_f64 original_len)) DELTA_THRESHOLD.

Section lfs.
Context `{Codec}.

(** [encode] and [decode] of [xdelta3.rs]: the lengths are cast to [c_uint], and
    the output gets twice their sum.  In a release build the sum wraps. *)
Definition c_uint_slice (l : list byte) : list byte := take (Z.to_nat (wrap_u32 (vec_len l))) l.
Definition estimated_out_len (input src : list byte) : Z :=
  wrap_u32 (wrap_u32 (wrap_u32 (vec_len input) + wrap_u32 (vec_len src)) * 2).
Definition xdelta_encode (input src : list byte) : option (list byte) :=
  xd3_encode_memory (c_uint_slice input) (c_uint_slice src) (estimated_out_len input src).
Definition xdelta_decode (input src : list byte) : option (list byte) :=
  xd3_decode_memory (c_uint_slice input) (c_uint_slice src) (estimated_out_len input src).

(** [compress], [decompress], [encode_delta], [decode_delta]. *)
Definition compress (data : list byte) : result (list byte) string := zstd_encode data.
Definition decompress (data : list byte) : result (list byte) string := zstd_decode data.
Definition encode_delta (base new : list byte) : result (list byte) string :=
  ok_or (xdelta_encode new base) "xdelta3 encode failed".
Definition decode_delta (base delta : list byte) : result (list byte) string :=
  ok_or (xdelta_decode delta base) "xdelta3 decode failed".

(** [compress(..).unwrap_or_else(|_| data)], [decompress(..).unwrap_or(data)]. *)
Definition compress_or_raw (data : list byte) : list byte := unwrap_or (compress data) data.
Definition decompress_or_raw (data : list byte) : list byte := unwrap_or (decompress data) data.

Definition MAX_DELTA_CHAIN_DEPTH : nat := 10.

Section reconstruct.
Context {V B : Type} `{LfsVersionDatabase V} `{BlobBackend B}.

(** The loop of [reconstruct_blob] that walks the chain; the chain it has
    collected is returned with its last element first. *)
Fixpoint walk_chain (fuel : nat) (lfs_db : V) (current_hash : string) (chain : list LfsFileVersion)
    : result (list LfsFileVersion) string :=
  match fuel with
  | O => Ok chain
  | S fuel =>
      match get_by_sha256 lfs_db current_hash with
      | Ok (Some v) =>
          match v_storage v, v_base_sha256 v with
          | Delta, Some base => walk_chain fuel lfs_db base (v :: chain)
          | _, _ => Ok (v :: chain)
          end
      | _ => Err "delta chain broken"
      end
  end.

(** The loop that applies the deltas. *)
Fixpoint apply_deltas (env : Env) (backend : B) (chain : list LfsFileVersion) (acc : list byte)
    : result (list byte) string :=
  match chain with
  | [] => Ok acc
  | v :: chain =>
      if decide (v_storage v = Delta) then
        match get env backend (v_sha256 v) with
        | None => Err ("delta blob " +:+ v_sha256 v +:+ " not found")
        | Some delta_raw =>
            let? acc := decode_delta acc (decompress_or_raw delta_raw) in
            apply_deltas env backend chain acc
        end
      else apply_deltas env backend chain acc
  end.

(** [reconstruct_blob]. *)
Definition reconstruct_blob (env : Env) (version : LfsFileVersion) (lfs_db : V) (backend : B)
    : result (list byte) string :=
  let? chain := walk_chain MAX_DELTA_CHAIN_DEPTH lfs_db (v_sha256 version) [] in
  let? base_hash :=
    ok_or (match chain with
           | [] => None
           | v :: _ => if decide (v_storage v ≠ Delta) then Some (v_sha256 v) else v_base_sha256 v
           end) "no base in chain" in
  match get env backend base_hash with
  | None => Err ("base blob " +:+ base_hash +:+ " not found")
  | Some raw =>
      let acc :=
        match get_by_sha256 lfs_db base_hash with
        | Ok (Some base_v) => if decide (v_storage base_v = Compressed) then decompress_or_raw raw else raw
        | _ => raw
        end in
      apply_deltas env backend chain acc
  end.
End reconstruct.
End lfs.

(** ** Deltas that are read back

    [decode] has room for twice the sum of the delta and the base: a content at
    most twice its base is decoded, however small its delta. *)

Definition roomy (base new : list byte) : Prop := vec_len new <= 2 * vec_len base ∧ vec_len base <= 268435456.

Lemma c_uint_slice_small l : vec_len l <= u32_max → c_uint_slice l = l.
Proof.
  intros Hl. unfold c_uint_slice, wrap_u32, vec_len in *. rewrite Z.mod_small by (unfold u32_max in *; lia).
  rewrite Nat2Z.id. by apply firstn_all.
Qed.
Lemma wrap_u32_small z : 0 <= z <= u32_max → wrap_u32 z = z.
Proof. intros Hz. apply Z.mod_small. lia. Qed.
Lemma estimated_small input src : vec_len input <= 2147483647 → vec_len src <= 2147483647 →
  vec_len input + vec_len src <= 2147483647 → estimated_out_len input src = (vec_len input + vec_len src) * 2.
Proof.
  intros Hi Hs Ht. assert (H' : 0 <= vec_len input ∧ 0 <= vec_len src) by (unfold vec_len; lia).
  unfold estimated_out_len. rewrite (wrap_u32_small (vec_len input)), (wrap_u32_small (vec_len src)) by (unfold u32_max; lia).
  by rewrite !wrap_u32_small by (unfold u32_max; rewrite ?wrap_u32_small; unfold u32_max; lia).
Qed.
Lemma xdelta_roundtrip `{CodecLaws} new base delta :
  roomy base new → xdelta_encode new base = Some delta → xdelta_decode delta base = Some new.
Proof.
  intros [Hn Hb]. unfold xdelta_encode, xdelta_decode. pose proof (Nat2Z.is_nonneg (length base)). pose proof (Nat2Z.is_nonneg (length new)).
  assert (Hlen : 0 <= vec_len base ∧ 0 <= vec_len new) by (unfold vec_len; lia).
  rewrite !c_uint_slice_small, (estimated_small new base) by (unfold u32_max; lia). intros [Hd Hr]%xd3_roundtrip.
  assert (0 <= vec_len delta) by (unfold vec_len; lia).
  rewrite c_uint_slice_small, estimated_small by (unfold u32_max; lia). apply Hr. lia.
Qed.

(** ** What a chain stores *)

(** A blob as the version records and the stored bytes describe it: [n] deltas
    above a full copy, with content [data]. *)
Inductive chain `{Codec} (lookup : string → option LfsFileVersion) (fetch : string → option (list byte))
    : nat → string → list byte → Prop :=
| chain_raw h v x :
    lookup h = Some v → v_sha256 v = h → v_storage v = Raw →
    fetch h = Some x → chain lookup fetch 0 h x
| chain_compressed h v x :
    lookup h = Some v → v_sha256 v = h → v_storage v = Compressed →
    fetch h = Some x → chain lookup fetch 0 h (decompress_or_raw x)
| chain_delta n h v base bd x data :
    lookup h = Some v → v_sha256 v = h → v_storage v = Delta → v_base_sha256 v = Some base →
    chain lookup fetch n base bd →
    fetch h = Some x → decode_delta bd (decompress_or_raw x) = Ok data →
    chain lookup fetch (S n) h data.

(** The record a version database has for a hash. *)
Definition version_of {V} `{LfsVersionDatabase V} (db : V) (h : string) : option LfsFileVersion :=
  match get_by_sha256 db h with Ok o => o | Err _ => None end.

Lemma version_of_Some {V} `{LfsVersionDatabase V} (db : V) h v :
  version_of db h = Some v → get_by_sha256 db h = Ok (Some v).
Proof. unfold version_of. destruct (get_by_sha256 db h); congruence. Qed.

Lemma chain_mono `{Codec} lookup fetch lookup' fetch' n h data :
  (∀ k v, lookup k = Some v → lookup' k = Some v) →
  (∀ k x, fetch k = Some x → fetch' k = Some x) →
  chain lookup fetch n h data → chain lookup' fetch' n h data.
Proof.
  intros Hl Hf. induction 1;
    [eapply chain_raw | eapply chain_compressed | eapply chain_delta]; eauto.
Qed.

Section chains.
Context `{Codec} {V B : Type} `{LfsVersionDatabase V} `{BlobBackend B}.

Definition denotes (env : Env) (db : V) (b : B) : nat → string → list byte → Prop :=
  chain (version_of db) (get env b).

(** The chain of a blob below [MAX_DELTA_CHAIN_DEPTH], the full copy first. *)
Lemma walk_denotes env db b n h data fuel chain :
  denotes env db b n h data → (n < fuel)%nat →
  ∃ l root, walk_chain fuel db h chain = Ok (root :: l ++ chain)%list
    ∧ v_storage root ≠ Delta ∧ version_of db (v_sha256 root) = Some root
    ∧ ∃ raw, get env b (v_sha256 root) = Some raw
    ∧ apply_deltas env b l (if decide (v_storage root = Compressed) then decompress_or_raw raw else raw) = Ok data.
Proof.
  intros Hd. revert fuel chain. induction Hd as [h v x Hg Hv Hs Hx|h v x Hg Hv Hs Hx|n h v base bd x data Hg Hv Hs Hb Hd IH Hx Hdec];
    intros fuel chain Hf; (destruct fuel as [|fuel]; [lia |]); pose proof (version_of_Some _ _ _ Hg) as Hg'.
  - exists [], v. simpl. rewrite Hg', Hs. split; [done |]. split; [done |]. split; [by rewrite Hv |].
    exists x. rewrite Hv. split; [done |]. by rewrite decide_False.
  - exists [], v. simpl. rewrite Hg', Hs. split; [done |]. split; [done |]. split; [by rewrite Hv |].
    exists x. rewrite Hv. split; [done |]. by rewrite decide_True.
  - destruct (IH fuel (v :: chain) ltac:(lia)) as (l & root & Hw & Hr & Hroot & raw & Hraw & Happ).
    exists (l ++ [v])%list, root. simpl. rewrite Hg', Hs, Hb. rewrite Hw. split; [by rewrite <- app_assoc |].
    split; [done |]. split; [done |]. exists raw. split; [done |].
    clear Hw Hraw. revert Happ. generalize (if decide (v_storage root = Compressed) then decompress_or_raw raw else raw).
    induction l as [|w l IHl]; intros acc Happ; simpl in *.
    + injection Happ as ->. rewrite decide_True by done. rewrite Hv, Hx, Hdec. done.
    + case_decide; [| by apply IHl].
      destruct (get env b (v_sha256 w)); [| done]. destruct (decode_delta acc _); [| done]. by apply IHl.
Qed.

(** The same at the depth limit exactly: the walk stops on the last delta. *)
Lemma walk_denotes_full env db b n h data fuel chain :
  denotes env db b n h data → n = fuel → (0 < n)%nat →
  ∃ l oldest root raw, walk_chain fuel db h chain = Ok (oldest :: l ++ chain)%list
    ∧ v_storage oldest = Delta ∧ v_base_sha256 oldest = Some (v_sha256 root)
    ∧ v_storage root ≠ Delta ∧ version_of db (v_sha256 root) = Some root
    ∧ get env b (v_sha256 root) = Some raw
    ∧ apply_deltas env b (oldest :: l) (if decide (v_storage root = Compressed) then decompress_or_raw raw else raw) = Ok data.
Proof.
  intros Hd. revert fuel chain. induction Hd as [h v x Hg Hv Hs Hx|h v x Hg Hv Hs Hx|n h v base bd x data Hg Hv Hs Hb Hd IH Hx Hdec];
    intros fuel chain Hf Hn; [lia | lia |]. subst fuel. cbn [walk_chain]. rewrite (version_of_Some _ _ _ Hg), Hs, Hb.
  destruct n as [|n].
  - assert (Hroot : ∃ root raw, v_sha256 root = base ∧ v_storage root ≠ Delta
      ∧ version_of db (v_sha256 root) = Some root ∧ get env b (v_sha256 root) = Some raw
      ∧ bd = if decide (v_storage root = Compressed) then decompress_or_raw raw else raw).
    { clear -Hd. inversion Hd; subst;
        match goal with Hs : v_storage ?w = _, Hx : get env b _ = Some ?y |- _ => exists w, y; rewrite Hs end;
        repeat (split; [done |]); [by rewrite decide_False | by rewrite decide_True]. }
    destruct Hroot as (root & raw & R1 & R2 & R3 & R4 & R5).
    exists [], v, root, raw. cbn [walk_chain]. split; [done |]. split; [done |]. split; [by rewrite R1 |].
    split; [done |]. split; [done |]. split; [done |]. cbn [apply_deltas]. rewrite decide_True by done.
    by rewrite Hv, Hx, <- R5, Hdec.
  - destruct (IH (S n) (v :: chain) eq_refl ltac:(lia)) as (l & oldest & root & raw & Hw & R1 & R2 & R3 & R4 & R5 & Happ).
    exists (l ++ [v])%list, oldest, root, raw. rewrite Hw.
    split; [by rewrite <- app_assoc |]. repeat (split; [done |]).
    change (oldest :: (l ++ [v]))%list with ((oldest :: l) ++ [v])%list. clear Hw.
    revert Happ. generalize (oldest :: l) (if decide (v_storage root = Compressed) then decompress_or_raw raw else raw).
    intros ds. induction ds as [|w ds IHl]; intros acc Happ; simpl in *.
    + injection Happ as ->. rewrite decide_True by done. rewrite Hv, Hx, Hdec. done.
    + case_decide; [| by apply IHl].
      destruct (get env b (v_sha256 w)); [| done]. destruct (decode_delta acc _); [| done]. by apply IHl.
Qed.
End chains.

Section reconstruction.
Context `{Codec} {V B : Type} `{LfsVersionDatabase V} `{BlobBackend B}.

Lemma reconstruct_denotes env (db : V) (b : B) n h data v :
  denotes env db b n h data → (n <= MAX_DELTA_CHAIN_DEPTH)%nat → v_sha256 v = h →
  reconstruct_blob env v db b = Ok data.
Proof.
  intros Hd Hn Hv. unfold reconstruct_blob. rewrite Hv.
  destruct (decide (n = MAX_DELTA_CHAIN_DEPTH)) as [Hfull|Hlt].
  - destruct (walk_denotes_full env db b n h data MAX_DELTA_CHAIN_DEPTH [] Hd Hfull) as
      (l & oldest & root & raw & Hw & R1 & R2 & R3 & R4 & R5 & Happ); [unfold MAX_DELTA_CHAIN_DEPTH in *; lia |].
    rewrite Hw, app_nil_r. rewrite decide_False by (intros Hc; by apply Hc). rewrite R2. cbn [ok_or].
    by rewrite R5, (version_of_Some _ _ _ R4).
  - destruct (walk_denotes env db b n h data MAX_DELTA_CHAIN_DEPTH [] Hd ltac:(lia)) as
      (l & root & Hw & Hr & Hroot & raw & Hraw & Happ).
    rewrite Hw, app_nil_r. rewrite decide_True by done. cbn [ok_or]. rewrite Hraw, (version_of_Some _ _ _ Hroot).
    cbn [apply_deltas]. by rewrite (decide_False (P := v_storage root = Delta)).
Qed.

(** C34: a delta chain is read back.  A blob stored as up to ten deltas above a
    full copy, raw or compressed, is reconstructed to the content its chain
    denotes. *)
Theorem reconstruct_chain env (db : V) (b : B) n h data v :
  denotes env db b n h data → (n <= MAX_DELTA_CHAIN_DEPTH)%nat → v_sha256 v = h →
  reconstruct_blob env v db b = Ok data.
Proof. apply reconstruct_denotes. Qed.
End reconstruction.

(** ** A concrete codec, for witnesses: a marker byte for compression, and
    deltas that append, runs of one byte by their length. *)
Module ConcreteCodec.
Fixpoint strip (p l : list byte) : option (list byte) :=
  match p, l with
  | [], _ => Some l
  | a :: p, b :: l => if decide (a = b) then strip p l else None
  | _ :: _, [] => None
  end.
Definition is_run (l : list byte) : bool :=
  match l with
  | [] => false
  | b :: _ => bool_decide (l = replicate (length l) b) && (length l <=? 255)%nat
  end.
Definition delta_of (suffix : list byte) : list byte :=
  match suffix with
  | b :: _ :: _ :: _ => if is_run suffix then [x72; b; z2b (vec_len suffix)] else x61 :: suffix
  | _ => x61 :: suffix
  end.
Definition suffix_of (delta : list byte) : option (list byte) :=
  match delta with
  | [x72; b; n] => Some (replicate (Z.to_nat (b2z n)) b)
  | x61 :: suffix => Some suffix
  | _ => None
  end.
Definition within {A} (avail : Z) (l : list A) : option (list A) := if decide (vec_len l <= avail) then Some l else None.

#[export] Instance codec : Codec := {|
  zstd_encode d := Ok (x28 :: d);
  zstd_decode c := match c with x28 :: d => Ok d | _ => Err "zstd decompress: unknown frame" end;
  xd3_encode_memory input source avail := strip source input ≫= fun suffix => within avail (delta_of suffix);
  xd3_decode_memory delta source avail := suffix_of delta ≫= fun suffix => within avail (source ++ suffix)%list
|}.

Lemma strip_app p l r : strip p l = Some r → (p ++ r)%list = l.
Proof.
  revert l. induction p as [|a p IH]; intros l Hs; [by injection Hs |].
  destruct l as [|b l]; simpl in Hs; [done |]. case_decide; [| done]. subst. simpl. by rewrite (IH _ Hs).
Qed.

Lemma suffix_of_delta l : suffix_of (delta_of l) = Some l.
Proof.
  destruct l as [|a [|b [|c l]]]; [done.. |]. unfold delta_of. destruct (is_run (a :: b :: c :: l)) eqn:E; [| done].
  unfold is_run in E. apply andb_true_iff in E as [Er%bool_decide_eq_true Hl%Nat.leb_le]. cbn [suffix_of]. f_equal.
  rewrite b2z_z2b, Z.mod_small by (unfold vec_len; lia). unfold vec_len. by rewrite Nat2Z.id, <- Er.
Qed.
Lemma within_Some {A} avail (l r : list A) : within avail l = Some r → r = l ∧ vec_len l <= avail.
Proof. unfold within. case_decide; [by intros [= <-] | done]. Qed.

#[export] Instance codec_laws : CodecLaws.
Proof.
  split; simpl.
  - intros d c [= <-]. done.
  - intros input source avail delta (suffix & Hs & [-> Ha]%within_Some)%bind_Some. split; [done |].
    intros avail' Ha'. rewrite suffix_of_delta. simpl. unfold within. rewrite (strip_app _ _ _ Hs). by rewrite decide_True.
Qed.
End ConcreteCodec.

Module LfsExamples.
Import Concrete ConcreteCodec.

Definition version (h : string) (base : option string) (t : LfsStorageType) : LfsFileVersion :=
  mkVersion "r" "p" 1 h base t None 0 0 0.
(** A compressed copy of one byte and [n] deltas, each appending a byte. *)
Definition name (n : nat) : string := u64_to_string (Z.of_nat n).
Definition db_of (n : nat) : MemoryLfsVersionDatabase :=
  version (name 0) None Compressed :: map (fun i => version (name (S i)) (Some (name i)) Delta) (seq 0 n).
Definition backend_of (n : nat) : MemoryBackend :=
  mkMem (list_to_map ((name 0, [x28; x00]) :: map (fun i => (name (S i), [x28; x61; z2b (Z.of_nat (S i))])) (seq 0 n))) ∅.
Definition content (n : nat) : list byte := map (fun i => z2b (Z.of_nat i)) (seq 0 (S n)).

Lemma chain2 : denotes (mkEnv 0 "" no_faults) (db_of 2) (backend_of 2) 2 (name 2) [x00; x01; x02].
Proof.
  apply (chain_delta _ _ 1 (name 2) (version (name 2) (Some (name 1)) Delta) (name 1) [x00; x01] [x28; x61; x02]);
    try reflexivity.
  apply (chain_delta _ _ 0 (name 1) (version (name 1) (Some (name 0)) Delta) (name 0) [x00] [x28; x61; x01]);
    try reflexivity.
  exact (chain_compressed (version_of (db_of 2)) (get (mkEnv 0 "" no_faults) (backend_of 2)) (name 0) (version (name 0) None Compressed)
    [x28; x00] eq_refl eq_refl eq_refl eq_refl).
Qed.

Lemma reconstruct_chain_witness :
  reconstruct_blob (mkEnv 0 "" no_faults) (version (name 2) (Some (name 1)) Delta) (db_of 2) (backend_of 2)
  = Ok [x00; x01; x02].
Proof.
  apply (reconstruct_chain (mkEnv 0 "" no_faults) (db_of 2) (backend_of 2) 2 (name 2)).
  - exact chain2.
  - unfold MAX_DELTA_CHAIN_DEPTH. lia.
  - reflexivity.
Defined.

(** Ten deltas are read back, eleven are not: the walk stops on a delta and
    takes its stored bytes for a full copy. *)
Example eleven_deltas_misread :
  let read n := reconstruct_blob (mkEnv 0 "" no_faults) (version (name n) (Some (name (n - 1))) Delta)
                  (db_of n) (backend_of n) in
  read 10%nat = Ok (content 10) ∧ read 11%nat = Ok (x28 :: x61 :: tail (content 11)).
Proof. vm_compute. split; reflexivity. Qed.
End LfsExamples.
