(* ===== verification/Stats.v ===== *)
(** * Access statistics ([src/src/stats.rs])

    The in-memory counters of the bytes served, drained into the database. *)

From Stdlib Require Import ZArith Lia Ascii String.
From stdpp Require Import base list gmap strings numbers sets.
From S2P Require Import Prelude Database.

Open Scope string_scope.
Open Scope Z_scope.

(** [BlobCounters]. *)
Record BlobCounters := mkCounters {
  c_egress_bytes : Z;
  c_last_accessed : Z
}.

(** [StatsAccumulator]. *)
Notation StatsAccumulator := (gmap string BlobCounters).

Module Stats.
(** [record_access]: the two updates of the entry; [fetch_add] wraps. *)
Definition record_access (s : StatsAccumulator) (now : Z) (sha256 : string) (bytes_served : Z)
    : StatsAccumulator :=
  let c := default (mkCounters 0 0) (s !! sha256) in
  let s := <[sha256 := mkCounters (wrap_u64 (c_egress_bytes c + bytes_served)) (c_last_accessed c)]> s in
  match s !! sha256 with
  | Some e => <[sha256 := mkCounters (c_egress_bytes e) now]> s
  | None => s
  end.

(** [tracked_count], [get_egress]. *)
Definition tracked_count (s : StatsAccumulator) : Z := Z.of_nat (size s).
Definition get_egress (s : StatsAccumulator) (sha256 : string) : Z :=
  match s !! sha256 with Some c => c_egress_bytes c | None => 0 end.

(** The loop of [drain]. *)
Fixpoint drain_loop (keys : list string) (s : StatsAccumulator) : list (string * Z * Z) * StatsAccumulator :=
  match keys with
  | [] => ([], s)
  | key :: keys =>
      match s !! key with
      | Some c =>
          let '(rest, s') := drain_loop keys (delete key s) in
          ((if decide (c_egress_bytes c > 0) then (key, c_egress_bytes c, c_last_accessed c) :: rest else rest), s')
      | None => drain_loop keys s
      end
  end.

Section flush.
Context `{HashOrder}.

(** [drain]. *)
Definition drain (s : StatsAccumulator) : list (string * Z * Z) * StatsAccumulator :=
  drain_loop (hm_keys s) s.

(** [flush]; [now] is the clock of the database. *)
Definition flush {D} `{BlobDatabase D} (s : StatsAccumulator) (db : D) (now : Z) : StatsAccumulator * D :=
  let '(items, s) := drain s in
  (s, foldl (fun db '(sha256, egress, _) => (Database.record_access db now sha256 egress).1) db items).

Lemma drain_loop_spec keys s :
  NoDup keys →
  (drain_loop keys s).2 = filter (fun kv => kv.1 ∉ keys) s
  ∧ NoDup (drain_loop keys s).1.*1.*1
  ∧ ∀ k e t, (k, e, t) ∈ (drain_loop keys s).1 ↔ k ∈ keys ∧ s !! k = Some (mkCounters e t) ∧ 0 < e.
Proof.
  revert s. induction keys as [|k keys IH]; intros s Hnd; simpl.
  - split; [| split; [constructor |]].
    + symmetry. apply map_filter_id. intros. apply not_elem_of_nil.
    + intros. rewrite !elem_of_nil. tauto.
  - apply NoDup_cons in Hnd as [Hk Hnd].
    destruct (s !! k) as [c|] eqn:E.
    + destruct (IH (delete k s) Hnd) as (I1 & I2 & I3). destruct (drain_loop keys (delete k s)) as [rest s'].
      simpl in *. split; [| split].
      * rewrite I1. apply map_eq. intros j. apply option_eq. intros x.
        rewrite !map_lookup_filter_Some, lookup_delete_Some, not_elem_of_cons. simpl. naive_solver.
      * case_decide; [| done]. simpl. apply NoDup_cons. split; [| done].
        intros Hin. apply list_elem_of_fmap in Hin as ([k' e'] & Heq & Hin). simpl in Heq. subst k'.
        apply list_elem_of_fmap in Hin as ([[k'' e''] t''] & Heq & Hin). simpl in Heq. injection Heq as <- <-.
        apply I3 in Hin as [Hin _]. done.
      * intros k' e t. destruct c as [ce ct]. simpl in *.
        assert (Hrest : (k', e, t) ∈ rest ↔ k' ∈ keys ∧ s !! k' = Some (mkCounters e t) ∧ 0 < e).
        { rewrite I3. destruct (decide (k' = k)) as [->|]; [split; tauto |]. by rewrite lookup_delete_ne. }
        rewrite elem_of_cons. case_decide.
        -- rewrite elem_of_cons, Hrest. split.
           ++ intros [[= -> -> ->] | Hx]; [split; [by left |]; split; [done | lia] | naive_solver].
           ++ intros [[-> | Hk'] [Hs He]]; [left; congruence | right; tauto].
        -- rewrite Hrest. split; [naive_solver |]. intros [[-> | Hk'] [Hs He]]; [| tauto].
           rewrite E in Hs. injection Hs as <- <-. lia.
    + destruct (IH s Hnd) as (I1 & I2 & I3). split; [| split; [done |]].
      * rewrite I1. apply map_filter_ext. intros j x Hj. simpl. rewrite not_elem_of_cons.
        split; [intros Hn; split; [congruence | done] | tauto].
      * intros k' e t. rewrite I3, elem_of_cons. split; [tauto |].
        intros [[-> | Hk'] [Hs He]]; [congruence | tauto].
Qed.

Definition egress_in (d : MemoryDatabase) (h : string) : Z :=
  match stats d !! h with Some s => st_egress_bytes s | None => 0 end.

Lemma egress_record d now h n h' :
  egress_in (MemoryDatabase.record_access d now h n).1 h'
  = if decide (h' = h) then wrap_u64 (egress_in d h + n) else egress_in d h'.
Proof.
  unfold egress_in. simpl. case_decide as Hh.
  - subst. rewrite lookup_insert_eq. simpl. by destruct (stats d !! h).
  - by rewrite lookup_insert_ne.
Qed.

Lemma egress_flush_list d now (items : list (string * Z * Z)) h :
  NoDup items.*1.*1 →
  egress_in (foldl (fun db '(sha256, egress, _) => (MemoryDatabase.record_access db now sha256 egress).1) d items) h
  = match list_find (fun x => x.1.1 = h) items with
    | Some (_, x) => wrap_u64 (egress_in d h + x.1.2)
    | None => egress_in d h
    end.
Proof.
  revert d. induction items as [|[[k e] t] items IH]; intros d Hnd; [done |].
  simpl in Hnd. apply NoDup_cons in Hnd as [Hk Hnd]. cbn [foldl list_find]. rewrite IH by done.
  rewrite egress_record. simpl. destruct (decide (k = h)) as [->|Hne].
  - rewrite decide_True by done.
    destruct (list_find (fun x : string * Z * Z => x.1.1 = h) items) as [[i x]|] eqn:E; [| done].
    apply list_find_Some in E as (Hx & Hxh & _). destruct Hk.
    apply list_elem_of_fmap. exists x.1. split; [done |]. apply list_elem_of_fmap. exists x.
    split; [done |]. by eapply list_elem_of_lookup_2.
  - rewrite decide_False by congruence. by destruct (list_find _ items) as [[i x]|].
Qed.

(** No byte served is lost or counted twice.  [flush] empties the
    accumulator, and adds to the count of each blob in the database exactly
    what was accumulated for it. *)
Theorem flush_conserves_egress (s : StatsAccumulator) (d : MemoryDatabase) now h :
  (∀ k c, s !! k = Some c → 0 <= c_egress_bytes c) →
  in_u64 (egress_in d h) →
  let '(s', d') := flush s d now in
  s' = ∅ ∧ egress_in d' h = wrap_u64 (egress_in d h + get_egress s h).
Proof.
  intros Hpos Hd. unfold flush, drain.
  destruct (drain_loop_spec (hm_keys s) s (NoDup_hm_keys s)) as (I1 & I2 & I3).
  destruct (drain_loop (hm_keys s) s) as [items s']. simpl in *. split.
  - rewrite I1. apply map_empty. intros k. apply map_lookup_filter_None. right. intros x Hx Hn.
    apply Hn. simpl. apply elem_of_hm_keys. by exists x.
  - change (egress_in (foldl (fun db '(sha256, egress, _) => (MemoryDatabase.record_access db now sha256 egress).1) d items) h
      = wrap_u64 (egress_in d h + get_egress s h)).
    rewrite egress_flush_list by done. unfold get_egress.
    destruct (list_find _ items) as [[i [[k e] t]]|] eqn:E.
    + apply list_find_Some in E as (Hi & Hk & _). simpl in Hk. subst k.
      apply list_elem_of_lookup_2, I3 in Hi as (_ & Hs & _). by rewrite Hs.
    + assert (Hz : match s !! h with Some c => c_egress_bytes c | None => 0 end = 0).
      { destruct (s !! h) as [c|] eqn:Es; [| done]. destruct (decide (0 < c_egress_bytes c)) as [Hc|Hc].
        - apply list_find_None in E. rewrite Forall_forall in E.
          destruct (E (h, c_egress_bytes c, c_last_accessed c)); [| done].
          apply I3. split; [apply elem_of_hm_keys; by exists c |]. split; [by destruct c | done].
        - pose proof (Hpos h c Es). lia. }
      rewrite Hz, Z.add_0_r. unfold wrap_u64. unfold in_u64 in Hd. rewrite Z.mod_small; [done | lia].
Qed.
End flush.

(** The time of the last access is not kept: the database records the time
    of the flush. *)
Example flush_time_replaces_access_time :
  let '(_, d) := flush (record_access ∅ 5 "h" 100) MemoryDatabase.new 900 in
  st_last_accessed <$> stats d !! "h" = Some 900.
Proof. vm_compute. reflexivity. Qed.
End Stats.
