(* ===== verification/Server.v ===== *)
(** * The HTTP server ([src/src/server/mod.rs])

    The shared state and the handlers of the Blossom endpoints.  A handler is a
    computation in [M], the state-and-early-return monad: the state it changes
    is the [ServerState] behind the mutex together with the process-wide replay
    cache and body-buffer budget.  The handlers that release the mutex while they
    wait for a body are split at those points, so that their parts can be
    interleaved. *)

From Stdlib Require Import ZArith Lia Ascii String.
From Stdlib Require Import Strings.Byte.
From stdpp Require Import base list gmap strings numbers sets.
From S2P Require Import Prelude Effects Protocol Auth Replay RequestAuth RateLimit Database Access Storage Locks Lfs Stats.

Open Scope string_scope.
Open Scope Z_scope.
Open Scope handler_scope.

(** [UploadRequirements]. *)
Record UploadRequirements := mkRequirements {
  max_size : option Z;
  allowed_types : list string;
  require_auth : bool
}.

(** [EventType], [WebhookPayload]. *)
Inductive EventType := EvUpload | EvDelete | EvMirror.
Record WebhookPayload := mkPayload {
  wp_event : EventType;
  wp_sha256 : string;
  wp_size : Z;
  wp_pubkey : string;
  wp_timestamp : Z;
  wp_metadata : option json
}.

(** [ServerState], with the replay cache and the free units of the body-buffer
    budget, and the payloads handed to the webhook notifier so far. *)
Record ServerState (B D V : Type) := mkServer {
  s_backend : B;
  s_database : D;
  s_access : AccessControl;
  s_stats : StatsAccumulator;
  s_rate_limiter : option RateLimiter;
  s_base_url : string;
  s_requirements : UploadRequirements;
  s_body_limit : Z;
  s_lfs_version_db : option V;
  s_seen : ReplayCache;
  s_permits : Z;
  s_notified : list WebhookPayload
}.
Arguments mkServer {B D V} _ _ _ _ _ _ _ _ _ _ _ _.
Arguments s_backend {B D V} _.
Arguments s_database {B D V} _.
Arguments s_access {B D V} _.
Arguments s_stats {B D V} _.
Arguments s_rate_limiter {B D V} _.
Arguments s_base_url {B D V} _.
Arguments s_requirements {B D V} _.
Arguments s_body_limit {B D V} _.
Arguments s_lfs_version_db {B D V} _.
Arguments s_seen {B D V} _.
Arguments s_permits {B D V} _.
Arguments s_notified {B D V} _.

(** The clock readings of a request, and the environment of its storage calls. *)
Record ReqEnv := mkReqEnv {
  q_auth : Z;
  q_ms : Z;
  q_cleanup_ms : Z;
  q_bind : Z;
  q_mark : Z;
  q_now : Z;
  q_env : Env
}.

(** A request body: the bytes received, or the error of the transport; and the
    exact length the transport knows beforehand, if it does. *)
Record Body := mkBody {
  body_data : result (list byte) string;
  body_exact : option Z
}.

(** [MAX_BUFFERED_BODY_BYTES], [BODY_BUFFER_UNIT_BYTES], [BODY_BUFFER_BUDGET]. *)
Definition MAX_BUFFERED_BODY_BYTES : Z := 256 * 1024 * 1024.
Definition BODY_BUFFER_UNIT_BYTES : Z := 1024 * 1024.
Definition BODY_BUFFER_BUDGET : Z := MAX_BUFFERED_BODY_BYTES / BODY_BUFFER_UNIT_BYTES.

(** ** Helpers *)

(** [is_valid_sha256]: the test of [FilesystemBackend::valid_hash]. *)
Definition is_valid_sha256 (s : string) : bool :=
  bool_decide (str_len s = 64) && str_all is_lower_hex s.

(** [declared_body_len]. *)
Definition declared_body_len (headers : HeaderMap) : option Z :=
  match header_str headers "content-length" with Some v => parse_u64 v | None => None end.

(** [extract_content_type]. *)
Definition extract_content_type (headers : HeaderMap) : option string :=
  match header_str headers "content-type" with
  | Some ct => if decide (ct = "application/octet-stream") then None else Some ct
  | None => None
  end.

(** [detect_mime]. *)
Definition detect_mime (data : list byte) : string :=
  match map b2z data with
  | a :: b :: c :: d :: rest =>
      if (a =? 137) && (b =? 80) && (c =? 78) && (d =? 71) then "image/png"
      else if (a =? 255) && (b =? 216) && (c =? 255) then "image/jpeg"
      else if (a =? 71) && (b =? 73) && (c =? 70) && (d =? 56) then "image/gif"
      else if (a =? 82) && (b =? 73) && (c =? 70) && (d =? 70)
              && bool_decide (12 < length data)%nat
              && bool_decide (take 4 (drop 4 rest) = [87; 69; 66; 80]) then "image/webp"
      else if (a =? 37) && (b =? 80) && (c =? 68) && (d =? 70) then "application/pdf"
      else if (a =? 80) && (b =? 75) && (c =? 3) && (d =? 4) then "application/zip"
      else if (a =? 31) && (b =? 139) then "application/gzip"
      else if bool_decide (8 < length data)%nat && bool_decide (take 4 rest = [102; 116; 121; 112]) then "video/mp4"
      else "application/octet-stream"
  | _ => "application/octet-stream"
  end.

(** [mime_allowed]. *)
Definition mime_allowed (r : UploadRequirements) (mime : string) : bool :=
  let normalized := to_ascii_lowercase (trim (before_char ";" mime)) in
  bool_decide (allowed_types r = [])
  || existsb (fun allowed => eq_ignore_ascii_case (trim allowed) normalized) (allowed_types r).

(** [DbError::to_string]. *)
Definition db_error_to_string (e : DbError) : string :=
  match e with
  | QuotaExceeded used requested limit =>
      "quota exceeded: used " +:+ u64_to_string used +:+ " + " +:+ u64_to_string requested
        +:+ " > limit " +:+ u64_to_string limit
  | NotFound => "not found"
  | Internal m => "database error: " +:+ m
  end.

(** [LfsVersionError::to_string]. *)
Definition version_error_to_string (e : LfsVersionError) : string :=
  match e with VersionNotFound => "not found" | VersionInternal m => "database error: " +:+ m end.

Definition opt_json {A} (f : A → json) (name : string) (o : option A) : list (string * json) :=
  match o with Some a => [(name, f a)] | None => [] end.

(** [serde_json::to_value] of a [BlobDescriptor], which does not fail. *)
Definition descriptor_json (d : BlobDescriptor) : json :=
  JObj ([("sha256", JStr (d_sha256 d)); ("size", JNum (d_size d))]
        ++ opt_json JStr "type" (d_content_type d) ++ opt_json JStr "url" (d_url d)
        ++ opt_json JNum "uploaded" (d_uploaded d))%list.

(** [read_body_limited] before it waits: the units to reserve. *)
Definition body_permits (limit : Z) (declared_len hinted_len : option Z) : result Z Response :=
  if decide (limit > MAX_BUFFERED_BODY_BYTES) then
    Err (413, error_json "configured request body limit exceeds the safe buffered ceiling")
  else if match declared_len with Some n => bool_decide (n > limit) | None => false end then
    Err (413, error_json "request body exceeds configured limit")
  else
    let reservation := match declared_len, hinted_len with
                       | Some n, _ => n | None, Some n => n | None, None => limit end in
    let units := (Z.max reservation 1 + BODY_BUFFER_UNIT_BYTES - 1) / BODY_BUFFER_UNIT_BYTES in
    if decide (units <= u32_max) then Ok units
    else Err (413, error_json "request body limit is too large").

(** [to_bytes] with a limit. *)
Definition to_bytes (body : Body) (limit : Z) : result (list byte) Response :=
  match body_data body with
  | Ok data => if decide (vec_len data <= limit) then Ok data
               else Err (413, error_json "request body exceeds configured limit")
  | Err _ => Err (413, error_json "request body exceeds configured limit")
  end.

(** ** The monad *)

Section server.
Context `{Crates} `{Codec} {B D V : Type} `{BlobBackend B} `{BlobDatabase D} `{LfsVersionDatabase V}.

Notation S := (ServerState B D V).
Notation M := (MR S Response).

Definition set_backend (b : B) (s : S) : S :=
  mkServer b (s_database s) (s_access s) (s_stats s) (s_rate_limiter s) (s_base_url s) (s_requirements s)
    (s_body_limit s) (s_lfs_version_db s) (s_seen s) (s_permits s) (s_notified s).
Definition set_database (d : D) (s : S) : S :=
  mkServer (s_backend s) d (s_access s) (s_stats s) (s_rate_limiter s) (s_base_url s) (s_requirements s)
    (s_body_limit s) (s_lfs_version_db s) (s_seen s) (s_permits s) (s_notified s).
Definition set_stats (x : StatsAccumulator) (s : S) : S :=
  mkServer (s_backend s) (s_database s) (s_access s) x (s_rate_limiter s) (s_base_url s) (s_requirements s)
    (s_body_limit s) (s_lfs_version_db s) (s_seen s) (s_permits s) (s_notified s).
Definition set_rate_limiter (x : option RateLimiter) (s : S) : S :=
  mkServer (s_backend s) (s_database s) (s_access s) (s_stats s) x (s_base_url s) (s_requirements s)
    (s_body_limit s) (s_lfs_version_db s) (s_seen s) (s_permits s) (s_notified s).
Definition set_version_db (x : option V) (s : S) : S :=
  mkServer (s_backend s) (s_database s) (s_access s) (s_stats s) (s_rate_limiter s) (s_base_url s)
    (s_requirements s) (s_body_limit s) x (s_seen s) (s_permits s) (s_notified s).
Definition set_seen (x : ReplayCache) (s : S) : S :=
  mkServer (s_backend s) (s_database s) (s_access s) (s_stats s) (s_rate_limiter s) (s_base_url s)
    (s_requirements s) (s_body_limit s) (s_lfs_version_db s) x (s_permits s) (s_notified s).
Definition set_permits (x : Z) (s : S) : S :=
  mkServer (s_backend s) (s_database s) (s_access s) (s_stats s) (s_rate_limiter s) (s_base_url s)
    (s_requirements s) (s_body_limit s) (s_lfs_version_db s) (s_seen s) x (s_notified s).
Definition notify (p : WebhookPayload) (s : S) : S :=
  mkServer (s_backend s) (s_database s) (s_access s) (s_stats s) (s_rate_limiter s) (s_base_url s)
    (s_requirements s) (s_body_limit s) (s_lfs_version_db s) (s_seen s) (s_permits s) (s_notified s ++ [p])%list.

(** ** Steps the handlers share *)

Definition auth_error {A} (e : AuthError) : M A := early (401, error_json (auth_error_to_string e)).

(** [limiter.check(key)], when a limiter is configured. *)
Definition rate_limit (q : ReqEnv) (key : string) : M unit :=
  fun s => match s_rate_limiter s with
           | None => (s, Ok tt)
           | Some l =>
               let '(l, ok) := RateLimiter.check l key (q_ms q) (q_cleanup_ms q) in
               (set_rate_limiter (Some l) s,
                if ok then Ok tt else Err (429, error_json "rate limit exceeded"))
           end.

(** [verify_auth_event_claims], against the state's base URL. *)
Definition check_claims (now : Z) (e : NostrEvent) (action path method : string) (hash : option string) : M unit :=
  fun s => match verify_auth_event_claims now e action (s_base_url s) path method hash with
           | Ok _ => (s, Ok tt)
           | Err er => (s, Err (401, error_json (auth_error_to_string er)))
           end.
(** [mark_auth_event_once]. *)
Definition mark_once (now : Z) (e : NostrEvent) : M unit :=
  fun s => let '(seen, r) := mark_auth_event_once (s_seen s) now e in
           (set_seen seen s, match r with Ok _ => Ok tt | Err er => Err (401, error_json (auth_error_to_string er)) end).

(** [BODY_BUFFER_BUDGET.try_acquire_many]. *)
Definition acquire (units : Z) (refusal : Response) : M unit :=
  fun s => if decide (units <= s_permits s) then (set_permits (s_permits s - units) s, Ok tt) else (s, Err refusal).
(** The permit is dropped when the handler ends, on every path. *)
Definition releasing {A} (units : Z) (m : M A) : M A :=
  fun s => let '(s, r) := m s in (set_permits (s_permits s + units) s, r).

(** Run [k] with the body read within the limit, holding its permits. *)
Definition with_body {A} (limit : Z) (headers : HeaderMap) (body : Body) (k : list byte → M A) : M A :=
  let! units := lift (body_permits limit (declared_body_len headers) (body_exact body)) in
  acquire units (503, error_json "request body capacity exhausted") ;!
  releasing units (let! data := lift (to_bytes body limit) in k data).

(** The bytes a stored blob adds to its owner's account, and the quota check. *)
Definition additional_bytes (d : D) (sha256 owner : string) (size : Z) : Z :=
  if unwrap_or (is_upload_owner d sha256 owner) false then 0 else size.

(** [record_upload], answering 500 when it fails. *)
Definition record (r : UploadRecord) : M unit :=
  fun s => let '(d, x) := record_upload (s_database s) r in
           (set_database d s,
            match x with
            | Ok _ => Ok tt
            | Err e => Err (500, error_json ("metadata write failed: " +:+ db_error_to_string e))
            end).

(** The quota check of the endpoints that let every error but
    [DbError::QuotaExceeded] pass. *)
Definition refuse_over_quota (sha256 owner : string) (size : Z) (message : Z → Z → Z → string) : M unit :=
  let! d := gets s_database in
  match check_quota d owner (additional_bytes d sha256 owner size) with
  | Err (QuotaExceeded used requested limit) => early (507, error_json (message used requested limit))
  | _ => ret tt
  end.

(** [try_insert], and the record of the upload. *)
Definition insert_recorded (q : ReqEnv) (data : list byte) (upload_of : BlobDescriptor → UploadRecord)
    : M BlobDescriptor :=
  let! s := gets (fun s => s) in
  let '(b, r) := try_insert (q_env q) (s_backend s) data (s_base_url s) in
  modify (set_backend b) ;!
  match r with
  | Err error => early (500, error_json ("storage write failed: " +:+ error))
  | Ok descriptor => record (upload_of descriptor) ;! ret descriptor
  end.

(** ** BUD-01: upload *)

(** The first part of [handle_upload], under the lock: who uploads. *)
Definition upload_authorize (q : ReqEnv) (headers : HeaderMap) : M (option NostrEvent * option string * Z) :=
  let! auth_event :=
    (if contains_header headers "authorization" then
       match extract_auth_event headers with
       | Ok event => ret (Some event)
       | Err e => auth_error e
       end
     else ret None) in
  let! req := gets s_requirements in
  guard (negb (require_auth req && match auth_event with None => true | _ => false end))
    (401, error_json (auth_error_to_string InvalidSignature)) ;!
  let! pubkey :=
    match auth_event with
    | Some event =>
        check_claims (q_auth q) event "upload" "/upload" "PUT" None ;!
        let! access := gets s_access in
        guard (@is_allowed access (ev_pubkey event) Upload) (403, error_json "upload not allowed for this pubkey") ;!
        ret (Some (ev_pubkey event))
    | None => ret None
    end in
  rate_limit q (default "anonymous" pubkey) ;!
  let! limit := gets s_body_limit in
  ret (auth_event, pubkey, limit).

(** The second part, once the body is in: bind the event to it and use it up. *)
Definition upload_bind (q : ReqEnv) (auth_event : option NostrEvent) (data : list byte) : M unit :=
  guard (negb (bool_decide (data = []))) (400, error_json "empty body") ;!
  match auth_event with
  | Some event =>
      check_claims (q_bind q) event "upload" "/upload" "PUT" (Some (sha256_hex data)) ;!
      mark_once (q_mark q) event
  | None => ret tt
  end.

(** What the LFS pipeline stores: the bytes, how, and against which base. *)
Definition lfs_encode (env : Env) (db : option V) (backend : B) (ctx : LfsContext) (data : list byte)
    : list byte * LfsStorageType * option string :=
  let full := (compress_or_raw data, Compressed, None) in
  match db with
  | None => (data, Raw, None)
  | Some lfs_db =>
      if is_lfs ctx && negb (is_manifest ctx) then
        match lfs_base ctx with
        | None => full
        | Some base_hash =>
            let base_version := match get_by_sha256 lfs_db base_hash with Ok v => v | Err _ => None end in
            match base_version, get env backend base_hash with
            | Some base_version, Some base_data =>
                let base_decompressed :=
                  match v_storage base_version with
                  | Compressed => decompress_or_raw base_data
                  | Delta => unwrap_or (reconstruct_blob env base_version lfs_db backend) base_data
                  | Raw => base_data
                  end in
                match encode_delta base_decompressed data with
                | Ok delta =>
                    if delta_is_worthwhile (vec_len delta) (vec_len data) then
                      match compress delta with
                      | Ok compressed_delta => (compressed_delta, Delta, Some base_hash)
                      | Err _ => full
                      end
                    else full
                | Err _ => full
                end
            | _, _ => full
            end
        end
      else (data, Raw, None)
  end.

(** The version record of an upload. *)
Definition lfs_record (q : ReqEnv) (db : option V) (ctx : LfsContext) (sha256 : string) (size : Z)
    (storage : LfsStorageType) (base : option string) : option V :=
  match db with
  | None => None
  | Some lfs_db =>
      if is_lfs ctx then
        match lfs_repo ctx, lfs_path ctx with
        | Some repo, Some path =>
            let next_version :=
              match get_latest_version lfs_db repo path with
              | Ok (Some v) => as_i64 (v_version v + 1)
              | _ => 1
              end in
            let r := mkVersion repo path next_version sha256 base storage
                       (if decide (storage = Delta) then Some "xdelta3" else None)
                       (as_i64 size) (as_i64 size) (as_i64 (q_now q)) in
            Some (record_version lfs_db r).1
        | _, _ => Some lfs_db
        end
      else Some lfs_db
  end.

(** The storing of an upload: the blob, unless it is there already, and its
    version record. *)
Definition put_blob {R} (q : ReqEnv) (ctx : LfsContext) (data : list byte) (storage_error : string → R) : MR S R unit :=
  let sha256 := sha256_hex data in
  let size := vec_len data in
  let! s := gets (fun s => s) in
  let '(stored_data, storage_type, base_sha256) :=
    lfs_encode (q_env q) (s_lfs_version_db s) (s_backend s) ctx data in
  (if exists_blob (s_backend s) sha256 then ret tt
   else
     let '(b, r) := try_insert_with_hash (q_env q) (s_backend s) stored_data sha256 size (s_base_url s) in
     modify (set_backend b) ;!
     match r with
     | Ok _ => ret tt
     | Err error => early (storage_error error)
     end) ;!
  modify (set_version_db (lfs_record q (s_lfs_version_db s) ctx sha256 size storage_type base_sha256)).

(** The last part, under the lock: checks, storage, metadata. *)
Definition upload_store (q : ReqEnv) (headers : HeaderMap) (pubkey : option string) (data : list byte) : M Response :=
  let sha256 := sha256_hex data in
  let size := vec_len data in
  let! req := gets s_requirements in
  guard (match max_size req with Some max => bool_decide (size <= max) | None => true end)
    (413, error_json ("exceeds max upload size of " +:+ u64_to_string (default 0 (max_size req)) +:+ " bytes")) ;!
  match pubkey with
  | Some owner =>
      let! d := gets s_database in
      match check_quota d owner (additional_bytes d sha256 owner size) with
      | Ok _ => ret tt
      | Err e => early (507, error_json (db_error_to_string e))
      end
  | None => ret tt
  end ;!
  let content_type := default (detect_mime data) (extract_content_type headers) in
  guard (mime_allowed req content_type) (415, error_json "content type is not allowed") ;!
  let ctx := match extract_auth_event headers with Ok e => from_event e | Err _ => default_lfs_context end in
  put_blob q ctx data (fun error => (500, error_json ("storage write failed: " +:+ error))) ;!
  let! base_url := gets s_base_url in
  let descriptor := make_descriptor_from_hash (q_now q) sha256 size base_url in
  let upload_pubkey := default "anonymous" pubkey in
  record (mkUpload sha256 size content_type upload_pubkey (q_now q) None) ;!
  modify (notify (mkPayload EvUpload sha256 size upload_pubkey (q_now q) None)) ;!
  ret (200, descriptor_json descriptor).

(** [handle_upload]. *)
Definition handle_upload (q : ReqEnv) (headers : HeaderMap) (body : Body) : S → S * Response :=
  respond (
    let! auth := upload_authorize q headers in
    let '(auth_event, pubkey, limit) := auth in
    with_body limit headers body (fun data =>
      upload_bind q auth_event data ;!
      upload_store q headers pubkey data)).

(** ** BUD-01: get, head, delete *)

(** [sha256.split('.').next()]. *)
Definition strip_extension (path : string) : string := before_char "." path.

(** [stored_content_type]. *)
Definition stored_content_type (d : D) (sha256 : string) (data : option (list byte)) : string :=
  let recorded := match get_upload d sha256 with
                  | Ok r => if bool_decide (r_mime_type r = "") || bool_decide (r_mime_type r = "application/octet-stream")
                            then None else Some (r_mime_type r)
                  | Err _ => None
                  end in
  match recorded with
  | Some mime => mime
  | None => match data with Some x => detect_mime x | None => "application/octet-stream" end
  end.

(** The bytes [handle_get_blob] answers with, given the stored ones. *)
Definition served_data (env : Env) (s : S) (sha256 : string) (raw_data : list byte) : list byte :=
  match s_lfs_version_db s with
  | None => raw_data
  | Some lfs_db =>
      match get_by_sha256 lfs_db sha256 with
      | Ok (Some version) =>
          match v_storage version with
          | Compressed => decompress_or_raw raw_data
          | Delta => unwrap_or (reconstruct_blob env version lfs_db (s_backend s)) raw_data
          | Raw => raw_data
          end
      | _ => raw_data
      end
  end.

(** A response with a blob: the status, and the content type and the bytes. *)
Definition BlobResponse : Type := Z * option (string * list byte).

(** [handle_get_blob]. *)
Definition handle_get_blob (q : ReqEnv) (path : string) (s : S) : S * BlobResponse :=
  let sha256 := strip_extension path in
  if negb (is_valid_sha256 sha256) then (s, (400, None))
  else
    match get (q_env q) (s_backend s) sha256 with
    | None => (s, (404, None))
    | Some raw_data =>
        let data := served_data (q_env q) s sha256 raw_data in
        (set_stats (Stats.record_access (s_stats s) (q_now q) sha256 (vec_len data)) s,
         (200, Some (stored_content_type (s_database s) sha256 (Some data), data)))
    end.

(** [handle_head_blob]: the status, the content length and the content type. *)
Definition handle_head_blob (q : ReqEnv) (path : string) (s : S) : S * (Z * option (Z * string)) :=
  let sha256 := strip_extension path in
  if negb (is_valid_sha256 sha256) then (s, (400, None))
  else
    match get (q_env q) (s_backend s) sha256 with
    | None => (s, (404, None))
    | Some _ =>
        let content_length :=
          match s_lfs_version_db s with
          | Some lfs_db =>
              match get_by_sha256 lfs_db sha256 with
              | Ok (Some v) => Some (as_u64 (v_original_size v))
              | _ => None
              end
          | None => None
          end in
        let size := match content_length with
                    | Some n => n
                    | None => match get (q_env q) (s_backend s) sha256 with Some d => vec_len d | None => 0 end
                    end in
        (s, (200, Some (size, stored_content_type (s_database s) sha256 None)))
    end.

(** The body of the loop of [handle_delete_blob] that turns the deltas on the
    deleted blob into full copies. *)
Definition rebase_one (env : Env) (delta_version : LfsFileVersion) : MR S string unit :=
  let! s := gets (fun s => s) in
  match s_lfs_version_db s with
  | None => ret tt
  | Some lfs_db =>
      let base_decompressed_opt :=
        match get env (s_backend s) (v_sha256 delta_version) with
        | Some _ => res_ok (reconstruct_blob env delta_version lfs_db (s_backend s))
        | None => None
        end in
      match base_decompressed_opt with
      | None => ret tt
      | Some base_decompressed =>
          let '(b, r) := try_insert_with_hash env (s_backend s) (compress_or_raw base_decompressed)
                           (v_sha256 delta_version) (as_u64 (v_original_size delta_version)) (s_base_url s) in
          modify (set_backend b) ;!
          match r with
          | Err error => early ("delta rebase storage failed: " +:+ error)
          | Ok _ =>
              let '(lfs_db, r) := update_version lfs_db (v_sha256 delta_version) Compressed None
                                    (as_i64 (vec_len base_decompressed)) in
              modify (set_version_db (Some lfs_db)) ;!
              match r with
              | Err error => early ("delta metadata update failed: " +:+ version_error_to_string error)
              | Ok _ => ret tt
              end
          end
      end
  end.

Fixpoint rebase_all (env : Env) (deltas : list LfsFileVersion) : MR S string unit :=
  match deltas with
  | [] => ret tt
  | d :: deltas => rebase_one env d ;! rebase_all env deltas
  end.

(** The deltas to rebase. *)
Definition deltas_to_rebase (s : S) (sha256 : string) : list LfsFileVersion :=
  match s_lfs_version_db s with
  | Some lfs_db => unwrap_or (get_deltas_for_base lfs_db sha256) []
  | None => []
  end.

(** The end of a deletion: the deltas are rebased, the blob and its records
    go.  Answers what [try_delete] did. *)
Definition remove_blob {R} (env : Env) (sha256 : string) (rebase_error : string → R) (metadata_error : DbError → R)
    : MR S R (result bool string) :=
  let! deltas := gets (fun s => deltas_to_rebase s sha256) in
  map_err rebase_error (rebase_all env deltas) ;!
  let! s := gets (fun s => s) in
  let '(b, r) := try_delete env (s_backend s) sha256 in
  modify (set_backend b) ;!
  match r with
  | Ok true =>
      let '(d, x) := delete_upload (s_database s) sha256 in
      modify (set_database d) ;!
      match x with
      | Err error => early (metadata_error error)
      | Ok _ =>
          modify (fun s => match s_lfs_version_db s with
                           | Some lfs_db => set_version_db (Some (delete_by_sha256 lfs_db sha256).1) s
                           | None => s end) ;!
          ret r
      end
  | _ => ret r
  end.

(** The end of [handle_delete_blob]. *)
Definition delete_physically (q : ReqEnv) (sha256 pubkey : string) : M Response :=
  let! removed := remove_blob (q_env q) sha256 (fun e => (500, error_json e))
                    (fun e => (500, error_json (db_error_to_string e))) in
  match removed with
  | Ok true =>
      modify (notify (mkPayload EvDelete sha256 0 pubkey (q_now q) None)) ;!
      ret (200, JObj [("deleted", JBool true)])
  | Ok false => ret (404, error_json "not found")
  | Err error => ret (500, error_json ("storage delete failed: " +:+ error))
  end.

(** What a caller without the role of an administrator may delete: its own
    reference.  [Some r] is an answer that leaves the bytes in place. *)
Definition delete_own (sha256 pubkey : string) : M (option Response) :=
  let! d := gets s_database in
  guard (unwrap_or (is_upload_owner d sha256 pubkey) false) (403, error_json "not the blob owner") ;!
  match upload_owner_count d sha256 with
  | Err error => early (500, error_json (db_error_to_string error))
  | Ok owner_count =>
      if decide (owner_count > 1) then
        let '(d, r) := delete_upload_owner d sha256 pubkey in
        modify (set_database d) ;!
        match r with
        | Err error => early (500, error_json (db_error_to_string error))
        | Ok _ => ret (Some (200, JObj [("deleted", JBool true); ("blob_retained", JBool true)]))
        end
      else ret None
  end.

Definition delete_body (q : ReqEnv) (sha256 : string) (headers : HeaderMap) : M Response :=
  guard (is_valid_sha256 sha256) (400, error_json "invalid SHA256 hash") ;!
  match extract_auth_event headers with
  | Err _ => early (401, error_json "authorization required for delete")
  | Ok event =>
      check_claims (q_auth q) event "delete" ("/" +:+ sha256) "DELETE" (Some sha256) ;!
      mark_once (q_mark q) event ;!
      let! access := gets s_access in
      let role := @role access (ev_pubkey event) in
      guard (negb (bool_decide (role = RDenied))) (403, error_json "delete not allowed for this pubkey") ;!
      if decide (role = RAdmin) then delete_physically q sha256 (ev_pubkey event)
      else
        let! retained := delete_own sha256 (ev_pubkey event) in
        match retained with
        | Some answer => ret answer
        | None => delete_physically q sha256 (ev_pubkey event)
        end
  end.
(** [handle_delete_blob]. *)
Definition handle_delete_blob (q : ReqEnv) (sha256 : string) (headers : HeaderMap) : S → S * Response :=
  respond (delete_body q sha256 headers).

(** ** BUD-02: list *)

(** [handle_list]. *)
Definition handle_list (pubkey : string) (s : S) : S * Response :=
  (s, match list_uploads_by_pubkey (s_database s) pubkey with
      | Ok records =>
          (200, JArr (map (fun r => descriptor_json
            (mkDescriptor (r_sha256 r) (r_size r) (Some (r_mime_type r))
               (Some (s_base_url s +:+ "/" +:+ r_sha256 r)) (Some (r_created_at r)))) records))
      | Err e => (500, error_json (db_error_to_string e))
      end).

(** ** BUD-06 and status *)

(** [handle_upload_requirements]. *)
Definition handle_upload_requirements (s : S) : S * json :=
  let r := s_requirements s in
  (s, JObj (opt_json JNum "max_size" (max_size r)
            ++ (if decide (allowed_types r = []) then [] else [("allowed_types", JArr (map JStr (allowed_types r)))])
            ++ [("require_auth", JBool (require_auth r))])%list).

(** [handle_status], without the build information. *)
Definition handle_status (s : S) : S * json :=
  (s, JObj [("blobs", JNum (len (s_backend s))); ("total_bytes", JNum (total_bytes (s_backend s)));
            ("uploads", JNum (upload_count (s_database s))); ("users", JNum (user_count (s_database s)));
            ("tracked_stats", JNum (Stats.tracked_count (s_stats s)))]).

(** [ServerState::flush_stats]. *)
Definition flush_stats `{HashOrder} (now : Z) (s : S) : S :=
  let '(st, d) := Stats.flush (s_stats s) (s_database s) now in set_database d (set_stats st s).
End server.

(** ** Reasoning about handlers *)

Section frames.
Context {B D V : Type}.
Notation S := (ServerState B D V).
Implicit Types s : S.

(** What the server holds for its users: blobs, metadata and versions. *)
Definition held_by (s : S) : B * D * option V := (s_backend s, s_database s, s_lfs_version_db s).
(** What it is configured with. *)
Definition config_of (s : S) : AccessControl * UploadRequirements := (s_access s, s_requirements s).

Lemma keeps_auth_error {A X} (f : S → X) e : keeps f (auth_error (A := A) e).
Proof. done. Qed.

Context `{Crates}.

Lemma keeps_rate_limit {X} (f : S → X) q key :
  (∀ l s, f (set_rate_limiter l s) = f s) → keeps f (rate_limit q key).
Proof. intros Hf s. unfold rate_limit. destruct (s_rate_limiter s); [| done]. destruct (RateLimiter.check _ _ _ _). apply Hf. Qed.

Lemma keeps_check_claims {X} (f : S → X) now e a p m h : keeps f (check_claims now e a p m h).
Proof. intros s. unfold check_claims. by destruct (verify_auth_event_claims _ _ _ _ _ _ _). Qed.

Lemma keeps_mark_once {X} (f : S → X) now e : (∀ c s, f (set_seen c s) = f s) → keeps f (mark_once now e).
Proof. intros Hf s. unfold mark_once. destruct (mark_auth_event_once _ _ _). apply Hf. Qed.

Lemma keeps_acquire {X} (f : S → X) n r : (∀ k s, f (set_permits k s) = f s) → keeps f (acquire n r).
Proof. intros Hf s. unfold acquire. case_decide; [apply Hf | done]. Qed.

Lemma keeps_releasing {A X} (f : S → X) n (m : MR S Response A) :
  (∀ k s, f (set_permits k s) = f s) → keeps f m → keeps f (releasing n m).
Proof.
  intros Hf Hm s. unfold releasing. specialize (Hm s). destruct (m s). simpl in *. by rewrite Hf.
Qed.

Lemma check_claims_ok now e a p m h s s' x :
  check_claims (B := B) (D := D) (V := V) now e a p m h s = (s', Ok x) →
  s' = s ∧ verify_auth_event_claims now e a (s_base_url s) p m h = Ok tt.
Proof.
  unfold check_claims. destruct (verify_auth_event_claims _ _ _ _ _ _ _) as [[]|]; [by intros [= <- _] | done].
Qed.

Lemma keeps_with_body {A X} (f : S → X) limit headers body (k : list byte → MR S Response A) :
  (∀ n s, f (set_permits n s) = f s) → (∀ data, keeps f (k data)) → keeps f (with_body limit headers body k).
Proof.
  intros Hf Hk. unfold with_body. apply keeps_bind; [apply keeps_lift |]. intros units.
  apply keeps_bind; [by apply keeps_acquire |]. intros _. apply keeps_releasing; [done |].
  apply keeps_bind; [apply keeps_lift | done].
Qed.

Lemma keeps_record `{BlobDatabase D} {X} (f : S → X) r : (∀ d s, f (set_database d s) = f s) → keeps f (record r).
Proof. intros Hf s. unfold record. destruct (record_upload _ _). apply Hf. Qed.

Lemma keeps_refuse_over_quota `{BlobDatabase D} {X} (f : S → X) h o n g : keeps f (refuse_over_quota h o n g).
Proof.
  unfold refuse_over_quota. apply keeps_bind; [apply keeps_gets |]. intros d. by destruct (check_quota _ _ _) as [|[]].
Qed.

Lemma keeps_insert_recorded `{BlobBackend B} `{BlobDatabase D} {X} (f : S → X) q data g :
  (∀ b s, f (set_backend b s) = f s) → (∀ d s, f (set_database d s) = f s) → keeps f (insert_recorded q data g).
Proof.
  intros Hb Hd. unfold insert_recorded. apply keeps_bind; [apply keeps_gets |]. intros s. destruct (try_insert _ _ _ _) as [b []].
  - apply keeps_bind; [by apply keeps_modify |]. intros _. apply keeps_bind; [by apply keeps_record | done].
  - by apply keeps_bind; [apply keeps_modify |].
Qed.
End frames.

#[export] Hint Resolve keeps_refuse_over_quota : blossom.
#[export] Hint Resolve keeps_check_claims keeps_auth_error : blossom.

(** Solve [keeps f m] for a handler built from the steps above. *)
Ltac keeps :=
  repeat first
    [ match goal with
      | |- ∀ _, _ => intro
      | |- keeps _ (bind _ _) => apply keeps_bind
      | |- keeps _ (rate_limit _ _) => apply keeps_rate_limit
      | |- keeps _ (mark_once _ _) => apply keeps_mark_once
      | |- keeps _ (modify _) => apply keeps_modify
      | |- keeps _ (acquire _ _) => apply keeps_acquire
      | |- keeps _ (record _) => apply keeps_record
      | |- keeps _ (refuse_over_quota _ _ _ _) => apply keeps_refuse_over_quota
      | |- keeps _ (insert_recorded _ _ _) => apply keeps_insert_recorded
      | |- keeps _ (with_body _ _ _ _) => apply keeps_with_body
      | |- keeps _ (releasing _ _) => apply keeps_releasing
      | |- keeps _ (map_err _ _) => apply keeps_map_err
      | |- keeps _ (match ?x with _ => _ end) => destruct x
      | |- keeps _ (guard _ _) => apply keeps_guard
      | |- keeps _ (gets _) => apply keeps_gets
      end
    | solve [eauto with blossom]
    | reflexivity ].

(** ** Refusals

    An early return is never a success. *)
Notation refuses := (refuses_with (fun e : Response => 400 <= e.1)).

Section refusals.
Context {B D V : Type}.
Notation refuses := (refuses_with (S := ServerState B D V) (fun e : Response => 400 <= e.1)).

Lemma refuses_acquire n r : 400 <= r.1 → refuses (acquire n r).
Proof. intros Hr s s' e. unfold acquire. case_decide; [done |]. by intros [= <- <-]. Qed.
Lemma refuses_releasing {A} n (m : MR (ServerState B D V) Response A) : refuses m → refuses (releasing n m).
Proof.
  intros Hm s s' e. unfold releasing. destruct (m s) as [s1 r] eqn:E. intros [= <- ->]. by eapply Hm.
Qed.

Context `{Crates}.
Lemma refuses_auth_error {A} e : refuses (auth_error (A := A) e).
Proof. by apply refuses_early. Qed.
Lemma refuses_rate_limit q key : refuses (rate_limit q key).
Proof.
  intros s s' e. unfold rate_limit. destruct (s_rate_limiter s); [| done].
  destruct (RateLimiter.check _ _ _ _) as [? []]; [done |]. by intros [= <- <-].
Qed.
Lemma refuses_check_claims now e a p m h : refuses (check_claims now e a p m h).
Proof.
  intros s s' er. unfold check_claims. destruct (verify_auth_event_claims _ _ _ _ _ _ _); [done |].
  by intros [= <- <-].
Qed.
Lemma refuses_mark_once now e : refuses (mark_once now e).
Proof.
  intros s s' er. unfold mark_once. destruct (mark_auth_event_once _ _ _) as [? []]; [done |].
  by intros [= <- <-].
Qed.
Lemma body_permits_refusal limit d h e : body_permits limit d h = Err e → 400 <= e.1.
Proof. unfold body_permits. repeat case_match; try done; by intros [= <-]. Qed.
Lemma to_bytes_refusal body limit e : to_bytes body limit = Err e → 400 <= e.1.
Proof. unfold to_bytes. repeat case_match; try done; by intros [= <-]. Qed.
Lemma refuses_with_body {A} limit headers body (k : list byte → MR (ServerState B D V) Response A) :
  (∀ data, refuses (k data)) → refuses (with_body limit headers body k).
Proof.
  intros Hk. unfold with_body. apply refuses_bind; [apply refuses_lift, body_permits_refusal |]. intros units.
  apply refuses_bind; [by apply refuses_acquire |]. intros _. apply refuses_releasing.
  apply refuses_bind; [apply refuses_lift, to_bytes_refusal | done].
Qed.
Lemma refuses_record `{BlobDatabase D} r : refuses (record r).
Proof.
  intros s s' e. unfold record. destruct (record_upload _ _) as [d []]; [done |]. by intros [= <- <-].
Qed.
Lemma refuses_refuse_over_quota `{BlobDatabase D} h o n g : refuses (refuse_over_quota h o n g).
Proof.
  unfold refuse_over_quota. apply refuses_bind; [apply refuses_gets |]. intros d.
  destruct (check_quota _ _ _) as [|[]]; try apply refuses_ret. by apply refuses_early.
Qed.
Lemma refuses_insert_recorded `{BlobBackend B} `{BlobDatabase D} q data g : refuses (insert_recorded q data g).
Proof.
  unfold insert_recorded. apply refuses_bind; [apply refuses_gets |]. intros s. destruct (try_insert _ _ _ _) as [b []];
    (apply refuses_bind; [apply refuses_modify | intros _]); [| by apply refuses_early].
  apply refuses_bind; [apply refuses_record | intros; apply refuses_ret].
Qed.
End refusals.

#[export] Hint Resolve refuses_auth_error
  refuses_rate_limit refuses_check_claims refuses_mark_once refuses_record
  refuses_acquire refuses_refuse_over_quota refuses_insert_recorded : blossom.

Ltac refuses :=
  repeat first
    [ match goal with |- ∀ _, _ => intro end
    | apply refuses_bind
    | apply refuses_with_body
    | solve [eauto with blossom]
    | (apply refuses_early || apply refuses_guard); simpl; lia
    | match goal with
      | |- refuses (match ?x with _ => _ end) => destruct x
      | |- refuses (let '_ := ?x in _) => destruct x
      end ].

Section upload_refusals.
Context `{Crates} `{Codec} {B D V : Type} `{BlobBackend B} `{BlobDatabase D} `{LfsVersionDatabase V}.

Lemma refuses_upload_authorize q headers : refuses (upload_authorize (B := B) (D := D) (V := V) q headers).
Proof. unfold upload_authorize. refuses. Qed.
Lemma refuses_upload_bind q e data : refuses (upload_bind (B := B) (D := D) (V := V) q e data).
Proof. unfold upload_bind. refuses. Qed.
Lemma refuses_remove_blob env h (f : string → Response) (g : DbError → Response) :
  (∀ e, 400 <= (f e).1) → (∀ e, 400 <= (g e).1) → refuses (remove_blob (B := B) (D := D) (V := V) env h f g).
Proof.
  intros Hf Hg. unfold remove_blob. apply refuses_bind; [refuses |]. intros.
  apply refuses_bind; [by apply refuses_map_err | refuses].
Qed.
Lemma refuses_delete_physically q h p : refuses (delete_physically (B := B) (D := D) (V := V) q h p).
Proof. unfold delete_physically. apply refuses_bind; [by apply refuses_remove_blob | refuses]. Qed.
Lemma refuses_delete_own h p : refuses (delete_own (B := B) (D := D) (V := V) h p).
Proof. unfold delete_own. refuses. Qed.
Lemma refuses_delete_body q h headers : refuses (delete_body (B := B) (D := D) (V := V) q h headers).
Proof.
  unfold delete_body. refuses; by apply refuses_map_err.
Qed.
Lemma refuses_put_blob q ctx data (f : string → Response) :
  (∀ e, 400 <= (f e).1) → refuses (put_blob (B := B) (D := D) (V := V) q ctx data f).
Proof. intros Hf. unfold put_blob. refuses. Qed.
Lemma refuses_upload_store q headers pk data : refuses (upload_store (B := B) (D := D) (V := V) q headers pk data).
Proof. unfold upload_store. refuses; by apply refuses_put_blob. Qed.
End upload_refusals.

(** ** Steps that succeed *)

Section steps.
Context `{Crates} {B D V : Type} `{BlobBackend B} `{BlobDatabase D} `{!BlobBackendLaws B}.
Notation S := (ServerState B D V).
Implicit Types s : S.

Lemma record_ok r s s' x :
  record r s = (s', Ok x) → s' = set_database (record_upload (s_database s) r).1 s.
Proof. unfold record. destruct (record_upload _ _) as [d []]; [by intros [= <- _] | done]. Qed.

Lemma refuse_over_quota_ok h o n g s s' x : refuse_over_quota h o n g s = (s', Ok x) → s' = s.
Proof.
  unfold refuse_over_quota. intros (d & s1 & [= <- _] & Hq)%bind_ok. by destruct (check_quota _ _ _) as [|[]]; injection Hq.
Qed.

Lemma insert_recorded_ok q data g s s' d :
  backend_wf (s_backend s) → insert_recorded q data g s = (s', Ok d) →
  d = make_descriptor (env_now (q_env q)) data (s_base_url s)
  ∧ backend_wf (s_backend s')
  ∧ contents (s_backend s') = <[sha256_hex data := data]> (contents (s_backend s))
  ∧ s_database s' = (record_upload (s_database s) (g d)).1.
Proof.
  intros W. unfold insert_recorded. intros (s0 & s1 & [= <- <-] & Hi)%bind_ok.
  pose proof (try_insert_law (q_env q) (s_backend s) data (s_base_url s) W) as Hl.
  destruct (try_insert _ _ _ _) as [b [desc|]]; apply bind_ok in Hi as (u & s2 & [= <- _] & Hi); [| done].
  apply bind_ok in Hi as (u2 & s3 & ->%record_ok & [= <- <-]). tauto.
Qed.
End steps.
