(* ===== verification/Durable.v ===== *)
(** * Stored blobs stay readable

    What it means for a server to hold a blob, raw or through the LFS pipeline,
    and the proofs that uploads establish it, that [handle_get_blob] answers with
    the bytes, and that the other requests, rebasing deletions included, preserve
    it. *)

From Stdlib Require Import ZArith Lia Ascii String.
From Stdlib Require Import Strings.Byte.
From stdpp Require Import base list gmap strings numbers sets.
From S2P Require Import Prelude Effects Protocol Auth Replay RequestAuth RateLimit Database Access Storage Locks Lfs Stats Server.

Open Scope string_scope.
Open Scope Z_scope.
Open Scope handler_scope.

(** zstd does not refuse an input. *)
Class CodecTotal `{Codec} : Prop := {
  zstd_total : ∀ d, ∃ c, zstd_encode d = Ok c
}.

Section durable.
Context `{CratesLaws} `{CodecLaws} `{!CodecTotal} {B D : Type}
  `{BlobBackend B} `{BDB : BlobDatabase D} `{!BlobBackendLaws B}.

Notation V := MemoryLfsVersionDatabase.
Notation S := (ServerState B D V).
Implicit Types s : S.

Definition bytes_of (s : S) (k : string) : option (list byte) := contents (s_backend s) !! k.

(** The server holds [data] under the hash [h]. *)
Definition stored (s : S) (h : string) (data : list byte) : Prop :=
  ∃ raw, bytes_of s h = Some raw ∧
    match s_lfs_version_db s with
    | None => data = raw
    | Some db =>
        match version_of db h with
        | None => data = raw
        | Some _ => ∃ n, (n <= MAX_DELTA_CHAIN_DEPTH)%nat ∧ chain (version_of db) (bytes_of s) n h data
        end
    end.

Definition no_read_faults (env : Env) : Prop := f_read (env_faults env) = None.

Lemma compress_roundtrip data : decompress_or_raw (compress_or_raw data) = data.
Proof.
  unfold decompress_or_raw, compress_or_raw, compress, decompress.
  destruct (zstd_total data) as [c Hc]. rewrite Hc. simpl. by rewrite (zstd_roundtrip _ _ Hc).
Qed.

Lemma version_of_find (db : V) h v : version_of db h = Some v → v_sha256 v = h ∧ In v db.
Proof. unfold version_of. simpl. intros [Hin Hv]%List.find_some. by apply bool_decide_eq_true in Hv. Qed.

Lemma get_bytes env s h :
  backend_wf (s_backend s) → no_read_faults env → get env (s_backend s) h = bytes_of s h.
Proof. intros W Hf. by apply (get_law env (s_backend s) h W). Qed.

Lemma chain_denotes env s db n h data :
  backend_wf (s_backend s) → no_read_faults env →
  chain (version_of db) (bytes_of s) n h data → denotes env db (s_backend s) n h data.
Proof.
  intros W Hf. apply chain_mono; [done |]. intros k x Hk. by rewrite (get_bytes env s k W Hf).
Qed.

Lemma chain_reconstruct env s db n h data v :
  backend_wf (s_backend s) → no_read_faults env →
  chain (version_of db) (bytes_of s) n h data → (n <= MAX_DELTA_CHAIN_DEPTH)%nat → v_sha256 v = h →
  reconstruct_blob env v db (s_backend s) = Ok data.
Proof. intros W Hf Hc Hn Hv. eapply reconstruct_denotes; eauto using chain_denotes. Qed.

(** *** Reading *)

Lemma served_stored env s h data raw :
  backend_wf (s_backend s) → no_read_faults env →
  stored s h data → bytes_of s h = Some raw → served_data env s h raw = data.
Proof.
  intros W Hf (raw' & Hraw & Hst) Hr. assert (raw' = raw) by congruence. subst raw'. unfold served_data.
  destruct (s_lfs_version_db s) as [db|]; [| done].
  destruct (version_of db h) as [v|] eqn:Ev.
  - rewrite (version_of_Some _ _ _ Ev). destruct (version_of_find _ _ _ Ev) as [Hv _].
    destruct Hst as (n & Hn & Hc). destruct (v_storage v) eqn:Es.
    + inversion Hc; simplify_eq; congruence.
    + inversion Hc; simplify_eq; congruence.
    + rewrite (chain_reconstruct env s db n h data v W Hf Hc Hn Hv). done.
  - unfold version_of in Ev. destruct (get_by_sha256 db h); [by subst | done].
Qed.

Lemma before_char_none c t : str_all (fun d => negb (bool_decide (d = c))) t = true → before_char c t = t.
Proof.
  unfold str_all. induction t as [|d t IH]; simpl; [done |]. intros [Hd Ht]%andb_true_iff.
  apply negb_true_iff, bool_decide_eq_false in Hd. rewrite decide_False by done. f_equal. by apply IH.
Qed.

Lemma strip_extension_valid h : is_valid_sha256 h = true → strip_extension h = h.
Proof.
  unfold is_valid_sha256, strip_extension, str_all. intros [_ Hh]%andb_true_iff. apply before_char_none.
  unfold str_all. rewrite forallb_forall in *. intros c Hc. specialize (Hh c Hc).
  apply negb_true_iff, bool_decide_eq_false. by intros ->.
Qed.

Lemma get_stored q s h data :
  backend_wf (s_backend s) → no_read_faults (q_env q) → is_valid_sha256 h = true → stored s h data →
  ∃ ct, (handle_get_blob q h s).2 = (200, Some (ct, data)).
Proof.
  intros W Hf V Hst. unfold handle_get_blob. rewrite (strip_extension_valid h V), V. simpl.
  rewrite get_bytes by done. pose proof Hst as (raw & Hraw & _). rewrite Hraw.
  rewrite (served_stored (q_env q) s h data raw W Hf Hst Hraw). simpl. by eexists.
Qed.

(** *** Uploading *)

Definition core (s : S) : B * option V := (s_backend s, s_lfs_version_db s).

Lemma keeps_upload_authorize q headers : keeps core (upload_authorize q headers).
Proof. unfold upload_authorize. keeps. Qed.
Lemma keeps_upload_bind q e data : keeps core (upload_bind q e data).
Proof. unfold upload_bind. keeps. Qed.

Definition ctx_of (headers : HeaderMap) : LfsContext :=
  match extract_auth_event headers with Ok e => from_event e | Err _ => default_lfs_context end.

(** What an upload does to the stored bytes and the version records. *)
Definition upload_effect (q : ReqEnv) (ctx : LfsContext) (data : list byte) (s s' : S) : Prop :=
  let h := sha256_hex data in
  let '(stored_data, ty, base) :=
    lfs_encode (q_env q) (s_lfs_version_db s) (s_backend s) ctx data in
  contents (s_backend s') =
    (match bytes_of s h with Some _ => contents (s_backend s) | None => <[h := stored_data]> (contents (s_backend s)) end)
  ∧ s_lfs_version_db s' = lfs_record q (s_lfs_version_db s) ctx h (vec_len data) ty base.

(** [m] ends as an upload of [data] does, or is an early return that leaves the
    stored bytes as they are. *)
Definition stores {R A} (q : ReqEnv) (ctx : LfsContext) (data : list byte) (m : MR S R A) : Prop :=
  ∀ s s' r, backend_wf (s_backend s) → m s = (s', r) →
    backend_wf (s_backend s')
    ∧ ((∀ k, bytes_of s' k = bytes_of s k) ∧ s_lfs_version_db s' = s_lfs_version_db s ∧ (∃ e, r = Err e)
       ∨ upload_effect q ctx data s s').

Lemma core_effect q ctx data s s' s1 s1' :
  core s1 = core s → core s1' = core s' → upload_effect q ctx data s s' → upload_effect q ctx data s1 s1'.
Proof. unfold upload_effect, bytes_of, core. intros E1 E2. injection E1 as -> ->. injection E2 as -> ->. done. Qed.

Lemma stores_after {R A C} q ctx data (m : MR S R A) (k : A → MR S R C) :
  keeps core m → (∀ a, stores q ctx data (k a)) → stores q ctx data (bind m k).
Proof.
  intros Hm Hk s s' r W [(a & s1 & H1' & H2') | (e & H1' & ->)]%bind_inv;
    pose proof (keeps_run core _ _ _ _ Hm H1') as Hc; pose proof Hc as [= Hb Hv].
  - destruct (Hk a s1 s' r ltac:(by rewrite Hb) H2') as [W' [(E1 & E2 & E3) | Heff]]; (split; [done |]).
    + left. split; [| split; [congruence | done]]. intros j. rewrite E1. unfold bytes_of. by rewrite Hb.
    + right. by eapply core_effect.
  - split; [by rewrite Hb |]. left. unfold bytes_of. rewrite Hb, Hv. eauto.
Qed.

Lemma stores_before {R A C} q ctx data (m : MR S R A) (k : A → MR S R C) :
  stores q ctx data m → (∀ a, keeps core (k a)) → stores q ctx data (bind m k).
Proof.
  intros Hm Hk s s' r W [(a & s1 & H1' & H2') | (e & H1' & ->)]%bind_inv.
  - pose proof (keeps_run core _ _ _ _ (Hk a) H2') as Hc. pose proof Hc as [= Hb Hv].
    destruct (Hm _ _ _ W H1') as [W' [(_ & _ & ? & [=]) | Heff]]. split; [by rewrite Hb |]. right.
    by eapply core_effect.
  - destruct (Hm _ _ _ W H1') as [W' [(E1 & E2 & _) | Heff]]; [split; [done | left; eauto] | by split; [| right]].
Qed.

Lemma stores_put_blob {R} q ctx data (f : string → R) : stores q ctx data (put_blob q ctx data f).
Proof.
  intros s s' r W. unfold put_blob. set (h := sha256_hex data).
  intros [(s0 & s0' & [= <- <-] & Hu) | (e & [=] & _)]%bind_inv.
  unfold upload_effect. fold h. destruct (lfs_encode _ _ _ _ _) as [[stored_data ty] base].
  pose proof (try_insert_with_hash_law (q_env q) (s_backend s) stored_data h (vec_len data) (s_base_url s) W
    (valid_hash_sha256 data)) as Hl.
  apply bind_inv in Hu as [([] & s3 & Hg & [= <- <-]) | (e & Hg & ->)];
    rewrite exists_law in Hg by (done || apply valid_hash_sha256); unfold bytes_of in *; case_bool_decide as Hx; try done.
  - injection Hg as <-. destruct Hx as [? Hx]. split; [done |]. right. by rewrite Hx.
  - apply eq_None_not_Some in Hx. rewrite Hx.
    destruct (try_insert_with_hash _ _ _ _ _ _) as [b [d|er]]; simpl in Hg; [| done].
    injection Hg as <-. destruct Hl as (W' & Hc & _). split; [done |]. by right.
  - destruct (try_insert_with_hash _ _ _ _ _ _) as [b [d|er]]; simpl in Hg; [done |].
    injection Hg as <- <-. destruct Hl as (W' & Hc). split; [done |]. left. simpl. rewrite Hc. eauto.
Qed.

Lemma stores_upload_store q headers pk data : stores q (ctx_of headers) data (upload_store q headers pk data).
Proof.
  unfold upload_store. fold (ctx_of headers).
  apply stores_after; [keeps | intros req]. apply stores_after; [keeps | intros _].
  apply stores_after; [keeps | intros _]. apply stores_after; [keeps | intros _].
  apply stores_before; [apply stores_put_blob |]. keeps.
Qed.

(** The same for the whole handler. *)
Lemma handle_upload_effect q headers body s s' resp :
  backend_wf (s_backend s) →
  handle_upload q headers body s = (s', resp) →
  backend_wf (s_backend s')
  ∧ ((∀ k, bytes_of s' k = bytes_of s k) ∧ s_lfs_version_db s' = s_lfs_version_db s ∧ 400 <= resp.1
     ∨ ∃ data, body_data body = Ok data ∧ upload_effect q (ctx_of headers) data s s').
Proof.
  intros W. unfold handle_upload, respond.
  destruct (bind _ _ s) as [s1 r] eqn:Hu. intros [= <- <-].
  apply bind_inv in Hu as [([[ev pk] limit] & s2 & Ha & Hu) | (e & Ha & ->)].
  2: { pose proof (refuses_upload_authorize _ _ _ _ _ Ha) as He.
       pose proof (keeps_run core _ _ _ _ (keeps_upload_authorize q headers) Ha) as [= Hb Hv].
       unfold bytes_of. rewrite Hb, Hv. eauto. }
  pose proof (keeps_run core _ _ _ _ (keeps_upload_authorize q headers) Ha) as [= Hb2 Hv2]. clear Ha.
  unfold with_body in Hu.
  apply bind_inv in Hu as [(units & s3 & [= <- Hbp] & Hu) | (e & [= <- Hbp] & ->)].
  2: { unfold bytes_of. rewrite Hb2, Hv2. pose proof (body_permits_refusal _ _ _ _ Hbp). eauto. }
  apply bind_inv in Hu as [([] & s4 & Hacq & Hu) | (e & Hacq & ->)].
  2: { assert (He : 400 <= e.1) by (eapply refuses_acquire; [| exact Hacq]; simpl; lia).
       assert (Hk : core s1 = core s2) by (eapply (keeps_run core); [| exact Hacq]; by apply keeps_acquire).
       injection Hk as Hb Hv. unfold bytes_of. rewrite Hb, Hv, Hb2, Hv2. eauto. }
  assert (Hk : core s4 = core s2) by (eapply (keeps_run core); [| exact Hacq]; by apply keeps_acquire).
  injection Hk as Hb4 Hv4. rewrite Hb2 in Hb4. rewrite Hv2 in Hv4. clear Hacq.
  unfold releasing in Hu. destruct (bind (lift (to_bytes body limit)) _ s4) as [s5 r5] eqn:Hin.
  injection Hu as <- <-. change (bytes_of (set_permits _ s5)) with (bytes_of s5).
  change (s_lfs_version_db (set_permits _ s5)) with (s_lfs_version_db s5).
  change (s_backend (set_permits _ s5)) with (s_backend s5).
  apply bind_inv in Hin as [(data & s6 & [= <- Htb] & Hin) | (e & [= <- Htb] & ->)].
  2: { unfold bytes_of. rewrite Hb4, Hv4. pose proof (to_bytes_refusal _ _ _ Htb). eauto. }
  assert (Hdata : body_data body = Ok data).
  { unfold to_bytes in Htb. destruct (body_data body); [| done]. case_decide; [| done]. by injection Htb as ->. }
  apply bind_inv in Hin as [([] & s6 & Hbind & Hin) | (e & Hbind & ->)].
  2: { pose proof (refuses_upload_bind _ _ _ _ _ _ Hbind) as He.
       pose proof (keeps_run core _ _ _ _ (keeps_upload_bind q ev data) Hbind) as [= Hb Hv].
       unfold bytes_of. rewrite Hb, Hv, Hb4, Hv4. eauto. }
  pose proof (keeps_run core _ _ _ _ (keeps_upload_bind q ev data) Hbind) as [= Hb6 Hv6]. clear Hbind.
  rewrite Hb4 in Hb6. rewrite Hv4 in Hv6.
  destruct (stores_upload_store q headers pk data s6 s5 r5 ltac:(by rewrite Hb6) Hin) as [W5 [(Hk1 & Hk2 & e & ->) | Heff]].
  - split; [done |]. left. unfold bytes_of in *. rewrite Hk2, Hv6.
    pose proof (refuses_upload_store _ _ _ _ _ _ _ Hin) as He.
    split; [intros k; by rewrite Hk1, Hb6 | done].
  - split; [done |]. right. exists data. split; [done |]. unfold upload_effect, bytes_of in *.
    by rewrite Hb6, Hv6 in Heff.
Qed.

(** *** Version records *)

Definition is_full (v : LfsFileVersion) : Prop := v_storage v = Compressed ∧ v_base_sha256 v = None.

Lemma version_of_app (db : V) r k :
  version_of (db ++ [r])%list k
  = match version_of db k with
    | Some v => Some v
    | None => if bool_decide (v_sha256 r = k) then Some r else None
    end.
Proof. unfold version_of. simpl. induction db as [|v db IH]; simpl; [done |]. by destruct (bool_decide (v_sha256 v = k)). Qed.

Lemma version_of_update (db : V) h st base n k :
  version_of (MemoryVersions.update_first db h st base n) k
  = if decide (k = h)
    then (fun v => mkVersion (v_repo_id v) (v_path v) (v_version v) (v_sha256 v) base st (v_delta_algo v)
                     (v_original_size v) n (v_created_at v)) <$> version_of db h
    else version_of db k.
Proof.
  unfold version_of. simpl. induction db as [|v db IH]; simpl; [by case_decide |].
  destruct (decide (v_sha256 v = h)) as [Hv|Hv]; simpl.
  - rewrite Hv. rewrite (bool_decide_true (h = h)) by done.
    destruct (decide (k = h)) as [->|Hk]; [rewrite bool_decide_true by done; simpl; by rewrite Hv |].
    by rewrite bool_decide_false.
  - destruct (decide (k = h)) as [->|Hk]; [by rewrite bool_decide_false by done |]. case_bool_decide; done.
Qed.

Lemma version_of_delete (db : V) h k :
  k ≠ h → version_of (MemoryVersions.delete_by_sha256 db h).1 k = version_of db k.
Proof.
  intros Hk. unfold version_of. simpl. induction db as [|v db IH]; simpl; [done |].
  destruct (bool_decide (v_sha256 v = h)) eqn:E; simpl.
  - apply bool_decide_eq_true in E. rewrite bool_decide_false by congruence. done.
  - by destruct (bool_decide (v_sha256 v = k)).
Qed.

Lemma version_of_In (db : V) v : In v db → is_Some (version_of db (v_sha256 v)).
Proof.
  unfold version_of. simpl. induction db as [|w db IH]; simpl; [done |].
  intros [-> | Hin]; [rewrite bool_decide_true by done; by eexists |].
  destruct (bool_decide _); [by eexists | by apply IH].
Qed.

Lemma In_update_first (db : V) h st base n v :
  In v (MemoryVersions.update_first db h st base n) → ∃ w, In w db ∧ v_sha256 w = v_sha256 v.
Proof.
  induction db as [|w db IH]; simpl; [done |]. case_decide as Hw; simpl.
  - intros [<- | Hin]; [exists w | exists v]; eauto.
  - intros [<- | Hin]; [exists w; eauto |]. destruct (IH Hin) as (u & Hu & E). eauto.
Qed.

Definition versions_wf (o : option V) : Prop := ∀ db v, o = Some db → In v db → valid_hash (v_sha256 v) = true.
(** The backend is well-formed and the version records name hashes. *)
Definition server_wf (s : S) : Prop := backend_wf (s_backend s) ∧ versions_wf (s_lfs_version_db s).

Lemma lfs_record_cases q o ctx h size ty base :
  lfs_record q o ctx h size ty base = o
  ∨ ∃ (db : V) r, is_lfs ctx = true ∧ o = Some db ∧ lfs_record q o ctx h size ty base = Some (db ++ [r])%list
    ∧ v_sha256 r = h ∧ v_storage r = ty ∧ v_base_sha256 r = base.
Proof.
  unfold lfs_record. destruct o as [db|]; [| by left]. destruct (is_lfs ctx) eqn:El; [| by left].
  destruct (lfs_repo ctx) as [repo|]; [| by left]. destruct (lfs_path ctx) as [path|]; [| by left].
  right. eexists db, _. split; [done |]. split; [done |]. split; [reflexivity |]. done.
Qed.

Lemma upload_effect_wf q ctx data s s' :
  versions_wf (s_lfs_version_db s) → upload_effect q ctx data s s' → versions_wf (s_lfs_version_db s').
Proof.
  intros Hw. unfold upload_effect. destruct (lfs_encode _ _ _ _ _) as [[sd ty] base]. intros [_ ->].
  destruct (lfs_record_cases q (s_lfs_version_db s) ctx (sha256_hex data) (vec_len data) ty base)
    as [-> | (db & r & Hlfs & Hdb & -> & Hr & _)]; [done |].
  intros db' v [= <-] [Hin|[<-|[]]]%in_app_or; [by eapply Hw |]. rewrite Hr. apply valid_hash_sha256.
Qed.

(** An upload leaves the blobs of other hashes as they are, and the one of its
    own hash too unless an LFS upload gives a raw blob its first version record. *)
Lemma upload_effect_stored q ctx data s s' k x :
  (is_lfs ctx = true → k = sha256_hex data → ∀ db, s_lfs_version_db s = Some db → is_Some (version_of db k)) →
  upload_effect q ctx data s s' → stored s k x → stored s' k x.
Proof.
  intros Hk. unfold upload_effect. destruct (lfs_encode _ _ _ _ _) as [[sd ty] base]. intros [Hc Hv].
  assert (Hb : ∀ j y, bytes_of s j = Some y → bytes_of s' j = Some y).
  { intros j y Hj. unfold bytes_of in *. rewrite Hc. destruct (contents (s_backend s) !! sha256_hex data) eqn:E; [done |].
    rewrite lookup_insert_ne by (intros <-; congruence). done. }
  intros (raw & Hraw & Hst). exists raw. split; [by apply Hb |]. rewrite Hv.
  destruct (lfs_record_cases q (s_lfs_version_db s) ctx (sha256_hex data) (vec_len data) ty base)
    as [-> | (db & r & Hlfs & Hdb & -> & Hr & _)].
  - destruct (s_lfs_version_db s) as [db|]; [| done]. destruct (version_of db k); [| done].
    destruct Hst as (n & Hn & Hch). exists n. split; [done |]. by eapply chain_mono.
  - rewrite Hdb in Hst. rewrite version_of_app. destruct (version_of db k) as [v|] eqn:Ev.
    + destruct Hst as (n & Hn & Hch). exists n. split; [done |]. eapply chain_mono; [| exact Hb | exact Hch].
      intros j w Hj. by rewrite version_of_app, Hj.
    + rewrite bool_decide_false; [done |]. intros Hrk. destruct (Hk Hlfs ltac:(congruence) db Hdb) as [w Hw]. congruence.
Qed.

Lemma unchanged_stored s s' k x :
  (∀ j, bytes_of s' j = bytes_of s j) → s_lfs_version_db s' = s_lfs_version_db s → stored s k x → stored s' k x.
Proof.
  intros Hb Hv (raw & Hraw & Hst). exists raw. rewrite Hb, Hv. split; [done |].
  destruct (s_lfs_version_db s) as [db|]; [| done]. destruct (version_of db k); [| done].
  destruct Hst as (n & Hn & Hch). exists n. split; [done |]. eapply chain_mono; [done | | exact Hch].
  intros j y Hj. by rewrite Hb.
Qed.

(** An upload keeps what is readable, unless it sends it again as LFS content. *)
Lemma stores_stored {R A} q ctx data (m : MR S R A) s s' r k x :
  stores q ctx data m → m s = (s', r) → server_wf s →
  (is_lfs ctx = false ∨ sha256_hex data ≠ k) → stored s k x → server_wf s' ∧ stored s' k x.
Proof.
  intros Hm Hr [W Wv] Hne Hst. destruct (Hm s s' r W Hr) as [W' [(Hb & Hv & _) | Heff]].
  - split; [split; [done | by rewrite Hv] | by eapply unchanged_stored].
  - split; [split; [done | by eapply upload_effect_wf] |]. eapply upload_effect_stored; [| exact Heff | exact Hst].
    intros El Ek. destruct Hne; congruence.
Qed.

(** *** What an upload stores *)

(** The base an upload names, if the server has it, is at most nine deltas
    above a full copy, and its content has room for the upload: at least half its
    size, and at most 2^28 bytes. *)
Definition base_shallow (s : S) (ctx : LfsContext) (data : list byte) : Prop :=
  ∀ db base, s_lfs_version_db s = Some db → lfs_base ctx = Some base →
    is_Some (version_of db base) → is_Some (bytes_of s base) →
    ∃ n x, (n < MAX_DELTA_CHAIN_DEPTH)%nat ∧ chain (version_of db) (bytes_of s) n base x ∧ roomy x data.

(** An upload through the LFS pipeline names its file. *)
Definition lfs_named (ctx : LfsContext) : Prop :=
  is_lfs ctx = true → is_manifest ctx = false → is_Some (lfs_repo ctx) ∧ is_Some (lfs_path ctx).

(** How the pipeline encodes: raw, compressed, or as a delta on the content of
    the base. *)
Lemma lfs_encode_cases env s ctx data sd ty base :
  backend_wf (s_backend s) → no_read_faults env → base_shallow s ctx data →
  lfs_encode env (s_lfs_version_db s) (s_backend s) ctx data = (sd, ty, base) →
  (ty = Raw ∧ base = None ∧ sd = data)
  ∨ is_lfs ctx = true ∧ is_manifest ctx = false ∧
    ((ty = Compressed ∧ base = None ∧ sd = compress_or_raw data)
     ∨ ∃ db bh n x delta, s_lfs_version_db s = Some db ∧ ty = Delta ∧ base = Some bh
       ∧ (n < MAX_DELTA_CHAIN_DEPTH)%nat ∧ chain (version_of db) (bytes_of s) n bh x ∧ roomy x data
       ∧ compress delta = Ok sd ∧ encode_delta x data = Ok delta).
Proof.
  intros W Hf Hbase. unfold lfs_encode. destruct (s_lfs_version_db s) as [db|] eqn:Edb; [| by intros [= <- <- <-]; left].
  destruct (is_lfs ctx && negb (is_manifest ctx)) eqn:El; [| by intros [= <- <- <-]; left].
  apply andb_true_iff in El as [El Em%negb_true_iff]. intros He. right. split; [done |]. split; [done |].
  assert (Hfull : (compress_or_raw data, Compressed, @None string) = (sd, ty, base) →
    ty = Compressed ∧ base = None ∧ sd = compress_or_raw data) by (by intros [= <- <- <-]).
  destruct (lfs_base ctx) as [bh|] eqn:Eb; [| by left; apply Hfull].
  fold (version_of db bh) in He. rewrite (get_bytes env s bh W Hf) in He.
  destruct (version_of db bh) as [bv|] eqn:Ev; [| by left; apply Hfull].
  destruct (bytes_of s bh) as [bdata|] eqn:Ed; [| by left; apply Hfull].
  destruct (Hbase db bh Edb Eb) as (n & x & Hn & Hch & Hroom); [by rewrite Ev | by rewrite Ed |].
  replace (match v_storage bv with
           | Raw => bdata | Compressed => decompress_or_raw bdata
           | Delta => unwrap_or (reconstruct_blob env bv db (s_backend s)) bdata end) with x in He.
  2: { inversion Hch; subst; simplify_eq.
       - match goal with Hs : v_storage _ = Raw |- _ => by rewrite Hs; congruence end.
       - match goal with Hs : v_storage _ = Compressed |- _ => rewrite Hs; congruence end.
       - match goal with Hs : v_storage _ = Delta |- _ => rewrite Hs end.
         by rewrite (chain_reconstruct env s db _ _ x bv W Hf Hch ltac:(lia) (proj1 (version_of_find _ _ _ Ev))). }
  destruct (encode_delta x data) as [delta|] eqn:Edelta; [| by left; apply Hfull].
  destruct (delta_is_worthwhile _ _); [| by left; apply Hfull].
  destruct (compress delta) as [c|] eqn:Ec; [| by left; apply Hfull].
  injection He as <- <- <-. right. exists db, bh, n, x, delta. done.
Qed.

Lemma delta_decodes x data delta sd : roomy x data →
  encode_delta x data = Ok delta → compress delta = Ok sd → decode_delta x (decompress_or_raw sd) = Ok data.
Proof.
  unfold encode_delta, compress, decode_delta, decompress_or_raw, decompress. intros Hroom He Hc.
  destruct (xdelta_encode data x) as [d|] eqn:E; [| done]. injection He as ->.
  rewrite (zstd_roundtrip _ _ Hc). simpl. by rewrite (xdelta_roundtrip _ _ _ Hroom E).
Qed.

(** A new blob is held by the server after its upload. *)
Lemma upload_effect_stores q ctx data s s' :
  backend_wf (s_backend s) → no_read_faults (q_env q) →
  bytes_of s (sha256_hex data) = None →
  (∀ db, s_lfs_version_db s = Some db → version_of db (sha256_hex data) = None) →
  lfs_named ctx → base_shallow s ctx data →
  upload_effect q ctx data s s' → stored s' (sha256_hex data) data.
Proof.
  intros W Hf Hfresh Hnew Hname Hbase. unfold upload_effect.
  destruct (lfs_encode _ _ _ _ _) as [[sd ty] base] eqn:Eenc. rewrite Hfresh. set (h := sha256_hex data) in *.
  intros [Hc Hv]. assert (Hh : bytes_of s' h = Some sd) by (unfold bytes_of; rewrite Hc; apply lookup_insert_eq).
  assert (Hother : ∀ j y, bytes_of s j = Some y → bytes_of s' j = Some y).
  { intros j y Hj. unfold bytes_of in *. rewrite Hc, lookup_insert_ne by congruence. done. }
  exists sd. split; [done |].
  pose proof (lfs_encode_cases _ _ _ _ _ _ _ W Hf Hbase Eenc) as Hcases.
  destruct (s_lfs_version_db s) as [db|] eqn:Edb.
  2: { rewrite Hv. unfold lfs_encode in Eenc. simpl. by injection Eenc as <- <- <-. }
  specialize (Hnew db eq_refl).
  assert (Hrec : s_lfs_version_db s' = Some db ∧ ty = Raw
    ∨ ∃ r, s_lfs_version_db s' = Some (db ++ [r])%list ∧ v_sha256 r = h ∧ v_storage r = ty ∧ v_base_sha256 r = base).
  { rewrite Hv. unfold lfs_record. destruct (is_lfs ctx) eqn:El.
    - destruct Hcases as [(-> & _) | (_ & Em & _)].
      + destruct (lfs_repo _); [destruct (lfs_path _) |]; [right; by eexists | by left | by left].
      + destruct (Hname El Em) as [[repo ->] [path ->]]. right. by eexists.
    - destruct Hcases as [(-> & _) | (? & _)]; [by left | done]. }
  destruct Hrec as [(-> & ->) | (r & -> & Hr & Ht & Hb)].
  { rewrite Hnew. destruct Hcases as [(_ & _ & ->) | (_ & _ & [([=] & _) | (? & ? & ? & ? & ? & _ & [=] & _)])]. done. }
  assert (Hl : version_of (db ++ [r])%list h = Some r) by (by rewrite version_of_app, Hnew, bool_decide_true).
  rewrite Hl. destruct Hcases as [(-> & -> & ->) | (_ & _ & [(-> & -> & ->) | (db' & bh & n & x & delta & [= <-] & -> & -> & Hn & Hch & Hroom & Hcomp & Hdelta)])].
  - exists 0%nat. split; [lia |]. by apply chain_raw with r.
  - exists 0%nat. split; [lia |]. rewrite <- (compress_roundtrip data). by apply chain_compressed with r.
  - exists (Datatypes.S n). split; [lia |]. apply chain_delta with r bh x sd; try done.
    + eapply chain_mono; [| exact Hother | exact Hch]. intros j v Hj. by rewrite version_of_app, Hj.
    + by apply delta_decodes with delta.
Qed.

(** *** Rebasing *)

(** A full compressed copy of [x] under [j]. *)
Definition full_copy (db : V) (s : S) (j : string) (x : list byte) : Prop :=
  ∃ v raw, version_of db j = Some v ∧ v_storage v = Compressed ∧ bytes_of s j = Some raw
    ∧ decompress_or_raw raw = x.

(** Between [s0] and [s]: every readable blob is where it was, or is now a full
    copy; those named in [done] are full copies. *)
Definition rebased (s0 s : S) (db0 db : V) (done : string → Prop) : Prop :=
  ∀ n j x, (n <= MAX_DELTA_CHAIN_DEPTH)%nat → chain (version_of db0) (bytes_of s0) n j x →
    full_copy db s j x
    ∨ version_of db j = version_of db0 j ∧ bytes_of s j = bytes_of s0 j ∧ ¬ done j.

Lemma full_copy_chain db s j x : full_copy db s j x → chain (version_of db) (bytes_of s) 0 j x.
Proof.
  intros (v & raw & Hv & Ht & Hr & <-). apply chain_compressed with v; try done.
  by destruct (version_of_find _ _ _ Hv).
Qed.

Lemma rebased_chain s0 s db0 db done n j x :
  rebased s0 s db0 db done → (n <= MAX_DELTA_CHAIN_DEPTH)%nat → chain (version_of db0) (bytes_of s0) n j x →
  ∃ m, (m <= n)%nat ∧ chain (version_of db) (bytes_of s) m j x.
Proof.
  intros Hr Hn Hch. induction Hch as [h v x Hg Hv Hs Hx|h v x Hg Hv Hs Hx|n h v base bd x data Hg Hv Hs Hb Hch IH Hx Hdec].
  - destruct (Hr _ h x Hn) as [Hf%full_copy_chain | (E1 & E2 & _)]; [by apply chain_raw with v | by eauto |].
    exists 0%nat. split; [lia |]. rewrite <- E1 in Hg. rewrite <- E2 in Hx. by apply chain_raw with v.
  - destruct (Hr 0%nat h (decompress_or_raw x) Hn) as [Hf%full_copy_chain | (E1 & E2 & _)];
      [by apply chain_compressed with v | by eauto |].
    exists 0%nat. split; [lia |]. rewrite <- E1 in Hg. rewrite <- E2 in Hx. by apply chain_compressed with v.
  - destruct (Hr _ h data Hn) as [Hf%full_copy_chain | (E1 & E2 & _)]; [by eapply chain_delta | |].
    { exists 0%nat. split; [lia | done]. }
    destruct (IH ltac:(lia)) as (m & Hm & IH'). exists (Datatypes.S m). split; [lia |].
    rewrite <- E1 in Hg. rewrite <- E2 in Hx. by eapply chain_delta.
Qed.

Lemma rebase_one_spec env dv s s' r db :
  server_wf s → no_read_faults env → s_lfs_version_db s = Some db → valid_hash (v_sha256 dv) = true →
  rebase_one env dv s = (s', r) →
  server_wf s' ∧ ∃ db', s_lfs_version_db s' = Some db'
    ∧ (∀ k, version_of db k = None → bytes_of s' k = bytes_of s k ∧ version_of db' k = None ∨ k = v_sha256 dv)
    ∧ rebased s s' db db' (fun j => match r with Ok _ => j = v_sha256 dv | Err _ => False end).
Proof.
  intros [W Wv] Hf Hdb Hvalid. unfold rebase_one. intros [(s0 & s0' & [= <- <-] & Hu) | (e & [=] & _)]%bind_inv.
  rewrite Hdb in Hu. set (hv := v_sha256 dv) in *.
  destruct (match get env (s_backend s) hv with Some _ => _ | None => _ end) as [data|] eqn:Edata.
  2: { injection Hu as <- <-. split; [done |]. exists db. split; [done |]. split; [auto |].
       intros n j x Hn Hch. right. split; [done |]. split; [done |]. intros ->.
       assert (Hby : is_Some (bytes_of s hv)) by (inversion Hch; subst; by eexists).
       rewrite (get_bytes env s hv W Hf) in Edata. destruct Hby as [raw Hraw]. rewrite Hraw in Edata.
       by rewrite (chain_reconstruct env s db n hv x dv W Hf Hch Hn eq_refl) in Edata. }
  assert (Hrec : reconstruct_blob env dv db (s_backend s) = Ok data).
  { destruct (get env (s_backend s) hv); [| done]. destruct (reconstruct_blob env dv db (s_backend s)); [| done].
    by injection Edata as ->. }
  pose proof (try_insert_with_hash_law env (s_backend s) (compress_or_raw data) hv (as_u64 (v_original_size dv))
    (s_base_url s) W Hvalid) as Hl.
  destruct (try_insert_with_hash _ _ _ _ _ _) as [b [d|er]]; simpl in Hu; injection Hu as <- <-.
  2: { destruct Hl as [W' Hc]. split; [by split |]. exists db. split; [done |]. unfold rebased, bytes_of. simpl. rewrite Hc.
       split; [auto |]. intros n j x Hn Hch. right. auto. }
  destruct Hl as (W' & Hc & _). set (db' := MemoryVersions.update_first _ _ _ _ _).
  assert (Hlen : ∀ k, version_of db' k = if decide (k = hv) then _ else version_of db k)
    by (intros k; apply version_of_update).
  split; [split; [done |] |].
  { intros db2 v [= <-] Hin. destruct (In_update_first _ _ _ _ _ _ Hin) as (w & Hw & <-). by eapply Wv. }
  exists db'. split; [done |]. split.
  { intros k Hk. destruct (decide (k = hv)) as [->|Hne]; [by right | left]. unfold bytes_of. simpl.
    rewrite Hc, lookup_insert_ne by done. split; [done |]. by rewrite Hlen, decide_False. }
  intros n j x Hn Hch. destruct (decide (j = hv)) as [->|Hne].
  - left. rewrite (chain_reconstruct env s db n hv x dv W Hf Hch Hn eq_refl) in Hrec. injection Hrec as <-.
    assert (Hsome : is_Some (version_of db hv)) by (inversion Hch; subst; by eexists). destruct Hsome as [v Hv].
    eexists _, (compress_or_raw x). rewrite Hlen, decide_True, Hv by done. split; [reflexivity |]. split; [done |].
    unfold bytes_of. simpl. rewrite Hc. split; [apply lookup_insert_eq | apply compress_roundtrip].
  - right. rewrite Hlen, decide_False by done. split; [done |]. split; [| done]. unfold bytes_of. simpl.
    by rewrite Hc, lookup_insert_ne.
Qed.

Lemma rebased_trans s0 s1 s2 db0 db1 db2 P Q R :
  rebased s0 s1 db0 db1 P → rebased s1 s2 db1 db2 Q → (∀ j, R j → P j ∨ Q j) → rebased s0 s2 db0 db2 R.
Proof.
  intros R1 R2 HR n j x Hn Hch. destruct (rebased_chain _ _ _ _ _ _ _ _ R1 Hn Hch) as (m & Hm & Hch1).
  destruct (R2 m j x ltac:(lia) Hch1) as [Hf | (E1 & E2 & HQ)]; [by left |].
  destruct (R1 n j x Hn Hch) as [(v & raw & Hv & Ht & Hr & Hx) | (F1 & F2 & HP)].
  - left. exists v, raw. by rewrite E1, E2.
  - right. split; [congruence |]. split; [congruence |]. intros [?|?]%HR; auto.
Qed.

Lemma rebase_all_spec env deltas s s' r db :
  server_wf s → no_read_faults env → s_lfs_version_db s = Some db →
  Forall (fun v => valid_hash (v_sha256 v) = true) deltas →
  rebase_all env deltas s = (s', r) →
  server_wf s' ∧ ∃ db', s_lfs_version_db s' = Some db'
    ∧ (∀ k, version_of db k = None → k ∉ map v_sha256 deltas → bytes_of s' k = bytes_of s k ∧ version_of db' k = None)
    ∧ rebased s s' db db' (fun j => match r with Ok _ => j ∈ map v_sha256 deltas | Err _ => False end).
Proof.
  revert s db. induction deltas as [|dv deltas IH]; intros s db W Hf Hdb Hall; simpl.
  - intros [= <- <-]. split; [done |]. exists db. split; [done |]. split; [done |].
    intros n j x _ _. right. split; [done |]. split; [done | set_solver].
  - apply Forall_cons in Hall as [Hv Hall]. intros [(u & s1 & Hone & Hu) | (e & Hone & ->)]%bind_inv;
      destruct (rebase_one_spec _ _ _ _ _ _ W Hf Hdb Hv Hone) as (W1 & db1 & Hdb1 & Hnone & R1).
    + destruct (IH s1 db1 W1 Hf Hdb1 Hall Hu) as (W2 & db2 & Hdb2 & Hnone2 & R2). split; [done |].
      exists db2. split; [done |]. split.
      * intros k Hk Hin. destruct (Hnone k Hk) as [[E1 E2] | ->]; [| set_solver].
        destruct (Hnone2 k E2 ltac:(set_solver)) as [E3 E4]. split; [congruence | done].
      * eapply rebased_trans; [exact R1 | exact R2 |]. intros j. simpl. destruct r; [set_solver | done].
    + split; [done |]. exists db1. split; [done |]. split.
      * intros k Hk Hin. destruct (Hnone k Hk) as [? | ->]; [done | set_solver].
      * exact R1.
Qed.

(** *** Deleting *)

(** Deletion of [h] from the bytes, with or without its version records. *)
Definition removed (h : string) (s s' : S) : Prop :=
  (∀ k, k ≠ h → bytes_of s' k = bytes_of s k)
  ∧ (s_lfs_version_db s' = s_lfs_version_db s
     ∨ ∃ db db', s_lfs_version_db s = Some db ∧ s_lfs_version_db s' = Some db'
       ∧ ∀ k, k ≠ h → version_of db' k = version_of db k).

(** Once the deltas on [h] are full copies, no other blob needs [h]. *)
Lemma rebased_removed h s0 s s' db0 db n k x :
  s_lfs_version_db s = Some db →
  rebased s0 s db0 db (fun j => ∃ v, version_of db0 j = Some v ∧ v_storage v = Delta ∧ v_base_sha256 v = Some h) →
  removed h s s' → k ≠ h → (n <= MAX_DELTA_CHAIN_DEPTH)%nat →
  chain (version_of db0) (bytes_of s0) n k x →
  ∃ db' m, s_lfs_version_db s' = Some db' ∧ (m <= n)%nat ∧ chain (version_of db') (bytes_of s') m k x.
Proof.
  intros Hdb Hr [Hb Hv] Hk Hn Hch.
  assert (Hdb' : ∃ db', s_lfs_version_db s' = Some db' ∧ ∀ j, j ≠ h → version_of db' j = version_of db j).
  { destruct Hv as [-> | (d & d' & E & -> & Hd)]; [by exists db |]. exists d'. split; [done |]. assert (d = db) as -> by congruence. done. }
  destruct Hdb' as (db' & Hs' & Hver). exists db'.
  assert (Hfull : ∀ j y, j ≠ h → full_copy db s j y → chain (version_of db') (bytes_of s') 0 j y).
  { intros j y Hj (v & raw & E1 & E2 & E3 & E4). apply full_copy_chain. exists v, raw.
    by rewrite Hver, Hb. }
  enough (∃ m, (m <= n)%nat ∧ chain (version_of db') (bytes_of s') m k x) as (m & ? & ?) by eauto.
  induction Hch as [j v y Hg Hj Hs Hx|j v y Hg Hj Hs Hx|n j v base bd y data Hg Hj Hs Hbase Hch IH Hx Hdec].
  - assert (Hch : chain (version_of db0) (bytes_of s0) 0 j y) by (by apply chain_raw with v).
    exists 0%nat. split; [lia |]. destruct (Hr _ _ _ Hn Hch) as [Hf | (E1 & E2 & _)]; [by apply Hfull |].
    apply chain_raw with v; try done; [by rewrite Hver, E1 | by rewrite Hb, E2].
  - assert (Hch : chain (version_of db0) (bytes_of s0) 0 j (decompress_or_raw y)) by (by apply chain_compressed with v).
    exists 0%nat. split; [lia |]. destruct (Hr _ _ _ Hn Hch) as [Hf | (E1 & E2 & _)]; [by apply Hfull |].
    apply chain_compressed with v; try done; [by rewrite Hver, E1 | by rewrite Hb, E2].
  - assert (Hch' : chain (version_of db0) (bytes_of s0) (Datatypes.S n) j data) by (by eapply chain_delta).
    destruct (Hr _ _ _ Hn Hch') as [Hf | (E1 & E2 & Hd)]; [exists 0%nat; split; [lia | by apply Hfull] |].
    destruct (decide (base = h)) as [->|Hne]; [destruct Hd; by exists v |].
    destruct (IH Hne ltac:(lia)) as (m & Hm & IH'). exists (Datatypes.S m). split; [lia |].
    eapply chain_delta; [by rewrite Hver, E1 | done | done | done | exact IH' | by rewrite Hb, E2 | done].
Qed.

Lemma core_removed h s s' : core s' = core s → removed h s s'.
Proof. intros [= Hb Hv]. split; [| by left]. intros k _. unfold bytes_of. by rewrite Hb. Qed.

Lemma chain_stored s db n k x :
  s_lfs_version_db s = Some db → (n <= MAX_DELTA_CHAIN_DEPTH)%nat →
  chain (version_of db) (bytes_of s) n k x → stored s k x.
Proof.
  intros Hdb Hn Hch. assert (is_Some (bytes_of s k) ∧ is_Some (version_of db k)) as [[raw Hraw] [v Hv]]
    by (inversion Hch; subst; split; by eexists).
  exists raw. rewrite Hdb, Hv. eauto.
Qed.

Lemma remove_blob_inv {R} env h (f : string → R) (g : DbError → R) s s' r :
  valid_hash h = true → remove_blob env h f g s = (s', r) →
  ∃ s1 r1, rebase_all env (deltas_to_rebase s h) s = (s1, r1)
    ∧ (s' = s1 ∧ (∃ e, r1 = Err e ∧ r = Err (f e))
       ∨ r1 = Ok tt ∧ (server_wf s1 → server_wf s' ∧ removed h s1 s' ∧ (r = Ok (Ok true) → bytes_of s' h = None))).
Proof.
  intros Hh. unfold remove_blob. intros [(deltas & s0 & [= <- <-] & Hu) | (e & [=] & _)]%bind_inv.
  apply bind_inv in Hu as [([] & s1 & Hr & Hu) | (e & Hr & ->)].
  2: { unfold map_err in Hr. destruct (rebase_all _ _ s) as [s1 [[]|er]]; [done |]. injection Hr as -> <-.
       exists s', (Err er). split; [done |]. left. eauto. }
  unfold map_err in Hr. destruct (rebase_all _ _ s) as [s1' [[]|er]]; [| done]. injection Hr as ->.
  exists s1, (Ok tt). split; [done |]. right. split; [done |]. intros [W Wv].
  apply bind_inv in Hu as [(s2 & s2' & [= <- <-] & Hu) | (e & [=] & _)].
  pose proof (try_delete_law env (s_backend s1) h W Hh) as Hl.
  destruct (try_delete env (s_backend s1) h) as [b x].
  apply bind_inv in Hu as [(u & s2 & Hm & Hu) | (e & [=] & _)]. injection Hm as <- <-.
  destruct x as [[]|er].
  - destruct Hl as (W' & Hc & _). set (s2 := set_backend b s1) in *.
    assert (Hgone : bytes_of s2 h = None) by (unfold bytes_of; simpl; rewrite Hc; apply lookup_delete_eq).
    assert (Hrest : ∀ k, k ≠ h → bytes_of s2 k = bytes_of s1 k)
      by (intros k Hk; unfold bytes_of; simpl; rewrite Hc; by apply lookup_delete_ne).
    destruct (delete_upload (s_database s1) h) as [d y].
    apply bind_inv in Hu as [(u2 & s3 & Hm & Hu) | (e & [=] & _)]. injection Hm as <- <-.
    destruct y as [existed|er].
    2: { injection Hu as <- <-. split; [by split |]. split; [| done]. split; [exact Hrest | by left]. }
    apply bind_inv in Hu as [(u3 & s3 & Hm & Hu) | (e & [=] & _)]. injection Hm as <- <-.
    injection Hu as <- <-. simpl. destruct (s_lfs_version_db s1) as [db|] eqn:Edb.
    + split; [split; [done |]|]. { intros db' v [= <-] Hin. apply List.filter_In in Hin as [Hin _]. by eapply Wv. }
      split; [| by intros; apply Hgone]. split; [exact Hrest |]. right. exists db. eexists. split; [done |]. split; [reflexivity |].
      intros k Hk. by apply version_of_delete.
    + simpl. split; [split; [done |]|]. { intros db' v. simpl. by rewrite Edb. }
      split; [| by intros; apply Hgone]. split; [exact Hrest | left]. simpl. done.
  - injection Hu as <- <-. destruct Hl as (W' & Hc & _). split; [by split |]. split; [| done]. split; [| by left].
    intros k Hk. unfold bytes_of. simpl. rewrite Hc. by apply lookup_delete_ne.
  - injection Hu as <- <-. destruct Hl as (W' & Hc). split; [by split |]. split; [| done]. split; [| by left].
    intros k Hk. unfold bytes_of. simpl. by rewrite Hc.
Qed.

Lemma remove_blob_spec {R} env h (f : string → R) (g : DbError → R) s s' r :
  server_wf s → no_read_faults env → valid_hash h = true →
  remove_blob env h f g s = (s', r) →
  server_wf s' ∧ (∀ k x, k ≠ h → stored s k x → stored s' k x) ∧ (r = Ok (Ok true) → bytes_of s' h = None).
Proof.
  intros W Hf Hh Hd. destruct (remove_blob_inv _ _ _ _ _ _ _ Hh Hd) as (s1 & r1 & Hr & Hcase). clear Hd.
  unfold deltas_to_rebase in Hr. destruct (s_lfs_version_db s) as [db|] eqn:Edb.
  2: { injection Hr as <- <-. destruct Hcase as [(_ & e & [=] & _) | (_ & Hcase)].
       destruct (Hcase W) as (W' & [Hb Hv] & Hgone). split; [done |]. split; [| done].
       intros k x Hk (raw & Hraw & Hst). exists raw. rewrite Hb by done. split; [done |].
       destruct Hv as [Hv | (d & d' & E & _)]; [| congruence]. rewrite Edb in Hst. by rewrite Hv, Edb. }
  assert (Hin : ∀ v, v ∈ List.filter (MemoryVersions.is_delta_of h) db → In v db)
    by (intros v Hv%list_elem_of_In; apply List.filter_In in Hv; apply Hv).
  change (unwrap_or (get_deltas_for_base db h) []) with (List.filter (MemoryVersions.is_delta_of h) db) in Hr.
  destruct (rebase_all_spec _ _ _ _ _ db W Hf Edb ltac:(apply Forall_forall; intros v Hv%Hin; by eapply (proj2 W)) Hr)
    as (W1 & db1 & Hdb1 & Hnone & Hreb).
  assert (Hknown : ∀ k, version_of db k = None → k ∉ map v_sha256 (List.filter (MemoryVersions.is_delta_of h) db)).
  { intros k Hk (v & <- & Hv%list_elem_of_In%Hin)%list_elem_of_In%in_map_iff. destruct (version_of_In db v Hv). congruence. }
  destruct Hcase as [(-> & e & -> & ->) | (-> & Hcase)].
  - split; [done |]. split; [| done]. intros k x Hk (raw & Hraw & Hst). rewrite Edb in Hst.
    destruct (version_of db k) as [v|] eqn:Ev.
    + destruct Hst as (n & Hn & Hch). destruct (rebased_chain _ _ _ _ _ _ _ _ Hreb Hn Hch) as (m & Hm & Hch').
      apply (chain_stored _ db1 m); [done | lia | done].
    + destruct (Hnone k Ev (Hknown k Ev)) as [E1 E2]. exists raw. rewrite Hdb1, E2. by rewrite E1.
  - destruct (Hcase W1) as (W' & Hrem & Hgone). split; [done |]. split; [| done].
    intros k x Hk (raw & Hraw & Hst). rewrite Edb in Hst. destruct (version_of db k) as [v|] eqn:Ev.
    + destruct Hst as (n & Hn & Hch).
      destruct (rebased_removed h s s1 s' db db1 n k x Hdb1) as (db' & m & Hs' & Hm & Hch'); try done.
      { intros n' j y Hn' Hy. destruct (Hreb n' j y Hn' Hy) as [? | (E1 & E2 & E3)]; [by left | right].
        split; [done |]. split; [done |]. intros (w & Hw & Ht & Hbase). apply E3.
        destruct (version_of_find _ _ _ Hw) as [<- Hwin]. apply list_elem_of_In, in_map, List.filter_In. split; [done |].
        unfold MemoryVersions.is_delta_of. by rewrite Ht, Hbase, !bool_decide_true. }
      apply (chain_stored _ db' m); [done | lia | done].
    + destruct (Hnone k Ev (Hknown k Ev)) as [E1 E2]. destruct Hrem as [Hb Hv].
      exists raw. rewrite Hb, E1 by done. split; [done |].
      destruct Hv as [-> | (d & d' & Hd & -> & Hver)]; [by rewrite Hdb1, E2 |].
      rewrite Hver by done. assert (d = db1) as -> by congruence. by rewrite E2.
Qed.

Lemma keeps_delete_own h pk : keeps core (delete_own h pk).
Proof.
  unfold delete_own. keeps.
Qed.

(** [m] keeps every blob but [h] readable, whatever it answers. *)
Definition preserves {R A} (h : string) (m : MR S R A) : Prop :=
  ∀ s s' r, server_wf s → m s = (s', r) →
    server_wf s' ∧ ∀ k x, k ≠ h → stored s k x → stored s' k x.

Lemma preserves_keeps {R A} h (m : MR S R A) : keeps core m → preserves h m.
Proof.
  intros Hk s s' r W Hm. apply (keeps_run core _ _ _ _ Hk) in Hm as [= Hb Hv].
  unfold server_wf, stored, bytes_of in *. by rewrite Hb, Hv.
Qed.

Lemma preserves_bind {R A C} h (m : MR S R A) (k : A → MR S R C) :
  preserves h m → (∀ a, preserves h (k a)) → preserves h (bind m k).
Proof.
  intros Hm Hk s s' r W [(a & s1 & H1' & H2') | (e & H1' & _)]%bind_inv; [| by eapply Hm].
  destruct (Hm _ _ _ W H1') as [W1 E1]. destruct (Hk _ _ _ _ W1 H2') as [W2 E2]. eauto.
Qed.

Lemma preserves_guard {R C} h b (resp : R) (m : MR S R C) :
  (b = true → preserves h m) → preserves h (bind (guard b resp) (fun _ => m)).
Proof. intros Hm. destruct b; [by apply (Hm eq_refl) | by apply preserves_keeps]. Qed.

(** When [m] answers with an element of [D], the bytes of [h] are gone. *)
Definition erases {R A} (h : string) (gone : A → Prop) (m : MR S R A) : Prop :=
  ∀ s s' a, server_wf s → m s = (s', Ok a) → gone a → bytes_of s' h = None.

Lemma erases_bind {R A C} h gone (m : MR S R A) (k : A → MR S R C) :
  keeps core m → (∀ a, erases h gone (k a)) → erases h gone (bind m k).
Proof.
  intros Hm Hk s s' a W (x & s1 & H1' & H2')%bind_ok. eapply Hk; [| exact H2'].
  by apply (preserves_keeps h _ Hm _ _ _ W H1').
Qed.

Lemma preserves_remove_blob {R} env h (f : string → R) (g : DbError → R) :
  no_read_faults env → valid_hash h = true → preserves h (remove_blob env h f g).
Proof. intros Hf Hv s s1 r W Hp. by destruct (remove_blob_spec _ _ _ _ _ _ _ W Hf Hv Hp) as (? & ? & _). Qed.

Definition deleted_answer : Response := (200, JObj [("deleted", JBool true)]).

Lemma delete_own_answer h pk s s' a :
  delete_own h pk s = (s', Ok (Some a)) → a ≠ deleted_answer.
Proof.
  unfold delete_own. intros (d & s1 & _ & (u & s2 & _ & Hu)%bind_ok)%bind_ok.
  destruct (upload_owner_count _ _); [| done]. destruct (decide _); [| done].
  destruct (delete_upload_owner _ _ _) as [d' x]. apply bind_ok in Hu as (u' & s3 & _ & Hu).
  destruct x; [| done]. injection Hu as _ <-. done.
Qed.

Section delete.
Context (q : ReqEnv) (h : string) (Hf : no_read_faults (q_env q)).

Lemma preserves_delete_physically p : valid_hash h = true → preserves h (delete_physically q h p).
Proof.
  intros Hv. unfold delete_physically. apply preserves_bind; [by apply preserves_remove_blob |].
  intros [[]|]; apply preserves_keeps; keeps.
Qed.
Lemma erases_delete_physically p : valid_hash h = true → erases h (eq deleted_answer) (delete_physically q h p).
Proof.
  intros Hv s s' a W (r & s1 & Hr & Hd)%bind_ok <-.
  destruct (remove_blob_spec _ _ _ _ _ _ _ W Hf Hv Hr) as (_ & _ & Hg).
  destruct r as [[]|]; [| done | done]. apply bind_ok in Hd as (u & s2 & [= <- _] & [= <-]). by apply Hg.
Qed.

Lemma preserves_delete headers : preserves h (delete_body q h headers).
Proof.
  unfold delete_body. apply preserves_guard. intros Hvalid.
  destruct (extract_auth_event headers) as [e|]; [| by apply preserves_keeps].
  apply preserves_bind; [apply preserves_keeps; keeps | intros _].
  apply preserves_bind; [apply preserves_keeps; keeps | intros _].
  apply preserves_bind; [apply preserves_keeps; keeps | intros access].
  apply preserves_guard. intros _. destruct (decide _); [by apply preserves_delete_physically |].
  apply preserves_bind; [apply preserves_keeps, keeps_delete_own | intros [answer|]];
    [by apply preserves_keeps | by apply preserves_delete_physically].
Qed.

Lemma erases_delete headers : erases h (eq deleted_answer) (delete_body q h headers).
Proof.
  unfold delete_body. intros s s' ans W (u & s1 & [Hvalid ->]%guard_ok & Hd)%bind_ok. revert s s' ans W Hd.
  match goal with |- ∀ s s' a, _ → ?m s = _ → _ => change (erases h (eq deleted_answer) m) end.
  destruct (extract_auth_event headers) as [e|]; [| done].
  apply erases_bind; [keeps | intros _]. apply erases_bind; [keeps | intros _].
  apply erases_bind; [keeps | intros access]. apply erases_bind; [keeps | intros _].
  destruct (decide _); [by apply erases_delete_physically |].
  intros s s' ans W (o & s1 & Ho & Hd)%bind_ok Hans. destruct o as [a|].
  - injection Hd as <- ->. subst ans. by apply delete_own_answer in Ho.
  - eapply erases_delete_physically; [done | | exact Hd | done].
    by apply (preserves_keeps h _ (keeps_delete_own h (ev_pubkey e)) _ _ _ W Ho).
Qed.
End delete.

(** ** Requests *)

Inductive Request :=
| RUpload (q : ReqEnv) (headers : HeaderMap) (body : Body)
| RGet (q : ReqEnv) (path : string)
| RHead (q : ReqEnv) (path : string)
| RDelete (q : ReqEnv) (sha256 : string) (headers : HeaderMap)
| RList (pubkey : string)
| RRequirements
| RStatus
| RFlush (now : Z).

Definition serve `{HashOrder} (r : Request) (s : S) : S :=
  match r with
  | RUpload q headers body => (handle_upload q headers body s).1
  | RGet q path => (handle_get_blob q path s).1
  | RHead q path => (handle_head_blob q path s).1
  | RDelete q sha256 headers => (handle_delete_blob q sha256 headers s).1
  | RList pubkey => (handle_list pubkey s).1
  | RRequirements => (handle_upload_requirements s).1
  | RStatus => (handle_status s).1
  | RFlush now => flush_stats now s
  end.
Definition serve_all `{HashOrder} (rs : list Request) (s : S) : S := foldl (fun s r => serve r s) s rs.

(** [r] does not delete [h], and does not upload its bytes through the LFS
    pipeline. *)
Definition spares (h : string) (r : Request) : Prop :=
  match r with
  | RUpload _ headers body =>
      is_lfs (ctx_of headers) = false ∨ ∀ data, body_data body = Ok data → sha256_hex data ≠ h
  | RDelete q sha256 _ => sha256 ≠ h ∧ no_read_faults (q_env q)
  | _ => True
  end.

Lemma core_stored s s' k x : core s' = core s → server_wf s → stored s k x → server_wf s' ∧ stored s' k x.
Proof. intros [= Hb Hv]. unfold server_wf, stored, bytes_of. by rewrite Hb, Hv. Qed.

Lemma serve_stored `{HashOrder} r s k x :
  server_wf s → spares k r → stored s k x → server_wf (serve r s) ∧ stored (serve r s) k x.
Proof.
  intros W Hr Hst. destruct r as [q headers body|q path|q path|q sha headers| | | |now]; simpl in *.
  - destruct (handle_upload q headers body s) as [s' resp] eqn:Hu. simpl.
    destruct (handle_upload_effect q headers body s s' resp (proj1 W) Hu) as [W' [(Hb & Hv & _) | (data & Hd & Heff)]].
    + destruct W as [_ Wv]. unfold server_wf. rewrite Hv. split; [by split | by eapply unchanged_stored].
    + split; [split; [done | eapply upload_effect_wf; [apply W | exact Heff]] |].
      eapply upload_effect_stored; [| exact Heff | exact Hst]. intros El Ek.
      destruct Hr as [Hr | Hr]; [congruence |]. by destruct (Hr data Hd).
  - unfold handle_get_blob. repeat case_match; (apply (core_stored s); [done | exact W | exact Hst]).
  - unfold handle_head_blob. repeat case_match; (apply (core_stored s); [done | exact W | exact Hst]).
  - destruct (handle_delete_blob q sha headers s) as [s' resp] eqn:Hd. destruct Hr as [Hne Hf].
    unfold handle_delete_blob, respond in Hd. destruct (delete_body q sha headers s) as [s1 r] eqn:Eb. injection Hd as <- _.
    destruct (preserves_delete q sha Hf headers _ _ _ W Eb) as [W' Hs']. split; [done |]. by apply Hs'.
  - done.
  - done.
  - done.
  - unfold flush_stats. destruct (Stats.flush _ _ _). by apply (core_stored s).
Qed.

Lemma serve_all_stored `{HashOrder} rs s k x :
  server_wf s → Forall (spares k) rs → stored s k x → server_wf (serve_all rs s) ∧ stored (serve_all rs s) k x.
Proof.
  revert s. induction rs as [|r rs IH]; intros s W Hall Hst; [done |]. apply Forall_cons in Hall as [Hr Hall].
  destruct (serve_stored r s k x W Hr Hst). by apply IH.
Qed.

(** C1: an acknowledged upload is served.  A server that keeps the memory
    version database (or none) and whose storage reads do not fail answers 200 to
    a PUT of bytes of whose hash it has neither bytes nor version record.  If
    the upload goes through the LFS pipeline, it names repository and path, and
    a base of it that the server has is at most nine deltas deep, at least half
    the size of the upload and at most 2^28 bytes.  Then after any uploads, GETs,
    HEADs, DELETEs with working reads, listings, requirement and status requests
    and flushes that neither DELETE its hash nor send the same bytes again as LFS
    content, deletions of its delta base included, a GET of its hash answers 200
    with exactly those bytes. *)
Theorem acknowledged_upload_served `{HashOrder} q headers body data s s' resp rs q' :
  server_wf s → no_read_faults (q_env q) → no_read_faults (q_env q') →
  body_data body = Ok data →
  bytes_of s (sha256_hex data) = None →
  (∀ db, s_lfs_version_db s = Some db → version_of db (sha256_hex data) = None) →
  lfs_named (ctx_of headers) → base_shallow s (ctx_of headers) data →
  handle_upload q headers body s = (s', resp) → resp.1 = 200 →
  Forall (spares (sha256_hex data)) rs →
  ∃ ct, (handle_get_blob q' (sha256_hex data) (serve_all rs s')).2 = (200, Some (ct, data)).
Proof.
  intros W Hf Hf' Hd Hfresh Hnew Hname Hbase Hu Hok Hall.
  destruct (handle_upload_effect q headers body s s' resp (proj1 W) Hu) as [W' [(_ & _ & Hbad) | (data' & Hd' & Heff)]]; [lia |].
  rewrite Hd in Hd'. injection Hd' as <-.
  pose proof (upload_effect_stores q (ctx_of headers) data s s' (proj1 W) Hf Hfresh Hnew Hname Hbase Heff) as Hst.
  assert (W2 : server_wf s') by (split; [done | eapply upload_effect_wf; [apply W | exact Heff]]).
  destruct (serve_all_stored rs s' _ data W2 Hall Hst) as [W3 Hst3].
  apply get_stored; [apply W3 | done | apply valid_hash_sha256 | done].
Qed.

(** C2: deletion is exact.  On a server with the memory version database (or
    none) and while storage reads do not fail, a DELETE of [h], whatever it
    answers, leaves every other readable blob readable with the same bytes, the
    deltas whose base it was included; and when it answers that the blob is deleted, a GET of [h]
    answers 404. *)
Theorem delete_spares_others q h headers s s' resp :
  server_wf s → no_read_faults (q_env q) →
  handle_delete_blob q h headers s = (s', resp) →
  server_wf s' ∧ (∀ k x, k ≠ h → stored s k x → stored s' k x)
  ∧ (resp = deleted_answer →
     ∀ q', (handle_get_blob q' h s').2 = (404, None)).
Proof.
  intros W Hf. unfold handle_delete_blob, respond. destruct (delete_body q h headers s) as [s1 r] eqn:Hd.
  intros [= <- <-]. destruct (preserves_delete q h Hf headers _ _ _ W Hd) as [W' Hs']. split; [done |].
  split; [done |]. intros Hans q'. destruct r as [a|e]; subst.
  - unfold handle_get_blob.
    assert (Hvalid : is_valid_sha256 h = true).
    { unfold delete_body in Hd. by apply bind_ok in Hd as (u & s2 & [Hv _]%guard_ok & _). }
    rewrite (strip_extension_valid h Hvalid), Hvalid. simpl.
    destruct (get (q_env q') (s_backend s1) h) as [x|] eqn:Hg; [| done].
    apply (proj2 (get_law (q_env q') (s_backend s1) h (proj1 W'))) in Hg.
    pose proof (erases_delete q h Hf headers s s1 _ W Hd eq_refl). unfold bytes_of in *. congruence.
  - pose proof (refuses_delete_body _ _ _ _ _ _ Hd). simpl in *. lia.
Qed.
End durable.

(** ** Witnesses: a delta outlives its base *)
Module DurableExamples.
Import Concrete ConcreteCodec RequestAuthExamples.

#[export] Instance codec_total : CodecTotal.
Proof. split. intros d. by eexists. Defined.

Definition v1 : list byte := [x41; x42; x43; x44; x45].
Definition v2 : list byte := (v1 ++ [x46])%list.

Definition env : Env := mkEnv 1004 "u" no_faults.
Definition request : ReqEnv := mkReqEnv 1001 0 0 1002 1003 1004 env.
Definition upload_headers (created : Z) (data : list byte) (extra : list (list string)) : HeaderMap :=
  {["authorization" := Some (auth_header_value (build_blossom_auth_for_request_with_extra_tags created "n" "upload"
      (Some (sha256_hex data)) "http://s" "http://s/upload" "PUT" "" extra))]}.
Definition delete_headers (h : string) : HeaderMap :=
  {["authorization" := Some (auth_header_value (build_blossom_auth_for_request 1000 "n" "delete"
      (Some h) "http://s" ("http://s/" +:+ h) "DELETE" ""))]}.
Definition file_tags : list (list string) := [["t"; "lfs"]; ["path"; "a.bin"]; ["repo"; "r"]].
Definition body (data : list byte) : Body := mkBody (Ok data) (Some (vec_len data)).

Definition empty_server : ServerState MemoryBackend MemoryDatabase MemoryLfsVersionDatabase :=
  mkServer MemoryBackend.new MemoryDatabase.new OpenAccess ∅ None "http://s" (mkRequirements None [] true) 1000
    (Some []) SEEN_AUTH_EVENTS 256 [].

(** The first version is in place. *)
Definition with_v1 := (handle_upload request (upload_headers 1000 v1 file_tags) (body v1) empty_server).1.
(** The second is uploaded as a delta on it. *)
Definition v2_headers : HeaderMap := upload_headers 1000 v2 (["base"; sha256_hex v1] :: file_tags)%list.
Definition with_v2 := handle_upload request v2_headers (body v2) with_v1.
(** The first is deleted. *)
Definition delete_v1 : Request := RDelete request (sha256_hex v1) (delete_headers (sha256_hex v1)).

Definition record_v1 : LfsFileVersion :=
  mkVersion "r" "a.bin" 1 (sha256_hex v1) None Compressed None 5 5 1004.

Lemma with_v1_versions : s_lfs_version_db with_v1 = Some [record_v1].
Proof. vm_compute. reflexivity. Qed.
Lemma with_v1_bytes : s_backend with_v1 = mkMem {[sha256_hex v1 := x28 :: v1]} {[sha256_hex v1 := 5]}.
Proof. vm_compute. reflexivity. Qed.
Lemma with_v1_wf : server_wf with_v1.
Proof.
  split; [by rewrite with_v1_bytes |]. intros db v. rewrite with_v1_versions. intros [= <-] [<- | []].
  vm_compute. reflexivity.
Qed.

Lemma v2_named : lfs_named (ctx_of v2_headers).
Proof. intros _ _. split; vm_compute; by eexists. Qed.

Lemma v2_base : lfs_base (ctx_of v2_headers) = Some (sha256_hex v1).
Proof. vm_compute. reflexivity. Qed.

Lemma v2_base_shallow : base_shallow with_v1 (ctx_of v2_headers) v2.
Proof.
  intros db base. rewrite with_v1_versions, v2_base. intros [= <-] Hb _ _. apply Some_inj in Hb. rewrite <- Hb. clear Hb base.
  exists 0%nat, (decompress_or_raw (x28 :: v1)). split; [unfold MAX_DELTA_CHAIN_DEPTH; lia |].
  split; [| split; vm_compute; discriminate].
  apply (chain_compressed (version_of [record_v1]) (bytes_of with_v1) (sha256_hex v1) record_v1 (x28 :: v1));
    [vm_compute; reflexivity .. |]. unfold bytes_of. by rewrite with_v1_bytes.
Qed.

Lemma acknowledged_upload_served_witness :
  ∃ ct, (handle_get_blob request (sha256_hex v2) (serve_all [delete_v1] with_v2.1)).2 = (200, Some (ct, v2)).
Proof.
  apply (acknowledged_upload_served request v2_headers (body v2) v2 with_v1 with_v2.1 with_v2.2 [delete_v1] request).
  - exact with_v1_wf.
  - reflexivity.
  - reflexivity.
  - reflexivity.
  - unfold bytes_of. rewrite with_v1_bytes. vm_compute. reflexivity.
  - intros db. rewrite with_v1_versions. intros [= <-]. vm_compute. reflexivity.
  - exact v2_named.
  - exact v2_base_shallow.
  - unfold with_v2. apply surjective_pairing.
  - vm_compute. reflexivity.
  - constructor; [| constructor]. split; [vm_compute; discriminate | reflexivity].
Defined.

Definition deletion := handle_delete_blob request (sha256_hex v1) (delete_headers (sha256_hex v1)) with_v1.

Lemma delete_spares_others_witness :
  server_wf deletion.1 ∧ (handle_get_blob request (sha256_hex v1) deletion.1).2 = (404, None).
Proof.
  assert (Hd : handle_delete_blob request (sha256_hex v1) (delete_headers (sha256_hex v1)) with_v1
    = (deletion.1, deletion.2)) by (unfold deletion; apply surjective_pairing).
  destruct (delete_spares_others request (sha256_hex v1) (delete_headers (sha256_hex v1)) with_v1
    deletion.1 deletion.2 with_v1_wf eq_refl Hd) as (W & _ & Hgone).
  split; [exact W |]. apply Hgone. vm_compute. reflexivity.
Defined.

(** A hundred equal bytes after the five of the base are a delta of three bytes,
    which [decode] gives room for sixteen bytes: the upload is acknowledged, and
    is served as the bytes of the compressed delta. *)
Definition v_long : list byte := (v1 ++ replicate 100 x46)%list.
Example small_base_acknowledged_misread :
  let s := handle_upload request (upload_headers 1000 v_long (["base"; sha256_hex v1] :: file_tags)%list) (body v_long) with_v1 in
  s.2.1 = 200
  ∧ (handle_get_blob request (sha256_hex v_long) s.1).2 = (200, Some ("application/octet-stream", [x28; x72; x46; x64])).
Proof. vm_compute. split; reflexivity. Qed.

(** An LFS upload that does not name its repository and path is stored
    compressed without a version record, and is served compressed. *)
Example unnamed_lfs_upload_served_compressed :
  let s := handle_upload request (upload_headers 1000 v1 [["t"; "lfs"]]) (body v1) empty_server in
  s.2.1 = 200
  ∧ (handle_get_blob request (sha256_hex v1) s.1).2 = (200, Some ("application/octet-stream", x28 :: v1)).
Proof. vm_compute. split; reflexivity. Qed.
End DurableExamples.
