(* ===== verification/Merkle.v ===== *)
(** * Merkle attestation of source files ([compute_merkle_root] to
    [verify_merkle_proof] and [SourceMerkleTree] of [src/src/integrity.rs])

    A tree is a list of levels, each the hashes of the pairs of the one below; a
    level of odd length repeats its last hash.  The trees are built from files
    in [Release.v]. *)

From Stdlib Require Import ZArith Lia Ascii String.
From Stdlib Require Import Strings.Byte.
From stdpp Require Import base list gmap strings numbers.
From S2P Require Import Prelude Protocol.

Open Scope string_scope.

(** [IntegrityEntry]. *)
Record IntegrityEntry := mkEntry { e_path : string; e_sha256 : string }.

(** [MerkleProof]: the siblings from the leaf to the root; [true] is a sibling on
    the right. *)
Record MerkleProof := mkProof {
  mp_path : string;
  mp_leaf_hash : string;
  mp_leaf_index : nat;
  mp_proof : list (string * bool);
  mp_root : string
}.

(** [SourceMerkleTree]. *)
Record SourceMerkleTree := mkTree {
  t_version : Z;
  t_hash_algorithm : string;
  t_root : string;
  t_file_count : nat;
  t_leaves : list IntegrityEntry;
  t_signer_npub : option string;
  t_signature : option string
}.

Section merkle.
Context `{Crates}.
Notation hash := (list byte).

Definition zero_hash : hash := replicate 32 x00.

(** [decode_hash]. *)
Definition decode_hash (h : string) : option hash :=
  match hex_decode h with
  | Some bytes => if decide (length bytes = 32%nat) then Some bytes else None
  | None => None
  end.

(** [hash_pair]. *)
Definition hash_pair (left right : hash) : hash :=
  hasher_finalize (hasher_update (hasher_update hasher_new left) right).

(** The next level: the loop over [chunks(2)]. *)
Fixpoint next_level (hashes : list hash) : list hash :=
  match hashes with
  | a :: b :: rest => hash_pair a b :: next_level rest
  | [a] => [hash_pair a a]
  | [] => []
  end.

(** The loop of [compute_merkle_root]. *)
Fixpoint root_loop (fuel : nat) (hashes : list hash) : list hash :=
  match fuel, hashes with
  | S fuel, _ :: _ :: _ => root_loop fuel (next_level hashes)
  | _, _ => hashes
  end.

Definition leaf_hash (e : IntegrityEntry) : hash := default zero_hash (decode_hash (e_sha256 e)).
Definition root_of (hashes : list hash) : hash := nth 0 (root_loop (length hashes) hashes) [].

(** [compute_merkle_root]. *)
Definition compute_merkle_root (leaves : list IntegrityEntry) : string :=
  match leaves with
  | [] => hex_encode zero_hash
  | _ => hex_encode (root_of (map leaf_hash leaves))
  end.

(** The sibling of [idx] in a level, and its side. *)
Definition sibling (hashes : list hash) (idx : nat) : hash * bool :=
  let sibling_idx := if Nat.even idx then (idx + 1)%nat else (idx - 1)%nat in
  (if decide (sibling_idx < length hashes)%nat then nth sibling_idx hashes [] else nth idx hashes [], Nat.even idx).

(** The loop of [merkle_proof]. *)
Fixpoint proof_loop (fuel : nat) (hashes : list hash) (idx : nat) : list (hash * bool) :=
  match fuel, hashes with
  | S fuel, _ :: _ :: _ => sibling hashes idx :: proof_loop fuel (next_level hashes) (idx / 2)
  | _, _ => []
  end.

(** [merkle_proof]. *)
Definition merkle_proof (leaves : list hash) (index : nat) : list (hash * bool) :=
  proof_loop (length leaves) leaves index.

(** The loop of [verify_merkle_proof]. *)
Fixpoint climb (current : hash) (proof : list (string * bool)) : option hash :=
  match proof with
  | [] => Some current
  | (sibling_hex, is_right) :: proof =>
      match decode_hash sibling_hex with
      | Some sibling => climb (if is_right : bool then hash_pair current sibling else hash_pair sibling current) proof
      | None => None
      end
  end.

(** [verify_merkle_proof]. *)
Definition verify_merkle_proof (leaf_hash : string) (proof : list (string * bool)) (expected_root : string) : bool :=
  match decode_hash leaf_hash with
  | Some h => match climb h proof with
              | Some current => bool_decide (hex_encode current = expected_root)
              | None => false
              end
  | None => false
  end.

(** [iter().position]. *)
Fixpoint position {A} (f : A → bool) (l : list A) : option nat :=
  match l with
  | [] => None
  | x :: l => if f x then Some 0%nat else S <$> position f l
  end.
Definition has_path (path : string) (e : IntegrityEntry) : bool := bool_decide (e_path e = path).

(** [SourceMerkleTree::proof_for], [verify_file], [verify_proof]. *)
Definition proof_for (t : SourceMerkleTree) (path : string) : option MerkleProof :=
  match position (has_path path) (t_leaves t) with
  | Some leaf_index =>
      let proof := merkle_proof (map leaf_hash (t_leaves t)) leaf_index in
      Some (mkProof path (e_sha256 (nth leaf_index (t_leaves t) (mkEntry "" ""))) leaf_index
              (map (fun p => (hex_encode p.1, p.2)) proof) (t_root t))
  | None => None
  end.
Definition verify_file (t : SourceMerkleTree) (path : string) (content : list byte) : result bool string :=
  match List.find (has_path path) (t_leaves t) with
  | Some entry => Ok (bool_decide (sha256_hex content = e_sha256 entry))
  | None => Err ("file '" +:+ path +:+ "' not in tree")
  end.
Definition verify_proof (t : SourceMerkleTree) (p : MerkleProof) : bool :=
  verify_merkle_proof (mp_leaf_hash p) (mp_proof p) (t_root t).

(** ** The shape of a tree *)

(** What is hashed: the pairs of a level, and all of them. *)
Fixpoint pairs (hashes : list hash) : list (hash * hash) :=
  match hashes with
  | a :: b :: rest => (a, b) :: pairs rest
  | [a] => [(a, a)]
  | [] => []
  end.
Fixpoint tree_inputs (fuel : nat) (hashes : list hash) : list (list byte) :=
  match fuel, hashes with
  | S fuel, _ :: _ :: _ => (map (fun p => p.1 ++ p.2) (pairs hashes) ++ tree_inputs fuel (next_level hashes))%list
  | _, _ => []
  end.
Fixpoint climb_inputs (current : hash) (proof : list (string * bool)) : list (list byte) :=
  match proof with
  | [] => []
  | (sibling_hex, is_right) :: proof =>
      match decode_hash sibling_hex with
      | Some sibling =>
          let p := if is_right : bool then (current, sibling) else (sibling, current) in
          (p.1 ++ p.2)%list :: climb_inputs (hash_pair p.1 p.2) proof
      | None => []
      end
  end.
(** SHA-256 tells these byte strings apart. *)
Definition sha256_injective_on (inputs : list (list byte)) : Prop :=
  Forall (fun a => Forall (fun b => sha256_hex a = sha256_hex b → a = b) inputs) inputs.

Lemma injective_use inputs a b :
  sha256_injective_on inputs → a ∈ inputs → b ∈ inputs → sha256_hex a = sha256_hex b → a = b.
Proof.
  unfold sha256_injective_on. intros Hi Ha Hb. rewrite list.Forall_forall in Hi. specialize (Hi a Ha).
  rewrite list.Forall_forall in Hi. by apply Hi.
Qed.

Lemma pair_ind {A} (P : list A → Prop) :
  P [] → (∀ a, P [a]) → (∀ a b l, P l → P (a :: b :: l)) → ∀ l, P l.
Proof.
  intros H0 H1 H2. fix IH 1. intros [|a [|b l]]; [exact H0 | exact (H1 a) | exact (H2 a b l (IH l))].
Qed.

Lemma next_level_pairs l : next_level l = map (fun p => hash_pair p.1 p.2) (pairs l).
Proof. induction l as [|a|a b l IH] using pair_ind; cbn; [done | done |]. by rewrite IH. Qed.

Lemma next_level_length l : length (next_level l) = (Nat.div2 (S (length l))).
Proof. induction l as [|a|a b l IH] using pair_ind; cbn in *; [done | done |]. by rewrite IH. Qed.

Lemma next_level_shorter a b l fuel :
  (length (a :: b :: l) <= S fuel)%nat → (0 < length (next_level (a :: b :: l)) <= fuel)%nat.
Proof.
  rewrite next_level_length. cbn [length]. intros Hf. rewrite Nat.div2_div.
  pose proof (Nat.div_mod_eq (S (S (S (length l)))) 2). pose proof (Nat.mod_upper_bound (S (S (S (length l)))) 2). lia.
Qed.

Lemma next_level_lookup l i a :
  l !! i = Some a →
  let o := sibling l i in
  next_level l !! (i / 2)%nat = Some (if o.2 then hash_pair a o.1 else hash_pair o.1 a).
Proof.
  revert i. induction l as [|x|x y l IH] using pair_ind; intros i Hi; [done | |].
  - destruct i as [|[]]; [| done..]. by injection Hi as ->.
  - destruct i as [|[|i]].
    + by injection Hi as ->.
    + by injection Hi as ->.
    + specialize (IH i Hi). cbv zeta in *. replace (S (S i) / 2)%nat with (S (i / 2)).
      2: { rewrite <- !Nat.div2_div. done. }
      change (next_level (x :: y :: l) !! S (i / 2)) with (next_level l !! (i / 2)%nat). rewrite IH. f_equal.
      assert (Hs : sibling (x :: y :: l) (S (S i)) = sibling l i); [| by rewrite Hs].
      unfold sibling. cbn [Nat.even length]. f_equal. destruct (Nat.even i) eqn:Ei.
      * cbn [Nat.add]. repeat case_decide; cbn in *; try lia; done.
      * destruct i as [|i]; [done |]. cbn [Nat.sub]. rewrite !Nat.sub_0_r.
        repeat case_decide; cbn in *; try lia; done.
Qed.

(** A hash of the tree is as long as a digest. *)
Definition all32 (l : list hash) : Prop := Forall (fun h => length h = 32%nat) l.

Section laws.
Context `{!CratesLaws}.

Lemma decode_encode h : length h = 32%nat → decode_hash (hex_encode h) = Some h.
Proof. intros Hh. unfold decode_hash. rewrite hex_decode_encode. by case_decide. Qed.
Lemma decode_length s h : decode_hash s = Some h → length h = 32%nat.
Proof. unfold decode_hash. destruct (hex_decode s); [| done]. case_decide; [by intros [= <-] | done]. Qed.

Lemma all32_next l : all32 (next_level l).
Proof. rewrite next_level_pairs. apply Forall_map, Forall_true. intros p. apply hasher_finalize_length. Qed.

Lemma all32_leaves leaves : all32 (map leaf_hash leaves).
Proof.
  apply Forall_map, Forall_true. intros e. cbn. unfold leaf_hash.
  destruct (decode_hash _) eqn:E; cbn; [by eapply decode_length | done].
Qed.

(** *** The proofs of a tree *)

(** The root is a single hash: the fuel is enough. *)
Lemma root_loop_single fuel l :
  (0 < length l <= S fuel)%nat → ∃ r, root_loop fuel l = [r].
Proof.
  revert l. induction fuel as [|fuel IH]; intros [|a [|b l]] Hl; cbn [length] in Hl; try lia; try (by exists a).
  cbn [root_loop]. apply IH. apply (next_level_shorter a b l (S fuel)). cbn. lia.
Qed.

(** Climbing with the siblings of a hash leads to the root. *)
Lemma climb_proof fuel l i h :
  all32 l → (length l <= S fuel)%nat → l !! i = Some h →
  ∃ r, climb h (map (fun p => (hex_encode p.1, p.2)) (proof_loop fuel l i)) = Some r ∧ root_loop fuel l = [r].
Proof.
  revert l i h. induction fuel as [|fuel IH]; intros l i h H32 Hl Hi.
  - destruct l as [|a [|b l]]; cbn in Hl; [done | | lia]. destruct i; [| done]. injection Hi as ->. by exists h.
  - destruct l as [|a [|b l]]; [done | destruct i; [injection Hi as -> | done]; by exists h |].
    pose proof (next_level_lookup _ _ _ Hi) as Hn. cbn [proof_loop map root_loop climb].
    rewrite decode_encode.
    + apply (IH _ _ _ (all32_next _)) in Hn; [| apply (next_level_shorter a b l); cbn in *; lia].
      cbv zeta in Hn. by destruct ((sibling (a :: b :: l) i).2).
    + unfold all32 in H32. rewrite Forall_lookup in H32. unfold sibling. cbn [fst].
      assert (Hnth : ∀ j, (j < length (a :: b :: l))%nat → length (nth j (a :: b :: l) []) = 32%nat).
      { intros j [x Hx]%lookup_lt_is_Some_2. rewrite (nth_lookup_Some _ _ _ _ Hx). by eapply H32. }
      case_decide; apply Hnth; [done | by apply lookup_lt_Some in Hi].
Qed.

Lemma proof_loop_length fuel l i :
  (0 < length l <= S fuel)%nat → length (proof_loop fuel l i) = Nat.log2_up (length l).
Proof.
  revert l i. induction fuel as [|fuel IH]; intros [|a [|b l]] i Hl; cbn [length] in Hl; try lia; try done.
  cbn [proof_loop length]. rewrite IH by (apply (next_level_shorter a b l (S fuel)); cbn; lia).
  rewrite next_level_length. cbn [length]. set (n := length l).
  rewrite (Nat.log2_up_eqn (S (S n))) by lia. cbn [Nat.pred]. f_equal.
  destruct (decide (n = 0%nat)) as [->|Hn]; [done |].
  change (Nat.div2 (S (S (S n)))) with (S (Nat.div2 (S n))).
  assert (Hd : (0 < Nat.div2 (S n))%nat) by (rewrite Nat.div2_div; apply Nat.div_str_pos; lia).
  rewrite Nat.log2_up_eqn by lia. cbn [Nat.pred].
  assert (E : (S n = 2 * Nat.div2 (S n) + Nat.b2n (Nat.odd (S n)))%nat) by apply Nat.div2_odd.
  rewrite E at 2. destruct (Nat.odd (S n)); cbn [Nat.b2n].
  - by rewrite Nat.log2_succ_double.
  - by rewrite Nat.add_0_r, Nat.log2_double.
Qed.

(** *** Soundness *)

Lemma pairs_in l p : p ∈ pairs l → p.1 ∈ l ∧ p.2 ∈ l.
Proof.
  induction l as [|a|a b l IH] using pair_ind; cbn; [by intros ?%elem_of_nil | set_solver |].
  intros [-> | Hp]%elem_of_cons; [set_solver |]. apply IH in Hp. set_solver.
Qed.

Lemma sha256_pair l r : hex_encode (hash_pair l r) = sha256_hex (l ++ r)%list.
Proof. unfold hash_pair, sha256_hex. by rewrite hasher_update_app. Qed.

Lemma hex_encode_inj a b : hex_encode a = hex_encode b → a = b.
Proof. intros E. apply (f_equal hex_decode) in E. rewrite !hex_decode_encode in E. by injection E. Qed.

(** What reaches the root in as many steps as the tree is high is one of its
    hashes, if SHA-256 tells apart what is hashed on the way. *)
Lemma climb_sound fuel l h proof r I :
  all32 l → length h = 32%nat → (0 < length l <= S fuel)%nat →
  length proof = Nat.log2_up (length l) → climb h proof = Some r → root_loop fuel l = [r] →
  sha256_injective_on I → (∀ x, x ∈ tree_inputs fuel l → x ∈ I) → (∀ x, x ∈ climb_inputs h proof → x ∈ I) →
  h ∈ l.
Proof.
  intros H32 Hh Hl Hlen Hc Hr Hinj. revert l h proof H32 Hh Hl Hlen Hc Hr.
  induction fuel as [|fuel IH]; intros l h proof H32 Hh Hl Hlen Hc Hr Ht Hp.
  { destruct l as [|a [|b l]]; cbn in Hl, Hlen; try lia. destruct proof; [| done]. injection Hc as ->. cbn in Hr.
    injection Hr as ->. by apply list_elem_of_singleton. }
  destruct l as [|a [|b l]]; [cbn in Hl; lia | destruct proof; [| done]; injection Hc as ->; injection Hr as ->; set_solver |].
  pose proof (proof_loop_length (S fuel) (a :: b :: l) 0 Hl) as Hup. rewrite <- Hlen in Hup. cbn [proof_loop length] in Hup.
  pose proof (next_level_shorter a b l (S fuel) (proj2 Hl)) as Hn. rewrite proof_loop_length in Hup by done.
  destruct proof as [|[s d] proof]; [done |]. injection Hup as Hup. cbn [climb climb_inputs] in *.
  destruct (decode_hash s) as [o|] eqn:Eo; [| done]. pose proof (decode_length _ _ Eo) as Ho.
  set (p := if d then (h, o) else (o, h)). assert (Ep : (if d then hash_pair h o else hash_pair o h) = hash_pair p.1 p.2) by (by destruct d).
  rewrite Ep in Hc. assert (Hin : hash_pair p.1 p.2 ∈ next_level (a :: b :: l)).
  { apply (IH (next_level (a :: b :: l)) _ proof); try done; [apply all32_next | apply hasher_finalize_length | |].
    - intros x Hx. apply Ht. cbn [tree_inputs]. apply elem_of_app. by right.
    - intros x Hx. apply Hp. apply elem_of_cons. by right. }
  rewrite next_level_pairs in Hin. apply list_elem_of_fmap in Hin as ([u v] & E & Huv). cbn [fst snd] in E.
  assert (Euv : (p.1 ++ p.2)%list = (u ++ v)%list).
  { apply (injective_use I); [done | apply Hp; apply elem_of_cons; by left | |].
    - apply Ht. cbn [tree_inputs]. apply elem_of_app. left. apply list_elem_of_fmap. by exists (u, v).
    - by rewrite <- !sha256_pair, E. }
  apply pairs_in in Huv as [Hu Hv]. cbn [fst snd] in *. unfold all32 in H32. rewrite list.Forall_forall in H32.
  pose proof (H32 _ Hu). pose proof (H32 _ Hv). apply app_inj_1 in Euv as [E1 E2]; [| destruct d; cbn; congruence].
  destruct d; cbn in *; congruence.
Qed.

Lemma position_spec {A} (f : A → bool) l :
  match position f l with
  | Some i => ∃ x, l !! i = Some x ∧ f x = true
  | None => ∀ x, x ∈ l → f x = false
  end.
Proof.
  induction l as [|x l IH]; cbn; [by intros x ?%elem_of_nil |]. destruct (f x) eqn:E; [by exists x |].
  destruct (position f l); cbn; [done |]. intros y [-> | Hy]%elem_of_cons; auto.
Qed.

(** What [SourceMerkleTree::build] makes: every leaf is a digest. *)
Definition tree_ok (t : SourceMerkleTree) : Prop :=
  t_root t = compute_merkle_root (t_leaves t) ∧ t_leaves t ≠ []
  ∧ Forall (fun e => is_Some (decode_hash (e_sha256 e))) (t_leaves t).
(** The byte strings hashed for the tree and for a proof. *)
Definition hashed_for (t : SourceMerkleTree) (leaf : string) (proof : list (string * bool)) : list (list byte) :=
  (tree_inputs (length (t_leaves t)) (map leaf_hash (t_leaves t))
   ++ match decode_hash leaf with Some h => climb_inputs h proof | None => [] end)%list.

Lemma tree_root t :
  tree_ok t → ∃ r, root_loop (length (t_leaves t)) (map leaf_hash (t_leaves t)) = [r] ∧ t_root t = hex_encode r.
Proof.
  intros (Hr & Hne & _). destruct (root_loop_single (length (t_leaves t)) (map leaf_hash (t_leaves t))) as [r Hs].
  { rewrite length_map. destruct (t_leaves t); [done | cbn; lia]. }
  exists r. split; [done |]. rewrite Hr. unfold compute_merkle_root, root_of.
  destruct (t_leaves t) as [|e l]; [done |]. by rewrite length_map, Hs.
Qed.

(** C37: a Merkle tree attests exactly its leaves.  For every path in the tree
    [proof_for] gives a proof, of the hash of that path and as long as the tree is
    high, that [verify_proof] accepts; and whatever [leaf] and [proof] of that
    length [verify_merkle_proof] accepts against the root, [leaf] is the hash of a
    file in the tree, as long as SHA-256 has no collision among the pairs that
    were hashed. *)
Theorem merkle_membership t :
  tree_ok t →
  (∀ e, e ∈ t_leaves t → ∃ p, proof_for t (e_path e) = Some p ∧ verify_proof t p = true
     ∧ mp_path p = e_path e ∧ mkEntry (mp_path p) (mp_leaf_hash p) ∈ t_leaves t
     ∧ length (mp_proof p) = Nat.log2_up (length (t_leaves t)))
  ∧ ∀ leaf proof, length proof = Nat.log2_up (length (t_leaves t)) →
      verify_merkle_proof leaf proof (t_root t) = true → sha256_injective_on (hashed_for t leaf proof) →
      ∃ e, e ∈ t_leaves t ∧ decode_hash (e_sha256 e) = decode_hash leaf.
Proof.
  intros Hok. destruct (tree_root t Hok) as (r & Hr & Hroot). destruct Hok as (_ & Hne & Hdec).
  set (l := map leaf_hash (t_leaves t)) in *. assert (El : length l = length (t_leaves t)) by apply length_map.
  assert (Hlen : (0 < length l <= S (length (t_leaves t)))%nat) by (rewrite El; destruct (t_leaves t); [done | cbn; lia]).
  rewrite list.Forall_forall in Hdec. split.
  - intros e He. unfold proof_for. pose proof (position_spec (has_path (e_path e)) (t_leaves t)) as Hp.
    destruct (position _ _) as [i|]; [| specialize (Hp e He); unfold has_path in Hp; by rewrite bool_decide_true in Hp].
    destruct Hp as (x & Hx & Hpath%bool_decide_eq_true_1). eexists. split; [done |]. unfold verify_proof. cbn.
    rewrite (nth_lookup_Some _ _ _ _ Hx), length_map.
    assert (Hin : x ∈ t_leaves t) by (by eapply list_elem_of_lookup_2).
    split; [| split; [done |]; split; [rewrite <- Hpath; by destruct x |]].
    + destruct (Hdec x Hin) as [h Eh]. unfold verify_merkle_proof. rewrite Eh.
      destruct (climb_proof (length l) l i h) as (r' & Hc & Hr').
      * apply all32_leaves.
      * lia.
      * unfold l. rewrite list_lookup_fmap, Hx. cbn. unfold leaf_hash. by rewrite Eh.
      * unfold merkle_proof. fold l. rewrite Hc. rewrite El, Hr in Hr'. injection Hr' as <-. rewrite Hroot.
        by apply bool_decide_eq_true_2.
    + unfold merkle_proof. fold l. rewrite proof_loop_length by lia. by rewrite El.
  - intros leaf proof Hp Hv Hinj. unfold verify_merkle_proof in Hv. unfold hashed_for in Hinj.
    destruct (decode_hash leaf) as [h|] eqn:Eh; [| done]. destruct (climb h proof) as [c|] eqn:Ec; [| done].
    apply bool_decide_eq_true_1 in Hv. rewrite Hroot in Hv. apply hex_encode_inj in Hv as ->.
    assert (Hin : h ∈ l).
    { eapply climb_sound; try done; [apply all32_leaves | by eapply decode_length | by rewrite El | |];
        intros x Hx; apply elem_of_app; auto. }
    apply list_elem_of_fmap in Hin as (e & -> & He). exists e. split; [done |].
    destruct (Hdec e He) as [d Ed]. unfold leaf_hash. by rewrite Ed.
Qed.
End laws.
End merkle.

Module MerkleExamples.
Import Concrete.

Definition file (path : string) (text : string) : IntegrityEntry := mkEntry path (sha256_hex (as_bytes text)).
Definition a := file "a.rs" "fn a() {}".
Definition b := file "b.rs" "fn b() {}".
Definition c := file "c.rs" "fn c() {}".
Definition tree_of (leaves : list IntegrityEntry) : SourceMerkleTree :=
  mkTree 1 "sha256" (compute_merkle_root leaves) (length leaves) leaves None None.

Definition proof_of_b : list (string * bool) :=
  match proof_for (tree_of [a; b; c]) "b.rs" with Some p => mp_proof p | None => [] end.

Lemma tree_abc_ok : tree_ok (tree_of [a; b; c]).
Proof. split; [done |]. split; [done |]. repeat constructor; vm_compute; eauto. Qed.

Lemma merkle_membership_witness :
  length proof_of_b = 2%nat
  ∧ (∃ e, e ∈ [a; b; c] ∧ decode_hash (e_sha256 e) = decode_hash (e_sha256 b))
  ∧ ∃ p, proof_for (tree_of [a; b; c]) "c.rs" = Some p ∧ verify_proof (tree_of [a; b; c]) p = true.
Proof.
  destruct (merkle_membership (tree_of [a; b; c]) tree_abc_ok) as [Hall Hsound].
  split; [vm_compute; reflexivity |]. split.
  - apply (Hsound (e_sha256 b) proof_of_b).
    + vm_compute; reflexivity.
    + vm_compute; reflexivity.
    + apply (bool_decide_eq_true_1 _). vm_compute. reflexivity.
  - destruct (Hall c) as (p & Hp & Hv & _); [set_solver |]. exists p. by split.
Defined.

(** A level of odd length repeats its last hash, so the last file may be listed
    twice without a change of the root. *)
Example repeated_leaf_same_root :
  compute_merkle_root [a; b; c] = compute_merkle_root [a; b; c; mkEntry "d.rs" (e_sha256 c)].
Proof. vm_compute. reflexivity. Qed.

(** The paths are not part of the root, which is all that is signed. *)
Example paths_not_in_root :
  compute_merkle_root [a; b] = compute_merkle_root [mkEntry "b.rs" (e_sha256 a); mkEntry "c.rs" (e_sha256 b)].
Proof. reflexivity. Qed.

(** A shorter proof attests an inner node: the length of a proof is not checked. *)
Example inner_node_attested :
  let inner := compute_merkle_root [a; b] in
  let top := compute_merkle_root [c; c] in
  verify_proof (tree_of [a; b; c]) (mkProof "x" inner 0 [(top, true)] "") = true.
Proof. vm_compute. reflexivity. Qed.
End MerkleExamples.
