(* ===== verification/Release.v ===== *)
(** * Release manifests ([src/src/integrity.rs])

    What is hashed and signed of a directory, and when a running server calls
    itself verified.  The file system is a tree without symbolic links; a name is
    text.  Third-party or external here: the secp256k1 key of a configuration,
    bech32, [git ls-files], and serde_json on a manifest. *)

From Stdlib Require Import ZArith Lia Ascii String.
From Stdlib Require Import Strings.Byte.
From stdpp Require Import base list gmap strings numbers.
From S2P Require Import Prelude Protocol Auth Replay RequestAuth Merkle.

Open Scope string_scope.
Open Scope Z_scope.

(** ** Files *)

(** A file with what reading it gives, a directory that can be listed or not,
    and anything else. *)
Inductive Node :=
| NFile (content : result (list byte) string)
| NDir (entries : list (string * Node))
| NDenied (error : string)
| NOther.

(** An absolute path: its names. *)
Definition Path := list string.

(** [Path::components]. *)
Definition components (p : string) : list string :=
  List.filter (fun n => negb (bool_decide (n = "")) && negb (bool_decide (n = "."))) (split_char "/" p).

Fixpoint entry (name : string) (entries : list (string * Node)) : option Node :=
  match entries with
  | [] => None
  | (n, child) :: rest => if decide (n = name) then Some child else entry name rest
  end.
(** The node a path leads to, [above] the directories above the current one. *)
Fixpoint open_at (above : list Node) (node : Node) (p : Path) : option Node :=
  match p with
  | [] => Some node
  | name :: p =>
      match node with
      | NDir entries =>
          if decide (name = "..") then
            match above with
            | parent :: above => open_at above parent p
            | [] => open_at [] node p
            end
          else match entry name entries with
               | Some child => open_at (node :: above) child p
               | None => None
               end
      | _ => None
      end
  end.

Record FileSystem := mkFs { fs_top : Node; fs_cwd : Path }.

(** [std::fs::read], [Path::exists], [Path::join], [Path::parent], [Path::display]. *)
Definition fs_read (fs : FileSystem) (p : Path) : result (list byte) string :=
  match open_at [] (fs_top fs) p with
  | Some (NFile content) => content
  | Some _ => Err "Is a directory (os error 21)"
  | None => Err "No such file or directory (os error 2)"
  end.
Definition exists_path (fs : FileSystem) (p : Path) : bool := bool_decide (is_Some (open_at [] (fs_top fs) p)).
Definition join (root : Path) (p : string) : Path :=
  if starts_with "/" p then components p else (root ++ components p)%list.
Definition parent (p : Path) : option Path :=
  match p with [] => None | _ => Some (removelast p) end.
Definition display (p : Path) : string := "/" +:+ String.concat "/" p.

(** [Path::file_name]. *)
Definition file_name (p : string) : option string :=
  match list.last (components p) with
  | Some n => if decide (n = "..") then None else Some n
  | None => None
  end.
(** [Path::file_stem] of a file name. *)
Fixpoint after_dot (rev_name : list ascii) : option (list ascii) :=
  match rev_name with
  | [] => None
  | c :: rest => if decide (c = "."%char) then Some rest else after_dot rest
  end.
Definition file_stem (name : string) : string :=
  match after_dot (rev (chars name)) with
  | Some (c :: rest) => of_chars (rev (c :: rest))
  | _ => name
  end.

(** ** Orders

    [sort] and [sort_by] are stable. *)
Section sorting.
Context {A : Type} (le : A → A → bool).
Fixpoint place (x : A) (l : list A) : list A :=
  match l with
  | [] => [x]
  | y :: r => if le x y then x :: l else y :: place x r
  end.
Definition sorted_by (l : list A) : list A := foldr place [] l.

Lemma place_perm x l : place x l ≡ₚ x :: l.
Proof. induction l as [|y r IH]; cbn; [done |]. destruct (le x y); [done |]. rewrite IH. apply Permutation_swap. Qed.
Lemma sorted_by_perm l : sorted_by l ≡ₚ l.
Proof. induction l as [|x r IH]; cbn; [done |]. by rewrite place_perm, IH. Qed.
End sorting.

(** The order of [PathBuf], and of the paths of entries. *)
Fixpoint names_leb (p q : list string) : bool :=
  match p, q with
  | [], _ => true
  | _ :: _, [] => false
  | a :: p, b :: q =>
      match String.compare a b with Lt => true | Gt => false | Eq => names_leb p q end
  end.
Definition path_leb (p q : string) : bool := names_leb (components p) (components q).
Definition entry_leb (x y : IntegrityEntry) : bool := String.leb (e_path x) (e_path y).

(** ** Discovery *)

(** [is_ignored_component]. *)
Definition is_ignored_component (p : string) : bool :=
  existsb (fun n => bool_decide (n ∈ [".git"; "target"; ".idea"; ".vscode"; ".zed"])) (components p).

(** [include_workspace_file], [include_release_file]. *)
Definition include_workspace_file (p : string) : bool :=
  negb (is_ignored_component p)
  && match file_name p with
     | Some name => negb (ends_with ".db" name) && negb (ends_with ".log" name)
     | None => true
     end.
Definition include_release_file (p : string) : bool :=
  negb (is_ignored_component p)
  && negb (bool_decide (file_name p = Some "release-manifest.json"))
  && negb (bool_decide (file_name p = Some "source-build-manifest.json")).

(** [walk_files], with the directory's path below the root. *)
Fixpoint walk_files (dir : Path) (below : string) (node : Node) (files : list string) (include : string → bool)
    {struct node} : result (list string) string :=
  match node with
  | NDir entries =>
      (fix loop (entries : list (string * Node)) (files : list string) : result (list string) string :=
         match entries with
         | [] => Ok files
         | (name, child) :: rest =>
             let relative := if decide (below = "") then name else below +:+ "/" +:+ name in
             if is_ignored_component relative then loop rest files
             else match child with
                  | NDir _ | NDenied _ =>
                      let? files := walk_files (dir ++ [name])%list relative child files include in
                      loop rest files
                  | NFile _ => loop rest (if include relative then (files ++ [relative])%list else files)
                  | NOther => loop rest files
                  end
         end) entries files
  | NDenied e => Err ("read_dir " +:+ display dir +:+ ": " +:+ e)
  | _ => Err ("read_dir " +:+ display dir +:+ ": Not a directory (os error 20)")
  end.
Definition walk (fs : FileSystem) (root : Path) (include : string → bool) : result (list string) string :=
  match open_at [] (fs_top fs) root with
  | Some node => walk_files root "" node [] include
  | None => Err ("read_dir " +:+ display root +:+ ": No such file or directory (os error 2)")
  end.

(** [discover_release_files]. *)
Definition discover_release_files (fs : FileSystem) (package_root : Path) : result (list string) string :=
  let? files := walk fs package_root include_release_file in
  Ok (sorted_by path_leb files).

(** [stdout.split(|b| *b == 0)]. *)
Fixpoint split_zero (l : list byte) : list (list byte) :=
  match l with
  | [] => [[]]
  | x :: l =>
      if decide (x = x00) then [] :: split_zero l
      else match split_zero l with
           | f :: fs => (x :: f) :: fs
           | [] => [[x]]
           end
  end.

(** [discover_workspace_files]: [git] is what a successful [git ls-files -z]
    printed, [from_utf8] decodes text. *)
Definition discover_workspace_files (from_utf8 : list byte → option string) (git : option (list byte))
    (fs : FileSystem) (workspace_root : Path) : result (list string) string :=
  match git with
  | Some stdout =>
      Ok (sorted_by path_leb (List.filter include_workspace_file
            (omap from_utf8 (List.filter (fun chunk => negb (bool_decide (chunk = []))) (split_zero stdout)))))
  | None =>
      let? files := walk fs workspace_root include_workspace_file in
      Ok (sorted_by path_leb files)
  end.

(** ** Manifests *)

Definition LF : string := String "010" "".
Definition TAB : string := String "009" "".

(** [IntegrityStatus], [as_str]. *)
Inductive IntegrityStatus := Verified | Mismatch | Unsigned | Unavailable.
Definition status_as_str (s : IntegrityStatus) : string :=
  match s with
  | Verified => "verified"
  | Mismatch => "mismatch"
  | Unsigned => "unsigned"
  | Unavailable => "unavailable"
  end.

(** [SourceBuildManifest], [ReleaseManifest], [RuntimeIntegrityInfo]; a
    [SigningConfig] is its [nsec_hex]. *)
Record SourceBuildManifest := mkSource {
  sb_manifest_version : Z;
  sb_manifest_kind : string;
  sb_hash_algorithm : string;
  sb_target : string;
  sb_aggregate_hash : string;
  sb_entries : list IntegrityEntry
}.
Record ReleaseManifest := mkRelease {
  rm_manifest_version : Z;
  rm_manifest_kind : string;
  rm_hash_algorithm : string;
  rm_package_name : string;
  rm_target : string;
  rm_aggregate_hash : string;
  rm_signer_npub : string;
  rm_signature : string;
  rm_entries : list IntegrityEntry
}.
Record RuntimeIntegrityInfo := mkInfo {
  ri_integrity_status : string;
  ri_release_manifest_hash : option string;
  ri_release_signer_npub : option string;
  ri_source_build_hash : option string;
  ri_build_target : option string
}.

Section release.
Context `{Crates}.
(** [Signer::from_secret_hex], [bech32::encode] with the prefix npub, and
    [serde_json::from_slice] on a manifest. *)
Variable from_secret_hex : string → result BlossomSigner string.
Variable npub_encode : list byte → option string.
Variable manifest_from_json : list byte → option ReleaseManifest.

(** [hash_file]. *)
Definition hash_file (fs : FileSystem) (p : Path) : result string string :=
  match fs_read fs p with
  | Ok bytes => Ok (sha256_hex bytes)
  | Err e => Err ("read " +:+ display p +:+ ": " +:+ e)
  end.

(** [aggregate_hash]. *)
Definition aggregate_hash (kind target : string) (entries : list IntegrityEntry) : string :=
  let feed h (s : string) := hasher_update h (as_bytes s) in
  let h := feed (feed (feed (feed hasher_new kind) LF) target) LF in
  hex_encode (hasher_finalize (fold_left (fun h e => feed (feed (feed (feed h (e_path e)) TAB) (e_sha256 e)) LF) entries h)).

(** [replace('\\', "/")]. *)
Definition slashes (p : string) : string := str_map (fun c => if decide (c = "\"%char) then "/"%char else c) p.

(** The entries of the files [paths] below [root], in the order of their paths. *)
Fixpoint hash_files (fs : FileSystem) (root : Path) (paths : list string) : result (list IntegrityEntry) string :=
  match paths with
  | [] => Ok []
  | relative :: paths =>
      let? hash := hash_file fs (join root relative) in
      let? entries := hash_files fs root paths in
      Ok (mkEntry (slashes relative) hash :: entries)
  end.
Definition hashed_entries (fs : FileSystem) (root : Path) (paths : list string) : result (list IntegrityEntry) string :=
  let? entries := hash_files fs root paths in Ok (sorted_by entry_leb entries).

(** [generate_source_build_manifest]. *)
Definition generate_source_build_manifest from_utf8 git (fs : FileSystem) (workspace_root : Path) (target : string)
    : result SourceBuildManifest string :=
  let? files := discover_workspace_files from_utf8 git fs workspace_root in
  let? entries := hashed_entries fs workspace_root files in
  Ok (mkSource 1 "source-build" "sha256" target (aggregate_hash "source-build" target entries) entries).

(** [signing_identity]. *)
Definition signing_identity (nsec_hex : option string) : result BlossomSigner string :=
  match nsec_hex with
  | Some nsec => from_secret_hex nsec
  | None => Err "missing signing nsec"
  end.

(** [generate_release_manifest_for_entries], [generate_release_manifest]. *)
Definition generate_release_manifest_for_entries (fs : FileSystem) (package_root : Path) (paths : list string)
    (target : string) (nsec_hex : option string) : result ReleaseManifest string :=
  let? signer := signing_identity nsec_hex in
  let? entries := hashed_entries fs package_root paths in
  let agg := aggregate_hash "release-package" target entries in
  let? digest := ok_or (decode_hash agg) "invalid aggregate hash" in
  Ok (mkRelease 1 "release-package" "sha256" "blossom-server" target agg (@public_key_hex signer)
        (@sign_schnorr signer digest) entries).
Definition generate_release_manifest (fs : FileSystem) (package_root : Path) (target : string)
    (nsec_hex : option string) : result ReleaseManifest string :=
  let? paths := discover_release_files fs package_root in
  generate_release_manifest_for_entries fs package_root paths target nsec_hex.

(** The loop over the entries in [verify_release_manifest]. *)
Fixpoint verify_entries (fs : FileSystem) (root : Path) (entries : list IntegrityEntry) : IntegrityStatus :=
  match entries with
  | [] => Verified
  | e :: entries =>
      match hash_file fs (join root (e_path e)) with
      | Ok hash => if decide (hash = e_sha256 e) then verify_entries fs root entries else Mismatch
      | Err _ => Mismatch
      end
  end.

(** [verify_release_manifest]. *)
Definition verify_release_manifest (fs : FileSystem) (m : ReleaseManifest) (manifest_path : Path) : IntegrityStatus :=
  if negb (bool_decide (rm_hash_algorithm m = "sha256")) || negb (bool_decide (rm_manifest_kind m = "release-package"))
  then Mismatch
  else if decide (aggregate_hash "release-package" (rm_target m) (rm_entries m) = rm_aggregate_hash m) then
    match decode_hash (rm_aggregate_hash m) with
    | None => Mismatch
    | Some digest =>
        if Signer_verify (rm_signer_npub m) digest (rm_signature m)
        then verify_entries fs (default (fs_cwd fs) (parent manifest_path)) (rm_entries m)
        else Mismatch
    end
  else Mismatch.

(** *** At run time *)

(** What the process sees: [BLOSSOM_RELEASE_MANIFEST_PATH], its executable, and
    the signers compiled in. *)
Record Runtime := mkRuntime {
  rt_env_path : option Path;
  rt_exe : option Path;
  rt_trusted : option string
}.

(** [release_manifest_path]. *)
Definition release_manifest_path (rt : Runtime) (fs : FileSystem) : option Path :=
  let beside_exe :=
    match rt_exe rt with
    | Some exe =>
        match parent exe, list.last exe with
        | Some exe_dir, Some exe_name =>
            let named := join exe_dir (file_stem exe_name +:+ ".manifest.json") in
            let generic := join exe_dir "release-manifest.json" in
            if exists_path fs named then Some named
            else if exists_path fs generic then Some generic
            else None
        | _, _ => None
        end
    | None => None
    end in
  match rt_env_path rt with
  | Some candidate => if exists_path fs candidate then Some candidate else beside_exe
  | None => beside_exe
  end.

(** The signers compiled in. *)
Definition trusted_signers (rt : Runtime) : list string :=
  List.filter (fun s => negb (bool_decide (s = ""))) (map trim (split_char "," (default "" (rt_trusted rt)))).

(** [load_and_verify_release_manifest]. *)
Definition load_and_verify_release_manifest (rt : Runtime) (fs : FileSystem)
    : option (ReleaseManifest * IntegrityStatus) :=
  match release_manifest_path rt fs with
  | Some manifest_path =>
      match fs_read fs manifest_path with
      | Ok bytes =>
          match manifest_from_json bytes with
          | Some manifest =>
              let trusted := existsb (fun signer => bool_decide (signer = rm_signer_npub manifest)) (trusted_signers rt) in
              Some (manifest, if trusted then verify_release_manifest fs manifest manifest_path else Mismatch)
          | None => None
          end
      | Err _ => None
      end
  | None => None
  end.

(** [npub_hex_to_bech32]. *)
Definition npub_hex_to_bech32 (npub_hex : string) : option string :=
  match hex_decode npub_hex with
  | Some bytes => if decide (length bytes = 32%nat) then npub_encode bytes else None
  | None => None
  end.

(** [build_runtime_integrity_info]; [runtime_integrity_info] keeps the first
    answer. *)
Definition build_runtime_integrity_info (rt : Runtime) (fs : FileSystem) (source_build_hash build_target : option string)
    : RuntimeIntegrityInfo :=
  match load_and_verify_release_manifest rt fs with
  | Some (manifest, status) =>
      mkInfo (status_as_str status) (Some (rm_aggregate_hash manifest)) (npub_hex_to_bech32 (rm_signer_npub manifest))
        source_build_hash build_target
  | None => mkInfo (status_as_str Unsigned) None None source_build_hash build_target
  end.
Definition runtime_integrity_info (cache : option RuntimeIntegrityInfo) (rt : Runtime) (fs : FileSystem)
    (source_build_hash build_target : option string) : option RuntimeIntegrityInfo * RuntimeIntegrityInfo :=
  let info := default (build_runtime_integrity_info rt fs source_build_hash build_target) cache in
  (Some info, info).

(** [SourceMerkleTree::build], [SourceMerkleTree::sign]. *)
Definition build_tree from_utf8 git (fs : FileSystem) (workspace_root : Path) : result SourceMerkleTree string :=
  let? files := discover_workspace_files from_utf8 git fs workspace_root in
  let? leaves := hashed_entries fs workspace_root files in
  Ok (mkTree 1 "sha256" (compute_merkle_root leaves) (length leaves) leaves None None).
Definition sign_tree (t : SourceMerkleTree) (nsec_hex : option string) : result SourceMerkleTree string :=
  let? signer := signing_identity nsec_hex in
  let? digest := ok_or (decode_hash (t_root t)) "invalid merkle root hash" in
  let npub := @public_key_hex signer in
  Ok (mkTree (t_version t) (t_hash_algorithm t) (t_root t) (t_file_count t) (t_leaves t)
        (Some (default npub (npub_hex_to_bech32 npub))) (Some (@sign_schnorr signer digest))).

(** ** What a manifest says of the files *)

Context `{!CratesLaws}.

Lemma hash_files_in fs root paths entries :
  hash_files fs root paths = Ok entries →
  entries = map (fun p => mkEntry (slashes p) (default "" (res_ok (hash_file fs (join root p))))) paths
  ∧ Forall (fun p => is_ok (hash_file fs (join root p)) = true) paths.
Proof.
  revert entries. induction paths as [|p paths IH]; cbn; intros entries; [by intros [= <-] |].
  destruct (hash_file fs _) as [h|] eqn:Eh; [| done]. destruct (hash_files fs root paths) as [es|]; [| done].
  intros [= <-]. destruct (IH es eq_refl) as [-> Hall]. split; [done |]. constructor; [by rewrite Eh | done].
Qed.

Lemma verify_entries_iff fs root entries :
  verify_entries fs root entries = Verified
  ↔ Forall (fun e => hash_file fs (join root (e_path e)) = Ok (e_sha256 e)) entries.
Proof.
  induction entries as [|e entries IH]; cbn; [by split |]. rewrite list.Forall_cons, <- IH.
  destruct (hash_file _ _) as [h|]; [case_decide |]; intuition congruence.
Qed.

(** The byte string of a manifest, which [aggregate_hash] hashes. *)
Definition entry_bytes (e : IntegrityEntry) : list byte :=
  (as_bytes (e_path e) ++ x09 :: as_bytes (e_sha256 e) ++ [x0a])%list.
Definition manifest_bytes (kind target : string) (entries : list IntegrityEntry) : list byte :=
  (as_bytes kind ++ x0a :: as_bytes target ++ x0a :: concat (map entry_bytes entries))%list.

Lemma aggregate_bytes kind target entries :
  aggregate_hash kind target entries = sha256_hex (manifest_bytes kind target entries).
Proof.
  unfold aggregate_hash, sha256_hex, manifest_bytes. do 2 f_equal. rewrite !hasher_update_app.
  change (as_bytes LF) with [x0a]. change (as_bytes TAB) with [x09].
  set (h := hasher_update _ _). assert (E : ∀ l h, fold_left (fun h e => hasher_update (hasher_update (hasher_update
    (hasher_update h (as_bytes (e_path e))) [x09]) (as_bytes (e_sha256 e))) [x0a]) l h
    = hasher_update h (concat (map entry_bytes l))).
  { induction l as [|e l IH]; intros h0; cbn; [by rewrite hasher_update_nil |].
    rewrite IH, !hasher_update_app. f_equal. unfold entry_bytes. by rewrite <- ?app_assoc; cbn; rewrite <- ?app_assoc. }
  rewrite E. subst h. rewrite hasher_update_app. f_equal. by rewrite <- ?app_assoc; cbn; rewrite <- ?app_assoc.
Qed.

Lemma decode_aggregate kind target entries : is_Some (decode_hash (aggregate_hash kind target entries)).
Proof. unfold aggregate_hash. rewrite decode_encode; [by eexists | apply hasher_finalize_length]. Qed.

(** A text up to its first separator. *)
Lemma separator_inj {A} (c : A) u v u' v' :
  c ∉ u → c ∉ u' → (u ++ c :: v)%list = (u' ++ c :: v')%list → u = u' ∧ v = v'.
Proof.
  revert u'. induction u as [|x u IH]; intros [|x' u'] Hu Hu' E; cbn in E; [by injection E | | |].
  - injection E as <- _. by destruct Hu'; left.
  - injection E as -> _. by destruct Hu; left.
  - injection E as <- E. rewrite not_elem_of_cons in Hu, Hu'. destruct (IH u') as [-> ->]; tauto.
Qed.

Lemma as_bytes_inj s t : as_bytes s = as_bytes t → s = t.
Proof. intros E. by rewrite <- (from_as_bytes s), <- (from_as_bytes t), E. Qed.

(** No field holds the separator that ends it. *)
Definition separable (target : string) (entries : list IntegrityEntry) : Prop :=
  x0a ∉ as_bytes target ∧ Forall (fun e => x09 ∉ as_bytes (e_path e)) entries.
Definition hex_hashes (entries : list IntegrityEntry) : Prop := Forall (fun e => x0a ∉ as_bytes (e_sha256 e)) entries.

Lemma entries_bytes_inj es es' :
  Forall (fun e => x09 ∉ as_bytes (e_path e)) es → Forall (fun e => x09 ∉ as_bytes (e_path e)) es' →
  hex_hashes es → hex_hashes es' → concat (map entry_bytes es) = concat (map entry_bytes es') → es = es'.
Proof.
  intros Hp. revert es'. induction Hp as [|e es Hp _ IH]; intros [|e' es'] Hp' Hh Hh' E; [done | | |].
  - exfalso. cbn in E. unfold entry_bytes in E. by destruct (as_bytes (e_path e')).
  - exfalso. cbn in E. unfold entry_bytes in E. by destruct (as_bytes (e_path e)).
  - unfold hex_hashes in *. rewrite !list.Forall_cons in *. cbn in E. unfold entry_bytes in E at 1 3.
    rewrite <- !app_assoc in E. cbn in E. rewrite <- !app_assoc in E.
    apply separator_inj in E as [E1%as_bytes_inj E]; [| tauto..].
    apply separator_inj in E as [E2%as_bytes_inj E]; [| tauto..].
    f_equal; [destruct e, e'; cbn in *; congruence | apply IH; tauto].
Qed.

Lemma manifest_bytes_inj kind t es t' es' :
  separable t es → separable t' es' → hex_hashes es → hex_hashes es' →
  manifest_bytes kind t es = manifest_bytes kind t' es' → t = t' ∧ es = es'.
Proof.
  intros [Ht Hp] [Ht' Hp'] Hh Hh' E. unfold manifest_bytes in E. apply app_inv_head in E. injection E as E.
  apply separator_inj in E as [E1%as_bytes_inj E]; [| done..]. split; [done |]. by apply entries_bytes_inj.
Qed.

(** A hash in hex holds no line feed. *)
Lemma sha256_no_lf data : x0a ∉ as_bytes (sha256_hex data).
Proof.
  pose proof (hex_encode_lower (hasher_finalize (hasher_update hasher_new data))) as Hl. unfold sha256_hex.
  revert Hl. generalize (hex_encode (hasher_finalize (hasher_update hasher_new data))). intros s.
  unfold str_all, chars. induction s as [|c s IH]; cbn; [by intros _ ?%elem_of_nil |].
  intros [Hc Hs]%andb_true_iff. rewrite not_elem_of_cons. split; [| by apply IH].
  intros Ec. assert (c = "010"%char) as ->; [| done].
  rewrite <- (ascii_of_byte_of_ascii c), <- Ec. done.
Qed.

Lemma hash_file_ok fs p h : hash_file fs p = Ok h → ∃ data, fs_read fs p = Ok data ∧ h = sha256_hex data.
Proof. unfold hash_file. destruct (fs_read fs p) as [data|]; [| done]. intros [= <-]. by exists data. Qed.

(** *** Generated manifests *)

Hypothesis from_secret_lawful : ∀ s signer, from_secret_hex s = Ok signer → @SignerLaws _ signer.

Lemma generated fs root paths target nsec m :
  generate_release_manifest_for_entries fs root paths target nsec = Ok m →
  rm_hash_algorithm m = "sha256" ∧ rm_manifest_kind m = "release-package" ∧ rm_target m = target
  ∧ rm_aggregate_hash m = aggregate_hash "release-package" target (rm_entries m)
  ∧ (∃ digest, decode_hash (rm_aggregate_hash m) = Some digest
       ∧ Signer_verify (rm_signer_npub m) digest (rm_signature m) = true)
  ∧ rm_entries m ≡ₚ map (fun p => mkEntry (slashes p) (default "" (res_ok (hash_file fs (join root p))))) paths
  ∧ Forall (fun p => is_ok (hash_file fs (join root p)) = true) paths.
Proof.
  unfold generate_release_manifest_for_entries, hashed_entries.
  destruct (signing_identity nsec) as [signer|] eqn:Es; [| done].
  destruct (hash_files fs root paths) as [es|] eqn:Eh; [| done]. cbn.
  destruct (decode_hash _) as [digest|] eqn:Ed; [| done]. cbn. intros [= <-]. cbn.
  apply hash_files_in in Eh as [-> Hall]. repeat split; try done.
  - exists digest. split; [done |]. unfold signing_identity in Es. destruct nsec as [s|]; [| done].
    apply (@sign_verifies _ signer); [by eapply from_secret_lawful | by eapply decode_length].
  - apply sorted_by_perm.
Qed.

(** The bytes of the files that can be read. *)
Definition contents_of (fs : FileSystem) (paths : list Path) : list (list byte) :=
  omap (fun p => res_ok (fs_read fs p)) paths.
Lemma contents_in fs paths p data : p ∈ paths → fs_read fs p = Ok data → data ∈ contents_of fs paths.
Proof. intros Hp Hr. apply list_elem_of_omap. exists p. by rewrite Hr. Qed.

Lemma hash_file_same I fs fs' p p' h data :
  sha256_injective_on I → hash_file fs p = Ok h → fs_read fs' p' = Ok data → sha256_hex data = h →
  (∀ data, fs_read fs p = Ok data → data ∈ I) → data ∈ I → fs_read fs p = fs_read fs' p'.
Proof.
  intros Hi (d & Hd & ->)%hash_file_ok Hr E Hin Hin'. rewrite Hd, Hr. f_equal. eapply injective_use; eauto.
Qed.

(** C36: a release manifest is verified exactly on what it was made for.  The
    manifest generated and signed for some files of a directory is verified, next
    to it and at any later time, if and only if each of these files can be read and
    is as it was, as long as SHA-256 has no collision among their contents.  Names
    are text (a name that is not UTF-8 is replaced in the manifest), and a file
    whose name holds a backslash is looked for under its name in the manifest,
    which has a slash there. *)
Theorem release_tamper_evident fs fs' root name paths target nsec m :
  generate_release_manifest_for_entries fs root paths target nsec = Ok m →
  sha256_injective_on (contents_of fs (map (join root) paths) ++ contents_of fs' (map (fun p => join root (slashes p)) paths))%list →
  verify_release_manifest fs' m (root ++ [name])%list = Verified
  ↔ ∀ p, p ∈ paths → fs_read fs' (join root (slashes p)) = fs_read fs (join root p).
Proof.
  intros Hg Hinj. apply generated in Hg as (Ha & Hk & Ht & Hagg & (digest & Hd & Hv) & Hperm & Hok).
  rewrite list.Forall_forall in Hok. unfold verify_release_manifest.
  rewrite Ha, Hk, Ht, <- Hagg, decide_True, Hd, Hv by done. cbn.
  assert (Hpar : parent (root ++ [name])%list = Some root).
  { unfold parent. rewrite removelast_last. by destruct root. }
  rewrite Hpar, !bool_decide_true by done. cbn. rewrite verify_entries_iff, Hperm, list.Forall_forall. split.
  - intros Hall p Hp. specialize (Hall (mkEntry (slashes p) (default "" (res_ok (hash_file fs (join root p)))))).
    cbn in Hall. specialize (Hok p Hp).
    destruct (hash_file fs (join root p)) as [h|] eqn:Eh; [| done]. pose proof Eh as (data & Hr & ->)%hash_file_ok.
    eapply hash_file_same; [exact Hinj | apply Hall | exact Hr | done | |].
    + apply list_elem_of_fmap. exists p. by rewrite Eh.
    + intros d Hdt. apply elem_of_app. right. eapply contents_in; [| exact Hdt].
      apply list_elem_of_fmap. by exists p.
    + apply elem_of_app. left. eapply contents_in; [| exact Hr]. apply list_elem_of_fmap. by exists p.
  - intros Hall e (p & -> & Hp)%list_elem_of_fmap. cbn. unfold hash_file. rewrite (Hall p Hp).
    specialize (Hok p Hp). unfold hash_file in Hok. by destruct (fs_read fs _).
Qed.

(** *** What is called verified *)

Lemma verified_inv fs m path :
  verify_release_manifest fs m path = Verified →
  rm_aggregate_hash m = aggregate_hash "release-package" (rm_target m) (rm_entries m)
  ∧ (∃ digest, decode_hash (rm_aggregate_hash m) = Some digest
       ∧ Signer_verify (rm_signer_npub m) digest (rm_signature m) = true)
  ∧ Forall (fun e => hash_file fs (join (default (fs_cwd fs) (parent path)) (e_path e)) = Ok (e_sha256 e)) (rm_entries m).
Proof.
  unfold verify_release_manifest. destruct (_ || _); [done |]. destruct (decide _) as [E|]; [| done].
  destruct (decode_hash _) as [digest|] eqn:Ed; [| done]. destruct (Signer_verify _ _ _) eqn:Ev; [| done].
  rewrite verify_entries_iff. intros Hall. split; [done |]. split; [by exists digest | done].
Qed.

Lemma hashed_hex fs (where_ : IntegrityEntry → Path) entries :
  Forall (fun e => hash_file fs (where_ e) = Ok (e_sha256 e)) entries → hex_hashes entries.
Proof.
  intros Hall. eapply list.Forall_impl; [exact Hall |]. intros e (data & _ & ->)%hash_file_ok. apply sha256_no_lf.
Qed.

(** A server that calls itself verified runs a published release.  Its
    manifest names a signer compiled into the binary and carries that signer's
    signature of its aggregate hash; and if that is the hash of a manifest [m0]
    generated for some files elsewhere, the target and the entries are those of
    [m0] and the files next to the manifest hold the same bytes, as long as SHA-256
    has no collision among the two manifests and these files, and the target and
    the paths of both hold no separator. *)
Theorem verified_release_published rt fs source_hash build_target :
  ri_integrity_status (build_runtime_integrity_info rt fs source_hash build_target) = "verified" →
  ∃ m path, release_manifest_path rt fs = Some path
    ∧ (∃ bytes, fs_read fs path = Ok bytes ∧ manifest_from_json bytes = Some m)
    ∧ rm_signer_npub m ∈ trusted_signers rt
    ∧ (∃ digest, decode_hash (rm_aggregate_hash m) = Some digest
         ∧ Signer_verify (rm_signer_npub m) digest (rm_signature m) = true)
    ∧ ∀ fs0 root0 paths target nsec m0,
        generate_release_manifest_for_entries fs0 root0 paths target nsec = Ok m0 →
        rm_aggregate_hash m = rm_aggregate_hash m0 →
        separable (rm_target m) (rm_entries m) → separable target (rm_entries m0) →
        let dir := default (fs_cwd fs) (parent path) in
        sha256_injective_on ([manifest_bytes "release-package" (rm_target m) (rm_entries m);
                              manifest_bytes "release-package" target (rm_entries m0)]
          ++ contents_of fs0 (map (join root0) paths) ++ contents_of fs (map (fun p => join dir (slashes p)) paths))%list →
        rm_target m = target ∧ rm_entries m = rm_entries m0
        ∧ ∀ p, p ∈ paths → fs_read fs (join dir (slashes p)) = fs_read fs0 (join root0 p).
Proof.
  unfold build_runtime_integrity_info, load_and_verify_release_manifest.
  destruct (release_manifest_path rt fs) as [path|]; [| done].
  destruct (fs_read fs path) as [bytes|] eqn:Er; [| done]. destruct (manifest_from_json bytes) as [m|] eqn:Em; [| done].
  destruct (existsb _ _) eqn:Et; [| done]. destruct (verify_release_manifest fs m path) eqn:Ev; try done. intros _.
  apply verified_inv in Ev as (Hagg & Hsig & Hfiles). exists m, path. split; [done |]. split; [by exists bytes |]. split.
  { apply existsb_exists in Et as (s & Hs & E%bool_decide_eq_true_1). rewrite <- E. by apply list_elem_of_In. }
  split; [done |]. intros fs0 root0 paths target nsec m0 Hg E Hsep Hsep0 Hinj. set (dir := default _ _) in *.
  apply generated in Hg as (_ & _ & _ & Hagg0 & _ & Hperm & Hok).
  rewrite list.Forall_forall in Hok.
  assert (Hfiles0 : ∀ p, p ∈ paths → ∃ data, fs_read fs0 (join root0 p) = Ok data
            ∧ mkEntry (slashes p) (sha256_hex data) ∈ rm_entries m0).
  { intros p Hp. specialize (Hok p Hp). destruct (hash_file fs0 (join root0 p)) as [h|] eqn:Eh; [| done].
    pose proof Eh as (data & Hr & ->)%hash_file_ok. exists data. split; [done |]. rewrite Hperm.
    apply list_elem_of_fmap. exists p. by rewrite Eh. }
  assert (Hhex0 : hex_hashes (rm_entries m0)).
  { unfold hex_hashes. rewrite Hperm. apply Forall_map. apply list.Forall_forall. intros p Hp. cbn.
    specialize (Hok p Hp). destruct (hash_file fs0 _) as [h|] eqn:Eh; [| done].
    apply hash_file_ok in Eh as (data & _ & ->). apply sha256_no_lf. }
  assert (Heq : rm_target m = target ∧ rm_entries m = rm_entries m0).
  { apply (manifest_bytes_inj "release-package"); [done.. | by apply (hashed_hex fs (fun e => join dir (e_path e))) | done |].
    rewrite Hagg, Hagg0, !aggregate_bytes in E. eapply injective_use; [exact Hinj | by left | by right; left | done]. }
  destruct Heq as [-> Hent]. split; [done |]. split; [done |]. intros p Hp.
  destruct (Hfiles0 p Hp) as (data & Hr & Hin). rewrite <- Hent in Hin. rewrite list.Forall_forall in Hfiles.
  specialize (Hfiles _ Hin). cbn in Hfiles. eapply hash_file_same; [exact Hinj | exact Hfiles | exact Hr | done | |].
  - intros d Hd. rewrite !elem_of_app. do 2 right. eapply contents_in; [| exact Hd].
    apply list_elem_of_fmap. by exists p.
  - rewrite !elem_of_app. right. left. eapply contents_in; [| exact Hr]. apply list_elem_of_fmap. by exists p.
Qed.
End release.

Module ReleaseExamples.
Import Concrete RequestAuthExamples.

Definition from_secret (s : string) : result BlossomSigner string := Ok signer.
Lemma from_secret_ok s sg : from_secret s = Ok sg → @SignerLaws _ sg.
Proof. intros [= <-]. apply signer_laws. Qed.

(** A directory [/srv] with two programs, what the process knows, and the manifest
    signed for it. *)
Definition disk (tool : string) (manifest : string) : FileSystem :=
  mkFs (NDir [("srv", NDir [("server", NFile (Ok (as_bytes "server code"))); ("tool", NFile (Ok (as_bytes tool)));
                            ("target", NDir [("junk", NFile (Ok []))]);
                            ("release-manifest.json", NFile (Ok (as_bytes manifest)))])]) ["srv"].
Definition root : Path := ["srv"].
Definition rt : Runtime := mkRuntime None (Some ["srv"; "server"]) (Some (", " +:+ public_key_hex +:+ " ")).
Definition paths : list string := ["server"; "tool"].
Definition published : result ReleaseManifest string :=
  generate_release_manifest from_secret (disk "tool code" "") root "linux" (Some "k").
Definition m0 : ReleaseManifest :=
  match published with Ok m => m | Err _ => mkRelease 0 "" "" "" "" "" "" "" [] end.
(** The entry of [server] moved into the target. *)
Definition forged : ReleaseManifest :=
  let server := nth 0 (rm_entries m0) (mkEntry "" "") in
  mkRelease 1 "release-package" "sha256" "blossom-server"
    (rm_target m0 +:+ LF +:+ e_path server +:+ TAB +:+ e_sha256 server) (rm_aggregate_hash m0)
    (rm_signer_npub m0) (rm_signature m0) (tl (rm_entries m0)).
Definition from_json (b : list byte) : option ReleaseManifest :=
  if decide (b = as_bytes "M") then Some m0 else if decide (b = as_bytes "F") then Some forged else None.

Lemma discovered : discover_release_files (disk "tool code" "") root = Ok paths.
Proof. vm_compute. reflexivity. Qed.
Lemma m0_generated :
  generate_release_manifest_for_entries from_secret (disk "tool code" "") root paths "linux" (Some "k") = Ok m0.
Proof. vm_compute. reflexivity. Qed.

Definition same_inputs (fs : FileSystem) : Prop :=
  sha256_injective_on (contents_of (disk "tool code" "") (map (join root) paths)
    ++ contents_of fs (map (fun p => join root (slashes p)) paths))%list.
Lemma untouched_inputs : same_inputs (disk "tool code" "M").
Proof. apply (bool_decide_eq_true_1 (sha256_injective_on _)). vm_compute. reflexivity. Qed.
Lemma tampered_inputs : same_inputs (disk "tampered" "M").
Proof. apply (bool_decide_eq_true_1 (sha256_injective_on _)). vm_compute. reflexivity. Qed.
Lemma tool_changed : fs_read (disk "tampered" "M") (join root "tool") ≠ fs_read (disk "tool code" "") (join root "tool").
Proof. vm_compute. discriminate. Qed.
Lemma release_tamper_evident_witness :
  verify_release_manifest (disk "tool code" "M") m0 (root ++ ["release-manifest.json"])%list = Verified
  ∧ verify_release_manifest (disk "tampered" "M") m0 (root ++ ["release-manifest.json"])%list ≠ Verified.
Proof.
  split.
  - apply (release_tamper_evident from_secret from_secret_ok _ _ _ "release-manifest.json" _ _ _ _ m0_generated
             untouched_inputs).
    intros p. unfold paths. rewrite !elem_of_cons, elem_of_nil. intros [-> | [-> | []]]; vm_compute; reflexivity.
  - intros E. apply tool_changed. change "tool" with (slashes "tool") at 1.
    apply (proj1 (release_tamper_evident from_secret from_secret_ok _ _ _ "release-manifest.json" _ _ _ _ m0_generated
             tampered_inputs) E).
    unfold paths. right. left.
Defined.

(** A file with a backslash in its name is listed under another name: the
    manifest of an unchanged directory is not verified. *)
Definition odd_name : string := "my\file".
Definition odd_disk : FileSystem := mkFs (NDir [("srv", NDir [(odd_name, NFile (Ok (as_bytes "code")))])]) ["srv"].
Example backslash_never_verified :
  match generate_release_manifest_for_entries from_secret odd_disk root [odd_name] "linux" (Some "k") with
  | Ok m => map e_path (rm_entries m) = ["my/file"]
      ∧ verify_release_manifest odd_disk m (root ++ ["release-manifest.json"])%list ≠ Verified
  | Err _ => False
  end.
Proof. vm_compute. split; [reflexivity | discriminate]. Qed.

(** The target is not checked for separators: a manifest whose target holds the
    first entry has the signed hash, is called verified, and leaves that file
    unchecked. *)
Definition tampered : FileSystem :=
  mkFs (NDir [("srv", NDir [("server", NFile (Ok (as_bytes "malware"))); ("tool", NFile (Ok (as_bytes "tool code")));
                            ("release-manifest.json", NFile (Ok (as_bytes "F")))])]) ["srv"].
Example target_swallows_entries :
  ri_integrity_status (build_runtime_integrity_info (fun _ => None) from_json rt tampered None None) = "verified".
Proof. vm_compute. reflexivity. Qed.

(** Files that are not listed are not looked at. *)
Example added_file_unnoticed :
  let fs := mkFs (NDir [("srv", NDir [("server", NFile (Ok (as_bytes "server code"))); ("tool", NFile (Ok (as_bytes "tool code")));
                                      ("extra", NFile (Ok (as_bytes "malware")))])]) ["srv"] in
  verify_release_manifest fs m0 ["srv"; "release-manifest.json"] = Verified.
Proof. vm_compute. reflexivity. Qed.
End ReleaseExamples.
