(* ===== verification/Mirror.v ===== *)
(** * Mirroring ([is_blocked_mirror_ip], [fetch_mirror_blob] and [handle_mirror]
    of [src/src/server/mod.rs])

    A mirror request makes the server fetch a URL, so what it may connect to is
    restricted.  Name resolution and the remote servers are an adversary: each
    attempt meets whatever [Network] gives.  [fetch_mirror_blob] also returns the
    connections it made.  Parsing of URLs is the url crate's ([Urls]). *)

From Stdlib Require Import ZArith Lia Ascii String.
From Stdlib Require Import Strings.Byte.
From stdpp Require Import base list gmap strings numbers sets.
From S2P Require Import Prelude Effects Protocol Auth Replay RequestAuth RateLimit Database Access Storage Locks Lfs Stats Server.

Open Scope string_scope.
Open Scope Z_scope.
Open Scope handler_scope.

(** ** Addresses *)

(** [IpAddr]: the octets, or the eight segments of 16 bits. *)
Inductive IpAddr :=
| V4 (a b c d : Z)
| V6 (s0 s1 s2 s3 s4 s5 s6 s7 : Z).

(** [Ipv6Addr::to_ipv4]: IPv4-mapped and IPv4-compatible addresses. *)
Definition to_ipv4 (s0 s1 s2 s3 s4 s5 s6 s7 : Z) : option (Z * Z * Z * Z) :=
  if (s0 =? 0) && (s1 =? 0) && (s2 =? 0) && (s3 =? 0) && (s4 =? 0) && ((s5 =? 0) || (s5 =? 65535))
  then Some (s6 / 256, s6 mod 256, s7 / 256, s7 mod 256) else None.

(** [is_blocked_mirror_ip], on the octets of an IPv4 address. *)
Definition is_blocked_v4 (a b c : Z) : bool :=
  (a =? 0)
  || (a =? 10)
  || (a =? 127)
  || (224 <=? a)
  || ((a =? 100) && between 64 b 127)
  || ((a =? 169) && (b =? 254))
  || ((a =? 172) && between 16 b 31)
  || ((a =? 192) && (b =? 168))
  || ((a =? 192) && (b =? 0))
  || ((a =? 192) && (b =? 88) && (c =? 99))
  || ((a =? 198) && between 18 b 19)
  || ((a =? 198) && (b =? 51) && (c =? 100))
  || ((a =? 203) && (b =? 0) && (c =? 113)).

(** [is_blocked_mirror_ip]. *)
Definition is_blocked_mirror_ip (ip : IpAddr) : bool :=
  match ip with
  | V4 a b c _ => is_blocked_v4 a b c
  | V6 s0 s1 s2 s3 s4 s5 s6 s7 =>
      match to_ipv4 s0 s1 s2 s3 s4 s5 s6 s7 with
      | Some (a, b, c, _) => is_blocked_v4 a b c
      | None =>
          bool_decide ([s0; s1; s2; s3; s4; s5; s6; s7] = [0; 0; 0; 0; 0; 0; 0; 1])
          || bool_decide ([s0; s1; s2; s3; s4; s5; s6; s7] = [0; 0; 0; 0; 0; 0; 0; 0])
          || (Z.land s0 65280 =? 65280)
          || (Z.land s0 65024 =? 64512)
          || (Z.land s0 65472 =? 65152)
          || (Z.land s0 65472 =? 65216)
          || ((s0 =? 8193) && (s1 =? 3512))
      end
  end.

(** ** Fetching *)

(** The url crate, and serde_json on a [MirrorRequest]. *)
Class Urls : Type := {
  Url : Type;
  url_parse : string → result Url string;
  url_scheme : Url → string;
  url_username : Url → string;
  url_password : Url → option string;
  url_host_str : Url → option string;
  url_port : Url → option Z;
  url_join : Url → string → result Url string;
  mirror_request : list byte → result string string
}.

(** An answer of a remote server: the status, its text, the Location header when it is
    text, the announced length, and the body in chunks, which may break off. *)
Record Answer := mkAnswer {
  an_status : Z;
  an_status_text : string;
  an_location : option string;
  an_length : option Z;
  an_chunks : list (result (list byte) string)
}.

(** What attempt [i] meets: the addresses of the host and the port, the errors
    of the client, and the answer of the address connected to. *)
Record Network `{Urls} := mkNetwork {
  lookup_host : nat → string → Z → result (list IpAddr) string;
  client_error : nat → option string;
  http_get : nat → Url → IpAddr → result Answer string
}.
Arguments mkNetwork {_} _ _ _.
Arguments lookup_host {_} _ _ _ _.
Arguments client_error {_} _ _.
Arguments http_get {_} _ _ _ _.

Section fetch.
Context `{Urls}.

(** The loop over the chunks of the body. *)
Fixpoint read_chunks (max_bytes : Z) (data : list byte) (chunks : list (result (list byte) string))
    : result (list byte) string :=
  match chunks with
  | [] => Ok data
  | Err e :: _ => Err ("failed to read remote body: " +:+ e)
  | Ok chunk :: chunks =>
      if decide (sat_add (vec_len data) (vec_len chunk) > max_bytes)
      then Err ("remote body exceeds maximum of " +:+ u64_to_string max_bytes +:+ " bytes")
      else read_chunks max_bytes (data ++ chunk)%list chunks
  end.

(** What an answer that is not a redirection gives. *)
Definition read_answer (max_bytes : Z) (an : Answer) : result (list byte) string :=
  if negb (between 200 (an_status an) 299) then Err ("remote returned status " +:+ an_status_text an)
  else if match an_length an with Some n => bool_decide (n > max_bytes) | None => false end
  then Err ("remote body exceeds maximum of " +:+ u64_to_string max_bytes +:+ " bytes")
  else read_chunks max_bytes [] (an_chunks an).

(** The checks before a connection: the host, and its first address. *)
Definition destination (net : Network) (i : nat) (url : Url) : result IpAddr string :=
  if negb (bool_decide (url_scheme url ∈ ["http"; "https"])) then Err "mirror URL must use http or https"
  else if negb (bool_decide (url_username url = "")) || bool_decide (is_Some (url_password url))
  then Err "mirror URL must not contain credentials"
  else
    let? host := ok_or (url_host_str url) "mirror URL must have a host" in
    let? port := ok_or (url_port url) "mirror URL has no usable port" in
    match lookup_host net i host port with
    | Err e => Err ("mirror DNS lookup failed: " +:+ e)
    | Ok [] => Err "mirror destination resolves to a blocked network"
    | Ok (a :: addresses) =>
        if existsb is_blocked_mirror_ip (a :: addresses) then Err "mirror destination resolves to a blocked network"
        else match client_error net i with
             | Some e => Err ("mirror client: " +:+ e)
             | None => Ok a
             end
    end.

(** The loop of [fetch_mirror_blob], with the attempts left. *)
Fixpoint fetch_loop (net : Network) (max_bytes : Z) (fuel i : nat) (url : Url)
    : list (Url * IpAddr) * result (list byte) string :=
  match fuel with
  | O => ([], Err "too many mirror redirects")
  | S fuel =>
      match destination net i url with
      | Err e => ([], Err e)
      | Ok address =>
          let '(rest, r) :=
            match http_get net i url address with
            | Err e => ([], Err ("failed to fetch remote: " +:+ e))
            | Ok an =>
                if between 300 (an_status an) 399 then
                  match an_location an with
                  | None => ([], Err "mirror redirect missing Location")
                  | Some location =>
                      match url_join url location with
                      | Err e => ([], Err ("invalid redirect: " +:+ e))
                      | Ok next => fetch_loop net max_bytes fuel (Datatypes.S i) next
                      end
                  end
                else ([], read_answer max_bytes an)
            end in
          ((url, address) :: rest, r)
      end
  end.

(** [fetch_mirror_blob]: the connections made, and the bytes. *)
Definition fetch_mirror_blob (net : Network) (source : string) (max_bytes : Z)
    : list (Url * IpAddr) * result (list byte) string :=
  match url_parse source with
  | Err e => ([], Err ("invalid mirror URL: " +:+ e))
  | Ok url => fetch_loop net max_bytes 4 0 url
  end.

(** [log_target]. *)
Definition log_target (source : string) : string :=
  match url_parse source with
  | Ok url => match url_host_str url with
              | Some host => url_scheme url +:+ "://" +:+ host
              | None => "invalid-url"
              end
  | Err _ => "invalid-url"
  end.
End fetch.

(** ** The handler *)

Section mirror.
Context `{Crates} `{Codec} `{Urls} {B D V : Type} `{BlobBackend B} `{BlobDatabase D} `{LfsVersionDatabase V}.

Notation S := (ServerState B D V).
Notation M := (MR S Response).

(** The first part, under the lock. *)
Definition mirror_authorize (q : ReqEnv) (event : NostrEvent) : M Z :=
  check_claims (q_auth q) event "upload" "/mirror" "PUT" None ;!
  let! access := gets s_access in
  guard (@is_allowed access (ev_pubkey event) Mirror) (403, error_json "mirror not allowed for this pubkey") ;!
  rate_limit q (ev_pubkey event) ;!
  let! limit := gets s_body_limit in
  ret (Z.min limit (64 * 1024)).

(** What the event must be bound to: a NIP-98 event to the body, a kind:24242
    event to the URL. *)
Definition mirror_hash (event : NostrEvent) (body : list byte) (source : string) : string :=
  if decide (ev_kind event = 27235) then sha256_hex body else sha256_hex (as_bytes source).

(** The second, with the request in: its URL. *)
Definition mirror_bind (q : ReqEnv) (event : NostrEvent) (body : list byte) : M string :=
  match mirror_request body with
  | Err e => early (400, error_json ("invalid mirror request: " +:+ e))
  | Ok source =>
      check_claims (q_bind q) event "upload" "/mirror" "PUT" (Some (mirror_hash event body source)) ;!
      mark_once (q_mark q) event ;!
      ret source
  end.

(** The units of the body budget a fetch reserves. *)
Definition mirror_permits (max_mirror_size : Z) : option Z :=
  if decide (max_mirror_size <= MAX_BUFFERED_BODY_BYTES)
  then Some ((Z.max max_mirror_size 1 + BODY_BUFFER_UNIT_BYTES - 1) / BODY_BUFFER_UNIT_BYTES)
  else None.

(** The last part, with the blob fetched. *)
Definition mirror_store (q : ReqEnv) (source pubkey : string) (data : list byte) : M Response :=
  guard (negb (bool_decide (data = []))) (400, error_json "remote returned empty body") ;!
  let! req := gets s_requirements in
  guard (mime_allowed req (detect_mime data)) (415, error_json "mirrored content type is not allowed") ;!
  guard (match max_size req with Some max => bool_decide (vec_len data <= max) | None => true end)
    (413, error_json ("mirrored blob exceeds max size of " +:+ u64_to_string (default 0 (max_size req)) +:+ " bytes")) ;!
  refuse_over_quota (sha256_hex data) pubkey (vec_len data) (fun used requested limit =>
    "quota exceeded: used " +:+ u64_to_string used +:+ " + requested " +:+ u64_to_string requested
      +:+ " > limit " +:+ u64_to_string limit) ;!
  let! descriptor := insert_recorded q data (fun d =>
    mkUpload (d_sha256 d) (d_size d) (default "application/octet-stream" (d_content_type d)) pubkey
      (default 0 (d_uploaded d)) None) in
  modify (notify (mkPayload EvMirror (d_sha256 descriptor) (d_size descriptor) pubkey (q_now q)
                    (Some (JObj [("source_origin", JStr (log_target source))])))) ;!
  ret (200, descriptor_json descriptor).

(** [handle_mirror]. *)
Definition mirror (q : ReqEnv) (net : Network) (headers : HeaderMap) (body : Body) : M Response :=
  match extract_auth_event headers with
  | Err e => auth_error e
  | Ok event =>
      let! limit := mirror_authorize q event in
      let! source := with_body limit headers body (mirror_bind q event) in
      let! req := gets s_requirements in
      let max_mirror_size := default (256 * 1024 * 1024) (max_size req) in
      match mirror_permits max_mirror_size with
      | None => early (413, error_json "configured mirror size exceeds the safe buffered ceiling")
      | Some units =>
          acquire units (503, error_json "mirror fetch capacity exhausted") ;!
          releasing units
            match (fetch_mirror_blob net source max_mirror_size).2 with
            | Err error => early (502, error_json error)
            | Ok data => mirror_store q source (ev_pubkey event) data
            end
      end
  end.
Definition handle_mirror (q : ReqEnv) (net : Network) (headers : HeaderMap) (body : Body) : S → S * Response :=
  respond (mirror q net headers body).
End mirror.

(** ** What is blocked

    The networks of the test, as prefixes. *)

Section networks.
(** [x] of [w] bits is in the network [n] with a prefix of [l] bits. *)
Definition in_net (w x : Z) (net : Z * Z) : bool := Z.shiftr x (w - net.2) =? Z.shiftr net.1 (w - net.2).

Definition bits_v4 (a b c d : Z) : Z := ((a * 256 + b) * 256 + c) * 256 + d.
Definition bits_v6 (s0 s1 s2 s3 s4 s5 s6 s7 : Z) : Z :=
  ((((((s0 * 65536 + s1) * 65536 + s2) * 65536 + s3) * 65536 + s4) * 65536 + s5) * 65536 + s6) * 65536 + s7.

(** "This network", private, loopback, link-local, shared, protocol and
    documentation networks, relays, benchmarks, multicast and reserved. *)
Definition blocked_v4 : list (Z * Z) :=
  [(bits_v4 0 0 0 0, 8); (bits_v4 10 0 0 0, 8); (bits_v4 127 0 0 0, 8); (bits_v4 224 0 0 0, 3);
   (bits_v4 100 64 0 0, 10); (bits_v4 169 254 0 0, 16); (bits_v4 172 16 0 0, 12); (bits_v4 192 168 0 0, 16);
   (bits_v4 192 0 0 0, 16); (bits_v4 192 88 99 0, 24); (bits_v4 198 18 0 0, 15); (bits_v4 198 51 100 0, 24);
   (bits_v4 203 0 113 0, 24)].
(** Multicast, unique local, link-local and site-local addresses, documentation;
    the same IPv4 networks embedded, compatible or mapped. *)
Definition blocked_v6 : list (Z * Z) :=
  ([(bits_v6 65280 0 0 0 0 0 0 0, 8); (bits_v6 64512 0 0 0 0 0 0 0, 7); (bits_v6 65152 0 0 0 0 0 0 0, 10);
    (bits_v6 65216 0 0 0 0 0 0 0, 10); (bits_v6 8193 3512 0 0 0 0 0 0, 32)]
   ++ map (fun net => (net.1, 96 + net.2)) blocked_v4
   ++ map (fun net => (65535 * 2 ^ 32 + net.1, 96 + net.2)) blocked_v4)%list.

Definition byte_ok (x : Z) : Prop := 0 <= x < 256.
Definition segment_ok (x : Z) : Prop := 0 <= x < 65536.
Definition ip_ok (ip : IpAddr) : Prop :=
  match ip with
  | V4 a b c d => byte_ok a ∧ byte_ok b ∧ byte_ok c ∧ byte_ok d
  | V6 s0 s1 s2 s3 s4 s5 s6 s7 => Forall segment_ok [s0; s1; s2; s3; s4; s5; s6; s7]
  end.
Definition in_blocked_network (ip : IpAddr) : bool :=
  match ip with
  | V4 a b c d => existsb (in_net 32 (bits_v4 a b c d)) blocked_v4
  | V6 s0 s1 s2 s3 s4 s5 s6 s7 => existsb (in_net 128 (bits_v6 s0 s1 s2 s3 s4 s5 s6 s7)) blocked_v6
  end.

Ltac arith := rewrite ?Z.shiftr_div_pow2 by lia; cbn; Z.to_euclidean_division_equations; lia.

Lemma blocked_v4_spec a b c d :
  byte_ok a → byte_ok b → byte_ok c → byte_ok d →
  existsb (in_net 32 (bits_v4 a b c d)) blocked_v4 = is_blocked_v4 a b c.
Proof.
  unfold byte_ok. intros Ha Hb Hc Hd. unfold blocked_v4, is_blocked_v4, in_net. cbn [existsb fst snd].
  rewrite orb_false_r, !orb_assoc. unfold bits_v4, between.
  repeat (f_equal; [| apply eq_true_iff_eq; rewrite ?andb_true_iff, ?Z.eqb_eq, ?Z.leb_le; arith]).
  apply eq_true_iff_eq; rewrite ?andb_true_iff, ?Z.eqb_eq, ?Z.leb_le; arith.
Qed.
(** The upper bits of an address decide for a prefix that reaches beyond them. *)
Lemma in_net_embed hi lo base n l :
  0 <= lo < 2 ^ 32 → 0 <= n < 2 ^ 32 → 0 <= l <= 32 →
  in_net 128 (hi * 2 ^ 32 + lo) (base * 2 ^ 32 + n, 96 + l) = (hi =? base) && in_net 32 lo (n, l).
Proof.
  intros Hlo Hn Hl. unfold in_net. cbn [fst snd]. replace (128 - (96 + l)) with (32 - l) by lia.
  rewrite !Z.shiftr_div_pow2 by lia.
  assert (Hp : 2 ^ 32 = 2 ^ l * 2 ^ (32 - l)) by (rewrite <- Z.pow_add_r by lia; f_equal; lia).
  set (p := 2 ^ (32 - l)) in *. assert (0 < p) by (apply Z.pow_pos_nonneg; lia).
  assert (0 < 2 ^ l) by (apply Z.pow_pos_nonneg; lia).
  rewrite Hp, !Z.mul_assoc, !(Z.add_comm (_ * _ * p)), !Z.div_add by lia.
  assert (0 <= lo / p < 2 ^ l) by (split; [apply Z.div_pos; lia | apply Z.div_lt_upper_bound; lia]).
  assert (0 <= n / p < 2 ^ l) by (split; [apply Z.div_pos; lia | apply Z.div_lt_upper_bound; lia]).
  apply eq_true_iff_eq. rewrite andb_true_iff, !Z.eqb_eq. split; [| by intros [-> ->]].
  intros E. assert (hi = base) by nia. subst. split; [done | lia].
Qed.

Lemma existsb_embed hi lo base :
  0 <= lo < 2 ^ 32 →
  existsb (in_net 128 (hi * 2 ^ 32 + lo)) (map (fun net => (base * 2 ^ 32 + net.1, 96 + net.2)) blocked_v4)
  = (hi =? base) && existsb (in_net 32 lo) blocked_v4.
Proof.
  intros Hlo. assert (Hall : Forall (fun net => 0 <= net.1 < 2 ^ 32 ∧ 0 <= net.2 <= 32) blocked_v4)
    by (repeat constructor; vm_compute; by auto).
  induction Hall as [|[n l] nets [Hn Hl] _ IH]; [by destruct (hi =? base) |]. cbn [map existsb fst snd] in *.
  rewrite IH, in_net_embed by done. by destruct (hi =? base).
Qed.

(** The bits of [x] under the mask of [k] ones from bit [n] on. *)
Lemma land_mask x k n : 0 <= k → 0 <= n → Z.land x (Z.shiftl (Z.ones k) n) = Z.shiftl (Z.land (Z.shiftr x n) (Z.ones k)) n.
Proof.
  intros Hk Hn. rewrite Z.shiftl_land. apply Z.bits_inj'. intros i Hi. rewrite !Z.land_spec.
  destruct (Z.ltb_spec i n).
  - rewrite !(Z.shiftl_spec_low _ _ i) by lia. by rewrite !andb_false_r.
  - rewrite (Z.shiftl_spec (Z.shiftr x n)), Z.shiftr_spec by lia. do 2 f_equal. lia.
Qed.

Lemma mask_test s k n v :
  segment_ok s → 0 <= k → 0 <= n → k + n = 16 →
  (Z.land s (Z.shiftl (Z.ones k) n) =? Z.shiftl v n) = (s / 2 ^ n =? v).
Proof.
  intros Hs Hk Hn Hkn. rewrite land_mask by done. rewrite Z.land_ones, Z.shiftr_div_pow2, !Z.shiftl_mul_pow2 by lia.
  rewrite Z.mod_small.
  - apply eq_true_iff_eq. rewrite !Z.eqb_eq. assert (0 < 2 ^ n) by (apply Z.pow_pos_nonneg; lia). nia.
  - split; [apply Z.div_pos; [apply Hs | apply Z.pow_pos_nonneg; lia] |].
    apply Z.div_lt_upper_bound; [apply Z.pow_pos_nonneg; lia |]. rewrite <- Z.pow_add_r by lia.
    replace (n + k) with 16 by lia. apply Hs.
Qed.

(** The networks of the list that are not embedded. *)
Lemma native_v6_spec s0 s1 s2 s3 s4 s5 s6 s7 :
  Forall segment_ok [s0; s1; s2; s3; s4; s5; s6; s7] →
  existsb (in_net 128 (bits_v6 s0 s1 s2 s3 s4 s5 s6 s7)) (take 5 blocked_v6)
  = (s0 / 2 ^ 8 =? 255) || (s0 / 2 ^ 9 =? 126) || (s0 / 2 ^ 6 =? 1018) || (s0 / 2 ^ 6 =? 1019)
    || ((s0 =? 8193) && (s1 =? 3512)).
Proof.
  intros Hall. repeat (apply Forall_cons in Hall as [? Hall]). unfold segment_ok in *.
  cbn [take blocked_v6 app existsb]. unfold in_net. cbn [fst snd]. rewrite orb_false_r, !orb_assoc. unfold bits_v6.
  repeat (f_equal; [| apply eq_true_iff_eq; rewrite ?andb_true_iff, ?Z.eqb_eq; arith]).
  apply eq_true_iff_eq; rewrite ?andb_true_iff, ?Z.eqb_eq; arith.
Qed.

(** [is_blocked_mirror_ip] blocks exactly those networks. *)
Lemma blocked_spec ip : ip_ok ip → is_blocked_mirror_ip ip = in_blocked_network ip.
Proof.
  destruct ip as [a b c d|s0 s1 s2 s3 s4 s5 s6 s7]; cbn [ip_ok is_blocked_mirror_ip in_blocked_network].
  { intros (? & ? & ? & ?). symmetry. by apply blocked_v4_spec. }
  intros Hall. pose proof (native_v6_spec _ _ _ _ _ _ _ _ Hall) as Hnative.
  repeat (apply Forall_cons in Hall as [? Hall]). clear Hall.
  set (hi := ((((s0 * 65536 + s1) * 65536 + s2) * 65536 + s3) * 65536 + s4) * 65536 + s5).
  set (lo := bits_v4 (s6 / 256) (s6 mod 256) (s7 / 256) (s7 mod 256)).
  assert (Hlo : 0 <= lo < 2 ^ 32) by (unfold lo, bits_v4, segment_ok in *; cbn; Z.to_euclidean_division_equations; lia).
  assert (Hx : bits_v6 s0 s1 s2 s3 s4 s5 s6 s7 = hi * 2 ^ 32 + lo)
    by (unfold bits_v6, hi, lo, bits_v4; cbn; Z.to_euclidean_division_equations; lia).
  assert (Hv4 : existsb (in_net 32 lo) blocked_v4 = is_blocked_v4 (s6 / 256) (s6 mod 256) (s7 / 256)).
  { apply blocked_v4_spec; unfold byte_ok, segment_ok in *; Z.to_euclidean_division_equations; lia. }
  change blocked_v6 with (take 5 blocked_v6 ++ (map (fun net => (0 * 2 ^ 32 + net.1, 96 + net.2)) blocked_v4
    ++ map (fun net => (65535 * 2 ^ 32 + net.1, 96 + net.2)) blocked_v4))%list.
  rewrite !existsb_app, Hnative, Hx, !existsb_embed, Hv4 by done. unfold to_ipv4.
  match goal with |- context [if ?b then Some _ else None] => destruct b eqn:Ev4 end.
  - rewrite !andb_true_iff, orb_true_iff, !Z.eqb_eq in Ev4. destruct Ev4 as (((((-> & ->) & ->) & ->) & ->) & Hs5).
    assert (Hhi : hi = s5) by (unfold hi; lia). rewrite Hhi. cbn.
    destruct Hs5 as [-> | ->]; cbn; by rewrite ?orb_false_r.
  - assert (Hhi : hi ≠ 0 ∧ hi ≠ 65535).
    { rewrite !andb_false_iff, orb_false_iff, !Z.eqb_neq in Ev4. unfold hi, segment_ok in *. lia. }
    rewrite (proj2 (Z.eqb_neq hi 0)), (proj2 (Z.eqb_neq hi 65535)) by tauto. cbn [andb orb]. rewrite orb_false_r.
    rewrite !bool_decide_eq_false_2 by (intros [= -> -> -> -> -> -> -> ->]; done). cbn [orb].
    change 65280 with (Z.shiftl (Z.ones 8) 8) at 1. change 65280 with (Z.shiftl 255 8).
    change 65024 with (Z.shiftl (Z.ones 7) 9). change 64512 with (Z.shiftl 126 9).
    change 65472 with (Z.shiftl (Z.ones 10) 6). change 65152 with (Z.shiftl 1018 6). change 65216 with (Z.shiftl 1019 6).
    by rewrite !mask_test.
Qed.
End networks.

(** ** What a mirror request connects to *)

Section contacts.
Context `{Urls}.
Implicit Types net : Network.

Lemma read_chunks_bound max data chunks x :
  vec_len data <= max < u64_max → read_chunks max data chunks = Ok x → vec_len x <= max.
Proof.
  revert data. induction chunks as [|[chunk|] chunks IH]; cbn; intros data Hd; [intros [= <-]; lia | | done].
  destruct (decide _) as [|Hc]; [done |]. apply IH. unfold vec_len, sat_add in *. rewrite length_app. lia.
Qed.

Lemma read_answer_bound max an x : 0 <= max < u64_max → read_answer max an = Ok x → vec_len x <= max.
Proof.
  intros Hm. unfold read_answer. destruct (negb _); [done |].
  assert (Hr : read_chunks max [] (an_chunks an) = Ok x → vec_len x <= max).
  { apply read_chunks_bound. unfold vec_len. cbn. lia. }
  destruct (an_length an) as [n|]; [| done]. by destruct (bool_decide (n > max)).
Qed.

(** A connection [u] may make to [a]: over HTTP, without credentials, to the
    first of the addresses its host had at that attempt, none of them blocked. *)
Definition contact_ok net (u : Url) (a : IpAddr) : Prop :=
  (url_scheme u = "http" ∨ url_scheme u = "https") ∧ url_username u = "" ∧ url_password u = None
  ∧ ∃ i host port rest, url_host_str u = Some host ∧ url_port u = Some port
      ∧ lookup_host net i host port = Ok (a :: rest)
      ∧ Forall (fun b => is_blocked_mirror_ip b = false) (a :: rest).

Lemma destination_ok net i u a : destination net i u = Ok a → contact_ok net u a.
Proof.
  unfold destination. case_bool_decide as Hs; cbn [negb]; [| done].
  case_bool_decide as Hu; cbn [negb orb]; [| done]. case_bool_decide as Hp; [done |].
  destruct (url_host_str u) as [host|] eqn:Eh; [| done]. cbn. destruct (url_port u) as [port|] eqn:Ep; [| done]. cbn.
  destruct (lookup_host net i host port) as [[|b rest]|] eqn:El; [done | | done].
  destruct (_ || _) eqn:Eb; [done |]. change (existsb is_blocked_mirror_ip (b :: rest) = false) in Eb.
  destruct (client_error net i); [done |]. intros [= <-].
  split; [set_solver |]. split; [done |]. split; [by destruct (url_password u); [destruct Hp; eexists |] |].
  exists i, host, port, rest. repeat split; try done. apply Forall_forall. intros x Hx.
  destruct (is_blocked_mirror_ip x) eqn:E; [| done]. rewrite <- Eb. symmetry. apply existsb_exists. exists x.
  split; [by apply list_elem_of_In | done].
Qed.

Lemma fetch_loop_ok net max fuel : ∀ i u,
  0 <= max < u64_max →
  let '(contacts, r) := fetch_loop net max fuel i u in
  (length contacts <= fuel)%nat ∧ Forall (fun c => contact_ok net c.1 c.2) contacts
  ∧ ∀ data, r = Ok data → vec_len data <= max.
Proof.
  induction fuel as [|fuel IH]; intros i u Hm; cbn [fetch_loop]; [done |].
  destruct (destination net i u) as [a|] eqn:Ed; [| split; [cbn; lia | by split]].
  apply destination_ok in Ed.
  assert (Hstop : ∀ r : result (list byte) string, (∀ data, r = Ok data → vec_len data <= max) →
    (length [(u, a)] <= Datatypes.S fuel)%nat ∧ Forall (fun c => contact_ok net c.1 c.2) [(u, a)]
    ∧ ∀ data, r = Ok data → vec_len data <= max).
  { intros r Hr. split; [cbn; lia |]. split; [by constructor | done]. }
  destruct (http_get net i u a) as [an|]; [| by apply Hstop].
  destruct (between _ _ _); [| apply Hstop; intros data; by apply read_answer_bound].
  destruct (an_location an) as [location|]; [| by apply Hstop].
  destruct (url_join u location) as [next|]; [| by apply Hstop].
  specialize (IH (Datatypes.S i) next Hm). destruct (fetch_loop net max fuel (Datatypes.S i) next) as [rest r].
  destruct IH as (I1 & I2 & I3). split; [cbn; lia |]. split; [by constructor | done].
Qed.

(** C35: a mirror request stays on the public network.  Whatever URL it names and
    whatever name servers and remote servers answer, [fetch_mirror_blob] connects
    at most four times, each time over http or https, without credentials, to the
    first address the host resolved to at that attempt, which like the other
    addresses of the host is in none of the networks of [blocked_v4] and
    [blocked_v6]; and what it returns is not larger than asked for. *)
Theorem mirror_stays_public net source max :
  0 <= max < u64_max →
  (∀ i host port l, lookup_host net i host port = Ok l → Forall ip_ok l) →
  let '(contacts, r) := fetch_mirror_blob net source max in
  (length contacts <= 4)%nat
  ∧ Forall (fun '(u, a) => (url_scheme u = "http" ∨ url_scheme u = "https")
      ∧ url_username u = "" ∧ url_password u = None
      ∧ ∃ i host port rest, url_host_str u = Some host ∧ lookup_host net i host port = Ok (a :: rest)
          ∧ Forall (fun b => in_blocked_network b = false) (a :: rest)) contacts
  ∧ ∀ data, r = Ok data → vec_len data <= max.
Proof.
  intros Hm Hips. unfold fetch_mirror_blob. destruct (url_parse source) as [u|]; [| split; [cbn; lia | by split]].
  pose proof (fetch_loop_ok net max 4 0 u Hm) as Hl. destruct (fetch_loop _ _ _ _ _) as [contacts r].
  destruct Hl as (Hn & Hall & Hr). split; [done |]. split; [| done]. eapply Forall_impl; [exact Hall |].
  intros [v a] (Hs & Hu & Hp & i & host & port & rest & Hh & _ & Hl & Hb). repeat split; try done.
  exists i, host, port, rest. split; [done |]. split; [done |].
  pose proof (Hips _ _ _ _ Hl) as Hok. rewrite Forall_forall in *. intros b Hin. rewrite <- blocked_spec; auto.
Qed.
End contacts.

Module MirrorExamples.
(** A small instance of [Urls]: a URL is a scheme and a host. *)
#[export] Instance urls : Urls := {|
  Url := string * string;
  url_parse s := match strip_prefix "http://" s with
                 | Some host => Ok ("http", host)
                 | None => Err "relative URL without a base"
                 end;
  url_scheme := fst;
  url_username _ := "";
  url_password _ := None;
  url_host_str u := Some u.2;
  url_port _ := Some 80;
  url_join _ location := match strip_prefix "http://" location with
                         | Some host => Ok ("http", host)
                         | None => Err "relative URL without a base"
                         end;
  mirror_request body := Ok (from_utf8_unchecked body)
|}.

(** A public host that redirects to a name of the private network. *)
Definition rebinding : Network :=
  mkNetwork (fun _ host _ => if decide (host = "public") then Ok [V4 8 8 8 8] else Ok [V4 8 8 4 4; V4 10 0 0 1])
    (fun _ => None)
    (fun _ _ _ => Ok (mkAnswer 302 "302 Found" (Some "http://inside") None [])).

Lemma mirror_stays_public_witness :
  let '(contacts, r) := fetch_mirror_blob rebinding "http://public" 1000 in
  contacts = [(("http", "public"), V4 8 8 8 8)]
  ∧ r = Err "mirror destination resolves to a blocked network"
  ∧ (length contacts <= 4)%nat.
Proof.
  pose proof (mirror_stays_public rebinding "http://public" 1000) as Hm.
  assert (E : fetch_mirror_blob rebinding "http://public" 1000
    = ([(("http", "public"), V4 8 8 8 8)], Err "mirror destination resolves to a blocked network")) by (vm_compute; reflexivity).
  rewrite E in Hm. rewrite E. split; [reflexivity |]. split; [reflexivity |]. apply Hm.
  - unfold u64_max. lia.
  - intros i host port l. cbn. unfold byte_ok. case_decide; intros [= <-]; repeat constructor; cbn; lia.
Defined.

(** The translation prefixes 64:ff9b::/96 (NAT64) and 2002::/16 (6to4) are let
    through, whatever IPv4 address they embed. *)
Example translated_loopback_allowed :
  is_blocked_mirror_ip (V6 100 65435 0 0 0 0 32512 1) = false
  ∧ is_blocked_mirror_ip (V6 8194 32512 1 0 0 0 0 0) = false.
Proof. split; reflexivity. Qed.
End MirrorExamples.
