(* ===== verification/Media.v ===== *)
(** * Media uploads and the S3-compatible routes ([handle_media_upload] and
    [s3_put] to [s3_delete] of [src/src/server/mod.rs])

    A media upload is transformed before it is stored.  The transformation runs
    as a task that may outlive its request: the slot it occupies is given back
    when it ends.  The processor is a parameter ([src/src/media/mod.rs] has the
    trait and one that passes its input through). *)

From Stdlib Require Import ZArith Lia Ascii String.
From Stdlib Require Import Strings.Byte.
From stdpp Require Import base list gmap strings numbers sets.
From S2P Require Import Prelude Effects Protocol Auth Replay RequestAuth RateLimit Database Access Storage Locks Lfs Stats Server Durable.

Open Scope string_scope.
Open Scope Z_scope.
Open Scope handler_scope.

(** [MediaResult], [MediaError]. *)
Record MediaResult := mkMedia {
  m_data : list byte;
  m_mime_type : string;
  m_width : option Z;
  m_height : option Z;
  m_blurhash : option string;
  m_thumbnail : option (list byte);
  m_phash : option Z
}.
Inductive MediaError := UnsupportedType (t : string) | SensitiveExif (t : string) | ProcessingFailed (t : string).
Definition media_error_to_string (e : MediaError) : string :=
  match e with
  | UnsupportedType t => "unsupported media type: " +:+ t
  | SensitiveExif t => "sensitive EXIF data detected: " +:+ t
  | ProcessingFailed t => "processing failed: " +:+ t
  end.

(** [MediaProcessor::process], which is what the server calls. *)
Definition MediaProcessor : Type := list byte → string → result MediaResult MediaError.
(** [PassthroughProcessor]. *)
Definition PassthroughProcessor : MediaProcessor := fun data mime => Ok (mkMedia data mime None None None None None).

(** [MEDIA_PROCESS_CONCURRENCY]. *)
Definition MEDIA_PROCESS_CONCURRENCY : Z := 4.

(** How the task of a request ends before its deadline, or that it does not:
    aborted in the queue, or still running. *)
Inductive TaskOutcome := TaskDone | TaskPanicked (error : string) | TaskAborted | TaskRunning.

(** The server, the free slots of [MEDIA_PROCESS_LIMIT], and the tasks that run
    on after their request was answered. *)
Record MediaNode (B D V : Type) := mkMediaNode {
  md_server : ServerState B D V;
  md_slots : Z;
  md_running : Z
}.
Arguments mkMediaNode {B D V} _ _ _.
Arguments md_server {B D V} _.
Arguments md_slots {B D V} _.
Arguments md_running {B D V} _.

Section media.
Context `{Crates} `{Codec} {B D V : Type} `{BlobBackend B} `{BlobDatabase D} `{LfsVersionDatabase V}.
Variable media_processor : option MediaProcessor.

Notation S := (ServerState B D V).
Notation N := (MediaNode B D V).
Notation M := (MR S Response).

Definition set_md_server (s : S) (n : N) : N := mkMediaNode s (md_slots n) (md_running n).
Definition set_slots (k : Z) (n : N) : N := mkMediaNode (md_server n) k (md_running n).
(** A step of the server. *)
Definition on_server {R A} (m : MR S R A) : MR N R A := zoom md_server set_md_server m.

(** The first part of [handle_media_upload], under the lock. *)
Definition media_authorize (q : ReqEnv) (event : NostrEvent) : M (MediaProcessor * Z) :=
  check_claims (q_auth q) event "upload" "/media" "PUT" None ;!
  let! access := gets s_access in
  guard (@is_allowed access (ev_pubkey event) Upload) (403, error_json "upload not allowed for this pubkey") ;!
  rate_limit q (ev_pubkey event) ;!
  match media_processor with
  | None => early (501, error_json "media processing not enabled on this server")
  | Some processor => let! limit := gets s_body_limit in ret (processor, limit)
  end.

(** The second, with the body in: its type. *)
Definition media_bind (q : ReqEnv) (event : NostrEvent) (data : list byte) : M string :=
  guard (negb (bool_decide (data = []))) (400, error_json "empty body") ;!
  check_claims (q_bind q) event "upload" "/media" "PUT" (Some (sha256_hex data)) ;!
  mark_once (q_mark q) event ;!
  let mime := detect_mime data in
  let! req := gets s_requirements in
  guard (mime_allowed req mime) (415, error_json "content type is not allowed") ;!
  ret mime.

(** [process_media_with_deadline] and what its errors are answered with. *)
Definition process_media (processor : MediaProcessor) (outcome : TaskOutcome) (data : list byte) (mime : string)
    : result MediaResult Response :=
  match outcome with
  | TaskDone =>
      match processor data mime with
      | Ok r => Ok r
      | Err e => Err (422, error_json ("media processing failed: " +:+ media_error_to_string e))
      end
  | TaskPanicked e => Err (500, error_json ("media worker failed: " +:+ e))
  | TaskAborted | TaskRunning => Err (408, error_json "media processing timed out")
  end.

(** The descriptor with what the processor found. *)
Definition media_json (d : BlobDescriptor) (r : MediaResult) : json :=
  match descriptor_json d with
  | JObj fields =>
      JObj (fields ++ opt_json JStr "blurhash" (m_blurhash r) ++ opt_json JNum "width" (m_width r)
            ++ opt_json JNum "height" (m_height r) ++ opt_json JNum "phash" (m_phash r))%list
  | j => j
  end.

(** The last part, under the lock again. *)
Definition media_store (q : ReqEnv) (pubkey : string) (r : MediaResult) : M Response :=
  let! d := gets s_database in
  match check_quota d pubkey (additional_bytes d (sha256_hex (m_data r)) pubkey (vec_len (m_data r))) with
  | Err e => early (507, error_json (db_error_to_string e))
  | Ok _ => ret tt
  end ;!
  let! descriptor := insert_recorded q (m_data r) (fun d =>
    mkUpload (d_sha256 d) (d_size d) (m_mime_type r) pubkey (default 0 (d_uploaded d)) (m_phash r)) in
  modify (notify (mkPayload EvUpload (d_sha256 descriptor) (d_size descriptor) pubkey (q_now q) None)) ;!
  ret (200, media_json descriptor r).

(** From the body on. *)
Definition media_finish (q : ReqEnv) (outcome : TaskOutcome) (event : NostrEvent) (processor : MediaProcessor)
    (data : list byte) : M Response :=
  let! mime := media_bind q event data in
  let! r := lift (process_media processor outcome data mime) in
  media_store q (ev_pubkey event) r.

(** [MEDIA_PROCESS_LIMIT.try_acquire_owned]. *)
Definition take_slot : MR N Response unit :=
  fun n => if decide (0 < md_slots n) then (set_slots (md_slots n - 1) n, Ok tt)
           else (n, Err (503, error_json "media processing capacity exhausted")).

(** The task of [m] was started and runs on after its request. *)
Definition runs_on (outcome : TaskOutcome) (r : result Response Response) : bool :=
  match outcome, r with TaskRunning, Err (408, _) => true | _, _ => false end.
(** The slot is given back when the request ends, unless its task runs on. *)
Definition with_slot (outcome : TaskOutcome) (m : MR N Response Response) : MR N Response Response :=
  fun n => let '(n, r) := m n in
           (if runs_on outcome r then mkMediaNode (md_server n) (md_slots n) (md_running n + 1)
            else set_slots (md_slots n + 1) n, r).

(** [handle_media_upload]. *)
Definition media_upload (q : ReqEnv) (outcome : TaskOutcome) (headers : HeaderMap) (body : Body) : MR N Response Response :=
  match extract_auth_event headers with
  | Err e => early (401, error_json (auth_error_to_string e))
  | Ok event =>
      let! start := on_server (media_authorize q event) in
      let '(processor, limit) := start in
      take_slot ;!
      with_slot outcome (on_server (with_body limit headers body (media_finish q outcome event processor)))
  end.
Definition handle_media_upload (q : ReqEnv) (outcome : TaskOutcome) (headers : HeaderMap) (body : Body) : N → N * Response :=
  respond (media_upload q outcome headers body).

(** The server's side of it, when [slots] are free. *)
Definition media_served (slots : Z) (q : ReqEnv) (outcome : TaskOutcome) (headers : HeaderMap) (body : Body) (s : S)
    : S * Response :=
  let '(n, r) := handle_media_upload q outcome headers body (mkMediaNode s slots 0) in (md_server n, r).

(** A task that ran on ends. *)
Definition task_ends (n : N) : N :=
  if decide (0 < md_running n) then mkMediaNode (md_server n) (md_slots n + 1) (md_running n - 1) else n.

(** ** The S3-compatible routes, for tests: no authorization, no metadata *)

(** [key.trim_end_matches(".blob")]. *)
Definition s3_hash (key : string) : string := trim_end_matches_str ".blob" key.

Definition s3_put (q : ReqEnv) (data : list byte) (s : S) : S * Z :=
  (set_backend (insert_blob (q_env q) (s_backend s) data (s_base_url s)).1 s, 200).
Definition s3_get (q : ReqEnv) (key : string) (s : S) : S * BlobResponse :=
  (s, match get (q_env q) (s_backend s) (s3_hash key) with
      | Some data => (200, Some (stored_content_type (s_database s) (s3_hash key) (Some data), data))
      | None => (404, None)
      end).
Definition s3_head (key : string) (s : S) : S * Z :=
  (s, if exists_blob (s_backend s) (s3_hash key) then 200 else 404).
Definition s3_delete (q : ReqEnv) (key : string) (s : S) : S * Z :=
  let '(b, existed) := delete_blob (q_env q) (s_backend s) (s3_hash key) in
  (set_backend b s, if existed then 200 else 404).

(** ** The slots *)

(** Slots are free or held by a task that runs on. *)
Definition slots_ok (n : N) : Prop :=
  0 <= md_slots n ∧ 0 <= md_running n ∧ md_slots n + md_running n = MEDIA_PROCESS_CONCURRENCY.

Lemma on_server_slots {R A} (m : MR S R A) n n' r :
  on_server m n = (n', r) → md_slots n' = md_slots n ∧ md_running n' = md_running n.
Proof. unfold on_server, zoom. destruct (m (md_server n)). by intros [= <- _]. Qed.

(** A slot given back, or not, leaves the server as the request left it. *)
Lemma with_slot_server outcome (m : MR N Response Response) n n' r :
  with_slot outcome m n = (n', r) → ∃ n1, m n = (n1, r) ∧ md_server n' = md_server n1.
Proof.
  unfold with_slot. destruct (m n) as [n1 x]. intros [= <- <-]. exists n1. split; [done |]. by destruct (runs_on _ _).
Qed.

Lemma handle_media_slots q outcome headers body n :
  slots_ok n → slots_ok (handle_media_upload q outcome headers body n).1.
Proof.
  intros W. unfold handle_media_upload, respond. destruct (media_upload q outcome headers body n) as [n' r] eqn:E.
  cbn [fst]. clear -W E. unfold media_upload in E.
  destruct (extract_auth_event headers) as [event|]; [| by injection E as <- _].
  apply bind_inv in E as [([processor limit] & n1 & Ha & E) | (e & Ha & _)];
    apply on_server_slots in Ha as [E1 E2]; unfold slots_ok in *; [| lia].
  apply bind_inv in E as [(u & n2 & Ht & E) | (e & Ht & _)]; unfold take_slot in Ht; destruct (decide _); try done;
    injection Ht as <- _; [| lia].
  unfold with_slot in E. destruct (on_server _ _) as [n3 r3] eqn:E3. apply on_server_slots in E3 as [E4 E5].
  injection E as <- _. cbn in E4, E5. destruct (runs_on outcome r3); cbn; lia.
Qed.

Lemma task_ends_slots n : slots_ok n → slots_ok (task_ends n).
Proof. unfold slots_ok, task_ends. destruct (decide _); cbn; lia. Qed.
End media.
