(* ===== verification/Nip96.v ===== *)
(** * The NIP-96 endpoints ([src/src/server/nip96.rs])

    The file storage API of NIP-96 on the state of the Blossom server: the
    server information, upload, the pages of the file list and deletion.  A
    parameter of the query string arrives as a [u32]; products of such are taken
    modulo [2^32], as a release build does. *)

From Stdlib Require Import ZArith Lia Ascii String.
From Stdlib Require Import Strings.Byte.
From stdpp Require Import base list gmap strings numbers sets.
From S2P Require Import Prelude Effects Protocol Auth Replay RequestAuth RateLimit Database Access Storage Locks Lfs Stats Server Durable.

Open Scope string_scope.
Open Scope Z_scope.
Open Scope handler_scope.

(** [Nip96ListQuery]. *)
Record Nip96ListQuery := mkListQuery { page : Z; count : Z }.
(** The query with its defaults, [default_page] and [default_count]. *)
Definition list_query (page count : option Z) : Nip96ListQuery := mkListQuery (default 1 page) (default 50 count).

(** [(page.saturating_sub(1) * count) as usize]. *)
Definition page_start (params : Nip96ListQuery) : Z := wrap_u32 (sat_sub (page params) 1 * count params).
(** The records of a page. *)
Definition page_of {A} (params : Nip96ListQuery) (records : list A) : list A :=
  take (Z.to_nat (count params)) (drop (Z.to_nat (page_start params)) records).

Section nip96.
Context `{Crates} `{Codec} {B D V : Type} `{BlobBackend B} `{BlobDatabase D} `{LfsVersionDatabase V}.

Notation S := (ServerState B D V).
Notation M := (MR S Response).

(** [handle_nip96_info]: the fields of [Nip96Info] that are not left out. *)
Definition handle_nip96_info (s : S) : S * json :=
  (s, JObj ([("api_url", JStr (s_base_url s +:+ "/n96")); ("download_url", JStr (s_base_url s));
             ("supported_nips", JArr [JNum 96; JNum 98])]
            ++ (if decide (allowed_types (s_requirements s) = []) then []
                else [("content_types", JArr (map JStr (allowed_types (s_requirements s))))]))%list).

(** [verify_auth_event]: the claims, then the single use. *)
Definition verify_once (q : ReqEnv) (e : NostrEvent) (action path method : string) (hash : option string) : M unit :=
  check_claims (q_auth q) e action path method hash ;!
  mark_once (q_mark q) e.

(** ** Upload *)

(** The first part of [handle_nip96_upload], under the lock. *)
Definition nip96_authorize (q : ReqEnv) (headers : HeaderMap) : M (NostrEvent * Z) :=
  match extract_auth_event headers with
  | Err e => auth_error e
  | Ok event =>
      check_claims (q_auth q) event "upload" "/n96" "POST" None ;!
      let! access := gets s_access in
      guard (@is_allowed access (ev_pubkey event) Upload) (403, error_json "upload not allowed") ;!
      rate_limit q (ev_pubkey event) ;!
      let! limit := gets s_body_limit in
      ret (event, limit)
  end.

(** The second, with the body in. *)
Definition nip96_bind (q : ReqEnv) (event : NostrEvent) (data : list byte) : M unit :=
  guard (negb (bool_decide (data = []))) (400, error_json "empty body") ;!
  check_claims (q_bind q) event "upload" "/n96" "POST" (Some (sha256_hex data)) ;!
  mark_once (q_mark q) event.

(** [Nip96UploadResponse]. *)
Definition nip96_descriptor (base_url mime : string) (d : BlobDescriptor) : json :=
  let at_base := base_url +:+ "/" +:+ d_sha256 d in
  JObj [("status", JStr "success"); ("message", JStr "Upload successful");
        ("nip94_event", JObj [
          ("tags", JArr [
             JArr [JStr "url"; JStr (default at_base (d_url d))];
             JArr [JStr "ox"; JStr (d_sha256 d); JStr at_base];
             JArr [JStr "x"; JStr (d_sha256 d)];
             JArr [JStr "size"; JStr (u64_to_string (d_size d))];
             JArr [JStr "m"; JStr mime]]);
          ("content", JStr "")])].

(** The last, under the lock again. *)
Definition nip96_store (q : ReqEnv) (headers : HeaderMap) (pubkey : string) (data : list byte) : M Response :=
  let sha256 := sha256_hex data in
  let content_type := default (detect_mime data) (extract_content_type headers) in
  let! req := gets s_requirements in
  guard (mime_allowed req content_type) (415, error_json "content type is not allowed") ;!
  guard (match max_size req with Some max => bool_decide (vec_len data <= max) | None => true end)
    (413, error_json ("exceeds max size of " +:+ u64_to_string (default 0 (max_size req)) +:+ " bytes")) ;!
  refuse_over_quota sha256 pubkey (vec_len data) (fun used requested limit =>
    "quota exceeded: " +:+ u64_to_string used +:+ " + " +:+ u64_to_string requested +:+ " > " +:+ u64_to_string limit) ;!
  let! base_url := gets s_base_url in
  let! descriptor := insert_recorded q data (fun d =>
    mkUpload (d_sha256 d) (d_size d) content_type pubkey (default 0 (d_uploaded d)) None) in
  ret (200, nip96_descriptor base_url content_type descriptor).

(** [handle_nip96_upload]. *)
Definition nip96_upload (q : ReqEnv) (headers : HeaderMap) (body : Body) : M Response :=
  let! auth := nip96_authorize q headers in
  let '(event, limit) := auth in
  with_body limit headers body (fun data =>
    nip96_bind q event data ;!
    nip96_store q headers (ev_pubkey event) data).
Definition handle_nip96_upload (q : ReqEnv) (headers : HeaderMap) (body : Body) : S → S * Response :=
  respond (nip96_upload q headers body).

(** ** List *)

(** A file of the list. *)
Definition nip96_file (base_url : string) (r : UploadRecord) : json :=
  JObj [("tags", JArr [
           JArr [JStr "url"; JStr (base_url +:+ "/" +:+ r_sha256 r)];
           JArr [JStr "ox"; JStr (r_sha256 r); JStr (base_url +:+ "/" +:+ r_sha256 r)];
           JArr [JStr "size"; JStr (u64_to_string (r_size r))];
           JArr [JStr "m"; JStr (r_mime_type r)]]);
        ("content", JStr ""); ("created_at", JNum (r_created_at r))].

Definition nip96_page (base_url : string) (params : Nip96ListQuery) (records : list UploadRecord) : json :=
  let files := map (nip96_file base_url) (page_of params records) in
  JObj [("count", JNum (Z.of_nat (length files))); ("total", JNum (Z.of_nat (length records)));
        ("page", JNum (page params)); ("files", JArr files)].

(** [handle_nip96_list]. *)
Definition nip96_list (q : ReqEnv) (params : Nip96ListQuery) (headers : HeaderMap) : M Response :=
  match extract_auth_event headers with
  | Err e => auth_error e
  | Ok event =>
      verify_once q event "get" "/n96" "GET" None ;!
      let! s := gets (fun s => s) in
      match list_uploads_by_pubkey (s_database s) (ev_pubkey event) with
      | Ok records => ret (200, nip96_page (s_base_url s) params records)
      | Err e => ret (500, error_json (db_error_to_string e))
      end
  end.
Definition handle_nip96_list (q : ReqEnv) (params : Nip96ListQuery) (headers : HeaderMap) : S → S * Response :=
  respond (nip96_list q params headers).

(** ** Delete *)

Definition success (message : string) : json := JObj [("status", JStr "success"); ("message", JStr message)].

(** The end of a NIP-96 and of an administrator's deletion: the blob, then its
    metadata.  Delta versions are not looked at. *)
Definition erase_blob (q : ReqEnv) (sha256 : string) (deleted : json) (absent : string) : M Response :=
  let! s := gets (fun s => s) in
  let '(b, r) := try_delete (q_env q) (s_backend s) sha256 in
  modify (set_backend b) ;!
  match r with
  | Ok true =>
      let '(d, x) := delete_upload (s_database s) sha256 in
      modify (set_database d) ;!
      match x with
      | Err error => early (500, error_json (db_error_to_string error))
      | Ok _ => ret (200, deleted)
      end
  | Ok false => ret (404, error_json absent)
  | Err error => ret (500, error_json ("storage delete failed: " +:+ error))
  end.

(** [handle_nip96_delete]. *)
Definition nip96_delete (q : ReqEnv) (sha256 : string) (headers : HeaderMap) : M Response :=
  guard (is_valid_sha256 sha256) (400, error_json "invalid SHA256 hash") ;!
  match extract_auth_event headers with
  | Err e => auth_error e
  | Ok event =>
      verify_once q event "delete" ("/n96/" +:+ sha256) "DELETE" (Some sha256) ;!
      let! access := gets s_access in
      let role := @role access (ev_pubkey event) in
      guard (negb (bool_decide (role = RDenied))) (403, error_json "delete not allowed") ;!
      let erase := erase_blob q sha256 (success "File deleted") "file not found" in
      if decide (role = RAdmin) then erase
      else
        let! retained := delete_own sha256 (ev_pubkey event) in
        match retained with
        | Some _ => ret (200, success "Ownership reference deleted; shared file retained")
        | None => erase
        end
  end.
Definition handle_nip96_delete (q : ReqEnv) (sha256 : string) (headers : HeaderMap) : S → S * Response :=
  respond (nip96_delete q sha256 headers).
End nip96.
