(* ===== verification/Admin.v ===== *)
(** * The administration endpoints ([src/src/server/admin.rs])

    A server together with the live handles of its access policy.  The source
    shares a [RoleBasedAccess] and a [Whitelist] between the [access] field of
    the state and the handles the administrator changes, so a change takes
    effect at once; here the policy is kept once, in [AdminNode], and the
    [access] of the state is read from it ([live]). *)

From Stdlib Require Import ZArith Lia Ascii String.
From Stdlib Require Import Strings.Byte.
From Stdlib Require Import Floats.SpecFloat.
From stdpp Require Import base list gmap strings numbers sets.
From S2P Require Import Prelude Effects Protocol Auth Replay RequestAuth RateLimit Database Access Storage Locks Lfs Stats Server Durable Nip96.

Open Scope string_scope.
Open Scope Z_scope.
Open Scope handler_scope.

(** ** The policy and its handles *)

(** [access], [role_based_access] and [whitelist] of [ServerState]: which of
    the handles, if any, is the policy in force. *)
Inductive Policy :=
| PolicyRoles (r : RoleBasedAccess) (w : option Whitelist)
| PolicyWhitelist (w : Whitelist) (r : option RoleBasedAccess)
| PolicyFixed (a : AccessControl) (r : option RoleBasedAccess) (w : option Whitelist).

Definition role_handle (p : Policy) : option RoleBasedAccess :=
  match p with PolicyRoles r _ => Some r | PolicyWhitelist _ r | PolicyFixed _ r _ => r end.
Definition whitelist_handle (p : Policy) : option Whitelist :=
  match p with PolicyWhitelist w _ => Some w | PolicyRoles _ w | PolicyFixed _ _ w => w end.
(** A change made through a handle. *)
Definition set_role_handle (r : RoleBasedAccess) (p : Policy) : Policy :=
  match p with
  | PolicyRoles _ w => PolicyRoles r w
  | PolicyWhitelist w _ => PolicyWhitelist w (Some r)
  | PolicyFixed a _ w => PolicyFixed a (Some r) w
  end.
Definition set_whitelist_handle (w : Whitelist) (p : Policy) : Policy :=
  match p with
  | PolicyRoles r _ => PolicyRoles r (Some w)
  | PolicyWhitelist _ r => PolicyWhitelist w r
  | PolicyFixed a r _ => PolicyFixed a r (Some w)
  end.

(** What [BlobServer::builder] starts with, and [BlobServerBuilder::whitelist],
    [role_based_access] and [access_control]; the last call decides the policy. *)
Definition builder_policy : Policy := PolicyFixed OpenAccess None None.
Definition with_whitelist (wl : Whitelist) (p : Policy) : Policy := PolicyWhitelist wl (role_handle p).
Definition with_role_based_access (rba : RoleBasedAccess) (p : Policy) : Policy :=
  PolicyRoles rba (whitelist_handle p).
(** Also [ServerState::set_access_control]. *)
Definition with_access_control (ac : AccessControl) (p : Policy) : Policy :=
  PolicyFixed ac (role_handle p) (whitelist_handle p).

(** Which locks of the policy a request can read. *)
Record Reads := mkReads { rd_admins : bool; rd_members : bool; rd_whitelist : bool }.
Definition all_readable : Reads := mkReads true true true.

(** The policy in force. *)
Definition policy_access (l : Reads) (p : Policy) : AccessControl :=
  match p with
  | PolicyRoles r _ => rba_access (rd_admins l) (rd_members l) r
  | PolicyWhitelist w _ => whitelist_access (rd_whitelist l) w
  | PolicyFixed a _ _ => a
  end.

(** ** The savings of the LFS store *)

Definition f64_sub : f64 → f64 → f64 := SFsub 53 1024.
(** [f64::round]: to the nearest integer, halves away from zero. *)
Definition f64_round (x : f64) : f64 :=
  match x with
  | S754_finite s m e =>
      if 0 <=? e then x
      else
        let n := Z.shiftr (Zpos m + Z.shiftl 1 (- e - 1)) (- e) in
        binary_normalize 53 1024 (if s then - n else n) 0 s
  | _ => x
  end.
(** [savings_percent]: the share saved, in percent with two digits. *)
Definition savings_percent (original stored : Z) : f64 :=
  let hundred := u64_as_f64 100 in
  let pct := if decide (original > 0)
             then f64_mul (f64_sub (u64_as_f64 1) (f64_div (u64_as_f64 stored) (u64_as_f64 original))) hundred
             else S754_zero false in
  f64_div (f64_round (f64_mul pct hundred)) hundred.

(** The answer of [handle_lfs_stats], with its number in [f64]. *)
Record LfsReport := mkReport {
  lr_total_versions : Z;
  lr_total_original_bytes : Z;
  lr_total_stored_bytes : Z;
  lr_savings_percent : f64;
  lr_by_storage_type : gmap string LfsStorageTypeStats
}.

(** ** The handlers *)

Record AdminNode (B D V : Type) := mkAdmin {
  ad_server : ServerState B D V;
  ad_policy : Policy
}.
Arguments mkAdmin {B D V} _ _.
Arguments ad_server {B D V} _.
Arguments ad_policy {B D V} _.

Section admin.
Context `{Crates} `{Codec} {B D V : Type} `{BlobBackend B} `{BlobDatabase D} `{LfsVersionDatabase V}.
Variable bech32 : string → option (string * list byte).

Notation S := (ServerState B D V).
Notation N := (AdminNode B D V).
Notation M := (MR N Response).

Definition set_access (a : AccessControl) (s : S) : S :=
  mkServer (s_backend s) (s_database s) a (s_stats s) (s_rate_limiter s) (s_base_url s) (s_requirements s)
    (s_body_limit s) (s_lfs_version_db s) (s_seen s) (s_permits s) (s_notified s).
Definition set_node_server (s : S) (n : N) : N := mkAdmin s (ad_policy n).
Definition set_policy (p : Policy) (n : N) : N := mkAdmin (ad_server n) p.

(** The state a handler of the server sees, its access the policy in force. *)
Definition live (l : Reads) (n : N) : S := set_access (policy_access l (ad_policy n)) (ad_server n).
(** A handler of the server, on the node. *)
Definition hosted {R A} (l : Reads) (m : MR S R A) : MR N R A := zoom (live l) set_node_server m.

(** [extract_admin_pubkey]. *)
Definition extract_admin_pubkey (q : ReqEnv) (headers : HeaderMap) (path method : string) (hash : option string)
    : MR S Response string :=
  match extract_auth_event headers with
  | Err e => auth_error e
  | Ok event =>
      verify_once q event "admin" path method hash ;!
      let! access := gets s_access in
      guard (@is_allowed access (ev_pubkey event) Admin) (403, error_json "admin access required") ;!
      ret (ev_pubkey event)
  end.

(** A request to an endpoint: the readable locks, the clocks and the headers. *)
Record AdminCall := mkCall { c_reads : Reads; c_env : ReqEnv; c_headers : HeaderMap }.
Definition admitted (c : AdminCall) (path method : string) (hash : option string) : M string :=
  hosted (c_reads c) (extract_admin_pubkey (c_env c) (c_headers c) path method hash).

(** [handle_admin_stats]. *)
Definition handle_admin_stats (c : AdminCall) : M Response :=
  admitted c "/admin/stats" "GET" None ;!
  let! s := gets ad_server in
  ret (200, JObj [("blobs", JNum (len (s_backend s))); ("total_bytes", JNum (total_bytes (s_backend s)));
                  ("uploads", JNum (upload_count (s_database s))); ("users", JNum (user_count (s_database s)));
                  ("tracked_stats", JNum (Stats.tracked_count (s_stats s)))]).

(** [handle_lfs_stats]. *)
Definition handle_lfs_stats (c : AdminCall) : M (Z * result LfsReport json) :=
  admitted c "/admin/lfs-stats" "GET" None ;!
  let! s := gets ad_server in
  ret match s_lfs_version_db s with
      | Some db =>
          match lfs_stats db with
          | Ok stats =>
              (200, Ok (mkReport (total_versions stats) (total_original_bytes stats) (total_stored_bytes stats)
                          (savings_percent (total_original_bytes stats) (total_stored_bytes stats))
                          (by_storage_type stats)))
          | Err e => (500, Err (error_json ("lfs stats: " +:+ version_error_to_string e)))
          end
      | None => (404, Err (error_json "LFS version database not configured"))
      end.

(** [handle_list_users]. *)
Definition handle_list_users (c : AdminCall) : M Response :=
  admitted c "/admin/users" "GET" None ;!
  let! s := gets ad_server in
  ret (200, JObj [("user_count", JNum (user_count (s_database s)))]).

Definition opt_num (o : option Z) : json := match o with Some n => JNum n | None => JNull end.

(** [handle_get_user]. *)
Definition handle_get_user (c : AdminCall) (pubkey : string) : M Response :=
  admitted c ("/admin/users/" +:+ pubkey) "GET" None ;!
  let! s := gets ad_server in
  let '(d, r) := get_or_create_user (s_database s) pubkey in
  modify (set_node_server (set_database d s)) ;!
  match r with
  | Ok user => ret (200, JObj [("pubkey", JStr (us_pubkey user)); ("quota_bytes", opt_num (us_quota_bytes user));
                               ("used_bytes", JNum (us_used_bytes user))])
  | Err e => ret (500, error_json (db_error_to_string e))
  end.

(** [handle_set_quota]. *)
Definition handle_set_quota (c : AdminCall) (pubkey : string) (quota_bytes : option Z) : M Response :=
  admitted c ("/admin/users/" +:+ pubkey +:+ "/quota") "PUT" None ;!
  let! s := gets ad_server in
  let '(d, r) := set_quota (s_database s) pubkey quota_bytes in
  modify (set_node_server (set_database d s)) ;!
  match r with
  | Ok _ => ret (200, JObj [("pubkey", JStr pubkey); ("quota_bytes", opt_num quota_bytes)])
  | Err e => ret (500, error_json (db_error_to_string e))
  end.

(** [handle_list_all_blobs]. *)
Definition handle_list_all_blobs (c : AdminCall) : M Response :=
  admitted c "/admin/blobs" "GET" None ;!
  let! s := gets ad_server in
  ret (200, JObj [("blob_count", JNum (len (s_backend s))); ("total_bytes", JNum (total_bytes (s_backend s)))]).

(** [handle_admin_delete_blob]. *)
Definition handle_admin_delete_blob (c : AdminCall) (sha256 : string) : M Response :=
  guard (is_valid_sha256 sha256) (400, error_json "invalid SHA256 hash") ;!
  admitted c ("/admin/blobs/" +:+ sha256) "DELETE" (Some sha256) ;!
  hosted (c_reads c) (erase_blob (c_env c) sha256 (JObj [("deleted", JBool true)]) "blob not found").

(** The role named in a request.  A lower-case letter that is not ASCII is
    never part of one of the three names. *)
Definition role_name (r : string) : option string :=
  let role := to_ascii_lowercase r in
  if decide (role ∈ ["admin"; "member"; "denied"]) then Some role else None.

(** The update of [handle_set_role]: through the live handle, if there is one. *)
Definition update_role (pubkey role : string) (n : N) : N * result unit DbError :=
  let s := ad_server n in
  match role_handle (ad_policy n) with
  | Some rba =>
      let '(rba, d, r) := rba_set_role bech32 rba pubkey role (s_database s) in
      (mkAdmin (set_database d s) (set_role_handle rba (ad_policy n)), r)
  | None => let '(d, r) := set_role (s_database s) pubkey role in (set_node_server (set_database d s) n, r)
  end.

(** [handle_set_role]. *)
Definition handle_set_role (c : AdminCall) (pubkey role : string) : M Response :=
  admitted c ("/admin/users/" +:+ pubkey +:+ "/role") "PUT" None ;!
  match role_name role with
  | None => early (400, error_json "role must be 'admin', 'member', or 'denied'")
  | Some role =>
      let n := normalized bech32 pubkey in
      map_err (fun e => (500, error_json ("set role: " +:+ db_error_to_string e))) (update_role n role) ;!
      ret (200, JObj [("pubkey", JStr n); ("role", JStr role)])
  end.

(** [handle_list_roles]. *)
Definition handle_list_roles (c : AdminCall) : M Response :=
  admitted c "/admin/roles" "GET" None ;!
  let! s := gets ad_server in
  let keys r := JArr (map (fun u => JStr (us_pubkey u)) (unwrap_or (list_users_by_role (s_database s) r) [])) in
  ret (200, JObj [("admins", keys "admin"); ("members", keys "member"); ("denied", keys "denied")]).

Definition no_whitelist : Response := (404, error_json "no whitelist configured").

(** [handle_whitelist_list]. *)
Definition handle_whitelist_list `{HashOrder} (c : AdminCall) : M Response :=
  admitted c "/admin/whitelist" "GET" None ;!
  let! p := gets ad_policy in
  ret match whitelist_handle p with
      | Some wl =>
          let keys := hm_keys (gset_to_gmap () (wl : gset string)) in
          (200, JObj [("count", JNum (Z.of_nat (length keys))); ("pubkeys", JArr (map JStr keys))])
      | None => no_whitelist
      end.

(** A change of the whitelist. *)
Definition change_whitelist (f : Whitelist → Whitelist) (answer : json) : M Response :=
  let! p := gets ad_policy in
  match whitelist_handle p with
  | Some wl => modify (set_policy (set_whitelist_handle (f wl) p)) ;! ret (200, answer)
  | None => ret no_whitelist
  end.
(** [handle_whitelist_add], [handle_whitelist_remove]. *)
Definition handle_whitelist_add (c : AdminCall) (pubkey : string) : M Response :=
  admitted c ("/admin/whitelist/" +:+ pubkey) "PUT" None ;!
  change_whitelist (fun wl => wl_add bech32 wl pubkey) (JObj [("added", JStr pubkey)]).
Definition handle_whitelist_remove (c : AdminCall) (pubkey : string) : M Response :=
  admitted c ("/admin/whitelist/" +:+ pubkey) "DELETE" None ;!
  change_whitelist (fun wl => wl_remove bech32 wl pubkey) (JObj [("removed", JStr pubkey)]).
End admin.
