(* ===== verification/Deployment.v ===== *)
(** * The whole HTTP server

    The Blossom, NIP-96 and administration endpoints on one node
    ([serve_http]), and with the lock endpoints beside them ([serve_web]): the
    requests that reach it, and what a request must present before it changes
    anything the server holds, its locks included.  A mirror request comes with the network it will meet, a
    media upload with the processor the server was built with, the slots that
    are free and how its task ends. *)

From Stdlib Require Import ZArith Lia Ascii String.
From Stdlib Require Import Strings.Byte.
From stdpp Require Import base list gmap strings numbers sets.
From S2P Require Import Prelude Effects Protocol Auth Replay RequestAuth RateLimit Database Access Storage Locks Lfs Stats Server Durable Mirror Media Nip96 Admin.

Open Scope string_scope.
Open Scope Z_scope.
Open Scope handler_scope.

(** ** Requests *)

Inductive HttpRequest `{Urls} :=
| HUpload (l : Reads) (q : ReqEnv) (headers : HeaderMap) (body : Body)
| HGet (l : Reads) (q : ReqEnv) (path : string)
| HHead (l : Reads) (q : ReqEnv) (path : string)
| HDelete (l : Reads) (q : ReqEnv) (sha256 : string) (headers : HeaderMap)
| HList (l : Reads) (pubkey : string)
| HMirror (l : Reads) (q : ReqEnv) (net : Network) (headers : HeaderMap) (body : Body)
| HMedia (l : Reads) (q : ReqEnv) (processor : option MediaProcessor) (slots : Z) (outcome : TaskOutcome)
    (headers : HeaderMap) (body : Body)
| HNipUpload (l : Reads) (q : ReqEnv) (headers : HeaderMap) (body : Body)
| HNipList (l : Reads) (q : ReqEnv) (params : Nip96ListQuery) (headers : HeaderMap)
| HNipDelete (l : Reads) (q : ReqEnv) (sha256 : string) (headers : HeaderMap)
| HAdminStats (c : AdminCall)
| HLfsStats (c : AdminCall)
| HListUsers (c : AdminCall)
| HGetUser (c : AdminCall) (pubkey : string)
| HSetQuota (c : AdminCall) (pubkey : string) (quota_bytes : option Z)
| HListBlobs (c : AdminCall)
| HAdminDelete (c : AdminCall) (sha256 : string)
| HSetRole (c : AdminCall) (pubkey role : string)
| HListRoles (c : AdminCall)
| HWhitelist (c : AdminCall)
| HWhitelistAdd (c : AdminCall) (pubkey : string)
| HWhitelistRemove (c : AdminCall) (pubkey : string).

(** What a request to change something must present: an event in [au_headers]
    that is verified at [au_time] for the rest (the content hash may depend on the
    kind of the event), and the right of its author. *)
Record Authority (S : Type) := mkAuthority {
  au_reads : Reads;
  au_time : Z;
  au_mark : Z;
  au_headers : HeaderMap;
  au_action : string;
  au_path : string;
  au_method : string;
  au_hash : NostrEvent → option string;
  au_right : S → string → Prop
}.
Arguments mkAuthority {S} _ _ _ _ _ _ _ _ _.
Arguments au_reads {S} _.
Arguments au_time {S} _.
Arguments au_mark {S} _.
Arguments au_headers {S} _.
Arguments au_action {S} _.
Arguments au_path {S} _.
Arguments au_method {S} _.
Arguments au_hash {S} _.
Arguments au_right {S} _.

Section deployment.
Context `{Crates} `{Codec} `{Urls} {B D V : Type} `{BlobBackend B} `{BlobDatabase D} `{LfsVersionDatabase V} `{HashOrder}.
Variable bech32 : string → option (string * list byte).

Notation S := (ServerState B D V).
Notation N := (AdminNode B D V).

Definition on_live {R} (l : Reads) (f : S → S * R) (n : N) : N := set_node_server (f (live l n)).1 n.

Definition serve_http (r : HttpRequest) (n : N) : N :=
  match r with
  | HUpload l q headers body => on_live l (handle_upload q headers body) n
  | HGet l q path => on_live l (handle_get_blob q path) n
  | HHead l q path => on_live l (handle_head_blob q path) n
  | HDelete l q sha256 headers => on_live l (handle_delete_blob q sha256 headers) n
  | HList l pubkey => on_live l (handle_list pubkey) n
  | HMirror l q net headers body => on_live l (handle_mirror q net headers body) n
  | HMedia l q processor slots outcome headers body => on_live l (media_served processor slots q outcome headers body) n
  | HNipUpload l q headers body => on_live l (handle_nip96_upload q headers body) n
  | HNipList l q params headers => on_live l (handle_nip96_list q params headers) n
  | HNipDelete l q sha256 headers => on_live l (handle_nip96_delete q sha256 headers) n
  | HAdminStats c => (handle_admin_stats c n).1
  | HLfsStats c => (handle_lfs_stats c n).1
  | HListUsers c => (handle_list_users c n).1
  | HGetUser c pubkey => (handle_get_user c pubkey n).1
  | HSetQuota c pubkey quota => (handle_set_quota c pubkey quota n).1
  | HListBlobs c => (handle_list_all_blobs c n).1
  | HAdminDelete c sha256 => (handle_admin_delete_blob c sha256 n).1
  | HSetRole c pubkey role => (handle_set_role bech32 c pubkey role n).1
  | HListRoles c => (handle_list_roles c n).1
  | HWhitelist c => (handle_whitelist_list c n).1
  | HWhitelistAdd c pubkey => (handle_whitelist_add bech32 c pubkey n).1
  | HWhitelistRemove c pubkey => (handle_whitelist_remove bech32 c pubkey n).1
  end.
Definition serve_http_all (rs : list HttpRequest) (n : N) : N := foldl (fun n r => serve_http r n) n rs.

(** *** The authority of a request *)

Definition may_upload (s : S) (p : string) : Prop := @is_allowed (s_access s) p Upload = true.
Definition may_mirror (s : S) (p : string) : Prop := @is_allowed (s_access s) p Mirror = true.
Definition may_delete (h : string) (s : S) (p : string) : Prop :=
  @role (s_access s) p ≠ RDenied
  ∧ (@role (s_access s) p = RAdmin ∨ is_upload_owner (s_database s) h p = Ok true).
Definition may_administer (s : S) (p : string) : Prop := @is_allowed (s_access s) p Admin = true.

Definition body_hash (body : Body) : option string :=
  match body_data body with Ok data => Some (sha256_hex data) | Err _ => None end.
(** What the event of a mirror request is bound to. *)
Definition mirror_body_hash (body : Body) (e : NostrEvent) : option string :=
  match body_data body with
  | Ok data => match mirror_request data with
               | Ok source => Some (mirror_hash e data source)
               | Err _ => None
               end
  | Err _ => None
  end.
Definition admin_authority (c : AdminCall) (path method : string) (hash : option string) : Authority S :=
  mkAuthority (c_reads c) (q_auth (c_env c)) (q_mark (c_env c)) (c_headers c) "admin" path method (fun _ => hash) may_administer.

Definition authority_of (r : HttpRequest) : option (Authority S) :=
  match r with
  | HUpload l q headers body =>
      Some (mkAuthority l (q_bind q) (q_mark q) headers "upload" "/upload" "PUT" (fun _ => body_hash body) may_upload)
  | HNipUpload l q headers body =>
      Some (mkAuthority l (q_bind q) (q_mark q) headers "upload" "/n96" "POST" (fun _ => body_hash body) may_upload)
  | HMirror l q _ headers body =>
      Some (mkAuthority l (q_bind q) (q_mark q) headers "upload" "/mirror" "PUT" (mirror_body_hash body) may_mirror)
  | HMedia l q _ _ _ headers body =>
      Some (mkAuthority l (q_bind q) (q_mark q) headers "upload" "/media" "PUT" (fun _ => body_hash body) may_upload)
  | HDelete l q h headers =>
      Some (mkAuthority l (q_auth q) (q_mark q) headers "delete" ("/" +:+ h) "DELETE" (fun _ => Some h) (may_delete h))
  | HNipDelete l q h headers =>
      Some (mkAuthority l (q_auth q) (q_mark q) headers "delete" ("/n96/" +:+ h) "DELETE" (fun _ => Some h) (may_delete h))
  | HGetUser c p => Some (admin_authority c ("/admin/users/" +:+ p) "GET" None)
  | HSetQuota c p _ => Some (admin_authority c ("/admin/users/" +:+ p +:+ "/quota") "PUT" None)
  | HAdminDelete c h => Some (admin_authority c ("/admin/blobs/" +:+ h) "DELETE" (Some h))
  | HSetRole c p _ => Some (admin_authority c ("/admin/users/" +:+ p +:+ "/role") "PUT" None)
  | HWhitelistAdd c p => Some (admin_authority c ("/admin/whitelist/" +:+ p) "PUT" None)
  | HWhitelistRemove c p => Some (admin_authority c ("/admin/whitelist/" +:+ p) "DELETE" None)
  | _ => None
  end.

(** The event [e] is verified, its author has the right in [s], and it is used
    up: the replay cache becomes [seen]. *)
Definition presents (a : Authority S) (s : S) (seen : ReplayCache) (e : NostrEvent) : Prop :=
  extract_auth_event (au_headers a) = Ok e
  ∧ verify_auth_event_claims (au_time a) e (au_action a) (s_base_url s) (au_path a) (au_method a) (au_hash a e) = Ok tt
  ∧ mark_auth_event_once (s_seen s) (au_mark a) e = (seen, Ok tt)
  ∧ au_right a s (ev_pubkey e).
Definition presented (a : Authority S) (s : S) (seen : ReplayCache) : Prop := ∃ e, presents a s seen e.

(** What the node holds: the blobs, metadata and versions, and the policy. *)
Definition node_held (n : N) : B * D * option V * Policy := (held_by (ad_server n), ad_policy n).

(** What a request is judged by. *)
Definition judged_by (s : S) := (config_of s, s_base_url s, s_seen s, held_by s).

(** ** What a request changes *)

Lemma check_claims_frame {A} now e a p m h (k : unit → MR S Response A) (s : S) f P :
  (verify_auth_event_claims now e a (s_base_url s) p m h = Ok tt → unless f P (k tt) s) →
  unless (X := B * D * option V) f P (bind (check_claims now e a p m h) k) s.
Proof.
  intros Hk. unfold bind, check_claims. intros s' r.
  destruct (verify_auth_event_claims _ _ _ _ _ _ _) as [[]|]; [by apply Hk | intros [= <- _]; by left].
Qed.

(** A change after the marking of an event used it up. *)
Lemma mark_frame {A} now e (k : unit → MR S Response A) (s : S) (P : S → Prop) :
  (∀ s1, mark_auth_event_once (s_seen s) now e = (s_seen s1, Ok tt) → s1 = set_seen (s_seen s1) s →
     unless held_by P (k tt) s1) →
  unless held_by P (bind (mark_once now e) k) s.
Proof.
  intros Hk. apply unless_bind; [by apply keeps_mark_once |]. intros [] s1. unfold mark_once.
  destruct (mark_auth_event_once _ _ _) as [c [[]|]] eqn:E; [| done]. intros [= <-]. by apply Hk.
Qed.

Lemma unless_releasing {A} n (m : MR S Response A) (P : ReplayCache → Prop) (s : S) :
  unless held_by (fun s' => P (s_seen s')) m s → unless held_by (fun s' => P (s_seen s')) (releasing n m) s.
Proof. intros Hm s' r. unfold releasing. destruct (m s) as [s1 r1] eqn:E. intros [= <- <-]. by apply (Hm s1 r1). Qed.

Lemma unless_with_body {A} limit headers body (k : list byte → MR S Response A) (P : ReplayCache → Prop) (s : S) :
  (∀ data s1, body_data body = Ok data → judged_by s1 = judged_by s →
     unless held_by (fun s' => P (s_seen s')) (k data) s1) →
  unless held_by (fun s' => P (s_seen s')) (with_body limit headers body k) s.
Proof.
  intros Hk. unfold with_body. apply unless_bind; [apply keeps_lift |]. intros units s0 [= <- _].
  apply unless_bind; [by apply keeps_acquire |]. intros [] s1 Ha. apply unless_releasing.
  apply (keeps_run judged_by) in Ha; [| by apply keeps_acquire].
  apply unless_bind; [apply keeps_lift |]. intros data s2 [= <- Hd]. apply Hk; [| done].
  unfold to_bytes in Hd. destruct (body_data body); [| done]. case_decide; [| done]. by injection Hd as ->.
Qed.

Lemma keeps_seen_put {R} q ctx data (f : string → R) : keeps s_seen (put_blob (B := B) (D := D) (V := V) q ctx data f).
Proof. unfold put_blob. keeps. Qed.
Lemma keeps_seen_store q headers pk data : keeps s_seen (upload_store (B := B) (D := D) (V := V) q headers pk data).
Proof. unfold upload_store. keeps. apply keeps_seen_put. Qed.

Lemma keeps_upload_judged q headers : keeps judged_by (upload_authorize (B := B) (D := D) (V := V) q headers).
Proof. unfold upload_authorize. keeps. Qed.

(** Who an authorized upload is by. *)
Lemma upload_authorize_ok q headers (s s' : S) ev pk limit :
  upload_authorize q headers s = (s', Ok (ev, pk, limit)) →
  match ev with
  | Some e => extract_auth_event headers = Ok e ∧ may_upload s (ev_pubkey e)
  | None => contains_header headers "authorization" = false ∧ require_auth (s_requirements s) = false
  end.
Proof.
  unfold upload_authorize. intros (o & s1 & Ho & Hu)%bind_ok.
  assert (Hev : s1 = s ∧ match o with Some e => extract_auth_event headers = Ok e
                         | None => contains_header headers "authorization" = false end).
  { destruct (contains_header _ _); [| by injection Ho as <- <-].
    destruct (extract_auth_event _) as [e|]; [| done]. by injection Ho as <- <-. }
  destruct Hev as [-> Hev]. clear Ho.
  apply bind_ok in Hu as (r & s2 & [= <- <-] & (u & s2 & [Hreq ->]%guard_ok & Hu)%bind_ok).
  apply bind_ok in Hu as (p & s2 & Hp & Hu). apply bind_ok in Hu as (u2 & s3 & _ & (l & s4 & _ & [= _ <- _ _])%bind_ok).
  destruct o as [e|].
  - apply bind_ok in Hp as (u3 & s5 & [-> _]%check_claims_ok & Hp).
    apply bind_ok in Hp as (a & s5 & [= <- <-] & (u4 & s5 & [Ha ->]%guard_ok & _)%bind_ok). done.
  - split; [done |]. apply negb_true_iff in Hreq. by rewrite andb_true_r in Hreq.
Qed.
(** The principal of an upload that carries an event is its author. *)
Lemma upload_author q headers (s s' : S) ev pk limit e :
  upload_authorize q headers s = (s', Ok (ev, pk, limit)) → extract_auth_event headers = Ok e →
  pk = Some (ev_pubkey e).
Proof.
  intros Hu He. assert (Hh : contains_header headers "authorization" = true).
  { unfold extract_auth_event, header_str in He. unfold contains_header. apply bool_decide_eq_true.
    destruct ((headers : gmap string (option string)) !! "authorization"); [by eexists | done]. }
  revert Hu. unfold upload_authorize. rewrite Hh, He. cbn.
  intros (u & s1 & _ & (p & s3 & Hp & Hu)%bind_ok)%bind_ok.
  apply bind_ok in Hu as (u2 & s4 & _ & (l & s5 & _ & [= _ _ <- _])%bind_ok).
  apply bind_ok in Hp as (u3 & s6 & _ & (a & s7 & _ & (u4 & s8 & _ & [= _ <-])%bind_ok)%bind_ok). done.
Qed.

(** An upload over either API, from the binding of its event on. *)
Lemma unless_bound {A} q event path method hash (k : MR S Response A) (s0 s : S) headers l right :
  judged_by s = judged_by s0 → extract_auth_event headers = Ok event → right s0 (ev_pubkey event) →
  keeps s_seen k →
  unless held_by
    (fun s' => presented (mkAuthority l (q_bind q) (q_mark q) headers "upload" path method (fun _ => hash) right)
                 s0 (s_seen s'))
    (check_claims (q_bind q) event "upload" path method hash ;!
     mark_once (q_mark q) event ;! k) s.
Proof.
  intros [= Ha Hr Hb Hs Hh] He Hright Hk. apply check_claims_frame. intros Hv. apply mark_frame. intros s1 Hm _.
  apply (unless_after held_by s_seen); [done |]. intros s' Hs'. exists event. unfold presents. cbn.
  rewrite Hs', <- Hb, <- Hs. done.
Qed.

Lemma unless_upload l q headers body (s : S) :
  contains_header headers "authorization" || require_auth (s_requirements s) = true →
  unless held_by (fun s' => presented (mkAuthority l (q_bind q) (q_mark q) headers "upload" "/upload" "PUT"
                                         (fun _ => body_hash body) may_upload) s (s_seen s'))
    (let! auth := upload_authorize q headers in
     let '(auth_event, pubkey, limit) := auth in
     with_body limit headers body (fun data => upload_bind q auth_event data ;! upload_store q headers pubkey data)) s.
Proof.
  intros Hnamed. apply unless_bind.
  { intros s0. pose proof (keeps_upload_judged q headers s0). unfold judged_by in *. congruence. }
  intros [[ev pk] limit] s1 Ha. pose proof (upload_authorize_ok _ _ _ _ _ _ _ Ha) as Hev.
  apply (keeps_run judged_by) in Ha; [| apply keeps_upload_judged].
  destruct ev as [e|]; [| destruct Hev as [E1 E2]; by rewrite E1, E2 in Hnamed].
  destruct Hev as [He Hright]. apply unless_with_body. intros data s2 Hd Hj. unfold body_hash. rewrite Hd.
  unfold upload_bind. apply unless_assoc, unless_guard. intros _. cbv beta iota. apply unless_assoc.
  apply unless_bound; [by rewrite Hj | done | done | apply keeps_seen_store].
Qed.

Lemma keeps_seen_nip_store q headers pk data : keeps s_seen (nip96_store (B := B) (D := D) (V := V) q headers pk data).
Proof. unfold nip96_store. keeps. Qed.

Lemma unless_nip96_upload l q headers body (s : S) :
  unless held_by (fun s' => presented (mkAuthority l (q_bind q) (q_mark q) headers "upload" "/n96" "POST"
                                         (fun _ => body_hash body) may_upload) s (s_seen s')) (nip96_upload q headers body) s.
Proof.
  unfold nip96_upload, nip96_authorize.
  destruct (extract_auth_event headers) as [e|] eqn:He; [| by apply unless_keeps].
  apply unless_assoc, check_claims_frame. intros _. cbv beta. apply unless_assoc, unless_bind; [keeps |]. intros access s1 [= <- <-].
  apply unless_assoc, unless_guard. intros Hright.
  apply unless_assoc, unless_bind; [keeps |]. intros [] s1 Hrate.
  apply (keeps_run judged_by) in Hrate; [| keeps]. apply unless_assoc, unless_bind; [keeps |]. intros limit s2 [= <- _].
  cbn. intros s' r Hr. revert s' r Hr. apply unless_with_body. intros data s2 Hd Hj. unfold body_hash. rewrite Hd.
  unfold nip96_bind. apply unless_assoc, unless_guard. intros _. apply unless_assoc.
  apply unless_bound; [by rewrite Hj | done | done | apply keeps_seen_nip_store].
Qed.

(** *** Mirroring and media *)

Lemma judged_same (s s' : S) :
  judged_by s = judged_by s' → s_base_url s = s_base_url s' ∧ s_seen s = s_seen s'.
Proof. intros Hj. split; [exact (f_equal (fun x => x.1.1.2) Hj) | exact (f_equal (fun x => x.1.2) Hj)]. Qed.

(** A body that was read and handled. *)
Lemma with_body_judged {A} limit headers body (k : list byte → MR S Response A) (s s' : S) x :
  with_body limit headers body k s = (s', Ok x) →
  ∃ data s1 s2, body_data body = Ok data ∧ judged_by s1 = judged_by s ∧ k data s1 = (s2, Ok x)
    ∧ judged_by s' = judged_by s2.
Proof.
  unfold with_body. intros (units & s0 & [= <- _] & (u & s1 & Ha & Hk)%bind_ok)%bind_ok.
  apply (keeps_run judged_by) in Ha; [| by apply keeps_acquire]. unfold releasing in Hk.
  destruct (bind _ _ s1) as [s2 r] eqn:E. injection Hk as <- ->. apply bind_ok in E as (data & s3 & [= <- Hd] & Hk).
  exists data, s1, s2. split; [| done]. unfold to_bytes in Hd. destruct (body_data body); [| done].
  case_decide; [by injection Hd as -> | done].
Qed.

Lemma mark_once_ok now e (s s' : S) u :
  mark_once now e s = (s', Ok u) →
  mark_auth_event_once (s_seen s) now e = (s_seen s', Ok tt) ∧ s' = set_seen (s_seen s') s.
Proof. unfold mark_once. destruct (mark_auth_event_once _ _ _) as [c [[]|]] eqn:E; [| done]. by intros [= <- _]. Qed.

Lemma keeps_seen_mirror_store q source pk data :
  keeps s_seen (mirror_store (B := B) (D := D) (V := V) q source pk data).
Proof. unfold mirror_store. keeps. Qed.

Lemma unless_mirror l q net headers body (s : S) :
  unless held_by (fun s' => presented (mkAuthority l (q_bind q) (q_mark q) headers "upload" "/mirror" "PUT"
                                         (mirror_body_hash body) may_mirror) s (s_seen s')) (mirror q net headers body) s.
Proof.
  unfold mirror. destruct (extract_auth_event headers) as [e|] eqn:He; [| by apply unless_keeps].
  apply unless_bind; [unfold mirror_authorize; keeps |]. intros limit s1 Ha.
  assert (Hj : judged_by s1 = judged_by s) by (revert Ha; apply (keeps_run judged_by); unfold mirror_authorize; keeps).
  assert (Hright : may_mirror s (ev_pubkey e)).
  { unfold mirror_authorize in Ha. apply bind_ok in Ha as (u & s2 & [-> _]%check_claims_ok & Ha).
    apply bind_ok in Ha as (access & s2 & [= <- <-] & (u2 & s2 & [Hr _]%guard_ok & _)%bind_ok). done. }
  clear Ha. apply unless_bind.
  { unfold with_body, mirror_bind. keeps. }
  intros source s2 (data & s3 & s4 & Hd & Hj3 & Hb & Hj4)%with_body_judged.
  assert (Hseen : presented (mkAuthority l (q_bind q) (q_mark q) headers "upload" "/mirror" "PUT"
                               (mirror_body_hash body) may_mirror) s (s_seen s2)).
  { unfold mirror_bind in Hb. destruct (mirror_request data) as [src|] eqn:Hreq; [| done].
    apply bind_ok in Hb as (u & s5 & [-> Hv]%check_claims_ok & (u2 & s6 & [Hm _]%mark_once_ok & [= <- _])%bind_ok).
    exists e. unfold presents, mirror_body_hash. cbn. rewrite Hd, Hreq.
    apply judged_same in Hj as [<- <-], Hj3 as [<- <-], Hj4 as [_ ->]. done. }
  apply (unless_after held_by s_seen); [| by intros s' ->].
  keeps. apply keeps_seen_mirror_store.
Qed.

(** From the body of a media upload on. *)
Lemma unless_media_finish l q outcome headers body processor limit e (s0 s : S) :
  judged_by s = judged_by s0 → extract_auth_event headers = Ok e → may_upload s0 (ev_pubkey e) →
  unless held_by (fun s' => presented (mkAuthority l (q_bind q) (q_mark q) headers "upload" "/media" "PUT"
                                         (fun _ => body_hash body) may_upload) s0 (s_seen s'))
    (with_body limit headers body (media_finish q outcome e processor)) s.
Proof.
  intros Hj He Hright. apply unless_with_body. intros data s1 Hd Hj1. unfold body_hash. rewrite Hd.
  unfold media_finish, media_bind. apply unless_assoc, unless_guard. intros _. apply unless_assoc.
  apply check_claims_frame. intros Hv. apply unless_assoc, mark_frame. intros s2 Hm _.
  apply (unless_after held_by s_seen); [keeps; unfold media_store; keeps |]. intros s' Hs'. exists e. unfold presents. cbn.
  apply judged_same in Hj as [<- <-], Hj1 as [<- <-]. by rewrite Hs'.
Qed.

Lemma media_authorize_ok processor q e (s s' : S) x :
  media_authorize processor q e s = (s', Ok x) → judged_by s' = judged_by s ∧ may_upload s (ev_pubkey e).
Proof.
  intros Ha. split; [eapply keeps_run; [| exact Ha]; unfold media_authorize; keeps |].
  unfold media_authorize in Ha. apply bind_ok in Ha as (u & s2 & [-> _]%check_claims_ok & Ha).
  by apply bind_ok in Ha as (access & s2 & [= <- <-] & (u2 & s2 & [Hr _]%guard_ok & _)%bind_ok).
Qed.

Lemma media_changes l q processor slots outcome headers body (s : S) :
  let s' := (media_served processor slots q outcome headers body s).1 in
  held_by s' = held_by s
  ∨ presented (mkAuthority l (q_bind q) (q_mark q) headers "upload" "/media" "PUT" (fun _ => body_hash body) may_upload)
      s (s_seen s').
Proof.
  set (P := fun s' : S => presented (mkAuthority l (q_bind q) (q_mark q) headers "upload" "/media" "PUT"
                                       (fun _ => body_hash body) may_upload) s (s_seen s')).
  unfold media_served, handle_media_upload. set (n := mkMediaNode s slots 0).
  assert (Hu : unless (fun n => held_by (md_server n)) (fun n => P (md_server n))
                 (media_upload processor q outcome headers body) n).
  2: { destruct (unless_respond _ _ _ _ Hu) as [E | E]; destruct (respond _ n); [by left | by right]. }
  unfold media_upload. destruct (extract_auth_event headers) as [e|] eqn:He; [| by apply unless_keeps].
  apply unless_bind.
  { intros n0. unfold on_server, zoom. assert (Hk : keeps held_by (media_authorize (B := B) (D := D) (V := V) processor q e))
      by (unfold media_authorize; keeps). specialize (Hk (md_server n0)). by destruct (media_authorize _ _ _ _). }
  intros [p limit] n1 Ha. unfold on_server, zoom in Ha. cbn [md_server n] in Ha.
  destruct (media_authorize processor q e s) as [s1 r] eqn:Em. injection Ha as <- ->.
  apply media_authorize_ok in Em as [Hj Hright].
  apply unless_bind; [intros n0; unfold take_slot; by case_decide |]. intros u n2 Ht.
  assert (E2 : md_server n2 = s1) by (unfold take_slot in Ht; case_decide; by injection Ht as <-).
  intros n3 x (n4 & E4 & ->)%with_slot_server.
  refine (unless_zoom md_server set_md_server held_by P _ n2 _ _ n4 x E4); [done |]. rewrite E2.
  by apply unless_media_finish.
Qed.

(** *** Deletion *)

Lemma keeps_seen_rebase env deltas : keeps s_seen (rebase_all (B := B) (D := D) (V := V) env deltas).
Proof. induction deltas as [|d deltas IH]; cbn; [done |]. apply keeps_bind; [unfold rebase_one; keeps | done]. Qed.
Lemma keeps_seen_physically q h p : keeps s_seen (delete_physically (B := B) (D := D) (V := V) q h p).
Proof. unfold delete_physically, remove_blob. keeps; [apply keeps_seen_rebase | by destruct (s_lfs_version_db s)]. Qed.
Lemma keeps_seen_own h p : keeps s_seen (delete_own (B := B) (D := D) (V := V) h p).
Proof. unfold delete_own. keeps. Qed.
Lemma keeps_seen_erase q h j t : keeps s_seen (erase_blob (B := B) (D := D) (V := V) q h j t).
Proof. unfold erase_blob. keeps. Qed.

(** Only the owner of a blob passes [delete_own], or changes anything in it. *)
Lemma unless_own {A} h p (k : option Response → MR S Response A) (P : ReplayCache → Prop) (s : S) :
  (is_upload_owner (s_database s) h p = Ok true → P (s_seen s)) → (∀ o, keeps s_seen (k o)) →
  unless held_by (fun s' => P (s_seen s')) (bind (delete_own h p) k) s.
Proof.
  intros Ho Hk. destruct (unwrap_or (is_upload_owner (s_database s) h p) false) eqn:E.
  - apply (unless_after held_by s_seen); [apply keeps_bind; [apply keeps_seen_own | done] |].
    intros s' ->. apply Ho. by destruct (is_upload_owner _ _ _) as [[]|].
  - intros s' r. unfold delete_own, bind, gets, guard. rewrite E. intros [= <- _]. by left.
Qed.

(** The authorization of a deletion, over either API. *)
Lemma unless_deletes {R} l q h headers path e (gone : string → MR S Response R) (s : S) (denied : Response)
    (answer : option Response → MR S Response R) :
  extract_auth_event headers = Ok e → keeps s_seen (gone (ev_pubkey e)) → (∀ o, keeps s_seen (answer o)) →
  unless held_by (fun s' => presented (mkAuthority l (q_auth q) (q_mark q) headers "delete" path "DELETE"
                                         (fun _ => Some h) (may_delete h)) s (s_seen s'))
    (check_claims (q_auth q) e "delete" path "DELETE" (Some h) ;!
     mark_once (q_mark q) e ;!
     let! access := gets s_access in
     guard (negb (bool_decide (@role access (ev_pubkey e) = RDenied))) denied ;!
     if decide (@role access (ev_pubkey e) = RAdmin) then gone (ev_pubkey e)
     else let! o := delete_own h (ev_pubkey e) in answer o) s.
Proof.
  intros He Hgone Hans. apply check_claims_frame. intros Hv. apply mark_frame. intros s1 Hm Es1.
  apply unless_bind; [keeps |]. intros access s2 [= <- <-]. rewrite Es1. cbn. apply unless_guard. intros Hr.
  apply negb_true_iff, bool_decide_eq_false in Hr. destruct (decide _) as [Ha|Ha].
  - apply (unless_after held_by s_seen); [done |]. intros s' ->. exists e. unfold presents, may_delete. cbn. auto 10.
  - apply (unless_own _ _ _ (fun c => presented _ _ c)); [| done]. intros Ho. exists e. unfold presents, may_delete. cbn.
    cbn in Ho. auto 10.
Qed.

Lemma unless_delete l q h headers (s : S) :
  unless held_by (fun s' => presented (mkAuthority l (q_auth q) (q_mark q) headers "delete" ("/" +:+ h) "DELETE"
                                         (fun _ => Some h) (may_delete h)) s (s_seen s')) (delete_body q h headers) s.
Proof.
  unfold delete_body. apply unless_guard. intros _. destruct (extract_auth_event headers) as [e|] eqn:He; [| by apply unless_keeps].
  apply (unless_deletes l q h headers _ e (delete_physically q h)); [done | apply keeps_seen_physically |].
  intros [o|]; [done | apply keeps_seen_physically].
Qed.

Lemma unless_nip96_delete l q h headers (s : S) :
  unless held_by (fun s' => presented (mkAuthority l (q_auth q) (q_mark q) headers "delete" ("/n96/" +:+ h) "DELETE"
                                         (fun _ => Some h) (may_delete h)) s (s_seen s')) (nip96_delete q h headers) s.
Proof.
  unfold nip96_delete. apply unless_guard. intros _. destruct (extract_auth_event headers) as [e|] eqn:He; [| by apply unless_keeps].
  apply unless_assoc. apply (unless_deletes l q h headers _ e (fun _ => erase_blob q h _ _)); [done | apply keeps_seen_erase |].
  intros [o|]; [done | apply keeps_seen_erase].
Qed.

(** *** Administration *)

Definition node_seen (n : N) : ReplayCache := s_seen (ad_server n).

Lemma keeps_hosted {R A X Y} (f : N → X) (g : S → Y) l (m : MR S R A) :
  keeps g m → (∀ n s, g s = g (live l n) → f (set_node_server s n) = f n) → keeps f (hosted l m).
Proof. intros Hm Hf n. unfold hosted, zoom. specialize (Hm (live l n)). destruct (m (live l n)). by apply Hf. Qed.

Lemma keeps_admitted_held c path m h : keeps node_held (admitted (B := B) (D := D) (V := V) c path m h).
Proof.
  apply (keeps_hosted node_held held_by).
  - unfold extract_admin_pubkey, verify_once. keeps.
  - intros n s Hs. unfold node_held, set_node_server. cbn [ad_server ad_policy]. by rewrite Hs.
Qed.

(** An admitted caller showed an event of an administrator. *)
Lemma admitted_ok c path m h (n n' : N) p :
  admitted c path m h n = (n', Ok p) →
  presented (admin_authority c path m h) (live (c_reads c) n) (node_seen n').
Proof.
  unfold admitted, hosted, zoom, extract_admin_pubkey.
  destruct (extract_auth_event (c_headers c)) as [e|] eqn:He; [| done].
  destruct (bind _ _ (live (c_reads c) n)) as [s r] eqn:Hb. intros [= <- ->].
  apply bind_ok in Hb as (u & s1 & (u1 & s2 & [-> Hv]%check_claims_ok & Hm)%bind_ok & Hg).
  unfold mark_once in Hm. destruct (mark_auth_event_once _ _ _) as [seen [[]|]] eqn:Em; [| done].
  injection Hm as <- _. apply bind_ok in Hg as (a & s2 & [= <- <-] & (u2 & s2 & [Ha ->]%guard_ok & [= <- _])%bind_ok).
  exists e. unfold presents, node_seen. cbn in *. auto.
Qed.

Lemma unless_admitted {A} c path m h (k : string → MR N Response A) (n : N) :
  (∀ p, keeps node_seen (k p)) →
  unless node_held (fun n' => presented (admin_authority c path m h) (live (c_reads c) n) (node_seen n'))
    (bind (admitted c path m h) k) n.
Proof.
  intros Hk. apply unless_bind; [apply keeps_admitted_held |]. intros p n1 Ha.
  apply (unless_after _ node_seen); [apply Hk |]. intros n' ->. by eapply admitted_ok.
Qed.

(** Handlers that only read leave everything but the replay cache. *)
Lemma reads_only {A} c path m h (k : string → MR N Response A) (n : N) :
  (∀ p, keeps node_held (k p)) → node_held (bind (admitted c path m h) k n).1 = node_held n.
Proof. intros Hk. apply keeps_bind; [apply keeps_admitted_held | done]. Qed.

Lemma keeps_seen_role pk role : keeps node_seen (update_role (B := B) (V := V) bech32 pk role).
Proof.
  intros n. unfold update_role. destruct (role_handle _).
  - by destruct (rba_set_role _ _ _ _ _) as [[? ?] ?].
  - by destruct (set_role _ _ _).
Qed.

(** A change made by [r] was authorized. *)
Definition authorized_change (r : HttpRequest) (n : N) : Prop :=
  ∃ a, authority_of r = Some a ∧ presented a (live (au_reads a) n) (node_seen (serve_http r n)).

Lemma changes_hosted {R} r (n : N) a (f : S → S * R) :
  authority_of r = Some a → serve_http r n = on_live (au_reads a) f n →
  (let s := live (au_reads a) n in held_by (f s).1 = held_by s ∨ presented a s (s_seen (f s).1)) →
  node_held (serve_http r n) = node_held n ∨ authorized_change r n.
Proof.
  intros Ha Hr Hu. unfold authorized_change. rewrite Hr.
  destruct Hu as [E | E]; [| right; by exists a]. left. unfold node_held, on_live. cbn. by rewrite E.
Qed.
Lemma changes_served r (n : N) a (m : MR S Response Response) :
  authority_of r = Some a → serve_http r n = on_live (au_reads a) (respond m) n →
  unless held_by (fun s' => presented a (live (au_reads a) n) (s_seen s')) m (live (au_reads a) n) →
  node_held (serve_http r n) = node_held n ∨ authorized_change r n.
Proof. intros Ha Hr Hu. eapply changes_hosted; [done.. |]. exact (unless_respond _ _ _ _ Hu). Qed.

Lemma changes_administered {A} r (n : N) c path m h (k : string → MR N Response A) :
  authority_of r = Some (admin_authority c path m h) →
  serve_http r n = (bind (admitted c path m h) k n).1 → (∀ p, keeps node_seen (k p)) →
  node_held (serve_http r n) = node_held n ∨ authorized_change r n.
Proof.
  intros Ha Hr Hk. unfold authorized_change. rewrite Hr. pose proof (unless_admitted c path m h k n Hk) as Hu.
  destruct (bind _ _ n) as [n' x] eqn:E. destruct (Hu n' x E); [by left | right; by eexists].
Qed.

Lemma nip96_list_held l q params headers (n : N) :
  node_held (on_live l (handle_nip96_list q params headers) n) = node_held n.
Proof.
  assert (Hk : keeps held_by (nip96_list (B := B) (V := V) q params headers)) by (unfold nip96_list, verify_once; keeps).
  pose proof (unless_respond held_by (fun _ => False) _ (live l n) (unless_keeps _ _ _ _ Hk)) as [E | []].
  change (handle_nip96_list q params headers (live l n)) with (respond (nip96_list q params headers) (live l n)) in *.
  unfold node_held, on_live. cbn [set_node_server ad_server ad_policy]. unfold handle_nip96_list. by rewrite E.
Qed.

(** The one change that needs no event. *)
Definition anonymous_upload (r : HttpRequest) (n : N) : Prop :=
  ∃ l q headers body, r = HUpload l q headers body
    ∧ contains_header headers "authorization" = false ∧ require_auth (s_requirements (ad_server n)) = false.

Lemma change_authority r (n : N) :
  (node_held (serve_http r n) = node_held n ∨ authorized_change r n) ∨ anonymous_upload r n.
Proof.
  destruct r as [l q headers body|l q path|l q path|l q h headers|l pk|l q net headers body
    |l q processor slots outcome headers body|l q headers body|l q params headers
    |l q h headers|c|c|c|c pk|c pk quota|c|c h|c pk role|c|c|c pk|c pk];
    try (do 2 left; by (apply reads_only; intros p; keeps)).
  - destruct (contains_header headers "authorization" || require_auth (s_requirements (ad_server n))) eqn:Ea.
    + left. eapply changes_served; [reflexivity | reflexivity |]. by apply unless_upload.
    + right. apply orb_false_iff in Ea. exists l, q, headers, body. tauto.
  - do 2 left. cbn. unfold on_live, handle_get_blob. by repeat case_match.
  - do 2 left. cbn. unfold on_live, handle_head_blob. by repeat case_match.
  - left. eapply changes_served; [reflexivity | reflexivity | apply unless_delete].
  - by do 2 left.
  - left. eapply changes_served; [reflexivity | reflexivity | apply unless_mirror].
  - left. eapply changes_hosted; [reflexivity | reflexivity | apply media_changes].
  - left. eapply changes_served; [reflexivity | reflexivity | apply unless_nip96_upload].
  - do 2 left. apply nip96_list_held.
  - left. eapply changes_served; [reflexivity | reflexivity | apply unless_nip96_delete].
  - left. eapply changes_administered; [reflexivity | reflexivity |]. intros p n0. cbn.
    by destruct (get_or_create_user _ _) as [? []].
  - left. eapply changes_administered; [reflexivity | reflexivity |]. intros p n0. cbn.
    by destruct (set_quota _ _ _) as [? []].
  - left. destruct (is_valid_sha256 h) eqn:Ev.
    + eapply changes_administered; [reflexivity | cbn; unfold handle_admin_delete_blob; by rewrite Ev |]. intros p.
      apply (keeps_hosted node_seen s_seen); [apply keeps_seen_erase | done].
    + left. cbn. unfold handle_admin_delete_blob. by rewrite Ev.
  - left. eapply changes_administered; [reflexivity | reflexivity |]. intros p. destruct (role_name role); [| done].
    apply keeps_bind; [apply keeps_map_err, keeps_seen_role | done].
  - left. eapply changes_administered; [reflexivity | reflexivity |]. intros p. unfold change_whitelist. keeps.
  - left. eapply changes_administered; [reflexivity | reflexivity |]. intros p. unfold change_whitelist. keeps.
Qed.
End deployment.

(** ** With the lock endpoints *)

(** The node and its lock database, if it has one. *)
Record WebNode (B D V L : Type) := mkWeb { w_node : AdminNode B D V; w_locks : option L }.
Arguments mkWeb {B D V L} _ _.
Arguments w_node {B D V L} _.
Arguments w_locks {B D V L} _.

Inductive WebRequest `{Urls} :=
| WHttp (r : HttpRequest)
| WCreateLock (l : Reads) (t : Clock) (uuid repo_id : string) (headers : HeaderMap) (path : string)
| WListLocks (l : Reads) (t : Clock) (repo_id : string) (headers : HeaderMap) (params : LockFilters)
| WVerifyLocks (l : Reads) (t : Clock) (repo_id : string) (headers : HeaderMap) (cursor : option string) (limit : option Z)
| WUnlock (l : Reads) (t : Clock) (repo_id lock_id : string) (headers : HeaderMap) (force : bool).

Section web.
Context `{Crates} `{Codec} `{Urls} {B D V L : Type} `{BlobBackend B} `{BlobDatabase D} `{LfsVersionDatabase V}
  `{LockDatabase L} `{HashOrder}.
Variable bech32 : string → option (string * list byte).

Notation S := (ServerState B D V).
Notation N := (AdminNode B D V).
Notation W := (WebNode B D V L).

(** A handler of the locks, on the node. *)
Definition on_locked {R} (l : Reads) (f : AccessControl → LockState L → LockState L * R) (w : W) : W :=
  let n := w_node w in
  let s := (f (policy_access l (ad_policy n))
              (mkLockState (s_seen (ad_server n)) (s_base_url (ad_server n)) (w_locks w))).1 in
  mkWeb (set_node_server (set_seen (ls_seen s) (ad_server n)) n) (ls_lock_db s).

Definition serve_web (r : WebRequest) (w : W) : W :=
  match r with
  | WHttp r => mkWeb (serve_http bech32 r (w_node w)) (w_locks w)
  | WCreateLock l t uuid repo headers path =>
      on_locked l (fun access s => @handle_create_lock _ access L _ s t uuid repo headers path) w
  | WListLocks l t repo headers params => on_locked l (fun _ s => handle_list_locks s t repo headers params) w
  | WVerifyLocks l t repo headers cursor limit =>
      on_locked l (fun _ s => handle_verify_locks s t repo headers cursor limit) w
  | WUnlock l t repo id headers force =>
      on_locked l (fun access s => @handle_unlock _ access L _ s t repo id headers force) w
  end.
Definition serve_web_all (rs : list WebRequest) (w : W) : W := foldl (fun w r => serve_web r w) w rs.

Definition may_lock (s : S) (p : string) : Prop := @is_allowed (s_access s) p Lock = true.

Definition web_authority (r : WebRequest) : option (Authority S) :=
  match r with
  | WHttp r => authority_of r
  | WCreateLock l t _ repo headers _ =>
      Some (mkAuthority l (t_verify t) (t_mark t) headers "lock" ("/lfs/" +:+ repo +:+ "/locks") "POST" (fun _ => None) may_lock)
  | WUnlock l t repo id headers _ =>
      Some (mkAuthority l (t_verify t) (t_mark t) headers "lock" ("/lfs/" +:+ repo +:+ "/locks/" +:+ id +:+ "/unlock") "POST"
              (fun _ => None) (fun _ _ => True))
  | _ => None
  end.

(** What the node holds, its locks included. *)
Definition web_held (w : W) : B * D * option V * Policy * option L := (node_held (w_node w), w_locks w).

(** What a request of [p] does to the locks: a new lock is [p]'s, and only an
    administrator forces an unlock. *)
Definition web_lock_change (r : WebRequest) (p : string) (w w' : W) : Prop :=
  w_locks w' = w_locks w
  ∨ ∃ db, w_locks w = Some db ∧
    match r with
    | WCreateLock _ t uuid repo _ path => w_locks w' = Some (create_lock db (t_act t) uuid repo path p).1
    | WUnlock l _ repo id _ _ =>
        ∃ force, (force = true → @role (policy_access l (ad_policy (w_node w))) p = RAdmin)
          ∧ w_locks w' = Some (delete_lock db repo id force p).1
    | _ => False
    end.

(** The authorization of a lock request shows an event, or changes nothing. *)
Lemma authorize_shows (s s' : LockState L) t headers path method r :
  authorize s t headers path method = (s', r) →
  ls_lock_db s' = ls_lock_db s ∧
  ∀ e, r = Ok e → extract_auth_event headers = Ok e
    ∧ verify_auth_event_claims (t_verify t) e "lock" (ls_base_url s) path method None = Ok tt
    ∧ mark_auth_event_once (ls_seen s) (t_mark t) e = (ls_seen s', Ok tt).
Proof.
  unfold authorize, verify_auth_event. destruct (extract_auth_event headers) as [ev|]; [| by intros [= <- <-]].
  destruct (verify_auth_event_claims _ _ _ _ _ _ _) as [[]|] eqn:Ev; [| by intros [= <- <-]].
  destruct (mark_auth_event_once _ _ _) as [seen [[]|]] eqn:Em; intros [= <- <-]; (split; [done |]); [| done].
  by intros e [= <-].
Qed.

Lemma on_locked_node {R} l (f : AccessControl → LockState L → LockState L * R) (w : W) :
  node_held (w_node (on_locked l f w)) = node_held (w_node w).
Proof. done. Qed.

(** Who changes the locks showed an event, and changed them as himself. *)
Lemma lock_authority r (w : W) :
  (∀ h, r ≠ WHttp h) →
  w_locks (serve_web r w) = w_locks w
  ∨ ∃ a e, web_authority r = Some a
      ∧ presents a (live (au_reads a) (w_node w)) (node_seen (w_node (serve_web r w))) e
      ∧ web_lock_change r (ev_pubkey e) w (serve_web r w).
Proof.
  intros Hr. destruct r as [h|l t uuid repo headers path|l t repo headers params|l t repo headers cursor limit|l t repo id headers force];
    [by destruct (Hr h) | ..]; cbn [serve_web]; unfold on_locked, handle_create_lock, handle_list_locks, handle_verify_locks, handle_unlock; cbv zeta.
  all: match goal with |- context [authorize ?s0 ?t0 ?h ?p ?m] => set (s := s0) in *; destruct (authorize s t0 h p m) as [s1 [e|resp]] eqn:Ea end;
    destruct (authorize_shows _ _ _ _ _ _ _ Ea) as [El Hok]; [| by left].
  - destruct (Hok e eq_refl) as (H1' & H2' & H3'). destruct (@is_allowed (policy_access l (ad_policy (w_node w))) (ev_pubkey e) Lock) eqn:Eal; [| by left].
    cbn [negb]. rewrite El. cbn [s ls_lock_db]. destruct (w_locks w) as [db|] eqn:Edb; [right | left; cbn; by rewrite ?El].
    destruct (create_lock db _ _ _ _ _) as [db' x] eqn:Ec. eexists _, e. split; [reflexivity |]. split; [done |].
    right. exists db. split; [done |]. cbn. by rewrite Ec.
  - left. rewrite El. cbn [s ls_lock_db]. destruct (w_locks w); cbn; by rewrite ?El.
  - left. rewrite El. cbn [s ls_lock_db]. destruct (w_locks w); cbn; by rewrite ?El.
  - destruct (Hok e eq_refl) as (H1' & H2' & H3').
    rewrite El. cbn [s ls_lock_db]. destruct (w_locks w) as [db|] eqn:Edb; [right | left; cbn; by rewrite ?El].
    destruct (delete_lock db _ _ _ _) as [db' x] eqn:Ec. eexists _, e. split; [reflexivity |]. split; [done |].
    right. exists db. split; [done |]. eexists. split; [| cbn; by rewrite Ec].
    intros [_ Hadm]%andb_true_iff. by apply bool_decide_eq_true in Hadm.
Qed.

Lemma web_change_authority r (w : W) :
  web_held (serve_web r w) = web_held w
  ∨ (∃ a e, web_authority r = Some a
      ∧ presents a (live (au_reads a) (w_node w)) (node_seen (w_node (serve_web r w))) e
      ∧ web_lock_change r (ev_pubkey e) w (serve_web r w))
  ∨ ∃ h, r = WHttp h ∧ anonymous_upload h (w_node w).
Proof.
  destruct r as [h| | | |].
  { destruct (change_authority bech32 h (w_node w)) as [[E | (a & Ha & e & He)] | Hanon].
    - left. unfold web_held. cbn. by rewrite E.
    - right. left. exists a, e. split; [done |]. split; [done |]. by left.
    - right. right. by exists h. }
  all: match goal with |- context [serve_web ?r ?w] => destruct (lock_authority r w) as [E | Hx]; [done | left | right; by left] end;
    unfold web_held; rewrite E; f_equal.
Qed.

(** C3: nothing changes over HTTP without authority.  A request to the HTTP
    server, over the Blossom API (mirroring and media included), NIP-96, the
    administration or the lock endpoints, that changes the blobs, the metadata,
    the versions, the policy or the locks carried an event that is authentic,
    fresh and made for the action, URL and method of this request, that had not
    been used and is used up by it, and whose author has the right the request
    needs: to upload, to delete a blob as an administrator or an owner that is
    not denied, to administer, or to lock; a new lock is the author's, and an
    unlock is forced only for an administrator.  The event is bound to the
    content of an upload (the body or the source of a mirror request) or the hash
    of what is deleted; the bodies of the other requests (the quota, the role,
    the path to lock, [force]) are not bound.  The only other case is an upload without
    an Authorization header to a server that requires none. *)
Theorem http_changes_authorized r (w : W) :
  web_held (serve_web r w) ≠ web_held w →
  (∃ a e, web_authority r = Some a
     ∧ presents a (live (au_reads a) (w_node w)) (node_seen (w_node (serve_web r w))) e
     ∧ web_lock_change r (ev_pubkey e) w (serve_web r w))
  ∨ ∃ l q headers body, r = WHttp (HUpload l q headers body)
      ∧ contains_header headers "authorization" = false
      ∧ require_auth (s_requirements (ad_server (w_node w))) = false.
Proof.
  destruct (web_change_authority r w) as [E | [Ha | (h & -> & l & q & headers & body & -> & Hc)]]; [done | by left |].
  intros _. right. exists l, q, headers, body. by split.
Qed.
End web.

(** ** An administrator, a member and their requests *)
Module DeploymentExamples.
Import Concrete ConcreteCodec RequestAuthExamples AccessExamples DurableExamples MirrorExamples.

Definition accounts : MemoryDatabase :=
  (MemoryDatabase.set_role (MemoryDatabase.set_role MemoryDatabase.new public_key_hex "admin").1 key64 "member").1.
(** The server, its roles loaded from its database. *)
Definition node : AdminNode MemoryBackend MemoryDatabase MemoryLfsVersionDatabase :=
  mkAdmin (set_database accounts empty_server) (PolicyRoles (load_from_database accounts) None).

Definition signed_headers (action : string) (hash : option string) (path method : string) : HeaderMap :=
  {["authorization" := Some (auth_header_value (build_blossom_auth_for_request 1000 "n" action hash
      "http://s" ("http://s" +:+ path) method ""))]}.
Definition admin_call (path method : string) : AdminCall :=
  mkCall all_readable request (signed_headers "admin" None path method).
Definition deny_call : AdminCall := admin_call ("/admin/users/" +:+ key64 +:+ "/role") "PUT".
Definition deny : HttpRequest := HSetRole deny_call key64 "Denied".

Definition is_member (p : Policy) : bool :=
  match role_handle p with Some r => bool_decide (key64 ∈ members r) | None => false end.

(** The administrator denies a key, and the member locks a file. *)
Definition web : WebNode MemoryBackend MemoryDatabase MemoryLfsVersionDatabase MemoryLockDatabase := mkWeb node (Some ∅).
Definition deny_web := serve_web no_bech32 (WHttp deny) web.

Lemma http_changes_authorized_witness :
  web_held deny_web ≠ web_held web
  ∧ ∃ a e, web_authority (WHttp deny) = Some a
         ∧ presents a (live (au_reads a) (w_node web)) (node_seen (w_node deny_web)) e.
Proof.
  assert (Hc : web_held deny_web ≠ web_held web).
  { intros E. apply (f_equal (fun h => is_member h.1.2)) in E. vm_compute in E. discriminate E. }
  split; [exact Hc |].
  destruct (http_changes_authorized no_bech32 (WHttp deny) web Hc) as [(a & e & Ha & He & _) | (l & q & h & b & E & _)];
    [exists a, e; exact (conj Ha He) | discriminate E].
Defined.

(** A lock and its removal by a key that is denied in between: over HTTP the role
    of who unlocks his own lock is not looked at. *)
Definition lock_clock : Clock := mkClock 1001 1002 1003.
Definition lock_request : WebRequest :=
  WCreateLock all_readable lock_clock "id1" "r" (signed_headers "lock" None "/lfs/r/locks" "POST") "f".
Definition unlock_request : WebRequest :=
  WUnlock all_readable lock_clock "r" "id1" (signed_headers "lock" None "/lfs/r/locks/id1/unlock" "POST") false.
Definition revoked_web : WebNode MemoryBackend MemoryDatabase MemoryLfsVersionDatabase MemoryLockDatabase :=
  let w := serve_web no_bech32 lock_request web in
  mkWeb (mkAdmin (ad_server (w_node w))
           (PolicyRoles (load_from_database (MemoryDatabase.set_role accounts public_key_hex "denied").1) None)) (w_locks w).
Example denied_owner_unlocks :
  @Access.role (policy_access all_readable (ad_policy (w_node revoked_web))) public_key_hex = RDenied
  ∧ (size <$> w_locks revoked_web, size <$> w_locks (serve_web no_bech32 unlock_request revoked_web)) = (Some 1%nat, Some 0%nat).
Proof. vm_compute. split; reflexivity. Qed.
End DeploymentExamples.
