(* ===== verification/Roles.v ===== *)
(** * Accounts under the whole HTTP server

    Which properties of the metadata and the policy every request keeps, and
    what follows for roles: the database holds only roles the server knows, the
    roles in force are the recorded ones, and a revoked user stays revoked. *)

From Stdlib Require Import ZArith Lia Ascii String.
From Stdlib Require Import Strings.Byte.
From stdpp Require Import base list gmap strings numbers sets.
From S2P Require Import Prelude Effects Protocol Auth Replay RequestAuth RateLimit Database Access Storage Locks Lfs Stats Server Durable Mirror Media Nip96 Admin Deployment.

Open Scope string_scope.
Open Scope Z_scope.
Open Scope handler_scope.

(** ** Invariants of metadata and policy *)

Section invariants.
Context `{Crates} `{Codec} `{Urls} {B D V : Type} `{BlobBackend B} `{BlobDatabase D} `{LfsVersionDatabase V} `{HashOrder}.
Variable bech32 : string → option (string * list byte).

Notation S := (ServerState B D V).
Notation N := (AdminNode B D V).

(** [J] is kept by everything the handlers do to the database and the policy;
    a role may be set where [ok] holds. *)
Class Kept (J : D → Policy → Prop) (ok : string → string → Prop) : Prop := {
  kept_record : ∀ d p r d' x, record_upload d r = (d', x) → J d p → J d' p;
  kept_delete : ∀ d p h d' x, delete_upload d h = (d', x) → J d p → J d' p;
  kept_owner : ∀ d p h k d' x, delete_upload_owner d h k = (d', x) → J d p → J d' p;
  kept_user : ∀ d p k d' x, get_or_create_user d k = (d', x) → J d p → J d' p;
  kept_quota : ∀ d p k n d' x, set_quota d k n = (d', x) → J d p → J d' p;
  kept_role : ∀ (n n' : N) k r x, ok k r → update_role bech32 k r n = (n', x) →
    J (s_database (ad_server n)) (ad_policy n) → J (s_database (ad_server n')) (ad_policy n');
  kept_whitelist : ∀ d p w, J d p → J d (set_whitelist_handle w p)
}.

Context (J : D → Policy → Prop) (ok : string → string → Prop) `{!Kept J ok}.

(** *** The handlers of the server *)

Section policy.
Variable p : Policy.
Definition J_server (s : S) : Prop := J (s_database s) p.

Lemma maintains_unchanged {R A} (m : MR S R A) : keeps s_database m → maintains J_server m.
Proof. apply (maintains_keeps (fun d => J d p) s_database). Qed.

Lemma maintains_record r : maintains J_server (record r).
Proof. intros s Hj. unfold record. destruct (record_upload _ _) eqn:E. by eapply kept_record. Qed.

Lemma maintains_own h k : maintains J_server (delete_own h k).
Proof.
  intros s Hj. unfold delete_own, bind, gets, guard. destruct (unwrap_or _ _); [| done]. cbn.
  destruct (upload_owner_count _ _); [| done]. destruct (decide _); [| done].
  destruct (delete_upload_owner _ _ _) as [d []] eqn:E; by eapply kept_owner.
Qed.

Lemma keeps_db_rebase env deltas : keeps s_database (rebase_all (B := B) (D := D) (V := V) env deltas).
Proof. induction deltas as [|d deltas IH]; cbn; [done |]. apply keeps_bind; [unfold rebase_one; keeps | done]. Qed.

Lemma maintains_remove {R} env h (f : string → R) (g : DbError → R) : maintains J_server (remove_blob env h f g).
Proof.
  unfold remove_blob. apply maintains_read. intros s0 Hj. apply maintains_bind; [| | exact Hj].
  - apply maintains_map_err, maintains_unchanged, keeps_db_rebase.
  - intros _. apply maintains_read. intros s Hs. destruct (try_delete _ _ _) as [b [[]|]]; cbn; [| done..].
    destruct (delete_upload _ _) as [d []] eqn:E; cbn; [destruct (s_lfs_version_db s) |]; by eapply kept_delete.
Qed.

Lemma maintains_erase q h j t : maintains J_server (erase_blob q h j t).
Proof.
  unfold erase_blob. apply maintains_read. intros s Hj. destruct (try_delete _ _ _) as [b [[]|]]; cbn; [| done..].
  destruct (delete_upload _ _) as [d []] eqn:E; cbn; by eapply kept_delete.
Qed.

Lemma maintains_releasing {A} k (m : MR S Response A) : maintains J_server m → maintains J_server (releasing k m).
Proof. intros Hm s Hj. unfold releasing. specialize (Hm s Hj). by destruct (m s). Qed.

Lemma maintains_with_body {A} limit headers body (k : list byte → MR S Response A) :
  (∀ data, maintains J_server (k data)) → maintains J_server (with_body limit headers body k).
Proof.
  intros Hk. unfold with_body. apply maintains_bind; [apply maintains_unchanged; keeps | intros units].
  apply maintains_bind; [apply maintains_unchanged; keeps | intros _]. apply maintains_releasing.
  apply maintains_bind; [apply maintains_unchanged; keeps | done].
Qed.

Lemma keeps_db_put {R} q ctx data (f : string → R) : keeps s_database (put_blob (B := B) (D := D) (V := V) q ctx data f).
Proof. unfold put_blob. keeps. Qed.

(** The steps that touch the database are those above. *)
Ltac maintains :=
  repeat first
    [ match goal with |- ∀ _, _ => intro end
    | solve [apply maintains_unchanged; keeps; apply keeps_db_put]
    | apply maintains_record | apply maintains_remove | apply maintains_erase | apply maintains_own
    | apply maintains_with_body
    | apply maintains_bind
    | match goal with |- maintains _ (match ?x with _ => _ end) => destruct x end ].

Lemma maintains_response (m : MR S Response Response) (s : S) :
  maintains J_server m → J_server s → J_server (respond m s).1.
Proof. intros Hm Hj. unfold respond. specialize (Hm s Hj). by destruct (m s). Qed.

Lemma maintains_upload q headers body (s : S) : J_server s → J_server (handle_upload q headers body s).1.
Proof. apply maintains_response. unfold upload_authorize, upload_bind, upload_store. maintains. Qed.
Lemma maintains_mirror q net headers body (s : S) : J_server s → J_server (handle_mirror q net headers body s).1.
Proof.
  apply maintains_response. unfold mirror, mirror_store.
  destruct (extract_auth_event headers) as [e|]; [| by apply maintains_unchanged].
  apply maintains_bind; [apply maintains_unchanged; unfold mirror_authorize; keeps | intros limit].
  apply maintains_bind; [apply maintains_with_body; intros; apply maintains_unchanged; unfold mirror_bind; keeps | intros source].
  apply maintains_bind; [apply maintains_unchanged; keeps | intros req]. destruct (mirror_permits _); [| by apply maintains_unchanged].
  apply maintains_bind; [apply maintains_unchanged; keeps | intros _]. apply maintains_releasing.
  destruct (fetch_mirror_blob _ _ _).2; [| by apply maintains_unchanged].
  maintains.
Qed.

Lemma maintains_media q processor slots outcome headers body (s : S) :
  J_server s → J_server (media_served processor slots q outcome headers body s).1.
Proof.
  intros Hj. unfold media_served, handle_media_upload. set (n := mkMediaNode s slots 0).
  assert (Hm : maintains (fun n => J_server (md_server n)) (media_upload (B := B) (V := V) processor q outcome headers body)).
  2: { specialize (Hm n Hj). unfold respond. destruct (media_upload _ _ _ _ _ n). exact Hm. }
  assert (Hz : ∀ A (m : MR S Response A), maintains J_server m → maintains (fun n => J_server (md_server n)) (on_server m)).
  { intros A m Hs n0 Hn. unfold on_server, zoom. specialize (Hs _ Hn). destruct (m _). exact Hs. }
  unfold media_upload. destruct (extract_auth_event headers) as [e|]; [| by intros n0].
  apply maintains_bind; [apply Hz, maintains_unchanged; unfold media_authorize; keeps | intros [pr limit]].
  apply maintains_bind; [intros n0 Hn0; unfold take_slot; by case_decide | intros _ n0 Hn0].
  destruct (with_slot _ _ n0) as [n1 r] eqn:E. apply with_slot_server in E as (n2 & E2 & E3). change (J_server (md_server n1)). rewrite E3.
  refine (eq_ind _ (fun x => J_server (md_server x.1)) (Hz _ _ _ n0 Hn0) _ E2).
  apply maintains_with_body. intros data. unfold media_finish, media_store.
  apply maintains_bind; [apply maintains_unchanged; unfold media_bind; keeps | intros mime].
  maintains.
Qed.

Lemma maintains_delete q h headers (s : S) : J_server s → J_server (handle_delete_blob q h headers s).1.
Proof. apply maintains_response. unfold delete_body, delete_physically. maintains. Qed.
Lemma maintains_nip96_upload q headers body (s : S) : J_server s → J_server (handle_nip96_upload q headers body s).1.
Proof. apply maintains_response. unfold nip96_upload, nip96_authorize, nip96_bind, nip96_store. maintains. Qed.
Lemma maintains_nip96_list q params headers (s : S) : J_server s → J_server (handle_nip96_list q params headers s).1.
Proof. apply maintains_response. unfold nip96_list, verify_once. maintains. Qed.
Lemma maintains_nip96_delete q h headers (s : S) : J_server s → J_server (handle_nip96_delete q h headers s).1.
Proof. apply maintains_response. unfold nip96_delete, verify_once. maintains. Qed.
End policy.

(** *** The node *)

Definition J_node (n : N) : Prop := J (s_database (ad_server n)) (ad_policy n).

Lemma maintains_hosted {R A} l (m : MR S R A) :
  (∀ p, maintains (J_server p) m) → maintains J_node (hosted l m).
Proof.
  intros Hm n Hj. unfold hosted, zoom. specialize (Hm (ad_policy n) (live l n) Hj). by destruct (m (live l n)).
Qed.

Lemma maintains_admitted {A} c path m h (k : string → MR N Response A) :
  (∀ p, maintains J_node (k p)) → maintains J_node (bind (admitted c path m h) k).
Proof.
  intros Hk. apply maintains_bind; [| done]. apply maintains_hosted. intros p. apply maintains_unchanged.
  unfold extract_admin_pubkey, verify_once. keeps.
Qed.

Lemma maintains_read_only {A} (m : MR N Response A) : keeps node_held m → maintains J_node m.
Proof. intros Hm n Hj. specialize (Hm n). unfold J_node, node_held, held_by in *. injection Hm as _ -> _ ->. done. Qed.

(** The role changes [r] asks for are allowed. *)
Definition role_ok (r : HttpRequest) : Prop :=
  match r with
  | HSetRole _ pk role => ∀ r, role_name role = Some r → ok (normalized bech32 pk) r
  | _ => True
  end.

Lemma serve_http_kept r (n : N) : role_ok r → J_node n → J_node (serve_http bech32 r n).
Proof.
  intros Hok Hj.
  assert (Hl : ∀ R l (f : S → S * R), (∀ p (s : S), J_server p s → J_server p (f s).1) → J_node (on_live l f n))
    by (intros R l f Hf; apply (Hf (ad_policy n)), Hj).
  destruct r as [l q headers body|l q path|l q path|l q h headers|l pk|l q net headers body
    |l q processor slots outcome headers body|l q headers body|l q params headers
    |l q h headers|c|c|c|c pk|c pk quota|c|c h|c pk role|c|c|c pk|c pk]; cbn [serve_http];
    try (apply maintains_admitted; [| done]; intros p; apply maintains_read_only; by keeps).
  - apply Hl. intros p s. apply maintains_upload.
  - apply Hl. intros p s Hs. unfold handle_get_blob. by repeat case_match.
  - apply Hl. intros p s Hs. unfold handle_head_blob. by repeat case_match.
  - apply Hl. intros p s. apply maintains_delete.
  - by apply Hl.
  - apply Hl. intros p s. apply maintains_mirror.
  - apply Hl. intros p s. apply maintains_media.
  - apply Hl. intros p s. apply maintains_nip96_upload.
  - apply Hl. intros p s. apply maintains_nip96_list.
  - apply Hl. intros p s. apply maintains_nip96_delete.
  - apply maintains_admitted; [| done]. intros p. apply maintains_read. intros n0 Hj0. cbn.
    destruct (get_or_create_user _ _) as [d []] eqn:E; by eapply kept_user.
  - apply maintains_admitted; [| done]. intros p. apply maintains_read. intros n0 Hj0. cbn.
    destruct (set_quota _ _ _) as [d []] eqn:E; by eapply kept_quota.
  - unfold handle_admin_delete_blob. destruct (is_valid_sha256 h); [| done]. apply maintains_admitted; [| done].
    intros p. apply maintains_hosted. intros p'. apply maintains_erase.
  - apply maintains_admitted; [| done]. intros p. destruct (role_name role) as [r|] eqn:Er; [| by intros n0].
    apply maintains_bind; [apply maintains_map_err | by intros ? n0]. intros n0 Hj0.
    destruct (update_role _ _ _ n0) as [n1 x] eqn:E. eapply kept_role; [by apply Hok | exact E | exact Hj0].
  - apply maintains_admitted; [| done]. intros p. apply maintains_read. intros n0 Hj0.
    destruct (whitelist_handle _); [| done]. by apply kept_whitelist.
  - apply maintains_admitted; [| done]. intros p. apply maintains_read. intros n0 Hj0.
    destruct (whitelist_handle _); [| done]. by apply kept_whitelist.
Qed.

Lemma serve_all_kept rs (n : N) : Forall role_ok rs → J_node n → J_node (serve_http_all bech32 rs n).
Proof.
  revert n. induction rs as [|r rs IH]; intros n Hok Hj; [done |]. apply Forall_cons in Hok as [Hr Hok].
  apply IH; [done | by apply serve_http_kept].
Qed.
End invariants.

(** ** The in-memory database *)

Section accounts.
Context `{HashOrder}.
Implicit Types d : MemoryDatabase.

(** Accounts stay, with their roles; a new one is a member's. *)
Definition grows d d' : Prop := ∀ k,
  match users d !! k, users d' !! k with
  | Some u, Some u' => us_role u' = us_role u ∧ us_pubkey u' = us_pubkey u
  | None, Some u' => us_role u' = "member" ∧ us_pubkey u' = k
  | None, None => True
  | Some _, None => False
  end.

Lemma grows_users d d' : users d' = users d → grows d d'.
Proof. intros E k. rewrite E. by destruct (users d !! k). Qed.

Lemma grows_entry d d' k u :
  users d' = <[k := u]> (users d) → us_role u = us_role (MemoryDatabase.user_entry d k) →
  us_pubkey u = us_pubkey (MemoryDatabase.user_entry d k) → grows d d'.
Proof.
  intros E Hr Hp j. rewrite E. unfold MemoryDatabase.user_entry in *. destruct (decide (j = k)) as [->|Hj].
  - rewrite lookup_insert_eq. by destruct (users d !! k).
  - rewrite lookup_insert_ne by done. by destruct (users d !! j).
Qed.

Lemma grows_trans d1 d2 d3 : grows d1 d2 → grows d2 d3 → grows d1 d3.
Proof.
  intros G1 G2 k. specialize (G1 k). specialize (G2 k).
  destruct (users d1 !! k), (users d2 !! k), (users d3 !! k); try done; destruct G1, G2; split; congruence.
Qed.

Lemma grows_debit d d' k n : users d' = MemoryDatabase.debit (users d) k n → grows d d'.
Proof.
  unfold MemoryDatabase.debit. destruct (users d !! k) as [u|] eqn:E; [| apply grows_users]. intros Ed.
  apply (grows_entry d d' k _ Ed); unfold MemoryDatabase.user_entry; by rewrite E.
Qed.

Lemma grows_drop keys d : grows d (foldl MemoryDatabase.drop_owner d keys).
Proof.
  revert d. induction keys as [|k keys IH]; intros d; cbn; [by apply grows_users |].
  eapply grows_trans; [| apply IH]. unfold MemoryDatabase.drop_owner.
  destruct (owners d !! k); [by eapply grows_debit | by apply grows_users].
Qed.

Lemma grows_record d r d' x : record_upload d r = (d', x) → grows d d'.
Proof.
  cbn. unfold MemoryDatabase.record_upload. destruct (decide _); [intros [= <- _]; by apply grows_users |]. cbn.
  set (u := MemoryDatabase.user_entry d (r_pubkey r)).
  assert (Hu : ∀ u', us_role u' = us_role u → us_pubkey u' = us_pubkey u → ∀ d1,
    users d1 = <[r_pubkey r := u']> (users d) → grows d d1) by (intros; by eapply grows_entry).
  destruct (checked_add _ _) as [m|]; [| intros [= <- _]; by apply (Hu u)].
  assert (Hs : ∀ d1, users d1 = <[r_pubkey r := MemoryDatabase.set_used u m]> (<[r_pubkey r := u]> (users d)) → grows d d1)
    by (intros d1 E; rewrite insert_insert_eq in E; by apply (Hu (MemoryDatabase.set_used u m))).
  destruct (us_quota_bytes _) as [limit|]; [case_decide; [intros [= <- _]; by apply (Hu u) |] |];
    intros [= <- _]; apply Hs; cbn; unfold MemoryDatabase.user_entry at 1; cbn; by rewrite lookup_insert_eq.
Qed.

Lemma grows_delete d h d' x : delete_upload d h = (d', x) → grows d d'.
Proof.
  cbn. unfold MemoryDatabase.delete_upload. destruct (uploads d !! h); [| intros [= <- _]; by apply grows_users].
  intros [= <- _]. eapply grows_trans; [| apply grows_users; reflexivity]. eapply grows_trans; [| apply grows_drop].
  by apply grows_users.
Qed.

Lemma grows_owner d h k d' x : delete_upload_owner d h k = (d', x) → grows d d'.
Proof.
  cbn. unfold MemoryDatabase.delete_upload_owner. destruct (owners d !! _); intros [= <- _];
    [by eapply grows_debit | by apply grows_users].
Qed.

Lemma grows_user d k d' x : get_or_create_user d k = (d', x) → grows d d'.
Proof. intros [= <- _]. by eapply grows_entry. Qed.
Lemma grows_quota d k n d' x : set_quota d k n = (d', x) → grows d d'.
Proof. intros [= <- _]. by eapply grows_entry. Qed.
End accounts.

#[export] Hint Resolve grows_record grows_delete grows_owner grows_user grows_quota : blossom.

Section roles.
Context `{CratesLaws} `{Codec} `{Urls} {B V L : Type} `{BlobBackend B} `{LfsVersionDatabase V} `{LockDatabase L} `{HashOrder}.
Variable bech32 : string → option (string * list byte).

Notation D := MemoryDatabase.
Notation S := (ServerState B D V).
Notation N := (AdminNode B D V).

(** A property that survives the growth of the database, whatever the
    whitelist, is kept by all but the role changes. *)
Lemma grows_kept (J : D → Policy → Prop) ok :
  (∀ d d' p, grows d d' → J d p → J d' p) →
  (∀ d p w, J d p → J d (set_whitelist_handle w p)) →
  (∀ (n n' : N) k r x, ok k r → update_role bech32 k r n = (n', x) →
    J (s_database (ad_server n)) (ad_policy n) → J (s_database (ad_server n')) (ad_policy n')) →
  Kept (B := B) (V := V) bech32 J ok.
Proof. intros Hg Hw Hr. split; eauto with blossom. Qed.

(** The users of a database, and what changing a role does to them. *)
Definition role_in (d : D) (k : string) : option string := us_role <$> users d !! k.

Lemma grows_role d d' k :
  grows d d' → role_in d' k = role_in d k ∨ role_in d k = None ∧ role_in d' k = Some "member".
Proof.
  intros G. specialize (G k). unfold role_in. destruct (users d !! k), (users d' !! k); cbn; try done; [| | by left].
  - left. f_equal. tauto.
  - right. split; [done |]. f_equal. tauto.
Qed.
Lemma grows_keys d d' : grows d d' → user_keys d → user_keys d'.
Proof.
  intros G Hk k u' Hu'. specialize (G k). rewrite Hu' in G. destruct (users d !! k) as [u|] eqn:Eu; [| tauto].
  destruct G as [_ ->]. by apply Hk.
Qed.

Lemma role_in_set d n r k :
  role_in (MemoryDatabase.set_role d n r).1 k = if decide (k = n) then Some r else role_in d k.
Proof.
  unfold role_in. cbn. case_decide as Hk; [subst; by rewrite lookup_insert_eq | by rewrite lookup_insert_ne].
Qed.

(** [update_role], on a server with live roles. *)
Lemma update_role_live k r n n' x rba w :
  ad_policy n = PolicyRoles rba w → update_role (B := B) (V := V) bech32 k r n = (n', x) →
  s_database (ad_server n') = (MemoryDatabase.set_role (s_database (ad_server n)) (normalized bech32 k) r).1
  ∧ ∃ rba', ad_policy n' = PolicyRoles rba' w
    ∧ (∀ j, j ∈ admins rba' ↔ if decide (j = normalized bech32 k) then r = "admin" else j ∈ admins rba)
    ∧ (∀ j, j ∈ members rba' ↔ if decide (j = normalized bech32 k) then r = "member" else j ∈ members rba).
Proof.
  intros Hp. unfold update_role. rewrite Hp. cbn [role_handle]. unfold rba_set_role. rewrite set_role_result.
  cbv zeta. intros [= <- _]. split; [done |]. eexists. split; [reflexivity |].
  set (m := normalized bech32 k).
  destruct (decide (r = "admin")) as [->|]; [| destruct (decide (r = "member")) as [->|]]; cbn [admins members];
    split; intros j; destruct (decide (j = m)) as [->|]; set_solver.
Qed.

(** *** Roles stay what the database says *)

Definition role_names : list string := ["admin"; "member"; "denied"].

(** Records are under their own keys, with a known role; the administrators in
    force are the recorded ones, and so are the members. *)
Definition accounts_ok (d : D) (p : Policy) : Prop :=
  user_keys d
  ∧ (∀ k r, role_in d k = Some r → r ∈ role_names)
  ∧ ∃ rba w, p = PolicyRoles rba w
      ∧ (∀ k, k ∈ admins rba ↔ role_in d k = Some "admin")
      ∧ (∀ k, k ∈ members rba → role_in d k = Some "member").

Lemma elem_of_roles d k r : k ∈ roles_in d r ↔ role_in d k = Some r.
Proof. rewrite elem_of_roles_in. unfold role_in. destruct (users d !! k); naive_solver. Qed.

Lemma accounts_grow d d' p : grows d d' → accounts_ok d p → accounts_ok d' p.
Proof.
  intros G (Hk & Hr & rba & w & -> & Ha & Hm). split; [by eapply grows_keys |]. split.
  - intros k r Hrole. destruct (grows_role _ _ k G) as [E | [_ E]]; rewrite E in Hrole; [by eapply Hr |].
    injection Hrole as <-. unfold role_names. set_solver.
  - exists rba, w. split; [done |]. split; intros k; destruct (grows_role _ _ k G) as [E | [E0 E]].
    + by rewrite E.
    + rewrite Ha, E0, E. split; intros [=].
    + rewrite E. apply Hm.
    + rewrite E. intros Hin. apply Hm in Hin. congruence.
Qed.

#[local] Instance accounts_kept : Kept (B := B) (V := V) bech32 accounts_ok (fun _ r => r ∈ role_names).
Proof.
  apply grows_kept; [apply accounts_grow | |].
  - intros d p w (Hk & Hr & rba & w' & -> & Hs). split; [done |]. split; [done |]. by exists rba, (Some w).
  - intros n n' k r x Hok Hu (Hk & Hr & rba & w & Hp & Ha & Hm).
    destruct (update_role_live k r n n' x rba w Hp Hu) as (-> & rba' & -> & Ha' & Hm').
    split; [by apply set_role_user_keys |]. split.
    + intros j r'. rewrite role_in_set. case_decide; [by intros [= <-] | apply Hr].
    + exists rba', w. split; [done |]. split; intros j; rewrite role_in_set.
      * rewrite Ha'. case_decide; [naive_solver | apply Ha].
      * rewrite Hm'. case_decide; [naive_solver | apply Hm].
Qed.

Lemma role_name_valid role r : role_name role = Some r → r ∈ role_names.
Proof. unfold role_name. case_decide; [by intros [= <-] | done]. Qed.

(** C21: the accounts are well formed, whatever requests come over the Blossom,
    NIP-96 and administration APIs.  A server with the memory database, started
    on accounts under their own keys with known roles, its policy loaded from
    them, keeps every account under its own key and with one of the three roles;
    and the role in force for a key is the one that would be loaded from the
    accounts as they are by then, except for the keys the policy denies whose
    account records a member: those a look-up, a quota or an upload made, which
    would be loaded as members. *)
Theorem accounts_typed rs (n : N) w :
  user_keys (s_database (ad_server n)) →
  (∀ k r, role_in (s_database (ad_server n)) k = Some r → r ∈ role_names) →
  ad_policy n = PolicyRoles (load_from_database (s_database (ad_server n))) w →
  let n' := serve_http_all bech32 rs n in
  let d' := s_database (ad_server n') in
  user_keys d' ∧ (∀ k r, role_in d' k = Some r → r ∈ role_names)
  ∧ ∃ rba w', ad_policy n' = PolicyRoles rba w'
      ∧ ∀ k, rba_role true true (load_from_database d') k = rba_role true true rba k
             ∨ rba_role true true rba k = RDenied ∧ role_in d' k = Some "member".
Proof.
  intros Hk Hr Hp n' d'. assert (Hn : J_node accounts_ok n').
  { apply serve_all_kept with (ok := fun _ r => r ∈ role_names); [apply accounts_kept | |].
    - apply Forall_forall. intros []; try done. intros _ r. apply role_name_valid.
    - split; [done |]. split; [done |]. eexists _, w. split; [exact Hp |]. rewrite (load_roles _ Hk). cbn.
      split; intros k; by rewrite elem_of_roles. }
  destruct Hn as (Hk' & Hr' & rba & w' & Hp' & Ha & Hm). split; [done |]. split; [done |].
  exists rba, w'. split; [done |]. intros k. rewrite (load_roles _ Hk'). unfold rba_role. cbn.
  rewrite (bool_decide_ext (k ∈ roles_in _ "admin") (k ∈ admins rba)) by (by rewrite elem_of_roles, Ha).
  destruct (bool_decide (k ∈ admins rba)); [by left |]. rewrite (bool_decide_ext _ _ (elem_of_roles _ _ _)).
  case_bool_decide as Hd; [| rewrite bool_decide_eq_false_2 by (by intros ?%Hm); by left].
  destruct (bool_decide (k ∈ members rba)); [by left | by right].
Qed.

(** *** A revoked user stays revoked *)

Definition revoked (k : string) (d : D) (p : Policy) : Prop :=
  user_keys d ∧ role_in d k = Some "denied"
  ∧ ∃ rba w, p = PolicyRoles rba w ∧ k ∉ admins rba ∧ k ∉ members rba.

#[local] Instance revoked_kept k :
  Kept (B := B) (V := V) bech32 (revoked k) (fun j r => normalized bech32 j = k → r = "denied").
Proof.
  apply grows_kept.
  - intros d d' p G (Hk & Hr & Hp). split; [by eapply grows_keys |]. split; [| done].
    destruct (grows_role _ _ k G) as [-> | [E _]]; congruence.
  - intros d p w (Hk & Hr & rba & w' & -> & Hs). split; [done |]. split; [done |]. by exists rba, (Some w).
  - intros n n' j r x Hok Hu (Hk & Hr & rba & w & Hp & Ha & Hm).
    destruct (update_role_live j r n n' x rba w Hp Hu) as (-> & rba' & -> & Ha' & Hm').
    split; [by apply set_role_user_keys |]. rewrite role_in_set. split; [case_decide; [by rewrite Hok | done] |].
    exists rba', w. split; [done |]. rewrite Ha', Hm'. case_decide; [| done]. by rewrite Hok.
Qed.

(** [r] does not give [k] another role. *)
Definition keeps_denied (k : string) (r : HttpRequest) : Prop :=
  match r with
  | HSetRole _ pk role => normalized bech32 pk = k → role_name role = Some "denied" ∨ role_name role = None
  | _ => True
  end.

Lemma revoked_role l k d p : revoked k d p → @role (policy_access l p) k = RDenied.
Proof.
  intros (_ & _ & rba & w & -> & Ha & Hm). cbn. unfold rba_role.
  rewrite (bool_decide_eq_false_2 _ Ha), (bool_decide_eq_false_2 _ Hm). by rewrite !andb_false_r.
Qed.
Lemma revoked_refused l k d p a : revoked k d p → @is_allowed (policy_access l p) k a = false.
Proof.
  intros Hr. pose proof (revoked_role l k d p Hr) as Hrole. destruct Hr as (_ & _ & rba & w & -> & _).
  cbn in *. unfold rba_is_allowed. by rewrite Hrole.
Qed.

(** No authority gives a revoked user a right. *)
Lemma revoked_powerless k (n : N) r a :
  revoked k (s_database (ad_server n)) (ad_policy n) → authority_of (B := B) (V := V) r = Some a →
  ¬ au_right a (live (au_reads a) n) k.
Proof.
  intros Hr Ha. assert (Hrole := fun l => revoked_role l _ _ _ Hr). assert (Hno := fun l => revoked_refused l _ _ _ Upload Hr).
  assert (Hno' := fun l => revoked_refused l _ _ _ Admin Hr). assert (Hno2 := fun l => revoked_refused l _ _ _ Mirror Hr).
  destruct r; cbn in Ha; try done; injection Ha as <-; cbn; unfold may_upload, may_mirror, may_delete, may_administer; cbn;
    rewrite ?Hrole, ?Hno, ?Hno', ?Hno2; naive_solver.
Qed.

(** The state once the role is set to [denied]. *)
Lemma denied_revoked c pk role (n n1 : N) resp rba w :
  user_keys (s_database (ad_server n)) → ad_policy n = PolicyRoles rba w →
  role_name role = Some "denied" → handle_set_role bech32 c pk role n = (n1, Ok resp) →
  J_node (revoked (normalized bech32 pk)) n1.
Proof.
  intros Hk Hp Hrole Hset. unfold handle_set_role in Hset. apply bind_ok in Hset as (p & n0 & Ha & Hset). rewrite Hrole in Hset.
  assert (Hheld : node_held n0 = node_held n) by (eapply keeps_run; [apply keeps_admitted_held | exact Ha]).
  unfold node_held, held_by in Hheld. injection Hheld as _ Hd _ Hpol.
  apply bind_ok in Hset as (u & n3 & Hu & [= <- _]). unfold map_err in Hu.
  destruct (update_role _ _ _ n0) as [n4 x] eqn:Eu. injection Hu as <- _.
  rewrite Hp in Hpol. destruct (update_role_live _ _ _ _ _ rba w Hpol Eu) as (Ed & rba' & Ep & Ha' & Hm').
  unfold J_node. rewrite Ed, Ep, Hd, normalized_idem. split; [by apply set_role_user_keys |].
  rewrite role_in_set, decide_True by done. split; [done |]. exists rba', w.
  rewrite Ha', Hm', normalized_idem, !decide_True by done. split; [done |]. by split.
Qed.

Lemma revoked_reloaded k (n : N) :
  J_node (revoked k) n → rba_role true true (load_from_database (s_database (ad_server n))) k = RDenied.
Proof.
  intros (Hk & Hr & _). rewrite (load_roles _ Hk). unfold rba_role. cbn.
  rewrite !bool_decide_eq_false_2; [done | |]; rewrite elem_of_roles, Hr; intros [=].
Qed.

Lemma revoked_changes_nothing k (n : N) r a e :
  J_node (revoked k) n → authority_of (B := B) (V := V) r = Some a →
  extract_auth_event (au_headers a) = Ok e → ev_pubkey e = k → node_held (serve_http bech32 r n) = node_held n.
Proof.
  intros Hn Ha He Hek. destruct (change_authority bech32 r n) as [[E | (a' & Ha' & e' & He' & _ & _ & Hright)] | Hanon]; [done | |].
  - rewrite Ha in Ha'. injection Ha' as <-. rewrite He in He'. injection He' as <-. rewrite Hek in Hright.
    by destruct (revoked_powerless k n r a Hn Ha).
  - destruct Hanon as (l & q & headers & body & -> & Hno & _). cbn in Ha. injection Ha as <-. cbn in He.
    unfold extract_auth_event, header_str in He. unfold contains_header in Hno. apply bool_decide_eq_false in Hno.
    destruct ((headers : gmap string (option string)) !! "authorization") as [v|]; [by destruct Hno | done].
Qed.

(** The lock endpoints are part of the server; they leave the accounts alone. *)
Definition web_keeps_denied (k : string) (r : WebRequest) : Prop :=
  match r with WHttp r => keeps_denied k r | _ => True end.

Lemma serve_web_revoked k rs (w : WebNode B D V L) :
  Forall (web_keeps_denied k) rs → J_node (revoked k) (w_node w) →
  J_node (revoked k) (w_node (serve_web_all bech32 rs w)).
Proof.
  revert w. induction rs as [|r rs IH]; intros w Hall Hj; [done |]. apply Forall_cons in Hall as [Hr Hall].
  apply (IH (serve_web bech32 r w)); [done |]. destruct r as [r| | | |]; try exact Hj.
  apply serve_http_kept with (ok := fun j r => normalized bech32 j = k → r = "denied"); [apply revoked_kept | | done].
  destruct r; try done. cbn in Hr |- *. intros r Er Hn. rewrite normalized_idem in Hn.
  destruct (Hr Hn); congruence.
Qed.

End roles.

Module RoleExamples.
Import Concrete ConcreteCodec RequestAuthExamples AccessExamples DurableExamples MirrorExamples DeploymentExamples.

Lemma accounts_keys : user_keys accounts.
Proof. apply set_role_user_keys, set_role_user_keys. intros p u Hu. cbn in Hu. by rewrite lookup_empty in Hu. Qed.

(** Requests that follow: the administrator looks another key up, gives it a
    quota, and the denied member is uploaded for by nobody. *)
Definition lookup_call (k : string) : HttpRequest := HGetUser (admin_call ("/admin/users/" +:+ k) "GET") k.
Definition quota_call (k : string) : HttpRequest :=
  HSetQuota (admin_call ("/admin/users/" +:+ k +:+ "/quota") "PUT") k (Some 5).

Lemma accounts_typed_witness :
  ∃ rba w', ad_policy (serve_http_all no_bech32 [deny; quota_call "b"] node) = PolicyRoles rba w'
    ∧ rba_role true true rba key64 = RDenied.
Proof.
  destruct (accounts_typed no_bech32 [deny; quota_call "b"] node None accounts_keys) as (_ & _ & rba & w & Hp & Hr).
  - intros k r. unfold role_in. cbn. unfold MemoryDatabase.user_entry. cbn.
    destruct (decide (k = key64)) as [->|]; [rewrite lookup_insert_eq; intros [= <-]; unfold role_names; set_solver |].
    rewrite lookup_insert_ne by done. destruct (decide (k = public_key_hex)) as [->|];
      [rewrite lookup_insert_eq; intros [= <-]; unfold role_names; set_solver |].
    rewrite lookup_insert_ne by done. by rewrite lookup_empty.
  - reflexivity.
  - exists rba, w. split; [exact Hp |].
    assert (E : is_member (ad_policy (serve_http_all no_bech32 [deny; quota_call "b"] node)) = false) by (vm_compute; reflexivity).
    assert (E' : role_in (s_database (ad_server (serve_http_all no_bech32 [deny; quota_call "b"] node))) key64 = Some "denied")
      by (vm_compute; reflexivity).
    destruct (Hr key64) as [H1 | [_ H1]]; [| rewrite E' in H1; discriminate H1].
    rewrite <- H1. vm_compute. reflexivity.
Defined.

Definition denied : AdminNode MemoryBackend MemoryDatabase MemoryLfsVersionDatabase * result Response Response :=
  handle_set_role no_bech32 deny_call key64 "Denied" node.
Definition answer : Response := match denied.2 with Ok r => r | Err r => r end.
Definition later : list WebRequest := [WHttp (quota_call key64); lock_request; WHttp (lookup_call "b")].


(** Setting a quota for an unknown key, or looking it up, makes it a member at
    the next start. *)
Example quota_grants_membership :
  let n := serve_http no_bech32 (quota_call "b") node in
  rba_role true true (load_from_database (s_database (ad_server node))) "b" = RDenied
  ∧ @Access.role (policy_access all_readable (ad_policy n)) "b" = RDenied
  ∧ rba_role true true (load_from_database (s_database (ad_server n))) "b" = RMember.
Proof. vm_compute. repeat split; reflexivity. Qed.

(** A server started with a whitelist and without administrators has the live
    roles as a handle but the whitelist as its policy: a listed user passes for
    an administrator, and a role change is answered with success and recorded
    but has no effect. *)
Definition listed_node : AdminNode MemoryBackend MemoryDatabase MemoryLfsVersionDatabase :=
  mkAdmin (ad_server node)
    (with_whitelist {[public_key_hex; key64]} (with_role_based_access (load_from_database accounts) builder_policy)).
Example whitelist_shadows_roles :
  let '(n, r) := handle_set_role no_bech32 deny_call key64 "denied" listed_node in
  r = Ok (200, JObj [("pubkey", JStr key64); ("role", JStr "denied")])
  ∧ role_in (s_database (ad_server n)) key64 = Some "denied"
  ∧ @is_allowed (policy_access all_readable (ad_policy n)) key64 Upload = true
  ∧ @is_allowed (policy_access all_readable (ad_policy n)) key64 Admin = true.
Proof. vm_compute. repeat split; reflexivity. Qed.
(** The body of an administration request is not bound to its event: the headers
    of a revocation are accepted for a promotion of the same key. *)
Example admin_body_unbound :
  (handle_set_role no_bech32 deny_call key64 "denied" node).2
    = Ok (200, JObj [("pubkey", JStr key64); ("role", JStr "denied")])
  ∧ (handle_set_role no_bech32 deny_call key64 "admin" node).2
    = Ok (200, JObj [("pubkey", JStr key64); ("role", JStr "admin")]).
Proof. vm_compute. split; reflexivity. Qed.
End RoleExamples.
