(* ===== verification/Nip96Store.v ===== *)
(** * NIP-96 and Blossom on one store

    The two upload APIs have the same effect, and the pages of a NIP-96 list add
    up to the uploads of the user.  Examples show where they part. *)

From Stdlib Require Import ZArith Lia Ascii String.
From Stdlib Require Import Strings.Byte.
From Stdlib Require Import Sorting.Sorted.
From stdpp Require Import base list gmap strings numbers sets.
From S2P Require Import Prelude Effects Protocol Auth Replay RequestAuth RateLimit Database Access Storage Locks Lfs Stats Server Durable Nip96 Admin Deployment.

Open Scope string_scope.
Open Scope Z_scope.
Open Scope handler_scope.

(** ** Pages *)

Lemma pages_take {A} (l : list A) c k :
  0 <= c → (Z.of_nat k - 1) * c <= u32_max →
  concat (map (fun i => page_of (mkListQuery (Z.of_nat i) c) l) (seq 1 k)) = take (k * Z.to_nat c) l.
Proof.
  intros Hc. induction k as [|k IH]; intros Hk; [done |].
  rewrite seq_S, map_app, concat_app. rewrite IH by nia. cbn [map concat]. rewrite app_nil_r.
  unfold page_of, page_start. cbn [page count]. rewrite Nat.add_1_l.
  replace (sat_sub (Z.of_nat (S k)) 1) with (Z.of_nat k) by (unfold sat_sub; lia).
  replace (Z.to_nat (wrap_u32 (Z.of_nat k * c))) with (k * Z.to_nat c)%nat.
  2: { unfold wrap_u32. rewrite Z.mod_small by nia. rewrite Z2Nat.inj_mul by lia. by rewrite Nat2Z.id. }
  rewrite take_take_drop. f_equal. lia.
Qed.

Section pages.
Context `{Crates} `{HashOrder} {B V : Type}.
Notation S := (ServerState B MemoryDatabase V).

(** The pages of a NIP-96 list are complete.  After any operations on the
    database, the records of the blobs a user owns, each once and newest first,
    are what the pages 1 to [k] of [count] items add up to, as soon as they have
    room for all of them (and the last does not start beyond [u32]); and page
    [i] is what a request for it by the user is answered with. *)
Theorem nip96_pages_complete ops p (s : S) c (k : nat) :
  Forall (fun o => MemoryDatabase.op_ok o = true) ops →
  s_database s = (MemoryDatabase.run MemoryDatabase.apply_op MemoryDatabase.new ops).1 →
  0 <= c → (Z.of_nat k - 1) * c <= u32_max →
  ∃ l, list_uploads_by_pubkey (s_database s) p = Ok l
    ∧ StronglySorted (fun a b => r_created_at b <= r_created_at a) l
    ∧ NoDup (r_sha256 <$> l)
    ∧ (∀ r, r ∈ l ↔ owners (s_database s) !! (r_sha256 r, p) = Some r)
    ∧ (∀ q params headers e s' j, extract_auth_event headers = Ok e → ev_pubkey e = p →
        handle_nip96_list q params headers s = (s', (200, j)) → j = nip96_page (s_base_url s) params l)
    ∧ (Z.of_nat (length l) <= Z.of_nat k * c →
        concat (map (fun i => page_of (mkListQuery (Z.of_nat i) c) l) (seq 1 k)) = l).
Proof.
  intros Hok Hd Hc Hk. destruct (MemoryDatabase.list_uploads_spec ops p Hok) as (l & Hl & Hs & Hn & Hi).
  rewrite <- Hd in Hl, Hi. exists l. split; [exact Hl |].
  split; [done |]. split; [done |]. split; [done |]. split.
  - intros q params headers e s' j He Hp. unfold handle_nip96_list, respond, nip96_list. rewrite He.
    destruct (bind _ _ s) as [s1 r] eqn:Hb. intros [= <- Hr].
    apply bind_inv in Hb as [(u & s2 & Hv & Hb) | (er & Hv & ->)].
    + assert (Hj : s_database s2 = s_database s ∧ s_base_url s2 = s_base_url s).
      { assert (Hkeep : keeps (fun s : S => (s_database s, s_base_url s)) (verify_once q e "get" "/n96" "GET" None))
          by (unfold verify_once; keeps).
        by pose proof (keeps_run _ _ _ _ _ Hkeep Hv) as [= -> ->]. }
      destruct Hj as [Hj1 Hj2]. unfold bind, gets in Hb. rewrite Hj1, Hj2, Hp in Hb.
      change (Database.list_uploads_by_pubkey (s_database s) p) with (MemoryDatabase.list_uploads_by_pubkey (s_database s) p) in Hb.
      rewrite Hl in Hb. injection Hb as <- <-. by injection Hr as <-.
    + assert (Hrefuse : refuses (verify_once (B := B) (D := MemoryDatabase) (V := V) q e "get" "/n96" "GET" None))
        by (unfold verify_once; refuses).
      pose proof (Hrefuse _ _ _ Hv). subst er. cbn in *. lia.
  - intros Hlen. rewrite pages_take by done. apply take_ge. nia.
Qed.
End pages.

(** ** Uploads *)

Section uploads.
Context `{CratesLaws} `{Codec} {B D : Type} `{BlobBackend B} `{BlobDatabase D} `{!BlobBackendLaws B}.

Notation V := MemoryLfsVersionDatabase.
Notation S := (ServerState B D V).

(** What an upload starts from and what of its end is compared. *)
Definition store_view (s : S) := (s_backend s, s_database s, s_lfs_version_db s, s_base_url s).

Lemma with_body_ok {A} limit headers body (k : list byte → MR S Response A) (s s' : S) x data :
  body_data body = Ok data → with_body limit headers body k s = (s', Ok x) →
  ∃ s1 s2, k data s1 = (s2, Ok x) ∧ store_view s1 = store_view s ∧ store_view s' = store_view s2.
Proof.
  intros Hd. unfold with_body. intros (units & s0 & [= <- _] & (u & s1 & Ha & Hk)%bind_ok)%bind_ok.
  apply (keeps_run store_view) in Ha; [| by apply keeps_acquire]. unfold releasing in Hk.
  destruct (bind _ _ s1) as [s2 r] eqn:Hb. injection Hk as <- ->.
  apply bind_ok in Hb as (data' & s3 & [= <- Ht] & Hb). unfold to_bytes in Ht. rewrite Hd in Ht.
  case_decide; [| done]. injection Ht as <-. by exists s1, s2.
Qed.

(** The effect of an accepted upload on a store without LFS versions. *)
Definition upload_result (s s' : S) (data : list byte) (owner content_type : string) (now : Z) : Prop :=
  contents (s_backend s') = <[sha256_hex data := data]> (contents (s_backend s))
  ∧ s_database s' = (record_upload (s_database s)
                       (mkUpload (sha256_hex data) (vec_len data) content_type owner now None)).1.

Lemma upload_store_result q headers owner data (s s' : S) r :
  backend_wf (s_backend s) → s_lfs_version_db s = None →
  (∀ x, contents (s_backend s) !! sha256_hex data = Some x → x = data) →
  upload_store q headers (Some owner) data s = (s', Ok r) →
  upload_result s s' data owner (default (detect_mime data) (extract_content_type headers)) (q_now q).
Proof.
  intros W Hv Hc. unfold upload_store.
  intros (req & s1 & [= <- <-] & (u1 & s2 & [_ ->]%guard_ok & Hu)%bind_ok)%bind_ok.
  apply bind_ok in Hu as (u2 & s1 & Hq & Hu). assert (s1 = s) as ->.
  { apply bind_ok in Hq as (d & s2 & [= <- <-] & Hq). destruct (check_quota _ _ _); [by injection Hq | done]. }
  apply bind_ok in Hu as (u3 & s2 & [_ ->]%guard_ok & (u4 & s1 & Hp & Hu)%bind_ok).
  apply bind_ok in Hu as (url & s2 & [= <- <-] & (u5 & s3 & ->%record_ok & Hu)%bind_ok).
  apply bind_ok in Hu as (u6 & s4 & [= <- _] & [= <- _]). unfold upload_result. cbn.
  pose proof (stores_put_blob q _ data _ _ _ _ W Hp) as [_ [(_ & _ & ? & [=]) | Heff]].
  assert (Hd : s_database s1 = s_database s).
  { revert Hp. apply (keeps_run s_database). unfold put_blob. keeps. }
  unfold upload_effect in Heff. rewrite Hv in Heff. cbn in Heff. destruct Heff as [Hb _]. rewrite Hd. split; [| done].
  rewrite Hb. unfold bytes_of. destruct (contents (s_backend s) !! sha256_hex data) as [x|] eqn:Ex; [| done].
  rewrite insert_id; [done |]. by rewrite Ex, (Hc x eq_refl).
Qed.

Lemma nip96_store_result q headers owner data (s s' : S) r :
  backend_wf (s_backend s) → nip96_store q headers owner data s = (s', Ok r) →
  upload_result s s' data owner (default (detect_mime data) (extract_content_type headers)) (env_now (q_env q)).
Proof.
  intros W. unfold nip96_store.
  intros (req & s1 & [= <- <-] & (u1 & s2 & [_ ->]%guard_ok & (u2 & s3 & [_ ->]%guard_ok & Hu)%bind_ok)%bind_ok)%bind_ok.
  apply bind_ok in Hu as (u3 & s2 & ->%refuse_over_quota_ok & (url & s3 & [= <- <-] & Hu)%bind_ok).
  apply bind_ok in Hu as (d & s4 & Hi & [= <- _]).
  by apply insert_recorded_ok in Hi as (-> & _ & Hb & Hd); [split |].
Qed.

(** The bytes, author and type of an answered upload, and its effect. *)
Lemma handle_upload_result q headers body data e (s s' : S) r :
  backend_wf (s_backend s) → s_lfs_version_db s = None →
  (∀ x, contents (s_backend s) !! sha256_hex data = Some x → x = data) →
  body_data body = Ok data → extract_auth_event headers = Ok e →
  handle_upload q headers body s = (s', r) → r.1 = 200 →
  upload_result s s' data (ev_pubkey e) (default (detect_mime data) (extract_content_type headers)) (q_now q).
Proof.
  intros W Hv Hc Hd He. unfold handle_upload, respond. destruct (bind _ _ s) as [s1 [x|x]] eqn:Hu; intros [= <- ->] Hr.
  - apply bind_ok in Hu as ([[ev pk] limit] & s2 & Ha & Hu).
    assert (Hpk : pk = Some (ev_pubkey e)) by (by eapply upload_author).
    apply (keeps_run store_view) in Ha; [| unfold upload_authorize; keeps].
    destruct (with_body_ok _ _ _ _ _ _ _ data Hd Hu) as (s3 & s4 & Hk & E3 & E4).
    apply bind_ok in Hk as (u & s5 & Hb & Hk).
    apply (keeps_run store_view) in Hb; [| unfold upload_bind; keeps].
    unfold store_view in *. rewrite E3, Ha in Hb. injection Hb as E5 E6 E7 _. injection E4 as E8 E9 _ _.
    subst pk. unfold upload_result. rewrite E8, E9, <- E5, <- E6.
    apply (upload_store_result q headers (ev_pubkey e) data s5 s4 r); [by rewrite E5 | congruence | by rewrite E5 | done].
  - exfalso. assert (Hrf : refuses (let! auth := upload_authorize q headers in
      let '(auth_event, pubkey, limit) := auth in
      with_body limit headers body (fun data => upload_bind q auth_event data ;! upload_store (B := B) (D := D) (V := V) q headers pubkey data))).
    { apply refuses_bind; [apply refuses_upload_authorize |]. intros [[ev pk] limit]. apply refuses_with_body. intros x.
      apply refuses_bind; [apply refuses_upload_bind | intros _; apply refuses_upload_store]. }
    specialize (Hrf _ _ _ Hu). cbn in Hrf. lia.
Qed.
Lemma handle_nip96_upload_result q headers body data e (s s' : S) r :
  backend_wf (s_backend s) → body_data body = Ok data → extract_auth_event headers = Ok e →
  handle_nip96_upload q headers body s = (s', r) → r.1 = 200 →
  upload_result s s' data (ev_pubkey e) (default (detect_mime data) (extract_content_type headers)) (env_now (q_env q)).
Proof.
  intros W Hd He. unfold handle_nip96_upload, respond.
  destruct (nip96_upload _ _ _ s) as [s1 [x|x]] eqn:Hu; intros [= <- ->] Hr.
  - unfold nip96_upload in Hu. apply bind_ok in Hu as ([ev limit] & s2 & Ha & Hu).
    assert (ev = e ∧ store_view s2 = store_view s) as [-> Hs2].
    { split; [| revert Ha; apply (keeps_run store_view); unfold nip96_authorize; keeps].
      unfold nip96_authorize in Ha. rewrite He in Ha. apply bind_ok in Ha as (u & s3 & _ & (a & s4 & _ & Ha)%bind_ok).
      by apply bind_ok in Ha as (u2 & s5 & _ & (u3 & s6 & _ & (l & s7 & _ & [= _ <- _])%bind_ok)%bind_ok). }
    destruct (with_body_ok _ _ _ _ _ _ _ data Hd Hu) as (s3 & s4 & Hk & E3 & E4).
    apply bind_ok in Hk as (u & s5 & Hb & Hk).
    apply (keeps_run store_view) in Hb; [| unfold nip96_bind; keeps].
    unfold store_view in *. rewrite E3, Hs2 in Hb. injection Hb as E5 E6 _ _. injection E4 as E8 E9 _ _.
    unfold upload_result. rewrite E8, E9, <- E5, <- E6.
    apply (nip96_store_result q headers (ev_pubkey e) data s5 s4 r); [by rewrite E5 | done].
  - exfalso. assert (Hrf : refuses (nip96_upload (B := B) (D := D) (V := V) q headers body)).
    { apply refuses_bind; [unfold nip96_authorize; refuses |]. intros [ev limit]. apply refuses_with_body. intros x.
      unfold nip96_bind, nip96_store. refuses. }
    specialize (Hrf _ _ _ Hu). cbn in Hrf. lia.
Qed.

(** C22: the two upload APIs agree.  On a server that keeps bytes as they are (it
    has no LFS version database) and addresses them by their hash, a body that
    the same user uploads through [POST /n96] and, in its place, through
    [PUT /upload], both answered 200, with the same content type and at the same
    time, leaves the same blobs and the same metadata. *)
Theorem nip96_upload_equivalent q hn hb body data en eb (s sn sb : S) rn rb :
  backend_wf (s_backend s) → s_lfs_version_db s = None →
  (∀ x, contents (s_backend s) !! sha256_hex data = Some x → x = data) →
  body_data body = Ok data → env_now (q_env q) = q_now q →
  extract_auth_event hn = Ok en → extract_auth_event hb = Ok eb → ev_pubkey en = ev_pubkey eb →
  extract_content_type hn = extract_content_type hb →
  handle_nip96_upload q hn body s = (sn, rn) → rn.1 = 200 →
  handle_upload q hb body s = (sb, rb) → rb.1 = 200 →
  contents (s_backend sn) = contents (s_backend sb) ∧ s_database sn = s_database sb
  ∧ contents (s_backend sn) !! sha256_hex data = Some data.
Proof.
  intros W Hv Hc Hd Ht Hen Heb Hp Hct Hn Hrn Hu Hru.
  destruct (handle_nip96_upload_result q hn body data en s sn rn W Hd Hen Hn Hrn) as [En1 En2].
  destruct (handle_upload_result q hb body data eb s sb rb W Hv Hc Hd Heb Hu Hru) as [Eb1 Eb2].
  rewrite Hp, Hct, Ht in En2. split; [congruence |]. split; [congruence |]. by rewrite En1, lookup_insert_eq.
Qed.
End uploads.

Module Nip96Examples.
Import Concrete ConcreteCodec RequestAuthExamples DurableExamples DeploymentExamples.

(** A server that keeps bytes as they are. *)
Definition plain_server : ServerState MemoryBackend MemoryDatabase MemoryLfsVersionDatabase :=
  set_version_db None empty_server.

Definition nip96_headers (data : list byte) : HeaderMap := signed_headers "upload" (Some (sha256_hex data)) "/n96" "POST".
Definition over_nip96 := handle_nip96_upload request (nip96_headers v1) (body v1) plain_server.
Definition over_blossom := handle_upload request (upload_headers 1000 v1 []) (body v1) plain_server.

Lemma nip96_upload_equivalent_witness :
  contents (s_backend over_nip96.1) = contents (s_backend over_blossom.1)
  ∧ s_database over_nip96.1 = s_database over_blossom.1
  ∧ contents (s_backend over_nip96.1) !! sha256_hex v1 = Some v1.
Proof.
  assert (En : ∃ e, extract_auth_event (nip96_headers v1) = Ok e) by (eexists; vm_compute; reflexivity).
  assert (Eb : ∃ e, extract_auth_event (upload_headers 1000 v1 []) = Ok e) by (eexists; vm_compute; reflexivity).
  destruct En as [en En], Eb as [eb Eb].
  assert (Hp : ev_pubkey en = ev_pubkey eb).
  { assert (Hn : res_ok (extract_auth_event (nip96_headers v1)) ≫= (fun e => Some (ev_pubkey e)) = Some public_key_hex)
      by (vm_compute; reflexivity).
    assert (Hb : res_ok (extract_auth_event (upload_headers 1000 v1 [])) ≫= (fun e => Some (ev_pubkey e)) = Some public_key_hex)
      by (vm_compute; reflexivity).
    rewrite En in Hn. rewrite Eb in Hb. cbn in Hn, Hb. congruence. }
  assert (On : handle_nip96_upload request (nip96_headers v1) (body v1) plain_server = (over_nip96.1, over_nip96.2))
    by exact (surjective_pairing over_nip96).
  assert (Ob : handle_upload request (upload_headers 1000 v1 []) (body v1) plain_server = (over_blossom.1, over_blossom.2))
    by exact (surjective_pairing over_blossom).
  assert (W : backend_wf (s_backend plain_server)) by done.
  assert (Rn : over_nip96.2.1 = 200) by (vm_compute; reflexivity).
  assert (Rb : over_blossom.2.1 = 200) by (vm_compute; reflexivity).
  assert (Hc : ∀ x, contents (s_backend plain_server) !! sha256_hex v1 = Some x → x = v1)
    by (intros x; change (contents (s_backend plain_server)) with (∅ : gmap string (list byte)); rewrite lookup_empty; discriminate).
  assert (Ct : extract_content_type (nip96_headers v1) = extract_content_type (upload_headers 1000 v1 []))
    by (vm_compute; reflexivity).
  exact (nip96_upload_equivalent request (nip96_headers v1) (upload_headers 1000 v1 []) (body v1) v1 en eb
           plain_server over_nip96.1 over_blossom.1 over_nip96.2 over_blossom.2 W eq_refl Hc eq_refl eq_refl En Eb Hp Ct
           On Rn Ob Rb).
Defined.

Definition uploads_of_a : list MemoryDatabase.op :=
  [MemoryDatabase.RecordUpload (mkUpload "h1" 40 "" "a" 10 None); MemoryDatabase.RecordUpload (mkUpload "h2" 70 "" "a" 12 None)].
Definition listed_server : ServerState MemoryBackend MemoryDatabase MemoryLfsVersionDatabase :=
  set_database (MemoryDatabase.run MemoryDatabase.apply_op MemoryDatabase.new uploads_of_a).1 plain_server.

(** The product of page and count wraps: page 65537 of 65536 items is page 1. *)
Example page_start_wraps : page_start (mkListQuery 65537 65536) = page_start (mkListQuery 1 65536).
Proof. reflexivity. Qed.

(** Deleting the base of a delta through NIP-96 does not rebase it: the second
    version, served whole before, is served as its stored delta after. *)
Definition without_base := handle_nip96_delete request (sha256_hex v1)
  (signed_headers "delete" (Some (sha256_hex v1)) ("/n96/" +:+ sha256_hex v1) "DELETE") with_v2.1.
Example nip96_delete_breaks_deltas :
  (handle_get_blob request (sha256_hex v2) with_v2.1).2 = (200, Some ("application/octet-stream", v2))
  ∧ without_base.2 = (200, success "File deleted")
  ∧ (handle_get_blob request (sha256_hex v2) without_base.1).2 ≠ (200, Some ("application/octet-stream", v2)).
Proof.
  split; [vm_compute; reflexivity |]. split; [vm_compute; reflexivity |]. intros E.
  apply (f_equal (fun r : BlobResponse => match r.2 with Some (_, d) => bool_decide (d = v2) | None => true end)) in E.
  revert E. vm_compute. discriminate.
Qed.
End Nip96Examples.
