(* ===== verification/Wire.v ===== *)
(** * The wire protocol of the QUIC transport ([src/src/transport/wire.rs])

    One request and one response per stream: a line of JSON, then the bytes of
    a body.  serde_json is the class [WireJson]. *)

From Stdlib Require Import ZArith Lia Ascii String.
From Stdlib Require Import Strings.Byte.
From stdpp Require Import base list gmap strings numbers.
From S2P Require Import Prelude Protocol.

Open Scope string_scope.
Open Scope Z_scope.

Module Wire.
(** [Op], [Status]. *)
Inductive Op := Get | Head | Upload | Delete | List_ | LockCreate | LockDelete | LockList | LockVerify.
Inductive Status := StOk | StNotFound | StUnauthorized | StForbidden | StConflict | StError.

#[global] Instance op_eq_dec : EqDecision Op.
Proof. solve_decision. Defined.
#[global] Instance status_eq_dec : EqDecision Status.
Proof. solve_decision. Defined.

(** [Request]. *)
Record Request := mkRequest {
  rq_op : Op;
  rq_sha256 : string;
  rq_pubkey : string;
  rq_auth : string;
  rq_content_type : string;
  rq_body_len : Z;
  rq_repo_id : string;
  rq_lock_id : string;
  rq_lock_path : string;
  rq_force : bool;
  rq_cursor : string;
  rq_limit : Z;
  rq_lfs_path : string;
  rq_lfs_repo : string;
  rq_lfs_base : string;
  rq_lfs_manifest : bool
}.

(** [Response]. *)
Record Response := mkResponse {
  rs_status : Status;
  rs_body_len : Z;
  rs_content_type : string;
  rs_error : string;
  rs_descriptor : option json
}.
End Wire.

(** [serde_json] on the frames, on the tuples that lock requests are bound to
    and on a list of descriptors, and the text of its errors. *)
Class WireJson : Type := {
  request_to_vec : Wire.Request → list byte;
  request_from_slice : list byte → result Wire.Request string;
  response_to_vec : Wire.Response → list byte;
  response_from_slice : list byte → result Wire.Response string;
  lock_create_to_vec : string → string → list byte;
  lock_delete_to_vec : string → string → bool → list byte;
  lock_verify_to_vec : string → string → Z → list byte;
  descriptors_to_vec : list BlobDescriptor → list byte;
  event_json_error : list byte → string
}.

(** The fields [body_len : u64] and [limit : u32] are in range. *)
Definition request_ok (r : Wire.Request) : bool :=
  bool_decide (0 <= Wire.rq_body_len r <= u64_max) && bool_decide (0 <= Wire.rq_limit r <= u32_max).

(** What the framing relies on: [from_slice] undoes [to_vec], whose compact
    output has no line feed, and what it yields has its integers in range. *)
Class WireJsonLaws `{WireJson} : Prop := {
  request_in_range : ∀ l r, request_from_slice l = Ok r → request_ok r = true;
  request_roundtrip : ∀ r, request_ok r = true → request_from_slice (request_to_vec r) = Ok r;
  response_roundtrip : ∀ r, response_from_slice (response_to_vec r) = Ok r;
  request_one_line : ∀ r, x0a ∉ request_to_vec r;
  response_one_line : ∀ r, x0a ∉ response_to_vec r
}.

Section wire.
Context `{WireJson}.

(** [encode_request], [encode_response]. *)
Definition encode_request (req : Wire.Request) : list byte := (request_to_vec req ++ [x0a])%list.
Definition encode_response (resp : Wire.Response) : list byte := (response_to_vec resp ++ [x0a])%list.

(** [Iterator::position] of the line feed, as the bytes before it. *)
Fixpoint before_newline (buf : list byte) : option (list byte) :=
  match buf with
  | [] => None
  | b :: buf => if decide (b = x0a) then Some [] else cons b <$> before_newline buf
  end.

(** [decode_line], at a type with its [from_slice]. *)
Definition decode_line {T} (from_slice : list byte → result T string) (buf : list byte) : result (T * Z) string :=
  match before_newline buf with
  | None => Err "no newline found in buffer"
  | Some json_bytes =>
      match from_slice json_bytes with
      | Err e => Err ("parse JSON line: " +:+ e)
      | Ok value => Ok (value, vec_len json_bytes + 1)
      end
  end.

Lemma before_newline_app l r : x0a ∉ l → before_newline (l ++ x0a :: r) = Some l.
Proof.
  induction l as [|b l IH]; intros Hl; cbn; [done |].
  rewrite decide_False by (intros ->; set_solver). rewrite IH by set_solver. done.
Qed.

Lemma before_newline_Some buf l : before_newline buf = Some l → ∃ r, buf = (l ++ x0a :: r)%list ∧ x0a ∉ l.
Proof.
  revert l. induction buf as [|b buf IH]; intros l Hb; cbn in Hb; [done |]. case_decide as Hd.
  - subst. injection Hb as <-. exists buf. split; [done | apply not_elem_of_nil].
  - destruct (before_newline buf) as [l'|] eqn:E; [| done]. injection Hb as <-.
    destruct (IH l' eq_refl) as (r & -> & Hl). exists r. split; [done |].
    apply not_elem_of_cons. done.
Qed.

Lemma decode_line_app {T} (from_slice : list byte → result T string) v l r :
  x0a ∉ l → from_slice l = Ok v →
  decode_line from_slice (l ++ x0a :: r) = Ok (v, vec_len l + 1).
Proof. intros Hl Hv. unfold decode_line. by rewrite before_newline_app, Hv. Qed.

(** Frames are read back.  A request or a response, encoded and followed
    by any body, is decoded to itself, and the count returned is where the body
    starts. *)
Theorem frames_roundtrip `{!WireJsonLaws} req resp (body : list byte) :
  request_ok req = true →
  decode_line request_from_slice (encode_request req ++ body) = Ok (req, vec_len (encode_request req))
  ∧ decode_line response_from_slice (encode_response resp ++ body) = Ok (resp, vec_len (encode_response resp))
  ∧ drop (length (encode_request req)) (encode_request req ++ body)%list = body.
Proof.
  intros Hreq. unfold encode_request, encode_response. rewrite <- !app_assoc. cbn [app].
  rewrite (decode_line_app _ req) by (apply request_one_line || by apply request_roundtrip).
  rewrite (decode_line_app _ resp) by apply response_one_line || apply response_roundtrip.
  unfold vec_len. rewrite !length_app. cbn [length]. split; [repeat f_equal; lia |]. split; [repeat f_equal; lia |].
  rewrite cons_middle, app_assoc. apply drop_app_length'. by rewrite length_app.
Qed.
End wire.

(** ** A concrete encoding, for witnesses: a request is a text of escaped fields,
    the other types are positive numbers in binary digits. *)
Module ConcreteWire.
Import Concrete.

Fixpoint json_tree (j : json) : gen_tree (bool + Z + string) :=
  match j with
  | JNull => GenNode 0 []
  | JBool b => GenLeaf (inl (inl b))
  | JNum n => GenLeaf (inl (inr n))
  | JStr s => GenLeaf (inr s)
  | JArr l => GenNode 1 (map json_tree l)
  | JObj l => GenNode 2 (concat (map (fun '(k, v) => [GenLeaf (inr k); json_tree v]) l))
  end.
Fixpoint tree_json (t : gen_tree (bool + Z + string)) : json :=
  match t with
  | GenLeaf (inl (inl b)) => JBool b
  | GenLeaf (inl (inr n)) => JNum n
  | GenLeaf (inr s) => JStr s
  | GenNode O _ => JNull
  | GenNode 1 l => JArr (map tree_json l)
  | GenNode _ l =>
      let fix pairs l := match l with
                         | k :: v :: l => (match tree_json k with JStr k => k | _ => "" end, tree_json v) :: pairs l
                         | _ => [] end in
      JObj (pairs l)
  end.

Lemma tree_json_tree : ∀ j, tree_json (json_tree j) = j.
Proof.
  fix IH 1. intros [|b|n|s|l|l]; try reflexivity; simpl; f_equal.
  - induction l as [|j l IHl]; [reflexivity |]. simpl. f_equal; [apply IH | exact IHl].
  - induction l as [|[k j] l IHl]; [reflexivity |]. simpl. f_equal; [f_equal; apply IH | exact IHl].
Qed.

#[export] Instance json_eq_dec : EqDecision json.
Proof.
  intros x y. destruct (decide (json_tree x = json_tree y)) as [E|E].
  - left. rewrite <- (tree_json_tree x), <- (tree_json_tree y). by f_equal.
  - right. intros ->. by apply E.
Defined.
#[export] Instance json_countable : Countable json := inj_countable' json_tree tree_json tree_json_tree.

Definition op_nat (o : Wire.Op) : nat :=
  match o with
  | Wire.Get => 0 | Wire.Head => 1 | Wire.Upload => 2 | Wire.Delete => 3 | Wire.List_ => 4
  | Wire.LockCreate => 5 | Wire.LockDelete => 6 | Wire.LockList => 7 | Wire.LockVerify => 8
  end.
Definition nat_op (n : nat) : Wire.Op :=
  nth n [Wire.Get; Wire.Head; Wire.Upload; Wire.Delete; Wire.List_; Wire.LockCreate; Wire.LockDelete;
         Wire.LockList; Wire.LockVerify] Wire.Get.
Definition status_nat (s : Wire.Status) : nat :=
  match s with
  | Wire.StOk => 0 | Wire.StNotFound => 1 | Wire.StUnauthorized => 2 | Wire.StForbidden => 3
  | Wire.StConflict => 4 | Wire.StError => 5
  end.
Definition nat_status (n : nat) : Wire.Status :=
  nth n [Wire.StOk; Wire.StNotFound; Wire.StUnauthorized; Wire.StForbidden; Wire.StConflict; Wire.StError] Wire.StOk.

Definition bool_text (b : bool) : string := if b then "1" else "0".
Definition request_fields (r : Wire.Request) : list string :=
  [pos_text (encode (op_nat (Wire.rq_op r))); Wire.rq_sha256 r; Wire.rq_pubkey r; Wire.rq_auth r;
   Wire.rq_content_type r; z_text (Wire.rq_body_len r); Wire.rq_repo_id r; Wire.rq_lock_id r; Wire.rq_lock_path r;
   bool_text (Wire.rq_force r); Wire.rq_cursor r; z_text (Wire.rq_limit r); Wire.rq_lfs_path r; Wire.rq_lfs_repo r;
   Wire.rq_lfs_base r; bool_text (Wire.rq_lfs_manifest r)].
Definition fields_request (l : list string) : option Wire.Request :=
  match l with
  | [o; h; pk; a; ct; n; repo; id; path; f; c; lim; lp; lr; lb; m] =>
      match decode (text_pos o), text_z n, text_z lim with
      | Some o, Some n, Some lim =>
          Some (Wire.mkRequest (nat_op o) h pk a ct n repo id path (bool_decide (f = "1")) c lim lp lr lb
                  (bool_decide (m = "1")))
      | _, _, _ => None
      end
  | _ => None
  end.
Definition response_tuple (r : Wire.Response) :=
  (status_nat (Wire.rs_status r), Wire.rs_body_len r, Wire.rs_content_type r, Wire.rs_error r, Wire.rs_descriptor r).
Definition tuple_response (t : nat * Z * string * string * option json) : Wire.Response :=
  let '(s, b, c, e, d) := t in Wire.mkResponse (nat_status s) b c e d.

Definition to_text {A} `{Countable A} (a : A) : list byte := as_bytes (pos_text (encode a)).
Definition of_text {A} `{Countable A} (l : list byte) : result A string :=
  ok_or (decode (text_pos (from_utf8_unchecked l))) "invalid".

#[export] Instance wire_json : WireJson := {|
  request_to_vec r := as_bytes (fields_text (request_fields r));
  request_from_slice l :=
    let? r := ok_or (fields_request (text_fields (from_utf8_unchecked l))) "invalid" in
    if request_ok r then Ok r else Err "invalid";
  response_to_vec r := to_text (response_tuple r);
  response_from_slice l := let? t := of_text l in Ok (tuple_response t);
  lock_create_to_vec a b := to_text (0%nat, a, b);
  lock_delete_to_vec a b f := to_text (1%nat, a, b, f);
  lock_verify_to_vec a b n := to_text (2%nat, a, b, n);
  descriptors_to_vec l := to_text (map d_sha256 l);
  event_json_error _ := "invalid"
|}.

Lemma of_to_text {A} `{Countable A} (a : A) : of_text (to_text a) = Ok a.
Proof. unfold of_text, to_text. by rewrite from_as_bytes, text_pos_text, decode_encode. Qed.

Lemma text_one_line {A} `{Countable A} (a : A) : x0a ∉ to_text a.
Proof.
  unfold to_text. induction (encode a) as [p IH|p IH|]; cbn; [| | apply not_elem_of_nil];
    apply not_elem_of_cons; (split; [vm_compute; congruence | exact IH]).
Qed.

Lemma fields_request_fields r : fields_request (request_fields r) = Some r.
Proof.
  unfold fields_request, request_fields. rewrite text_pos_text, decode_encode, !text_z_text.
  destruct r as [[] ? ? ? ? ? ? ? ? [] ? ? ? ? ? []]; reflexivity.
Qed.

Lemma esc_one_line s : x0a ∉ as_bytes (esc s).
Proof.
  unfold as_bytes. induction s as [|c s IH]; [apply not_elem_of_nil |]. cbn [esc].
  repeat case_decide; cbn [list_byte_of_string]; repeat (apply not_elem_of_cons; split; [done |]); try done.
  apply not_elem_of_cons. split; [| done]. intros E. apply (f_equal ascii_of_byte) in E.
  rewrite ascii_of_byte_of_ascii in E. by subst c.
Qed.
Lemma fields_one_line l : x0a ∉ as_bytes (fields_text l).
Proof.
  induction l as [|f l IH]; [apply not_elem_of_nil |]. 
  change (fields_text (f :: l)) with (esc f +:+ String "," (fields_text l)). unfold as_bytes in *.
  assert (Happ : ∀ a b, list_byte_of_string (a +:+ b) = (list_byte_of_string a ++ list_byte_of_string b)%list).
  { unfold list_byte_of_string. intros a b. rewrite <- map_app. f_equal.
    induction a as [|c a IHa]; [done |]. rewrite cons_app. cbn [list_ascii_of_string app]. by rewrite IHa. }
  rewrite Happ. apply not_elem_of_app. split; [apply esc_one_line |].
  cbn [list_byte_of_string]. apply not_elem_of_cons. split; [done | exact IH].
Qed.

#[export] Instance wire_json_laws : WireJsonLaws.
Proof.
  split; cbn [request_from_slice request_to_vec response_from_slice response_to_vec wire_json].
  - intros l r. destruct (fields_request _) as [r'|]; cbn [ok_or]; [| done].
    destruct (request_ok r') eqn:E; [| done]. by intros [= <-].
  - intros r Hr. rewrite from_as_bytes, text_fields_text, fields_request_fields. cbn [ok_or]. by rewrite Hr.
  - intros r. rewrite of_to_text. destruct r as [[] ? ? ? ?]; reflexivity.
  - intros r. apply fields_one_line.
  - intros r. apply text_one_line.
Qed.

End ConcreteWire.
