(* ===== verification/IrohReplay.v ===== *)
(** * The replay cache of the QUIC transport ([ReplayCache] of
    [src/src/transport/iroh_transport.rs])

    Unlike the cache of the HTTP server it counts the entries of a principal
    instead of queueing them, and removes an evicted id from its single queue, so
    that the queue is bounded too. *)

From Stdlib Require Import ZArith Lia Ascii String.
From stdpp Require Import base list gmap strings numbers sets.
From S2P Require Import Prelude.

Open Scope string_scope.
Open Scope Z_scope.

(** [ReplayEntry], [ReplayCache]. *)
Record IrohEntry := mkIrohEntry { ie_principal : string; ie_expires_at : Z }.
Record IrohCache := mkIrohCache {
  ic_entries : gmap string IrohEntry;
  ic_order : list string;
  ic_per_principal : gmap string Z;
  ic_max_entries : Z;
  ic_max_per_principal : Z
}.

Module IrohReplay.
(** [new]. *)
Definition new (max_entries max_per_principal : Z) : IrohCache := mkIrohCache ∅ [] ∅ max_entries max_per_principal.

Definition set_order (c : IrohCache) (o : list string) : IrohCache :=
  mkIrohCache (ic_entries c) o (ic_per_principal c) (ic_max_entries c) (ic_max_per_principal c).

(** [remove_entry]. *)
Definition remove_entry (c : IrohCache) (event_id : string) : IrohCache :=
  match ic_entries c !! event_id with
  | None => c
  | Some entry =>
      let p := ie_principal entry in
      mkIrohCache (delete event_id (ic_entries c)) (ic_order c)
        (match ic_per_principal c !! p with
         | None => ic_per_principal c
         | Some count =>
             let count := sat_sub count 1 in
             if decide (count = 0) then delete p (ic_per_principal c) else <[p := count]> (ic_per_principal c)
         end) (ic_max_entries c) (ic_max_per_principal c)
  end.

(** [evict_oldest]. *)
Definition evict_oldest (c : IrohCache) : IrohCache * bool :=
  match ic_order c with
  | [] => (c, false)
  | event_id :: rest => (remove_entry (set_order c rest) event_id, true)
  end.

Definition belongs (c : IrohCache) (principal event_id : string) : bool :=
  match ic_entries c !! event_id with
  | Some entry => bool_decide (ie_principal entry = principal)
  | None => false
  end.
(** [VecDeque::remove] of the first element that satisfies a test. *)
Fixpoint take_first (f : string → bool) (l : list string) : option (string * list string) :=
  match l with
  | [] => None
  | x :: l => if f x then Some (x, l) else prod_map id (cons x) <$> take_first f l
  end.
(** [evict_oldest_for]. *)
Definition evict_oldest_for (c : IrohCache) (principal : string) : IrohCache * bool :=
  match take_first (belongs c principal) (ic_order c) with
  | None => (c, false)
  | Some (event_id, order) => (remove_entry (set_order c order) event_id, true)
  end.

(** The loop of [prune_expired], on the queue it pops. *)
Fixpoint prune_loop (now : Z) (order : list string) (c : IrohCache) : IrohCache :=
  match order with
  | [] => c
  | event_id :: rest =>
      let expired := match ic_entries c !! event_id with
                     | None => true | Some entry => bool_decide (ie_expires_at entry <= now) end in
      if expired then prune_loop now rest (evict_oldest c).1 else c
  end.
(** [prune_expired]. *)
Definition prune_expired (c : IrohCache) (now : Z) : IrohCache := prune_loop now (ic_order c) c.

Definition count_of (c : IrohCache) (principal : string) : Z := default 0 (ic_per_principal c !! principal).

(** The loops that make room, for the principal and in the cache. *)
Fixpoint evict_principal_loop (fuel : nat) (principal : string) (c : IrohCache) : IrohCache :=
  match fuel with
  | O => c
  | S fuel =>
      if decide (count_of c principal >= ic_max_per_principal c) then
        match evict_oldest_for c principal with
        | (c, true) => evict_principal_loop fuel principal c
        | (c, false) => c
        end
      else c
  end.
Fixpoint evict_loop (fuel : nat) (c : IrohCache) : IrohCache :=
  match fuel with
  | O => c
  | S fuel =>
      if decide (Z.of_nat (size (ic_entries c)) >= ic_max_entries c) then
        match evict_oldest c with
        | (c, true) => evict_loop fuel c
        | (c, false) => c
        end
      else c
  end.

(** [commit]; an eviction shortens the queue, whose length is the fuel. *)
Definition commit (c : IrohCache) (event_id principal : string) (now : Z) : IrohCache * bool :=
  let c := prune_expired c now in
  match ic_entries c !! event_id with
  | Some _ => (c, false)
  | None =>
      let c := evict_principal_loop (S (length (ic_order c))) principal c in
      let c := evict_loop (S (length (ic_order c))) c in
      (mkIrohCache (<[event_id := mkIrohEntry principal (sat_add now 120)]> (ic_entries c))
         (ic_order c ++ [event_id])%list
         (<[principal := count_of c principal + 1]> (ic_per_principal c))
         (ic_max_entries c) (ic_max_per_principal c), true)
  end.

(** ** Invariant *)

Definition owned (c : IrohCache) (p : string) : list string := List.filter (belongs c p) (ic_order c).

Record wf (c : IrohCache) : Prop := {
  wf_nodup : NoDup (ic_order c);
  wf_order : ∀ id, id ∈ ic_order c ↔ is_Some (ic_entries c !! id);
  wf_count : ∀ p, count_of c p = vec_len (owned c p);
  wf_positive : ∀ p n, ic_per_principal c !! p = Some n → 0 < n
}.

Lemma wf_size c : wf c → Z.of_nat (size (ic_entries c)) = vec_len (ic_order c).
Proof.
  intros W. unfold vec_len. f_equal. rewrite <- size_dom.
  replace (dom (ic_entries c)) with (list_to_set (C := gset string) (ic_order c)).
  - apply size_list_to_set, W.
  - apply set_eq. intros id. by rewrite elem_of_list_to_set, elem_of_dom, (wf_order _ W).
Qed.

(** Removal of an id of the queue. *)
Lemma remove_spec c id l1 l2 :
  wf c → ic_order c = (l1 ++ id :: l2)%list →
  let c' := remove_entry (set_order c (l1 ++ l2)) id in
  wf c' ∧ ic_entries c' = delete id (ic_entries c) ∧ ic_order c' = (l1 ++ l2)%list
  ∧ ic_max_entries c' = ic_max_entries c ∧ ic_max_per_principal c' = ic_max_per_principal c
  ∧ ∀ p, count_of c' p = count_of c p - (if belongs c p id then 1 else 0).
Proof.
  intros W Ho. assert (Hin : is_Some (ic_entries c !! id)) by (apply (wf_order _ W); rewrite Ho; set_solver).
  destruct Hin as [e He]. pose proof (wf_nodup _ W) as Hnd. rewrite Ho in Hnd.
  assert (Hnd' : NoDup (id :: l1 ++ l2)) by (by rewrite Permutation_middle). apply NoDup_cons in Hnd' as [Hni Hnd'].
  unfold remove_entry. cbn [set_order ic_entries]. rewrite He. set (q := ie_principal e).
  assert (Hbid : ∀ p, belongs c p id = bool_decide (q = p)) by (intros p; unfold belongs; by rewrite He).
  assert (Hcq : 0 < count_of c q).
  { rewrite (wf_count _ W). unfold owned. rewrite Ho, List.filter_app. cbn. rewrite Hbid, bool_decide_true by done.
    unfold vec_len. rewrite length_app. cbn. lia. }
  assert (Hq : ic_per_principal c !! q = Some (count_of c q)).
  { unfold count_of in *. destruct (ic_per_principal c !! q); [done | simpl in *; lia]. }
  cbn [set_order ic_per_principal ic_order ic_max_entries ic_max_per_principal]. rewrite Hq.
  assert (Hcount : ∀ p, default 0 ((if decide (sat_sub (count_of c q) 1 = 0) then delete q (ic_per_principal c)
      else <[q := sat_sub (count_of c q) 1]> (ic_per_principal c)) !! p)
      = count_of c p - (if belongs c p id then 1 else 0)).
  { intros p. rewrite Hbid. destruct (decide (q = p)) as [<-|Hne].
    - rewrite bool_decide_true by done. case_decide as Hz.
      + rewrite lookup_delete_eq. simpl. unfold sat_sub in Hz. lia.
      + rewrite lookup_insert_eq. simpl. unfold sat_sub in *. lia.
    - rewrite bool_decide_false by done. unfold count_of.
      case_decide; [rewrite lookup_delete_ne by done | rewrite lookup_insert_ne by done]; lia. }
  cbv zeta. split; [| repeat split; auto].
  assert (Hfil : ∀ p, List.filter (fun k => match delete id (ic_entries c) !! k with
       | Some entry => bool_decide (ie_principal entry = p) | None => false end) (l1 ++ l2)
     = List.filter (belongs c p) (l1 ++ l2)).
  { intros p. apply filter_ext_in. intros k Hk%list_elem_of_In. unfold belongs.
    rewrite lookup_delete_ne by (intros <-; done). done. }
  split; cbn [ic_order ic_entries ic_per_principal].
  - done.
  - intros k. rewrite lookup_delete_is_Some, <- (wf_order _ W), Ho. rewrite <- Permutation_middle. set_solver.
  - intros p. unfold count_of at 1. cbn [ic_per_principal]. rewrite Hcount, (wf_count _ W). unfold owned at 2. unfold belongs at 2.
    cbn [ic_order ic_entries]. rewrite Hfil. unfold owned. rewrite Ho, !List.filter_app. cbn [List.filter].
    unfold vec_len. rewrite !length_app. destruct (belongs c p id); cbn [length]; lia.
  - intros p n. destruct (decide (q = p)) as [<-|Hne].
    + case_decide as Hz; [by rewrite lookup_delete_eq |]. rewrite lookup_insert_eq. intros [= <-]. unfold sat_sub in *. lia.
    + case_decide; [rewrite lookup_delete_ne by done | rewrite lookup_insert_ne by done]; apply (wf_positive _ W).
Qed.

Lemma take_first_Some f l x r :
  take_first f l = Some (x, r) → ∃ l1 l2, l = (l1 ++ x :: l2)%list ∧ r = (l1 ++ l2)%list ∧ f x = true.
Proof.
  revert r. induction l as [|y l IH]; intros r; simpl; [done |]. destruct (f y) eqn:E.
  - intros [= -> ->]. by exists [], r.
  - destruct (take_first f l) as [[z r']|]; [| done]. intros [= -> <-].
    destruct (IH r' eq_refl) as (l1 & l2 & -> & -> & Hf). by exists (y :: l1), l2.
Qed.

Lemma take_first_None f l : take_first f l = None → List.filter f l = [].
Proof.
  induction l as [|y l IH]; simpl; [done |]. destruct (f y) eqn:E; [done |].
  destruct (take_first f l) as [[]|]; [done |]. auto.
Qed.

(** [c'] is [c] after evictions; the entries that satisfy [keep] are still there. *)
Record evicted (keep : string → IrohEntry → Prop) (c c' : IrohCache) : Prop := {
  ev_wf : wf c';
  ev_entries : ∀ id e, ic_entries c !! id = Some e → keep id e → ic_entries c' !! id = Some e;
  ev_sub : ic_entries c' ⊆ ic_entries c;
  ev_max : ic_max_entries c' = ic_max_entries c;
  ev_per : ic_max_per_principal c' = ic_max_per_principal c;
  ev_count : ∀ p, count_of c' p <= count_of c p;
  ev_length : (length (ic_order c') <= length (ic_order c))%nat
}.

Lemma evicted_refl keep c : wf c → evicted keep c c.
Proof. intros W. split; auto; lia. Qed.

Lemma evicted_trans keep c1 c2 c3 : evicted keep c1 c2 → evicted keep c2 c3 → evicted keep c1 c3.
Proof.
  intros [] []. split; auto; try congruence; try lia; [by etrans |]. intros p. etrans; eauto.
Qed.

Lemma evicted_weaken (keep keep' : string → IrohEntry → Prop) c c' :
  (∀ id e, keep' id e → keep id e) → evicted keep c c' → evicted keep' c c'.
Proof. intros Hk []. split; auto. Qed.

Lemma remove_evicted c id l1 l2 keep :
  wf c → ic_order c = (l1 ++ id :: l2)%list → (∀ e, ic_entries c !! id = Some e → ¬ keep id e) →
  evicted keep c (remove_entry (set_order c (l1 ++ l2)) id)
  ∧ length (ic_order c) = S (length (ic_order (remove_entry (set_order c (l1 ++ l2)) id))).
Proof.
  intros W Ho Hk. pose proof (remove_spec c id l1 l2 W Ho) as H. cbv zeta in H.
  destruct H as (W' & He & Ho' & Hm & Hp & Hc).
  assert (Hlen : length (ic_order c) = S (length (ic_order (remove_entry (set_order c (l1 ++ l2)) id)))).
  { rewrite Ho, Ho', !length_app. cbn. lia. }
  split; [| exact Hlen]. split; auto; try lia.
  - intros k e Hk' Hkeep. rewrite He. rewrite lookup_delete_ne; [done |]. intros <-. by apply (Hk e).
  - rewrite He. apply delete_subseteq.
  - intros p. rewrite Hc. destruct (belongs c p id); lia.
Qed.

Lemma evict_oldest_spec c : wf c →
  let '(c', b) := evict_oldest c in
  if b then evicted (fun id _ => head (ic_order c) ≠ Some id) c c' ∧ length (ic_order c) = S (length (ic_order c'))
           ∧ ic_order c' = tail (ic_order c)
  else c' = c ∧ ic_order c = [].
Proof.
  intros W. unfold evict_oldest. destruct (ic_order c) as [|id rest] eqn:Ho; [done |].
  destruct (remove_evicted c id [] rest (fun k _ => head (ic_order c) ≠ Some k) W Ho) as [He Hl].
  { intros e _ Hn. rewrite Ho in Hn. by apply Hn. }
  cbn [app] in *. rewrite Ho in *. split; [exact He |]. split; [exact Hl |].
  pose proof (remove_spec c id [] rest W Ho) as H. cbv zeta in H. cbn [app] in H. tauto.
Qed.

Lemma prune_loop_spec now order c : wf c → order = ic_order c →
  evicted (fun _ e => now < ie_expires_at e) c (prune_loop now order c).
Proof.
  revert c. induction order as [|id rest IH]; intros c W Ho; simpl; [by apply evicted_refl |].
  destruct (match ic_entries c !! id with Some _ => _ | None => _ end) eqn:Ex; [| by apply evicted_refl].
  pose proof (evict_oldest_spec c W) as He. destruct (evict_oldest c) as [c' b]. destruct b; [| destruct He; congruence].
  destruct He as (He & _ & Hr). rewrite <- Ho in Hr, He. simpl in *.
  assert (H1 : evicted (fun _ e => now < ie_expires_at e) c c').
  { destruct He. split; auto. intros k e Hk Hne. apply ev_entries0; [done |]. intros [= ->].
    rewrite Hk in Ex. apply bool_decide_eq_true in Ex. lia. }
  eapply evicted_trans; [exact H1 |]. apply IH; [apply H1 | done].
Qed.

Lemma evict_oldest_for_spec c p : wf c →
  let '(c', b) := evict_oldest_for c p in
  if b then evicted (fun _ e => ie_principal e ≠ p) c c' ∧ length (ic_order c) = S (length (ic_order c'))
  else c' = c ∧ count_of c p = 0.
Proof.
  intros W. unfold evict_oldest_for. destruct (take_first (belongs c p) (ic_order c)) as [[id order]|] eqn:Et.
  - destruct (take_first_Some _ _ _ _ Et) as (l1 & l2 & Ho & -> & Hb).
    apply remove_evicted; [done | done |]. intros e He Hne. unfold belongs in Hb. rewrite He in Hb.
    by apply bool_decide_eq_true in Hb.
  - split; [done |]. rewrite (wf_count _ W). unfold owned. by rewrite (take_first_None _ _ Et).
Qed.

Lemma evict_principal_loop_spec fuel p c :
  wf c → 1 <= ic_max_per_principal c → (length (ic_order c) < fuel)%nat →
  let c' := evict_principal_loop fuel p c in
  evicted (fun _ e => ie_principal e ≠ p) c c' ∧ count_of c' p < ic_max_per_principal c
  ∧ (count_of c p < ic_max_per_principal c → c' = c).
Proof.
  revert c. induction fuel as [|fuel IH]; intros c W Hm Hf; [lia |]. cbv zeta. cbn [evict_principal_loop].
  case_decide as Hc; [| split; [by apply evicted_refl | split; [lia | done]]].
  pose proof (evict_oldest_for_spec c p W) as He. destruct (evict_oldest_for c p) as [c' []].
  - destruct He as [He Hl]. pose proof (ev_per _ _ _ He) as Hp.
    specialize (IH c' (ev_wf _ _ _ He) ltac:(lia) ltac:(lia)). cbv zeta in IH. destruct IH as (H1 & H2 & _).
    split; [by eapply evicted_trans |]. split; [lia | lia].
  - destruct He as [_ H0]. lia.
Qed.

Lemma evict_loop_spec fuel c :
  wf c → 1 <= ic_max_entries c → (length (ic_order c) < fuel)%nat →
  let c' := evict_loop fuel c in
  evicted (fun _ _ => False) c c' ∧ Z.of_nat (size (ic_entries c')) < ic_max_entries c
  ∧ (Z.of_nat (size (ic_entries c)) < ic_max_entries c → c' = c).
Proof.
  revert c. induction fuel as [|fuel IH]; intros c W Hm Hf; [lia |]. cbv zeta. cbn [evict_loop].
  case_decide as Hc; [| split; [by apply evicted_refl | split; [lia | done]]].
  pose proof (evict_oldest_spec c W) as He. destruct (evict_oldest c) as [c' []].
  - destruct He as (He & Hl & _). pose proof (ev_max _ _ _ He) as Hp.
    specialize (IH c' (ev_wf _ _ _ He) ltac:(lia) ltac:(lia)). cbv zeta in IH. destruct IH as (H1 & H2 & _).
    split; [| split; lia]. eapply evicted_trans; [| exact H1]. eapply evicted_weaken; [| exact He]. done.
  - destruct He as [_ H0]. rewrite (wf_size _ W), H0 in Hc. unfold vec_len in Hc. simpl in Hc. lia.
Qed.

(** The bounds of the cache. *)
Record bounded (c : IrohCache) : Prop := {
  bd_wf : wf c;
  bd_max : 1 <= ic_max_entries c;
  bd_max_per : 1 <= ic_max_per_principal c;
  bd_size : Z.of_nat (size (ic_entries c)) <= ic_max_entries c;
  bd_count : ∀ p, count_of c p <= ic_max_per_principal c
}.

(** The insertion that ends [commit]. *)
Lemma insert_spec c id p e :
  wf c → ic_entries c !! id = None → ie_principal e = p →
  let c' := mkIrohCache (<[id := e]> (ic_entries c)) (ic_order c ++ [id])%list
              (<[p := count_of c p + 1]> (ic_per_principal c)) (ic_max_entries c) (ic_max_per_principal c) in
  wf c' ∧ ∀ p', count_of c' p' = count_of c p' + (if decide (p' = p) then 1 else 0).
Proof.
  intros W Hn Hp. cbv zeta.
  assert (Hni : id ∉ ic_order c) by (rewrite (wf_order _ W), Hn; by intros [? [=]]).
  assert (Hcount : ∀ p', count_of (mkIrohCache (<[id := e]> (ic_entries c)) (ic_order c ++ [id])%list
      (<[p := count_of c p + 1]> (ic_per_principal c)) (ic_max_entries c) (ic_max_per_principal c)) p'
      = count_of c p' + (if decide (p' = p) then 1 else 0)).
  { intros p'. unfold count_of at 1. cbn [ic_per_principal]. case_decide as Hd.
    - subst p'. by rewrite lookup_insert_eq.
    - rewrite lookup_insert_ne by done. unfold count_of. lia. }
  split; [| exact Hcount]. split; cbn [ic_order ic_entries ic_per_principal].
  - apply NoDup_app. split; [apply W |]. split; [set_solver | apply NoDup_singleton].
  - intros k. rewrite elem_of_app, (wf_order _ W), list_elem_of_singleton, lookup_insert_is_Some'. naive_solver.
  - intros p'. rewrite Hcount, (wf_count _ W). unfold owned. cbn [ic_order]. rewrite List.filter_app.
    unfold vec_len. rewrite length_app.
    match goal with |- context [List.filter (belongs (mkIrohCache ?a ?b ?d ?m ?n) p') (ic_order c)] =>
      replace (List.filter (belongs (mkIrohCache a b d m n) p') (ic_order c)) with (List.filter (belongs c p') (ic_order c)) end.
    2: { apply filter_ext_in. intros k Hk%list_elem_of_In. unfold belongs. cbn [ic_entries].
         rewrite lookup_insert_ne by (intros <-; done). done. }
    match goal with |- context [List.filter (belongs ?c' p') [id]] =>
      assert (Hb : belongs c' p' id = bool_decide (p = p')) by
        (unfold belongs; cbn [ic_entries]; by rewrite lookup_insert_eq, Hp) end.
    cbn [List.filter]. rewrite Hb.
    destruct (decide (p' = p)) as [->|Hd];
      [rewrite bool_decide_true by done | rewrite bool_decide_false by congruence]; cbn [length]; lia.
  - intros p' n. destruct (decide (p = p')) as [<-|Hne].
    + rewrite lookup_insert_eq. intros [= <-]. rewrite (wf_count _ W). unfold vec_len. lia.
    + rewrite lookup_insert_ne by done. apply (wf_positive _ W).
Qed.

Lemma prune_expired_spec c now : wf c → evicted (fun _ e => now < ie_expires_at e) c (prune_expired c now).
Proof. intros W. by apply prune_loop_spec. Qed.

(** One [commit]: the entry [k] survives if it has not expired and there is room. *)
Lemma commit_spec c id p now :
  bounded c →
  let '(c', ok) := commit c id p now in
  bounded c' ∧ ic_max_entries c' = ic_max_entries c ∧ ic_max_per_principal c' = ic_max_per_principal c
  ∧ Z.of_nat (size (ic_entries c')) <= Z.of_nat (size (ic_entries c)) + 1
  ∧ (∀ p', count_of c' p' <= count_of c p' + (if decide (p' = p) then 1 else 0))
  ∧ (ok = bool_decide (ic_entries (prune_expired c now) !! id = None))
  ∧ (ok = true → ic_entries c' !! id = Some (mkIrohEntry p (sat_add now 120)))
  ∧ (∀ k e, ic_entries c !! k = Some e → now < ie_expires_at e →
       Z.of_nat (size (ic_entries c)) < ic_max_entries c →
       (ie_principal e = p → count_of c p < ic_max_per_principal c) →
       ic_entries c' !! k = Some e).
Proof.
  intros Hb. pose proof (prune_expired_spec c now (bd_wf _ Hb)) as H0. unfold commit.
  set (c0 := prune_expired c now) in *. pose proof (ev_wf _ _ _ H0) as W0.
  pose proof (wf_size _ W0) as S0. pose proof (wf_size _ (bd_wf _ Hb)) as S.
  pose proof (ev_length _ _ _ H0) as L0. unfold vec_len in S0, S.
  pose proof (ev_max _ _ _ H0) as M0. pose proof (ev_per _ _ _ H0) as P0. pose proof (bd_max _ Hb) as BM.
  pose proof (bd_max_per _ Hb) as BP. pose proof (bd_size _ Hb) as BS.
  destruct (ic_entries c0 !! id) as [e0|] eqn:Eid.
  { assert (B0 : bounded c0).
    { split; try done; try lia. intros q. pose proof (ev_count _ _ _ H0 q). pose proof (bd_count _ Hb q). lia. }
    split; [done |]. split; [done |]. split; [done |]. split; [lia |]. split.
    { intros q. pose proof (ev_count _ _ _ H0 q). case_decide; lia. }
    split; [by rewrite bool_decide_false |]. split; [done |]. intros k e Hk Hne _ _. by apply H0. }
  pose proof (evict_principal_loop_spec (Datatypes.S (length (ic_order c0))) p c0 W0 ltac:(lia) ltac:(lia)) as H1.
  cbv zeta in H1. set (c1 := evict_principal_loop _ _ _) in *. destruct H1 as (H1 & C1 & I1).
  pose proof (ev_wf _ _ _ H1) as W1.
  pose proof (evict_loop_spec (Datatypes.S (length (ic_order c1))) c1 W1 ltac:(rewrite (ev_max _ _ _ H1); lia) ltac:(lia)) as H2.
  cbv zeta in H2. set (c2 := evict_loop _ _) in *. destruct H2 as (H2 & C2 & I2).
  pose proof (ev_wf _ _ _ H2) as W2.
  pose proof (ev_max _ _ _ H1) as M1. pose proof (ev_per _ _ _ H1) as P1. pose proof (ev_max _ _ _ H2) as M2.
  pose proof (ev_per _ _ _ H2) as P2. pose proof (ev_length _ _ _ H1) as L1. pose proof (ev_length _ _ _ H2) as L2.
  assert (N2 : ic_entries c2 !! id = None).
  { eapply lookup_weaken_None; [| apply H2]. eapply lookup_weaken_None; [exact Eid | apply H1]. }
  destruct (insert_spec c2 id p (mkIrohEntry p (sat_add now 120)) W2 N2 eq_refl) as [W3 C3].
  pose proof (wf_size _ W1) as S1. pose proof (wf_size _ W2) as S2. unfold vec_len in S1, S2.
  assert (Sz : Z.of_nat (size (<[id := mkIrohEntry p (sat_add now 120)]> (ic_entries c2)))
               = Z.of_nat (size (ic_entries c2)) + 1) by (rewrite map_size_insert_None by done; lia).
  split.
  { split; cbn [ic_entries ic_max_entries ic_max_per_principal]; try done; try lia.
    intros q. rewrite C3. pose proof (ev_count _ _ _ H2 q). pose proof (ev_count _ _ _ H1 q).
    pose proof (ev_count _ _ _ H0 q). pose proof (bd_count _ Hb q). case_decide; subst; lia. }
  cbn [ic_entries ic_max_entries ic_max_per_principal]. split; [congruence |]. split; [congruence |].
  split; [lia |]. split.
  { intros q. rewrite C3. pose proof (ev_count _ _ _ H2 q). pose proof (ev_count _ _ _ H1 q).
    pose proof (ev_count _ _ _ H0 q). case_decide; lia. }
  split; [by rewrite bool_decide_true |]. split; [intros _; apply lookup_insert_eq |].
  intros k e Hk Hne Hroom Hper.
  assert (K0 : ic_entries c0 !! k = Some e) by (by apply H0).
  assert (K1 : ic_entries c1 !! k = Some e).
  { destruct (decide (ie_principal e = p)) as [Ep|Ep]; [| by apply H1].
    rewrite I1; [done |]. pose proof (ev_count _ _ _ H0 p). specialize (Hper Ep). lia. }
  assert (K2 : ic_entries c2 !! k = Some e) by (rewrite I2; [done | lia]).
  rewrite lookup_insert_ne by congruence. done.
Qed.

(** ** Sequences of commits *)

Record request := mkReq { rq_id : string; rq_principal : string; rq_now : Z }.
Definition serve (c : IrohCache) (r : request) : IrohCache := (commit c (rq_id r) (rq_principal r) (rq_now r)).1.
Definition serve_all (c : IrohCache) (rs : list request) : IrohCache := foldl serve c rs.
Definition from_principal (p : string) (rs : list request) : nat :=
  length (List.filter (fun r => bool_decide (rq_principal r = p)) rs).

Lemma serve_spec c r : bounded c → bounded (serve c r) ∧ ic_max_entries (serve c r) = ic_max_entries c
  ∧ ic_max_per_principal (serve c r) = ic_max_per_principal c.
Proof.
  intros Hb. unfold serve. pose proof (commit_spec c (rq_id r) (rq_principal r) (rq_now r) Hb) as H.
  destruct (commit _ _ _ _). tauto.
Qed.

Lemma serve_all_bounded c rs : bounded c → bounded (serve_all c rs) ∧ ic_max_entries (serve_all c rs) = ic_max_entries c
  ∧ ic_max_per_principal (serve_all c rs) = ic_max_per_principal c.
Proof.
  revert c. induction rs as [|r rs IH]; intros c Hb; [done |]. destruct (serve_spec c r Hb) as (B & E1 & E2).
  destruct (IH _ B) as (B' & F1 & F2). split; [done |]. unfold serve_all in *. cbn. split; congruence.
Qed.

Lemma new_bounded m per : 1 <= m → 1 <= per → bounded (new m per).
Proof.
  intros Hm Hp. assert (Hc : ∀ p, count_of (new m per) p = 0) by (intros p; unfold count_of; cbn; by rewrite lookup_empty).
  split; cbn [ic_max_entries ic_max_per_principal new]; [| done | done | | intros p; rewrite Hc; lia].
  2: { change (Z.of_nat 0 <= m). lia. }
  split; cbn [ic_order ic_entries ic_per_principal new]; [constructor | | intros p; by rewrite Hc |].
  - intros id. rewrite lookup_empty. split; [by intros ?%elem_of_nil | by intros [? [=]]].
  - intros p n. by rewrite lookup_empty.
Qed.

Lemma serve_all_keeps c rs k e :
  bounded c → ic_entries c !! k = Some e →
  Forall (fun r => rq_now r < ie_expires_at e) rs →
  Z.of_nat (size (ic_entries c)) + vec_len rs <= ic_max_entries c →
  count_of c (ie_principal e) + Z.of_nat (from_principal (ie_principal e) rs) <= ic_max_per_principal c →
  ic_entries (serve_all c rs) !! k = Some e.
Proof.
  revert c. induction rs as [|r rs IH]; intros c Hb Hk Hall Hs Hc; [done |].
  apply Forall_cons in Hall as [Hr Hall]. unfold vec_len in *. cbn [length] in Hs.
  pose proof (commit_spec c (rq_id r) (rq_principal r) (rq_now r) Hb) as H.
  unfold serve_all. cbn [foldl]. unfold serve at 2. destruct (commit c _ _ _) as [c' ok].
  destruct H as (B & M1 & M2 & S' & C' & _ & _ & K'). cbn [fst].
  unfold from_principal in *. cbn [List.filter] in Hc. pose proof (C' (ie_principal e)) as Ce.
  apply IH; try done; [| lia |].
  - apply K'; [done | done | lia |]. intros He. rewrite bool_decide_true in Hc by done. cbn [length] in Hc.
    rewrite He in Hc. lia.
  - case_decide as Hd.
    + rewrite bool_decide_true in Hc by done. cbn [length] in Hc. lia.
    + rewrite bool_decide_false in Hc by congruence. lia.
Qed.

(** The replay cache of the QUIC transport.  After any sequence of commits
    it holds at most [m] entries and at most [per] of a principal, its counters
    are exact and its queue lists each entry once; an id it does not hold is
    accepted; and an accepted id is refused for the next 120 seconds as long as
    the commits in between do not overflow the cache. *)
Theorem iroh_replay_cache m per rs id p now rs' :
  1 <= m → 1 <= per →
  let c := serve_all (new m per) rs in
  Z.of_nat (size (ic_entries c)) <= m
  ∧ (∀ q, count_of c q = vec_len (owned c q) ∧ count_of c q <= per)
  ∧ NoDup (ic_order c) ∧ (∀ k, k ∈ ic_order c ↔ is_Some (ic_entries c !! k))
  ∧ (ic_entries c !! id = None → (commit c id p now).2 = true)
  ∧ ((commit c id p now).2 = true →
     let c1 := (commit c id p now).1 in
     Forall (fun r => rq_now r < sat_add now 120) rs' →
     Z.of_nat (size (ic_entries c1)) + vec_len rs' <= m →
     count_of c1 p + Z.of_nat (from_principal p rs') <= per →
     ∀ q now', now' < sat_add now 120 → (commit (serve_all c1 rs') id q now').2 = false).
Proof.
  intros Hm Hp. cbv zeta. destruct (serve_all_bounded _ rs (new_bounded m per Hm Hp)) as (B & E1 & E2).
  set (c := serve_all (new m per) rs) in *. cbn in E1, E2.
  split; [rewrite <- E1; apply B |]. split; [intros q; split; [apply (bd_wf _ B) | rewrite <- E2; apply B] |].
  split; [apply (bd_wf _ B) |]. split; [apply (bd_wf _ B) |].
  pose proof (commit_spec c id p now B) as H. destruct (commit c id p now) as [c1 ok]. cbn [fst snd].
  destruct H as (B1 & M1 & M2 & _ & _ & Hok & Hent & _). split.
  - intros Hn. rewrite Hok. apply bool_decide_true.
    eapply lookup_weaken_None; [exact Hn | apply (prune_expired_spec c now (bd_wf _ B))].
  - intros ->. specialize (Hent eq_refl). intros Hall Hsz Hct q now' Hnow.
    pose proof (serve_all_keeps c1 rs' id _ B1 Hent Hall ltac:(rewrite M1, E1; lia) ltac:(rewrite M2, E2; exact Hct)) as Hk.
    destruct (serve_all_bounded c1 rs' B1) as (B2 & _ & _).
    pose proof (commit_spec _ id q now' B2) as H. destruct (commit (serve_all c1 rs') id q now') as [c3 ok3].
    destruct H as (_ & _ & _ & _ & _ & Hok3 & _). cbn. rewrite Hok3. apply bool_decide_false.
    rewrite (ev_entries _ _ _ (prune_expired_spec _ now' (bd_wf _ B2)) _ _ Hk Hnow). done.
Qed.

End IrohReplay.
