(* ===== verification/Iroh.v ===== *)
(** * The QUIC transport ([src/src/transport/iroh_transport.rs])

    A stream carries one request: its header is read within a limit, its
    authorization is verified and committed, the body of an upload is read
    against a budget shared by all streams, and the request is dispatched on the
    state the HTTP server works on.  QUIC delivers bytes and may end or reset a
    stream at any point ([RecvStream]).  [open_stream] is what a stream does
    before it waits for its body and [finish_stream] the rest, so that several
    streams can be interleaved. *)

From Stdlib Require Import ZArith Lia Ascii String.
From Stdlib Require Import Strings.Byte.
From stdpp Require Import base list gmap strings numbers sets.
From S2P Require Import Prelude Effects Protocol Auth Replay RequestAuth RateLimit Database Access Storage Locks Lfs Stats Server Wire IrohReplay.

Open Scope string_scope.
Open Scope Z_scope.
Open Scope handler_scope.

Definition MAX_WIRE_HEADER : Z := 16 * 1024.
Definition DEFAULT_MAX_IROH_BODY : Z := 256 * 1024 * 1024.
Definition MAX_CONCURRENT_STREAMS : Z := 64.
Definition MAX_IN_FLIGHT_IROH_BODY_BYTES : Z := 256 * 1024 * 1024.
Definition MAX_REPLAY_ENTRIES : Z := 10000.
Definition MAX_REPLAY_ENTRIES_PER_PRINCIPAL : Z := 256.

(** The bytes the peer sends on a stream, and whether it then resets it. *)
Record RecvStream := mkRecv { rv_bytes : list byte; rv_reset : bool }.

(** What is written on a stream: a response frame and the bytes that follow. *)
Definition Reply : Type := Wire.Response * list byte.

(** [VerifiedAuth]. *)
Record VerifiedAuth := mkVerified { va_pubkey : string; va_event_id : string }.

(** [GateError]. *)
Definition GateError : Type := Wire.Status * string.

(** The state a transport works on: the [ServerState] it shares with the HTTP
    server, its lock database, the process-wide replay cache of the transport,
    and the free bytes of its body budget. *)
Record IrohNode (B D V L : Type) := mkNode {
  n_server : ServerState B D V;
  n_lock_db : option L;
  n_replay : IrohCache;
  n_body_budget : Z
}.
Arguments mkNode {B D V L} _ _ _ _.
Arguments n_server {B D V L} _.
Arguments n_lock_db {B D V L} _.
Arguments n_replay {B D V L} _.
Arguments n_body_budget {B D V L} _.

(** [reject_stream], and the responses of the handlers that carry an error. *)
Definition reject_stream (status : Wire.Status) (error : string) : Reply :=
  (Wire.mkResponse status 0 "" error None, []).
Definition ok_reply (descriptor : option json) : Reply :=
  (Wire.mkResponse Wire.StOk 0 "" "" descriptor, []).

(** [!s.is_empty()], and [None] for the empty string. *)
Definition nonempty (s : string) : bool := negb (bool_decide (s = "")).
Definition nonempty_some (s : string) : option string := if decide (s = "") then None else Some s.

(** [parse_lfs_from_request]. *)
Definition parse_lfs_from_request (req : Wire.Request) : LfsContext :=
  mkLfsContext (nonempty (Wire.rq_lfs_path req) || nonempty (Wire.rq_lfs_repo req))
    (nonempty_some (Wire.rq_lfs_path req)) (nonempty_some (Wire.rq_lfs_repo req))
    (nonempty_some (Wire.rq_lfs_base req)) (Wire.rq_lfs_manifest req).

(** The JSON of a [LockRecord]. *)
Definition lock_record_json (r : LockRecord) : json :=
  JObj [("id", JStr (l_id r)); ("repo_id", JStr (l_repo_id r)); ("path", JStr (l_path r));
        ("pubkey", JStr (l_pubkey r)); ("locked_at", JNum (l_locked_at r))].
Definition cursor_json (c : option string) : json := match c with Some c => JStr c | None => JNull end.

(** [InFlightBodyBudget::try_reserve], on the free permits: the permits taken. *)
Definition try_reserve (permits bytes : Z) : result Z string :=
  if decide (u32_max < bytes) then Err "upload exceeds aggregate byte budget"
  else if decide (MAX_IN_FLIGHT_IROH_BODY_BYTES < bytes) then Err "upload exceeds aggregate byte budget"
  else if decide (bytes <= permits) then Ok bytes
  else Err "iroh upload byte budget is exhausted".

(** The loop of [handle_stream] that reads the header line, one byte at a
    time: the bytes read with the line feed, and those left. *)
Fixpoint read_header (buf : list byte) (bytes : list byte) (reset : bool) : option (list byte * list byte) :=
  match bytes with
  | [] => if reset then None else Some (buf, [])
  | b :: bytes =>
      let buf := (buf ++ [b])%list in
      if decide (vec_len buf > MAX_WIRE_HEADER) then None
      else if decide (b = x0a) then Some (buf, bytes)
      else read_header buf bytes reset
  end.

(** [recv.read_exact]. *)
Definition read_exact (bytes : list byte) (n : Z) : option (list byte) :=
  if decide (n <= vec_len bytes) then Some (take (Z.to_nat n) bytes) else None.

(** ** Authorization *)

Section auth.
Context `{Crates} `{WireJson}.

(** The text of the error of [read_request], and what the stream is answered. *)
Definition read_request (recv : RecvStream) : result (Wire.Request * list byte) (option Reply) :=
  match read_header [] (rv_bytes recv) (rv_reset recv) with
  | None => Err None
  | Some (buf, rest) =>
      match decode_line request_from_slice buf with
      | Ok (req, _) => Ok (req, rest)
      | Err e => Err (Some (reject_stream Wire.StError e))
      end
  end.

(** [request_auth_binding]. *)
Definition request_auth_binding (req : Wire.Request) : option string :=
  match Wire.rq_op req with
  | Wire.Upload | Wire.Delete => Some (Wire.rq_sha256 req)
  | Wire.LockCreate => Some (sha256_hex (lock_create_to_vec (Wire.rq_repo_id req) (Wire.rq_lock_path req)))
  | Wire.LockDelete =>
      Some (sha256_hex (lock_delete_to_vec (Wire.rq_repo_id req) (Wire.rq_lock_id req) (Wire.rq_force req)))
  | Wire.LockVerify =>
      Some (sha256_hex (lock_verify_to_vec (Wire.rq_repo_id req) (Wire.rq_cursor req) (Wire.rq_limit req)))
  | _ => None
  end.

(** The closure [unique] of [verify_lfs_auth_binding]. *)
Definition unique (event : NostrEvent) (name : string) : result (option string) string :=
  match tags_named name event with
  | [] => Ok None
  | [[_; v]] => Ok (Some v)
  | _ => Err ("malformed or duplicate " +:+ name +:+ " authorization tag")
  end.

Definition is_lfs_tag (t : list string) : bool :=
  match t with a :: b :: _ => bool_decide (a = "t") && bool_decide (b = "lfs") | _ => false end.
Definition lfs_unbound : string := "authorization is not bound to this LFS context".

(** [verify_lfs_auth_binding]; the conjunction stops at the first test that
    fails, before later tags are looked at. *)
Definition verify_lfs_auth_binding (event : NostrEvent) (req : Wire.Request) : result unit string :=
  let lfs_tags := List.filter is_lfs_tag (ev_tags event) in
  let manifest_tags := List.filter (fun t => bool_decide (t = ["manifest"])) (ev_tags event) in
  let is_lfs := nonempty (Wire.rq_lfs_path req) || nonempty (Wire.rq_lfs_repo req) in
  let matches (name value : string) : result bool string :=
    let? v := unique event name in Ok (bool_decide (v = nonempty_some value)) in
  if decide (length lfs_tags = if is_lfs then 1%nat else 0%nat) then
    let? path := matches "path" (Wire.rq_lfs_path req) in
    if negb path then Err lfs_unbound else
    let? repo := matches "repo" (Wire.rq_lfs_repo req) in
    if negb repo then Err lfs_unbound else
    let? base := matches "base" (Wire.rq_lfs_base req) in
    if negb base then Err lfs_unbound else
    if decide (length manifest_tags = if Wire.rq_lfs_manifest req then 1%nat else 0%nat) then Ok tt
    else Err lfs_unbound
  else Err lfs_unbound.

(** The action an event must allow for an operation. *)
Definition op_action (op : Wire.Op) : string :=
  match op with
  | Wire.Upload => "upload"
  | Wire.Delete => "delete"
  | Wire.Get | Wire.List_ | Wire.Head => "get"
  | Wire.LockCreate | Wire.LockDelete | Wire.LockList | Wire.LockVerify => "lock"
  end.

(** [tag.len() == 2 && tag\[0\] == "x"]. *)
Definition x_tag (t : list string) : bool := match t with [a; _] => bool_decide (a = "x") | _ => false end.

(** The tests of [verify_auth] for a request that is bound to its event. *)
Definition verify_binding (event : NostrEvent) (req : Wire.Request) (receiver : string) : result unit string :=
  match request_auth_binding req with
  | None => Ok tt
  | Some expected_binding =>
      let? _ := match tags_named "server" event with
                | [[_; v]] => if decide (v = receiver) then Ok tt else Err "authorization is for a different iroh server"
                | _ => Err "authorization is for a different iroh server"
                end in
      match List.filter x_tag (ev_tags event) with
      | [[_; v]] => if decide (v = expected_binding) then Ok tt else Err "authorization is not bound to this request"
      | _ => Err "authorization is not bound to this request"
      end
  end.

(** The event of an authorization header. *)
Definition auth_event (auth_header : string) : result NostrEvent string :=
  let b64 := default auth_header (strip_prefix "Nostr " auth_header) in
  match base64url_decode b64 with
  | Err e => Err ("invalid auth encoding: " +:+ e)
  | Ok json_bytes => ok_or (event_from_json json_bytes) ("invalid auth event: " +:+ event_json_error json_bytes)
  end.

(** [verify_auth]. *)
Definition verify_auth (now : Z) (auth_header : string) (req : Wire.Request) (receiver : string)
    : result VerifiedAuth string :=
  let? event := auth_event auth_header in
  if decide (ev_kind event ≠ 24242) then Err "iroh requires a Blossom kind:24242 authorization event"
  else
    match verify_blossom_auth now event (Some (op_action (Wire.rq_op req))) with
    | Err e => Err (auth_error_to_string e)
    | Ok _ =>
        let? _ := verify_binding event req receiver in
        let? _ := (if decide (Wire.rq_op req = Wire.Upload) then verify_lfs_auth_binding event req else Ok tt) in
        Ok (mkVerified (ev_pubkey event) (ev_id event))
    end.
End auth.

(** ** The handlers *)

Section handlers.
Context `{Crates} `{Codec} `{WireJson} {B D V L : Type} `{BlobBackend B} `{BlobDatabase D}
  `{LfsVersionDatabase V} `{LockDatabase L}.

Notation S := (ServerState B D V).
Notation N := (IrohNode B D V L).

(** [check_rate_limit]. *)
Definition check_rate_limit (q : ReqEnv) (principal : string) : MR S GateError unit :=
  fun s => match s_rate_limiter s with
           | None => (s, Ok tt)
           | Some l =>
               let '(l, ok) := RateLimiter.check l principal (q_ms q) (q_cleanup_ms q) in
               (set_rate_limiter (Some l) s, if ok then Ok tt else Err (Wire.StError, "rate limit exceeded"))
           end.

(** [preflight_upload]. *)
Definition preflight_upload (q : ReqEnv) (req : Wire.Request) (auth : option VerifiedAuth) : MR S GateError unit :=
  let! state := gets (fun s => s) in
  guard (negb (require_auth (s_requirements state) && match auth with None => true | Some _ => false end))
    (Wire.StUnauthorized, "auth required for upload") ;!
  let principal := match auth with Some auth => va_pubkey auth | None => "anonymous" end in
  guard (@is_allowed (s_access state) principal Access.Upload)
    (Wire.StForbidden, "upload not allowed for this pubkey") ;!
  match check_quota (s_database state) principal
          (additional_bytes (s_database state) (Wire.rq_sha256 req) principal (Wire.rq_body_len req)) with
  | Err error => early (Wire.StForbidden, db_error_to_string error)
  | Ok _ => check_rate_limit q principal
  end.

(** [preflight_mutation]; the lock database is only read. *)
Definition preflight_mutation (q : ReqEnv) (lock_db : option L) (req : Wire.Request) (auth : VerifiedAuth)
    : MR S GateError unit :=
  let! state := gets (fun s => s) in
  let role := @role (s_access state) (va_pubkey auth) in
  let allowed :=
    match Wire.rq_op req with
    | Wire.Delete =>
        negb (bool_decide (role = RDenied))
        && (bool_decide (role = RAdmin)
            || unwrap_or (is_upload_owner (s_database state) (Wire.rq_sha256 req) (va_pubkey auth)) false)
    | Wire.LockCreate | Wire.LockDelete | Wire.LockVerify => @is_allowed (s_access state) (va_pubkey auth) Access.Lock
    | _ => true
    end in
  guard allowed (Wire.StForbidden, "operation not allowed for this pubkey") ;!
  guard (match Wire.rq_op req, lock_db with
         | Wire.LockDelete, Some lock_db =>
             match get_lock lock_db (Wire.rq_repo_id req) (Wire.rq_lock_id req) with
             | Ok record => bool_decide (l_pubkey record = va_pubkey auth) || bool_decide (role = RAdmin)
             | Err _ => true
             end
         | _, _ => true
         end)
    (Wire.StForbidden, "only the lock owner or an admin can unlock") ;!
  check_rate_limit q (va_pubkey auth).

(** [handle_get]. *)
Definition handle_get (q : ReqEnv) (sha256 : string) (state : S) : Reply :=
  match get (q_env q) (s_backend state) sha256 with
  | Some raw_data =>
      let data :=
        match s_lfs_version_db state with
        | Some lfs_db =>
            match get_by_sha256 lfs_db sha256 with
            | Ok (Some version) =>
                match v_storage version with
                | Compressed => decompress_or_raw raw_data
                | Delta =>
                    match reconstruct_blob (q_env q) version lfs_db (s_backend state) with
                    | Ok reconstructed => reconstructed
                    | Err _ => raw_data
                    end
                | Raw => raw_data
                end
            | _ => raw_data
            end
        | None => raw_data
        end in
      (Wire.mkResponse Wire.StOk (vec_len data) "application/octet-stream" "" None, data)
  | None => reject_stream Wire.StNotFound "not found"
  end.

(** [handle_head]. *)
Definition handle_head (sha256 : string) (state : S) : Reply :=
  let exists_ := exists_blob (s_backend state) sha256 in
  let original_size :=
    if exists_ then
      match s_lfs_version_db state with
      | Some lfs_db =>
          match get_by_sha256 lfs_db sha256 with
          | Ok (Some v) => Some (as_u64 (v_original_size v))
          | _ => None
          end
      | None => None
      end
    else None in
  (Wire.mkResponse (if exists_ then Wire.StOk else Wire.StNotFound) (default 0 original_size) "" "" None, []).

(** The checks of [handle_upload] before it stores anything: the account the
    upload goes to. *)
Definition check_upload (req : Wire.Request) (auth_pubkey : option string) (data : list byte) : MR S Reply string :=
  let! state := gets (fun s => s) in
  guard (negb (bool_decide (data = []))) (reject_stream Wire.StError "empty body") ;!
  guard (negb (require_auth (s_requirements state) && match auth_pubkey with None => true | Some _ => false end))
    (reject_stream Wire.StUnauthorized "auth required for upload") ;!
  let pubkey := default "anonymous" auth_pubkey in
  guard (@is_allowed (s_access state) pubkey Access.Upload)
    (reject_stream Wire.StForbidden "upload not allowed for this pubkey") ;!
  let size := vec_len data in
  guard (match max_size (s_requirements state) with Some max => bool_decide (size <= max) | None => true end)
    (reject_stream Wire.StError
       ("exceeds max upload size of " +:+ u64_to_string (default 0 (max_size (s_requirements state))) +:+ " bytes")) ;!
  match check_quota (s_database state) pubkey
          (additional_bytes (s_database state) (Wire.rq_sha256 req) pubkey size) with
  | Err e => early (reject_stream Wire.StForbidden (db_error_to_string e))
  | Ok _ => ret tt
  end ;!
  guard (bool_decide (sha256_hex data = Wire.rq_sha256 req))
    (reject_stream Wire.StError "upload body SHA256 does not match request") ;!
  ret pubkey.

(** The rest of [handle_upload]. *)
Definition store_upload (q : ReqEnv) (req : Wire.Request) (pubkey : string) (data : list byte) : MR S Reply Reply :=
  let original_sha256 := sha256_hex data in
  let original_size := vec_len data in
  put_blob q (parse_lfs_from_request req) data
    (fun error => reject_stream Wire.StError ("storage write failed: " +:+ error)) ;!
  let! base_url := gets s_base_url in
  let desc := make_descriptor_from_hash (q_now q) original_sha256 original_size base_url in
  let! d := gets s_database in
  let '(d, r) := record_upload d (mkUpload (d_sha256 desc) (d_size desc)
                   (default "application/octet-stream" (d_content_type desc)) pubkey
                   (default 0 (d_uploaded desc)) None) in
  modify (set_database d) ;!
  match r with
  | Err error => early (reject_stream Wire.StError ("metadata write failed: " +:+ db_error_to_string error))
  | Ok _ => ret (ok_reply (Some (descriptor_json desc)))
  end.

(** [handle_upload]. *)
Definition handle_upload (q : ReqEnv) (data : list byte) (req : Wire.Request) (auth_pubkey : option string)
    : S → S * Reply :=
  respond (let! pubkey := check_upload req auth_pubkey data in store_upload q req pubkey data).

(** What [handle_delete] does for a member: [Some] answer, or [None] when the
    content goes. *)
Definition delete_owned (sha256 pubkey : string) : MR S Reply (option Reply) :=
  let! d := gets s_database in
  guard (unwrap_or (is_upload_owner d sha256 pubkey) false) (reject_stream Wire.StForbidden "not the blob owner") ;!
  match upload_owner_count d sha256 with
  | Err _ => early (reject_stream Wire.StError "failed to count blob owners")
  | Ok owner_count =>
      if decide (owner_count > 1) then
        let '(d, r) := delete_upload_owner d sha256 pubkey in
        modify (set_database d) ;!
        match r with
        | Err _ => early (reject_stream Wire.StError "failed to update blob ownership")
        | Ok _ => ret (Some (ok_reply None))
        end
      else ret None
  end.

(** The end of [handle_delete]. *)
Definition delete_content (q : ReqEnv) (sha256 : string) : MR S Reply Reply :=
  let! removed := remove_blob (q_env q) sha256 (reject_stream Wire.StError)
    (fun error => reject_stream Wire.StError ("metadata delete failed: " +:+ db_error_to_string error)) in
  match removed with
  | Ok true => ret (ok_reply None)
  | Ok false => ret (reject_stream Wire.StNotFound "not found")
  | Err error => ret (reject_stream Wire.StError ("storage delete failed: " +:+ error))
  end.

Definition delete_request (q : ReqEnv) (sha256 : string) (auth_pubkey : option string) : MR S Reply Reply :=
  match auth_pubkey with
  | None => early (reject_stream Wire.StUnauthorized "auth required for delete")
  | Some pubkey =>
      let! state := gets (fun s => s) in
      let role := @role (s_access state) pubkey in
      guard (negb (bool_decide (role = RDenied))) (reject_stream Wire.StForbidden "delete not allowed for this pubkey") ;!
      if decide (role = RAdmin) then delete_content q sha256
      else
        let! retained := delete_owned sha256 pubkey in
        match retained with
        | Some answer => ret answer
        | None => delete_content q sha256
        end
  end.
(** [handle_delete]. *)
Definition handle_delete (q : ReqEnv) (sha256 : string) (auth_pubkey : option string) : S → S * Reply :=
  respond (delete_request q sha256 auth_pubkey).

(** [handle_list]. *)
Definition handle_list (pubkey : string) (state : S) : Reply :=
  match list_uploads_by_pubkey (s_database state) pubkey with
  | Ok records =>
      let body := descriptors_to_vec (map (fun r =>
        mkDescriptor (r_sha256 r) (r_size r) (Some (r_mime_type r))
          (Some (s_base_url state +:+ "/" +:+ r_sha256 r)) (Some (r_created_at r))) records) in
      (Wire.mkResponse Wire.StOk (vec_len body) "application/json" "" None, body)
  | Err e => reject_stream Wire.StError (db_error_to_string e)
  end.

(** *** Locks *)

Definition lock_unconfigured : Reply := reject_stream Wire.StNotFound "lock support not configured".

(** [handle_lock_create]; [uuid] is the identifier drawn for the lock. *)
Definition handle_lock_create (q : ReqEnv) (uuid : string) (req : Wire.Request) (auth_pubkey : option string)
    (access : AccessControl) (lock_db : option L) : option L * Reply :=
  match auth_pubkey with
  | None => (lock_db, reject_stream Wire.StUnauthorized "auth required for lock")
  | Some pubkey =>
      if negb (@is_allowed access pubkey Access.Lock) then (lock_db, reject_stream Wire.StForbidden "lock not allowed")
      else
        match lock_db with
        | None => (None, lock_unconfigured)
        | Some db =>
            let '(db, r) := create_lock db (q_now q) uuid (Wire.rq_repo_id req) (Wire.rq_lock_path req) pubkey in
            (Some db,
             match r with
             | Ok record => ok_reply (Some (lock_record_json record))
             | Err (Conflict _) => reject_stream Wire.StConflict "path already locked"
             | Err e => reject_stream Wire.StError (lock_error_to_string e)
             end)
        end
  end.

(** [handle_lock_delete]. *)
Definition handle_lock_delete (req : Wire.Request) (auth_pubkey : option string) (access : AccessControl)
    (lock_db : option L) : option L * Reply :=
  match auth_pubkey with
  | None => (lock_db, reject_stream Wire.StUnauthorized "auth required for unlock")
  | Some pubkey =>
      let is_admin := bool_decide (@role access pubkey = RAdmin) in
      match lock_db with
      | None => (None, lock_unconfigured)
      | Some db =>
          let force := Wire.rq_force req && is_admin in
          let '(db, r) := delete_lock db (Wire.rq_repo_id req) (Wire.rq_lock_id req) force pubkey in
          (Some db,
           match r with
           | Ok record => ok_reply (Some (lock_record_json record))
           | Err LockNotFound => reject_stream Wire.StNotFound "lock not found"
           | Err (Forbidden msg) => reject_stream Wire.StForbidden msg
           | Err e => reject_stream Wire.StError (lock_error_to_string e)
           end)
      end
  end.

(** The filters of a request. *)
Definition request_filters (req : Wire.Request) : LockFilters :=
  mkFilters None None (nonempty_some (Wire.rq_cursor req))
    (if decide (Wire.rq_limit req = 0) then None else Some (Wire.rq_limit req)).

(** [handle_lock_list]. *)
Definition handle_lock_list (req : Wire.Request) (lock_db : option L) : Reply :=
  match lock_db with
  | None => lock_unconfigured
  | Some db =>
      match list_locks db (Wire.rq_repo_id req) (request_filters req) with
      | Ok (records, next_cursor) =>
          ok_reply (Some (JObj [("locks", JArr (map lock_record_json records));
                                ("next_cursor", cursor_json next_cursor)]))
      | Err e => reject_stream Wire.StError (lock_error_to_string e)
      end
  end.

(** [handle_lock_verify]. *)
Definition handle_lock_verify (req : Wire.Request) (auth_pubkey : option string) (lock_db : option L) : Reply :=
  match auth_pubkey with
  | None => reject_stream Wire.StUnauthorized "auth required for verify"
  | Some pubkey =>
      match lock_db with
      | None => lock_unconfigured
      | Some db =>
          match list_locks db (Wire.rq_repo_id req) (request_filters req) with
          | Ok (records, next_cursor) =>
              let mine r := bool_decide (l_pubkey r = pubkey) in
              ok_reply (Some (JObj [("ours", JArr (map lock_record_json (List.filter mine records)));
                 ("theirs", JArr (map lock_record_json (List.filter (fun r => negb (mine r)) records)));
                 ("next_cursor", cursor_json next_cursor)]))
          | Err e => reject_stream Wire.StError (lock_error_to_string e)
          end
      end
  end.

(** ** Streams *)

Definition set_server (s : S) (n : N) : N := mkNode s (n_lock_db n) (n_replay n) (n_body_budget n).
Definition set_locks (l : option L) (n : N) : N := mkNode (n_server n) l (n_replay n) (n_body_budget n).
Definition set_replay (c : IrohCache) (n : N) : N := mkNode (n_server n) (n_lock_db n) c (n_body_budget n).
Definition set_budget (b : Z) (n : N) : N := mkNode (n_server n) (n_lock_db n) (n_replay n) b.

(** A stream is answered, or dropped without an answer. *)
Notation M := (MR N (option Reply)).

(** A handler that may change the server, or only reads it. *)
Definition on_server (h : S → S * Reply) : MR N (option Reply) (option Reply) :=
  fun n => let '(s, r) := h (n_server n) in (set_server s n, Ok (Some r)).
Definition on_locks (h : option L → option L * Reply) : MR N (option Reply) (option Reply) :=
  fun n => let '(l, r) := h (n_lock_db n) in (set_locks l n, Ok (Some r)).
Definition reading (h : N → Reply) : MR N (option Reply) (option Reply) := gets (fun n => Some (h n)).

(** [reject_stream] with a [GateError]. *)
Definition gate (m : MR S GateError unit) : M unit :=
  map_err (fun '(status, message) => Some (reject_stream status message)) (zoom n_server set_server m).

(** [commit_auth_event]; the caller rejects an event that was used. *)
Definition commit_auth_event (now : Z) (auth : VerifiedAuth) : M unit :=
  fun n =>
    let '(cache, ok) := IrohReplay.commit (n_replay n) (va_event_id auth) (va_pubkey auth) now in
    (set_replay cache n,
     if ok then Ok tt
     else Err (Some (reject_stream Wire.StUnauthorized "authorization event has already been used"))).

(** [body_budget.try_reserve]. *)
Definition reserve (bytes : Z) : M Z :=
  fun n => match try_reserve (n_body_budget n) bytes with
           | Ok k => (set_budget (n_body_budget n - k) n, Ok k)
           | Err error => (n, Err (Some (reject_stream Wire.StError error)))
           end.
Definition release (permit : Z) : M unit := modify (fun n => set_budget (n_body_budget n + permit) n).

(** The verified authorization of a request, if it has one. *)
Definition authenticate (q : ReqEnv) (receiver : string) (req : Wire.Request) : M (option VerifiedAuth) :=
  if nonempty (Wire.rq_auth req) then
    match verify_auth (q_auth q) (Wire.rq_auth req) req receiver with
    | Ok auth => ret (Some auth)
    | Err e => early (Some (reject_stream Wire.StUnauthorized e))
    end
  else ret None.

(** What [handle_stream] does for an upload before it waits for the body: the
    permit it holds from then on.  A permit taken is dropped when the event was
    already used. *)
Definition admit_upload (q : ReqEnv) (req : Wire.Request) (auth : option VerifiedAuth) : M Z :=
  let! n := gets (fun n => n) in
  let max_body := default DEFAULT_MAX_IROH_BODY (max_size (s_requirements (n_server n))) in
  guard (negb (bool_decide (Wire.rq_body_len req = 0))) (Some (reject_stream Wire.StError "empty body")) ;!
  guard (bool_decide (Wire.rq_body_len req <= max_body))
    (Some (reject_stream Wire.StError ("body exceeds maximum of " +:+ u64_to_string max_body +:+ " bytes"))) ;!
  gate (preflight_upload q req auth) ;!
  let! permit := reserve (Wire.rq_body_len req) in
  match auth with
  | Some auth =>
      fun n => match commit_auth_event (q_mark q) auth n with
               | (n, Ok _) => (n, Ok permit)
               | (n, Err e) => (set_budget (n_body_budget n + permit) n, Err e)
               end
  | None => ret permit
  end.

(** What it does for the other operations: those whose requests are bound to
    an event need one, and use it up. *)
Definition admit_mutation (q : ReqEnv) (req : Wire.Request) (auth : option VerifiedAuth) : M unit :=
  match request_auth_binding req with
  | None => ret tt
  | Some _ =>
      match auth with
      | None => early (Some (reject_stream Wire.StUnauthorized "auth required"))
      | Some auth =>
          let! n := gets (fun n => n) in
          gate (preflight_mutation q (n_lock_db n) req auth) ;!
          commit_auth_event (q_mark q) auth
      end
  end.

(** A stream whose request was admitted. *)
Record Opened := mkOpened {
  o_req : Wire.Request;
  o_auth : option VerifiedAuth;
  o_permit : Z;
  o_rest : list byte
}.

(** [handle_stream] up to the body: the header, the hash, the authorization
    and the admission. *)
Definition open_stream (q : ReqEnv) (receiver : string) (recv : RecvStream) : M Opened :=
  let! header := lift (read_request recv) in
  let '(req, rest) := header in
  guard (negb (bool_decide (Wire.rq_op req ∈ [Wire.Get; Wire.Head; Wire.Delete; Wire.Upload]))
         || is_valid_sha256 (Wire.rq_sha256 req))
    (Some (reject_stream Wire.StError "invalid SHA256 hash")) ;!
  let! auth := authenticate q receiver req in
  if decide (Wire.rq_op req = Wire.Upload) then
    let! permit := admit_upload q req auth in ret (mkOpened req auth permit rest)
  else admit_mutation q req auth ;! ret (mkOpened req auth 0 rest).

(** The dispatch of [handle_stream]. *)
Definition dispatch (q : ReqEnv) (uuid : string) (req : Wire.Request) (auth : option VerifiedAuth)
    (body : list byte) : M (option Reply) :=
  let auth_pubkey := va_pubkey <$> auth in
  match Wire.rq_op req with
  | Wire.Get => reading (fun n => handle_get q (Wire.rq_sha256 req) (n_server n))
  | Wire.Head => reading (fun n => handle_head (Wire.rq_sha256 req) (n_server n))
  | Wire.Upload => on_server (handle_upload q body req auth_pubkey)
  | Wire.Delete => on_server (handle_delete q (Wire.rq_sha256 req) auth_pubkey)
  | Wire.List_ => reading (fun n => handle_list (Wire.rq_pubkey req) (n_server n))
  | Wire.LockCreate =>
      let! n := gets (fun n => n) in on_locks (handle_lock_create q uuid req auth_pubkey (s_access (n_server n)))
  | Wire.LockDelete =>
      let! n := gets (fun n => n) in on_locks (handle_lock_delete req auth_pubkey (s_access (n_server n)))
  | Wire.LockList => reading (fun n => handle_lock_list req (n_lock_db n))
  | Wire.LockVerify => reading (fun n => handle_lock_verify req auth_pubkey (n_lock_db n))
  end.

(** The body of an upload; a stream that ends before is dropped. *)
Definition read_body (o : Opened) : result (list byte) (option Reply) :=
  if decide (Wire.rq_op (o_req o) = Wire.Upload) then ok_or (read_exact (o_rest o) (Wire.rq_body_len (o_req o))) None
  else Ok [].

(** The rest of [handle_stream].  The permit is dropped on every path. *)
Definition finish_stream (q : ReqEnv) (uuid : string) (o : Opened) : N → N * option Reply :=
  respond (fun n =>
    let '(n, r) := (let! body := lift (read_body o) in dispatch q uuid (o_req o) (o_auth o) body) n in
    let '(n, _) := release (o_permit o) n in (n, r)).

(** [handle_stream]. *)
Definition handle_stream (q : ReqEnv) (uuid receiver : string) (recv : RecvStream) (n : N) : N * option Reply :=
  match open_stream q receiver recv n with
  | (n, Ok o) => finish_stream q uuid o n
  | (n, Err answer) => (n, answer)
  end.

(** The bytes written on a stream. *)
Definition written (r : option Reply) : list byte :=
  match r with Some (resp, body) => encode_response resp ++ body | None => [] end.
End handlers.
