(* ===== verification/IrohSafety.v ===== *)
(** * Authorization over QUIC

    What a stream must have presented before it changes anything, and how the
    LFS context of its upload follows from its event. *)

From Stdlib Require Import ZArith Lia Ascii String.
From Stdlib Require Import Strings.Byte.
From stdpp Require Import base list gmap strings numbers sets.
From S2P Require Import Prelude Effects Protocol Auth Replay RequestAuth RateLimit Database Access Storage Locks Lfs Stats Server Wire IrohReplay Iroh.

Open Scope string_scope.
Open Scope Z_scope.
Open Scope handler_scope.

(** ** What [verify_auth] accepts *)

Section auth.
Context `{Crates} `{WireJson}.

(** The LFS tags of an event agree with a request. *)
Definition lfs_bound (e : NostrEvent) (req : Wire.Request) : Prop :=
  length (List.filter is_lfs_tag (ev_tags e))
    = (if nonempty (Wire.rq_lfs_path req) || nonempty (Wire.rq_lfs_repo req) then 1%nat else 0%nat)
  ∧ unique e "path" = Ok (nonempty_some (Wire.rq_lfs_path req))
  ∧ unique e "repo" = Ok (nonempty_some (Wire.rq_lfs_repo req))
  ∧ unique e "base" = Ok (nonempty_some (Wire.rq_lfs_base req))
  ∧ length (List.filter (fun t => bool_decide (t = ["manifest"])) (ev_tags e))
    = (if Wire.rq_lfs_manifest req then 1%nat else 0%nat).

Lemma verify_lfs_ok e req : verify_lfs_auth_binding e req = Ok tt → lfs_bound e req.
Proof.
  unfold verify_lfs_auth_binding, lfs_bound.
  assert (Hm : ∀ name v (k : bool → result unit string),
    (let? m := (let? u := unique e name in Ok (bool_decide (u = v))) in k m) = Ok tt →
    k false ≠ Ok tt → unique e name = Ok v ∧ k true = Ok tt).
  { intros name v k. destruct (unique e name) as [u|]; [| done]. cbn. case_bool_decide; [by subst | done]. }
  destruct (decide _) as [E|]; [| done]. split; [exact E |].
  apply Hm in H1 as [-> H1]; [| done]. cbn in H1. apply Hm in H1 as [-> H1]; [| done]. cbn in H1.
  apply Hm in H1 as [-> H1]; [| done]. cbn in H1. destruct (decide _); [done | done].
Qed.

Lemma x_tag_pair e a v : List.filter x_tag (ev_tags e) = [[a; v]] → a = "x".
Proof.
  intros E. assert (Hin : In [a; v] (List.filter x_tag (ev_tags e))) by (rewrite E; by left).
  apply List.filter_In in Hin as [_ Hx]. by apply bool_decide_eq_true in Hx.
Qed.

(** Exactly one pair [["x"; h]]. *)
Definition x_bound (e : NostrEvent) (h : string) : Prop := List.filter x_tag (ev_tags e) = [["x"; h]].

Lemma verify_binding_ok e req receiver b :
  verify_binding e req receiver = Ok tt → request_auth_binding req = Some b →
  unique_tag e "server" receiver ∧ x_bound e b.
Proof.
  unfold verify_binding, unique_tag, x_bound. intros Hv Hb. rewrite Hb in Hv.
  destruct (tags_named "server" e) as [|[|a [|v [|]]] [|]] eqn:Es; try done.
  pose proof (tags_named_pair _ _ _ _ Es) as ->. case_decide as Hr; [| done]. cbn in Hv. subst v. split; [done |].
  destruct (List.filter x_tag (ev_tags e)) as [|[|a [|v [|]]] [|]] eqn:Ex; try done.
  pose proof (x_tag_pair _ _ _ Ex) as ->. case_decide; [by subst | done].
Qed.

(** What an event accepted for a request proves. *)
Record authorizes (now : Z) (receiver : string) (req : Wire.Request) (e : NostrEvent) : Prop := {
  az_event : auth_event (Wire.rq_auth req) = Ok e;
  az_kind : ev_kind e = 24242;
  az_fresh : fresh_at now e;
  az_expiration : expiration_ok now e;
  az_action : has_action e (op_action (Wire.rq_op req));
  az_authentic : authentic e;
  az_bound : ∀ b, request_auth_binding req = Some b → unique_tag e "server" receiver ∧ x_bound e b;
  az_lfs : Wire.rq_op req = Wire.Upload → lfs_bound e req
}.

Lemma verify_auth_ok now req receiver a :
  verify_auth now (Wire.rq_auth req) req receiver = Ok a →
  ∃ e, authorizes now receiver req e ∧ a = mkVerified (ev_pubkey e) (ev_id e).
Proof.
  unfold verify_auth. destruct (auth_event (Wire.rq_auth req)) as [e|] eqn:Ee; [| done]. cbn.
  destruct (decide _) as [|Hk]; [done |].
  destruct (verify_blossom_auth now e _) as [[]|] eqn:Eb; [| done].
  destruct (verify_binding e req receiver) as [[]|] eqn:Ev; [| done]. cbn.
  destruct (if decide _ then _ else _) as [[]|] eqn:El; [| done]. intros [= <-]. exists e. split; [| done].
  apply verify_blossom_auth_ok in Eb as (B1 & B2 & B3 & B4 & B5). split; try done.
  - intros b Hb. by eapply verify_binding_ok.
  - intros Hu. rewrite decide_True in El by done. by apply verify_lfs_ok.
Qed.

(** *** The LFS context of an upload *)

(** The last value of the tags. *)
Definition last_value (o : option string) (t : list string) : option string :=
  match t with _ :: v :: _ => Some v | _ => o end.

Lemma fold_lfs_tags l : ∀ c,
  let c' := foldl lfs_tag c l in
  is_lfs c' = is_lfs c || existsb is_lfs_tag l
  ∧ lfs_path c' = foldl last_value (lfs_path c) (List.filter (tag_named "path") l)
  ∧ lfs_repo c' = foldl last_value (lfs_repo c) (List.filter (tag_named "repo") l)
  ∧ lfs_base c' = foldl last_value (lfs_base c) (List.filter (tag_named "base") l)
  ∧ is_manifest c' = is_manifest c || existsb (tag_named "manifest") l.
Proof.
  induction l as [|t l IH]; intros c; cbn [foldl List.filter existsb]; [by rewrite !orb_false_r |].
  specialize (IH (lfs_tag c t)). cbv zeta in *. destruct IH as (E1 & E2 & E3 & E4 & E5). rewrite E1, E2, E3, E4, E5.
  clear. destruct t as [|n [|v r]]; cbn [lfs_tag is_lfs_tag tag_named].
  - done.
  - rewrite andb_false_r. destruct (decide (n = "manifest")) as [->|Hm]; [by destruct c as [? ? ? ? []] |].
    rewrite (bool_decide_false (n = "manifest")) by done. cbn [orb].
    do 3 (case_bool_decide; cbn [foldl last_value]); done.
  - destruct (bool_decide (n = "t") && bool_decide (v = "lfs")) eqn:Et.
    + apply andb_true_iff in Et as [->%bool_decide_eq_true _]. by destruct c as [[] ? ? ? []].
    + cbn [orb]. destruct (decide (n = "path")) as [->|]; [by destruct c as [? ? ? ? []] |].
      destruct (decide (n = "repo")) as [->|]; [by destruct c as [? ? ? ? []] |].
      destruct (decide (n = "base")) as [->|]; [by destruct c as [? ? ? ? []] |].
      destruct (decide (n = "manifest")) as [->|]; [by destruct c as [? ? ? ? []] |].
      rewrite (bool_decide_false (n = "path")), (bool_decide_false (n = "repo")), (bool_decide_false (n = "base")),
        (bool_decide_false (n = "manifest")) by done. done.
Qed.

Lemma unique_last e name v :
  unique e name = Ok v → foldl last_value None (List.filter (tag_named name) (ev_tags e)) = v.
Proof.
  unfold unique. fold (tags_named name e). destruct (tags_named name e) as [|[|a [|b [|]]] [|]]; try done;
    intros [= <-]; done.
Qed.

Lemma existsb_filter {A} (f : A → bool) l : existsb f l = negb (bool_decide (List.filter f l = [])).
Proof. induction l as [|a l IH]; [done |]. cbn. destruct (f a); [done | exact IH]. Qed.

Lemma filter_length_bool {A} (f : A → bool) l (b : bool) :
  length (List.filter f l) = (if b then 1%nat else 0%nat) → existsb f l = b.
Proof. intros E. rewrite existsb_filter. destruct b, (List.filter f l) as [|? []]; done. Qed.

(** The LFS context of an upload over QUIC is the one its event states.
    When [verify_auth] accepts the event of an upload, the context the transport
    takes from the request is the context the HTTP server takes from the same
    event, provided its [manifest] tags have no value. *)
Theorem iroh_lfs_context_bound now req receiver a e :
  verify_auth now (Wire.rq_auth req) req receiver = Ok a →
  auth_event (Wire.rq_auth req) = Ok e →
  Wire.rq_op req = Wire.Upload →
  Forall (fun t => tag_named "manifest" t = true → t = ["manifest"]) (ev_tags e) →
  parse_lfs_from_request req = from_event e.
Proof.
  intros (e' & Hz & _)%verify_auth_ok He Hop Hman. pose proof (az_event _ _ _ _ Hz) as He'.
  assert (e' = e) as -> by congruence. destruct (az_lfs _ _ _ _ Hz Hop) as (L1 & L2 & L3 & L4 & L5).
  unfold from_event, parse_lfs_from_request.
  destruct (fold_lfs_tags (ev_tags e) default_lfs_context) as (E1 & E2 & E3 & E4 & E5). cbn in E1, E2, E3, E4, E5.
  destruct (foldl lfs_tag default_lfs_context (ev_tags e)) as [f1 f2 f3 f4 f5]. cbn in *. subst. f_equal.
  - symmetry. by apply filter_length_bool.
  - symmetry. by apply unique_last.
  - symmetry. by apply unique_last.
  - symmetry. by apply unique_last.
  - rewrite <- (filter_length_bool _ _ _ L5). rewrite Forall_forall in Hman. symmetry. clear -Hman.
    induction (ev_tags e) as [|t l IH]; [done |]. cbn. rewrite IH by (intros x Hx; apply Hman; set_solver). f_equal.
    case_bool_decide as Ht; [by subst | ]. destruct (tag_named "manifest" t) eqn:Em; [| done].
    destruct Ht. apply Hman; [set_solver | done].
Qed.
End auth.

(** ** What a stream changes *)

Section streams.
Context `{Crates} `{Codec} `{WireJson} {B D V L : Type} `{BlobBackend B} `{BlobDatabase D}
  `{LfsVersionDatabase V} `{LockDatabase L}.

Notation S := (ServerState B D V).
Notation N := (IrohNode B D V L).

(** What the node holds for its users: blobs, metadata, versions and locks. *)
Definition held (n : N) : B * D * option V * option L := (held_by (n_server n), n_lock_db n).
(** What it is configured with. *)
Definition config (n : N) := config_of (n_server n).

Lemma keeps_check_rate_limit {X} (f : S → X) q p :
  (∀ l s, f (set_rate_limiter l s) = f s) → keeps f (check_rate_limit q p).
Proof. intros Hf s. unfold check_rate_limit. destruct (s_rate_limiter s); [| done]. destruct (RateLimiter.check _ _ _ _). apply Hf. Qed.

Lemma keeps_preflight_upload {X} (f : S → X) q req auth :
  (∀ l s, f (set_rate_limiter l s) = f s) → keeps f (preflight_upload q req auth).
Proof. intros Hf. unfold preflight_upload. keeps; by apply keeps_check_rate_limit. Qed.

Lemma keeps_preflight_mutation {X} (f : S → X) q (db : option L) req auth :
  (∀ l s, f (set_rate_limiter l s) = f s) → keeps f (preflight_mutation q db req auth).
Proof. intros Hf. unfold preflight_mutation. keeps; by apply keeps_check_rate_limit. Qed.

Lemma keeps_gate {X Y} (f : N → X) (g : S → Y) (m : MR S GateError unit) :
  keeps g m → (∀ n s, g s = g (n_server n) → f (set_server s n) = f n) → keeps f (gate m).
Proof.
  intros Hm Hf. apply keeps_map_err. intros n. unfold zoom. specialize (Hm (n_server n)).
  destruct (m (n_server n)) as [s r]. by apply Hf.
Qed.

Lemma keeps_commit {X} (f : N → X) now a : (∀ c n, f (set_replay c n) = f n) → keeps f (commit_auth_event now a).
Proof. intros Hf n. unfold commit_auth_event. destruct (IrohReplay.commit _ _ _ _). apply Hf. Qed.
Lemma keeps_reserve {X} (f : N → X) k : (∀ b n, f (set_budget b n) = f n) → keeps f (reserve k).
Proof. intros Hf n. unfold reserve. destruct (try_reserve _ _); [apply Hf | done]. Qed.
Lemma keeps_authenticate {X} (f : N → X) q receiver req : keeps f (authenticate q receiver req).
Proof. unfold authenticate. destruct (nonempty _); [| done]. by destruct (verify_auth _ _ _ _). Qed.

Lemma gate_ok (m : MR S GateError unit) (n n' : N) x :
  gate m n = (n', Ok x) → ∃ s, m (n_server n) = (s, Ok x) ∧ n' = set_server s n.
Proof.
  unfold gate, map_err, zoom. destruct (m (n_server n)) as [s [|]]; [| done]. intros [= <- <-]. eauto.
Qed.

Lemma commit_ok now a (n n' : N) x :
  commit_auth_event now a n = (n', Ok x) →
  (IrohReplay.commit (n_replay n) (va_event_id a) (va_pubkey a) now).2 = true
  ∧ n' = set_replay (IrohReplay.commit (n_replay n) (va_event_id a) (va_pubkey a) now).1 n.
Proof.
  unfold commit_auth_event. destruct (IrohReplay.commit _ _ _ _) as [c []]; [| done]. by intros [= <- _].
Qed.

(** A stream that was only opened has changed nothing its users see. *)
Lemma keeps_admit_upload {X Y} (f : N → X) (g : S → Y) q req auth :
  (∀ l s, g (set_rate_limiter l s) = g s) → (∀ n s, g s = g (n_server n) → f (set_server s n) = f n) →
  (∀ c n, f (set_replay c n) = f n) → (∀ b n, f (set_budget b n) = f n) →
  keeps f (admit_upload q req auth).
Proof.
  intros F1 F2 F3 F4. unfold admit_upload. keeps.
  - apply (keeps_gate _ g); [by apply keeps_preflight_upload | done].
  - by apply keeps_reserve.
  - intros n. pose proof (keeps_commit f (q_mark q) v F3 n) as Hc.
    destruct (commit_auth_event _ _ n) as [n' []]; [done |]. cbn in *. by rewrite F4.
Qed.
Lemma keeps_admit_mutation {X Y} (f : N → X) (g : S → Y) q req auth :
  (∀ l s, g (set_rate_limiter l s) = g s) → (∀ n s, g s = g (n_server n) → f (set_server s n) = f n) →
  (∀ c n, f (set_replay c n) = f n) → keeps f (admit_mutation q req auth).
Proof.
  intros F1 F2 F3. unfold admit_mutation. keeps; [| by apply keeps_commit].
  apply (keeps_gate _ g); [by apply keeps_preflight_mutation | done].
Qed.

Lemma keeps_open {X Y} (f : N → X) (g : S → Y) q receiver recv :
  (∀ l s, g (set_rate_limiter l s) = g s) → (∀ n s, g s = g (n_server n) → f (set_server s n) = f n) →
  (∀ c n, f (set_replay c n) = f n) → (∀ b n, f (set_budget b n) = f n) →
  keeps f (open_stream q receiver recv).
Proof.
  intros F1 F2 F3 F4. unfold open_stream. keeps.
  - apply keeps_authenticate.
  - by apply (keeps_admit_upload f g).
  - by apply (keeps_admit_mutation f g).
Qed.

Definition seen_by (s : S) := (held_by s, config_of s).
Definition seen_in (n : N) := (held n, config n).
Lemma seen_server (n : N) s : seen_by s = seen_by (n_server n) → seen_in (set_server s n) = seen_in n.
Proof. unfold seen_by, seen_in, held, config. cbn. congruence. Qed.

Lemma open_keeps q receiver recv : keeps seen_in (open_stream q receiver recv).
Proof. apply (keeps_open seen_in seen_by); [done | exact seen_server | done | done]. Qed.

(** *** What an admitted stream has shown *)

(** The principal of a request. *)
Definition principal (auth : option VerifiedAuth) : string :=
  match auth with Some a => va_pubkey a | None => "anonymous" end.

(** The rights the access control of the server requires; to unlock, the lock
    is the principal's own or he is an administrator. *)
Definition permitted (n : N) (req : Wire.Request) (p : string) : Prop :=
  let s := n_server n in
  match Wire.rq_op req with
  | Wire.Upload => @is_allowed (s_access s) p Access.Upload = true
  | Wire.Delete => @role (s_access s) p ≠ RDenied
      ∧ (@role (s_access s) p = RAdmin ∨ is_upload_owner (s_database s) (Wire.rq_sha256 req) p = Ok true)
  | Wire.LockDelete => @is_allowed (s_access s) p Access.Lock = true
      ∧ ∀ db record, n_lock_db n = Some db → get_lock db (Wire.rq_repo_id req) (Wire.rq_lock_id req) = Ok record →
          l_pubkey record = p ∨ @role (s_access s) p = RAdmin
  | _ => @is_allowed (s_access s) p Access.Lock = true
  end.

(** What a request of [p] does to the locks: a new lock is [p]'s, and only an
    administrator forces an unlock. *)
Definition lock_change (q : ReqEnv) (uuid : string) (req : Wire.Request) (p : string) (n n' : N) : Prop :=
  n_lock_db n' = n_lock_db n
  ∨ ∃ db, n_lock_db n = Some db ∧
    (Wire.rq_op req = Wire.LockCreate
     ∧ n_lock_db n' = Some (create_lock db (q_now q) uuid (Wire.rq_repo_id req) (Wire.rq_lock_path req) p).1
     ∨ ∃ force, Wire.rq_op req = Wire.LockDelete ∧ (force = true → @role (s_access (n_server n)) p = RAdmin)
       ∧ n_lock_db n' = Some (delete_lock db (Wire.rq_repo_id req) (Wire.rq_lock_id req) force p).1).

Lemma preflight_upload_ok q req auth s s' x :
  preflight_upload (B := B) (V := V) q req auth s = (s', Ok x) →
  (auth = None → require_auth (s_requirements s) = false) ∧ @is_allowed (s_access s) (principal auth) Access.Upload = true.
Proof.
  unfold preflight_upload. intros (st & s1 & [= <- <-] & Hp)%bind_ok.
  apply bind_ok in Hp as (u & s1 & [Hr ->]%guard_ok & Hp).
  apply bind_ok in Hp as (u2 & s1 & [Ha ->]%guard_ok & _). split; [| done].
  intros ->. apply negb_true_iff in Hr. by rewrite andb_true_r in Hr.
Qed.

Lemma preflight_mutation_ok q (n : N) req auth s' x :
  Wire.rq_op req ≠ Wire.Upload →
  preflight_mutation (B := B) (V := V) q (n_lock_db n) req auth (n_server n) = (s', Ok x) →
  request_auth_binding req ≠ None → permitted n req (va_pubkey auth).
Proof.
  intros Hop. unfold preflight_mutation. intros (st & s1 & [= <- <-] & Hp)%bind_ok Hb.
  apply bind_ok in Hp as (u & s1 & [Ha ->]%guard_ok & Hp).
  apply bind_ok in Hp as (u2 & s1 & [Hg ->]%guard_ok & _). unfold permitted, request_auth_binding in *.
  destruct (Wire.rq_op req); try done.
  2: { split; [done |]. intros db record Hdb Hrec. rewrite Hdb, Hrec in Hg.
       apply orb_true_iff in Hg as [Hg | Hg]; apply bool_decide_eq_true in Hg; [by left | by right]. }
  apply andb_true_iff in Ha as [Hd Ha]. split; [by apply negb_true_iff, bool_decide_eq_false in Hd |].
  apply orb_true_iff in Ha as [Ha | Ha]; [left; by apply bool_decide_eq_true in Ha |].
  right. destruct (is_upload_owner _ _ _) as [[]|]; done.
Qed.

(** A request is bound to an event that authorizes it and that had not been
    used, and uses it up. *)
Definition spent (q : ReqEnv) (receiver : string) (req : Wire.Request) (n n' : N) (p : string) : Prop :=
  ∃ e, authorizes (q_auth q) receiver req e ∧ ev_pubkey e = p
    ∧ (IrohReplay.commit (n_replay n) (ev_id e) p (q_mark q)).2 = true
    ∧ n_replay n' = (IrohReplay.commit (n_replay n) (ev_id e) p (q_mark q)).1.

Lemma authenticate_ok q receiver req (n n' : N) auth :
  authenticate q receiver req n = (n', Ok auth) →
  n' = n ∧ (auth = None ∧ Wire.rq_auth req = ""
            ∨ ∃ e, authorizes (q_auth q) receiver req e ∧ auth = Some (mkVerified (ev_pubkey e) (ev_id e))).
Proof.
  unfold authenticate, nonempty. case_bool_decide as Hn; cbn; [by intros [= <- <-]; auto |].
  destruct (verify_auth _ _ _ _) as [a|] eqn:Ev; [| done]. intros [= <- <-]. split; [done | right].
  destruct (verify_auth_ok _ _ _ _ Ev) as (e & Hz & ->). eauto.
Qed.

Lemma admit_upload_ok q req auth (n n' : N) k :
  admit_upload q req auth n = (n', Ok k) →
  (auth = None → require_auth (s_requirements (n_server n)) = false)
  ∧ @is_allowed (s_access (n_server n)) (principal auth) Access.Upload = true
  ∧ (∀ a, auth = Some a →
      (IrohReplay.commit (n_replay n) (va_event_id a) (va_pubkey a) (q_mark q)).2 = true
      ∧ n_replay n' = (IrohReplay.commit (n_replay n) (va_event_id a) (va_pubkey a) (q_mark q)).1).
Proof.
  unfold admit_upload. intros (n0 & n1 & [= <- <-] & Hp)%bind_ok.
  apply bind_ok in Hp as (u1 & n1 & [_ ->]%guard_ok & Hp). apply bind_ok in Hp as (u2 & n1 & [_ ->]%guard_ok & Hp).
  apply bind_ok in Hp as (u3 & n1 & (s & Hpre & ->)%gate_ok & Hp).
  destruct (preflight_upload_ok _ _ _ _ _ _ Hpre) as [Hr Ha]. split; [done |]. split; [done |].
  intros a ->. apply bind_ok in Hp as (k' & n1 & Hres & Hp).
  assert (Hn1 : n_replay n1 = n_replay n) by (eapply (keeps_run n_replay _ _ _ _ (keeps_reserve n_replay _ (fun _ _ => eq_refl))) in Hres; exact Hres).
  destruct (commit_auth_event _ _ _) as [n2 [u|]] eqn:Ec; [| done]. injection Hp as <- _.
  apply commit_ok in Ec as [Hc ->]. by rewrite Hn1 in Hc |- *.
Qed.

Lemma admit_mutation_ok q req auth (n n' : N) x :
  Wire.rq_op req ≠ Wire.Upload → request_auth_binding req ≠ None →
  admit_mutation q req auth n = (n', Ok x) →
  ∃ a, auth = Some a ∧ permitted n req (va_pubkey a)
    ∧ (IrohReplay.commit (n_replay n) (va_event_id a) (va_pubkey a) (q_mark q)).2 = true
    ∧ n_replay n' = (IrohReplay.commit (n_replay n) (va_event_id a) (va_pubkey a) (q_mark q)).1.
Proof.
  intros Hop Hb. unfold admit_mutation. destruct (request_auth_binding req) as [b|] eqn:Eb; [| done].
  destruct auth as [a|]; [| done]. intros (n0 & n1 & [= <- <-] & Hp)%bind_ok.
  apply bind_ok in Hp as (u & n1 & (s & Hpre & ->)%gate_ok & [Hc ->]%commit_ok). exists a. split; [done |].
  split; [| done]. eapply preflight_mutation_ok; [done | exact Hpre | congruence].
Qed.

(** What holds of a stream once it is open. *)
Lemma open_ok q receiver recv (n n' : N) o :
  open_stream q receiver recv n = (n', Ok o) →
  read_request recv = Ok (o_req o, o_rest o)
  ∧ (request_auth_binding (o_req o) ≠ None →
      permitted n (o_req o) (principal (o_auth o))
      ∧ (spent q receiver (o_req o) n n' (principal (o_auth o))
         ∨ Wire.rq_op (o_req o) = Wire.Upload ∧ Wire.rq_auth (o_req o) = "" ∧ o_auth o = None
           ∧ require_auth (s_requirements (n_server n)) = false)).
Proof.
  unfold open_stream. intros ([req rest] & n1 & [= <- Hreq] & Hp)%bind_ok.
  apply bind_ok in Hp as (u & n1 & [_ ->]%guard_ok & Hp).
  apply bind_ok in Hp as (auth & n1 & [-> Hauth]%authenticate_ok & Hp).
  destruct (decide (Wire.rq_op req = Wire.Upload)) as [Hop|Hop].
  - apply bind_ok in Hp as (k & n1 & Had & [= <- <-]). cbn [o_req o_rest o_auth]. split; [done |]. intros _.
    destruct (admit_upload_ok _ _ _ _ _ _ Had) as (Hr & Ha & Hc). split; [by unfold permitted; rewrite Hop |].
    destruct Hauth as [[-> He] | (e & Hz & ->)]; [right; auto |]. left. destruct (Hc _ eq_refl) as [C1 C2].
    exists e. done.
  - apply bind_ok in Hp as (u2 & n1 & Had & [= <- <-]). cbn [o_req o_rest o_auth]. split; [done |]. intros Hb.
    destruct (admit_mutation_ok _ _ _ _ _ _ Hop Hb Had) as (a & -> & Hper & C1 & C2). split; [done |]. left.
    destruct Hauth as [[[=] _] | (e & Hz & [= ->])]. exists e. done.
Qed.

Definition succeeds (r : Reply) : Prop := Wire.rs_status r.1 = Wire.StOk.

(** A stream that is rejected before its body is not told that it succeeded. *)
Lemma open_refuses q receiver recv :
  refuses_with (fun o => match o with Some r => ¬ succeeds r | None => True end) (S := N) (open_stream q receiver recv).
Proof.
  set (P := fun o : option Reply => match o with Some r => ¬ succeeds r | None => True end).
  assert (Hgate : ∀ m : MR S GateError unit, refuses_with (fun e => e.1 ≠ Wire.StOk) m →
    refuses_with P (gate (B := B) (D := D) (L := L) m)).
  { intros m Hm n n' o. unfold gate, map_err, zoom. destruct (m (n_server n)) as [s [|[st msg]]] eqn:E; [done |].
    intros [= _ <-]. exact (Hm _ _ _ E). }
  assert (Hrl : ∀ p, refuses_with (fun e => e.1 ≠ Wire.StOk) (S := S) (check_rate_limit q p)).
  { intros p s s' e. unfold check_rate_limit. destruct (s_rate_limiter s); [| done].
    destruct (RateLimiter.check _ _ _ _) as [? []]; [done |]. by intros [= _ <-]. }
  assert (Hcommit : ∀ a, refuses_with P (S := N) (commit_auth_event (q_mark q) a)).
  { intros a n n' o. unfold commit_auth_event. destruct (IrohReplay.commit _ _ _ _) as [c []]; [done |].
    by intros [= _ <-]. }
  assert (Hread : ∀ e, read_request recv = Err e → P e).
  { unfold read_request. intros e. destruct (read_header _ _ _) as [[buf rest]|]; [| by intros [= <-]].
    destruct (decode_line _ _) as [[]|]; [done |]. by intros [= <-]. }
  assert (Hreserve : ∀ k, refuses_with P (S := N) (reserve k)).
  { intros k n n' o. unfold reserve. destruct (try_reserve _ _); [done |]. by intros [= _ <-]. }
  unfold open_stream, authenticate, admit_upload, admit_mutation.
  repeat first [ match goal with |- ∀ _, _ => intro end | apply refuses_bind | apply refuses_gets | apply refuses_ret
    | apply Hcommit | (apply refuses_lift; exact Hread)
    | (apply refuses_guard; cbn; unfold succeeds; cbn; congruence)
    | (apply refuses_early; cbn; unfold succeeds; cbn; congruence)
    | (apply Hgate; unfold preflight_upload, preflight_mutation)
    | apply Hrl | apply Hreserve
    | match goal with |- refuses_with _ (match ?x with _ => _ end) => destruct x end ].
  match goal with |- refuses_with P (fun n => let (_, _) := commit_auth_event _ ?a n in _) =>
    intros n n' o; pose proof (Hcommit a n) as Hc; destruct (commit_auth_event (q_mark q) a n) as [n1 [|er]] end;
    [done | intros [= _ <-]; by eapply Hc].
Qed.

(** *** The rest of the stream *)

Lemma on_server_inv h (n n' : N) r :
  on_server h n = (n', r) → ∃ s x, h (n_server n) = (s, x) ∧ n' = set_server s n ∧ r = Ok (Some x).
Proof. unfold on_server. destruct (h (n_server n)) as [s x]. intros [= <- <-]. eauto. Qed.

Lemma keeps_on_locks {X} (f : N → X) h : (∀ l n, f (set_locks l n) = f n) → keeps f (on_locks h).
Proof. intros Hf n. unfold on_locks. destruct (h _). apply Hf. Qed.
Lemma keeps_on_server {X} (f : N → X) h : (∀ s n, f (set_server s n) = f n) → keeps f (on_server h).
Proof. intros Hf n. unfold on_server. destruct (h _). apply Hf. Qed.

Lemma dispatch_keeps {X} (f : N → X) q uuid req auth body :
  (∀ l n, f (set_locks l n) = f n) → (∀ s n, f (set_server s n) = f n) → keeps f (dispatch q uuid req auth body).
Proof. intros F1 F2. unfold dispatch. keeps; try (by apply keeps_on_locks); by apply keeps_on_server. Qed.

Lemma finish_inv q uuid o (n n' : N) r :
  finish_stream q uuid o n = (n', r) →
  ∃ n1 r1, (let! body := lift (read_body o) in dispatch q uuid (o_req o) (o_auth o) body) n = (n1, r1)
    ∧ n' = set_budget (n_body_budget n1 + o_permit o) n1 ∧ r = match r1 with Ok x => x | Err x => x end.
Proof.
  unfold finish_stream, respond.
  match goal with |- context [bind ?m ?k n] => destruct (bind m k n) as [n1 r1] end.
  cbn. intros [= <- <-]. eauto.
Qed.

Definition changing (op : Wire.Op) : Prop := op ∈ [Wire.Upload; Wire.Delete; Wire.LockCreate; Wire.LockDelete].

Lemma check_upload_ok req pk data (s s' : S) p :
  check_upload req pk data s = (s', Ok p) →
  s' = s ∧ p = default "anonymous" pk ∧ sha256_hex data = Wire.rq_sha256 req ∧ data ≠ [].
Proof.
  unfold check_upload. intros (st & s1 & [= <- <-] & Hp)%bind_ok.
  apply bind_ok in Hp as (u & s1 & [Hd ->]%guard_ok & Hp). apply bind_ok in Hp as (u2 & s1 & [_ ->]%guard_ok & Hp).
  apply bind_ok in Hp as (u3 & s1 & [_ ->]%guard_ok & Hp). apply bind_ok in Hp as (u4 & s1 & [_ ->]%guard_ok & Hp).
  apply bind_ok in Hp as (u5 & s1 & Hq & Hp). destruct (check_quota _ _ _); [| done]. injection Hq as <- _.
  apply bind_ok in Hp as (u6 & s1 & [Hx ->]%guard_ok & [= <- <-]).
  apply bool_decide_eq_true in Hx. apply negb_true_iff, bool_decide_eq_false in Hd. done.
Qed.

Lemma keeps_check_upload {X} (f : S → X) req pk data : keeps f (check_upload req pk data).
Proof. unfold check_upload. keeps. Qed.

Lemma upload_held q data req pk (s s' : S) r :
  handle_upload q data req pk s = (s', r) → held_by s' ≠ held_by s → sha256_hex data = Wire.rq_sha256 req.
Proof.
  unfold handle_upload, respond.
  match goal with |- context [bind ?m ?k s] => destruct (bind m k s) as [s1 r1] eqn:E end. intros [= <- _] Hne.
  apply bind_inv in E as [(p & s2 & Hc & _) | (e & Hc & _)]; [by destruct (check_upload_ok _ _ _ _ _ _ Hc) as (_ & _ & ? & _) |].
  apply (keeps_run held_by _ _ _ _ (keeps_check_upload held_by req pk data)) in Hc. done.
Qed.

Lemma dispatch_held q uuid req auth body (n n' : N) r :
  dispatch q uuid req auth body n = (n', r) → held n' ≠ held n →
  changing (Wire.rq_op req) ∧ (Wire.rq_op req = Wire.Upload → sha256_hex body = Wire.rq_sha256 req).
Proof.
  unfold dispatch, changing. destruct (Wire.rq_op req) eqn:Eop; try (by intros [= <- _]);
    intros Hd Hne; (split; [set_solver | try done]). intros _.
  apply on_server_inv in Hd as (s & x & Hu & -> & _). eapply upload_held; [exact Hu |]. intros E.
  apply Hne. unfold held. cbn. by rewrite E.
Qed.

Lemma dispatch_locks q uuid req auth body (n n' : N) r :
  dispatch q uuid req auth body n = (n', r) →
  match auth with
  | Some a => lock_change q uuid req (va_pubkey a) n n'
  | None => n_lock_db n' = n_lock_db n
  end.
Proof.
  unfold dispatch, lock_change. destruct (Wire.rq_op req) eqn:Eop;
    try (by intros [= <- _]; destruct auth; [left |]);
    try (by intros (s & x & _ & -> & _)%on_server_inv; destruct auth; [left |]); cbn; unfold bind; cbn; unfold on_locks, handle_lock_create, handle_lock_delete.
  - destruct auth as [a|]; cbn; [| by intros [= <- _]].
    match goal with |- context [if negb ?b then _ else _] => destruct (negb b); [by intros [= <- _]; left |] end.
    destruct (n_lock_db n) as [db|] eqn:Edb; [| by intros [= <- _]; left].
    match goal with |- context [create_lock ?d ?t ?u ?x ?y ?z] => destruct (create_lock d t u x y z) as [db' c] eqn:E end.
    intros [= <- _]. right. exists db. split; [done |]. left. by rewrite E.
  - destruct auth as [a|]; cbn; [| by intros [= <- _]].
    destruct (n_lock_db n) as [db|] eqn:Edb; [| by intros [= <- _]; left].
    match goal with |- context [delete_lock ?d ?t ?u ?x ?y] => destruct (delete_lock d t u x y) as [db' c] eqn:E end.
    intros [= <- _]. right. exists db. split; [done |]. right.
    eexists. split; [done |]. split; [| by rewrite E]. intros [_ Ha]%andb_true_iff. by apply bool_decide_eq_true in Ha.
Qed.

(** C6: nothing changes over QUIC without authority.  If a stream changes the
    blobs, the metadata, the versions or the locks, then it asked for an upload,
    a deletion, a lock or an unlock, and its principal has the rights for it: to
    delete, he owns the upload or is an administrator; to unlock, the lock is his
    or he is an administrator, and the unlock is forced only for an
    administrator; a new lock is his.  It carried a kind:24242 event that is
    authentic, fresh, names this server and this request alone, and was not used
    before; the event is used up by it.  Only an upload to a server that does not
    require authorization may go without.  What an upload stores hashes to what
    its event states. *)
Theorem iroh_changes_authorized q uuid receiver recv (n n' : N) r :
  handle_stream q uuid receiver recv n = (n', r) → held n' ≠ held n →
  ∃ req rest p, read_request recv = Ok (req, rest) ∧ changing (Wire.rq_op req)
    ∧ permitted n req p
    ∧ (spent q receiver req n n' p
       ∨ Wire.rq_op req = Wire.Upload ∧ Wire.rq_auth req = "" ∧ p = "anonymous"
         ∧ require_auth (s_requirements (n_server n)) = false)
    ∧ lock_change q uuid req p n n'
    ∧ (Wire.rq_op req = Wire.Upload →
       ∃ body, read_exact rest (Wire.rq_body_len req) = Some body ∧ sha256_hex body = Wire.rq_sha256 req).
Proof.
  unfold handle_stream. destruct (open_stream q receiver recv n) as [n1 [o|answer]] eqn:Eo.
  2: { intros [= <- _] Hne. apply (keeps_run _ _ _ _ _ (open_keeps q receiver recv)) in Eo.
       unfold seen_in in Eo. congruence. }
  intros (n2 & r2 & Hd & -> & _)%finish_inv Hne.
  pose proof (keeps_run _ _ _ _ _ (open_keeps q receiver recv) Eo) as Hk. unfold seen_in in Hk.
  assert (Hne' : held n2 ≠ held n1) by (unfold held in *; cbn in *; congruence).
  apply bind_inv in Hd as [(body & n3 & [= <- Hbody] & Hd) | (e & [= <- _] & _)]; [| done].
  destruct (dispatch_held _ _ _ _ _ _ _ _ Hd Hne') as [Hch Hup].
  destruct (open_ok _ _ _ _ _ _ Eo) as [Hreq Hauth].
  exists (o_req o), (o_rest o), (principal (o_auth o)). split; [done |]. split; [done |].
  assert (Hb : request_auth_binding (o_req o) ≠ None).
  { unfold request_auth_binding, changing in *. destruct (Wire.rq_op (o_req o)); done || set_solver. }
  destruct (Hauth Hb) as [Hper Hsp]. split; [done |]. split; [| split].
  - destruct Hsp as [(e & Hz & Hp & C1 & C2) | (E1 & E2 & E3 & E4)]; [left | right; by rewrite E3].
    exists e. split; [done |]. split; [done |]. split; [done |]. cbn.
    rewrite <- C2. by apply (keeps_run n_replay _ _ _ _ (dispatch_keeps n_replay _ _ _ _ _ (fun _ _ => eq_refl) (fun _ _ => eq_refl)) Hd).
  - pose proof (dispatch_locks _ _ _ _ _ _ _ _ Hd) as Hl. unfold lock_change in *. cbn [n_lock_db set_budget].
    assert (Hlocks : n_lock_db n1 = n_lock_db n) by (unfold held in Hk; congruence).
    assert (Hacc : s_access (n_server n1) = s_access (n_server n)) by (unfold config, config_of in Hk; congruence).
    rewrite Hlocks, Hacc in Hl. destruct (o_auth o) as [a|]; [exact Hl | by left].
  - intros Hop. exists body. split; [| by apply Hup]. unfold read_body in Hbody. rewrite decide_True in Hbody by done.
    destruct (read_exact _ _); [by injection Hbody as -> | done].
Qed.
End streams.
