(* ===== verification/IrohClient.v ===== *)
(** * The QUIC client ([src/src/transport/iroh_client.rs])

    The requests the client builds and what it makes of the bytes that come
    back.  Connecting, and the reading of a file from disk for [upload_file],
    are I/O: a stream is the list of the chunks its [read] calls return
    ([reader]), in whatever sizes. *)

From Stdlib Require Import ZArith Lia Ascii String.
From Stdlib Require Import Strings.Byte.
From stdpp Require Import base list gmap strings numbers sets.
From S2P Require Import Prelude Effects Protocol Auth Replay RequestAuth RateLimit Database Access Storage Locks Lfs Stats Server Wire IrohReplay Iroh IrohSafety.

Open Scope string_scope.
Open Scope Z_scope.

(** [serde_json::from_value] at the types the client reads, [from_slice] for the
    list of descriptors. *)
Class ClientJson : Type := {
  descriptor_from_value : json → result BlobDescriptor string;
  lock_from_value : json → result LockRecord string;
  locks_from_value : json → result (list LockRecord) string;
  descriptors_from_slice : list byte → result (list BlobDescriptor) string
}.

(** ** Requests *)

Section requests.
Context `{Crates} `{BlossomSigner} `{WireJson}.

(** The authorization header of a request bound to [binding]: [now] and [nonce]
    are what [build_blossom_auth_with_extra_tags] draws. *)
Definition bound_auth (now : Z) (nonce action binding receiver : string) (extra : list (list string)) : string :=
  auth_header_value (build_blossom_auth_with_extra_tags now nonce action (Some binding) (Some receiver) "" extra).

(** The request of [upload_with_type], and of [upload_file]. *)
Definition upload_request (now : Z) (nonce receiver : string) (data : list byte) (content_type : string) : Wire.Request :=
  let our_sha256 := sha256_hex data in
  Wire.mkRequest Wire.Upload our_sha256 "" (bound_auth now nonce "upload" our_sha256 receiver []) content_type
    (vec_len data) "" "" "" false "" 0 "" "" "" false.

(** The extra tags of [upload_lfs]. *)
Definition lfs_extra_tags (path repo : string) (base_sha256 : option string) (is_manifest : bool) : list (list string) :=
  ([["t"; "lfs"]; ["path"; path]; ["repo"; repo]]
   ++ (match base_sha256 with Some base => [["base"; base]] | None => [] end)
   ++ (if is_manifest then [["manifest"]] else []))%list.

(** The request of [upload_lfs]. *)
Definition upload_lfs_request (now : Z) (nonce receiver : string) (data : list byte) (content_type path repo : string)
    (base_sha256 : option string) (is_manifest : bool) : Wire.Request :=
  let our_sha256 := sha256_hex data in
  Wire.mkRequest Wire.Upload our_sha256 ""
    (bound_auth now nonce "upload" our_sha256 receiver (lfs_extra_tags path repo base_sha256 is_manifest))
    content_type (vec_len data) "" "" "" false "" 0 path repo (default "" base_sha256) is_manifest.

(** The requests of [download], [exists] and [list]. *)
Definition download_request (sha256 : string) : Wire.Request :=
  Wire.mkRequest Wire.Get sha256 "" "" "" 0 "" "" "" false "" 0 "" "" "" false.
Definition exists_request (sha256 : string) : Wire.Request :=
  Wire.mkRequest Wire.Head sha256 "" "" "" 0 "" "" "" false "" 0 "" "" "" false.
Definition list_request (pubkey : string) : Wire.Request :=
  Wire.mkRequest Wire.List_ "" pubkey "" "" 0 "" "" "" false "" 0 "" "" "" false.

(** The request of [delete]. *)
Definition delete_blob_request (now : Z) (nonce receiver sha256 : string) : Wire.Request :=
  Wire.mkRequest Wire.Delete sha256 "" (bound_auth now nonce "delete" sha256 receiver []) "" 0 "" "" "" false "" 0
    "" "" "" false.

(** [req.auth] of a lock request, set after its binding is computed. *)
Definition with_auth (req : Wire.Request) (auth : string) : Wire.Request :=
  Wire.mkRequest (Wire.rq_op req) (Wire.rq_sha256 req) (Wire.rq_pubkey req) auth (Wire.rq_content_type req)
    (Wire.rq_body_len req) (Wire.rq_repo_id req) (Wire.rq_lock_id req) (Wire.rq_lock_path req) (Wire.rq_force req)
    (Wire.rq_cursor req) (Wire.rq_limit req) (Wire.rq_lfs_path req) (Wire.rq_lfs_repo req) (Wire.rq_lfs_base req)
    (Wire.rq_lfs_manifest req).
Definition lock_authorized (now : Z) (nonce receiver missing : string) (req : Wire.Request) : result Wire.Request string :=
  let? binding := ok_or (request_auth_binding req) missing in
  Ok (with_auth req (bound_auth now nonce "lock" binding receiver [])).

(** The requests of [create_lock], [delete_lock], [list_locks], [verify_locks]. *)
Definition create_lock_request (now : Z) (nonce receiver repo_id path : string) : result Wire.Request string :=
  lock_authorized now nonce receiver "missing lock request binding"
    (Wire.mkRequest Wire.LockCreate "" "" "" "" 0 repo_id "" path false "" 0 "" "" "" false).
Definition delete_lock_request (now : Z) (nonce receiver repo_id lock_id : string) (force : bool)
    : result Wire.Request string :=
  lock_authorized now nonce receiver "missing unlock request binding"
    (Wire.mkRequest Wire.LockDelete "" "" "" "" 0 repo_id lock_id "" force "" 0 "" "" "" false).
Definition list_locks_request (repo_id : string) (cursor : option string) (limit : option Z) : Wire.Request :=
  Wire.mkRequest Wire.LockList "" "" "" "" 0 repo_id "" "" false (default "" cursor) (default 0 limit) "" "" "" false.
Definition verify_locks_request (now : Z) (nonce receiver repo_id : string) (cursor : option string) (limit : option Z)
    : result Wire.Request string :=
  lock_authorized now nonce receiver "missing lock verification binding"
    (Wire.mkRequest Wire.LockVerify "" "" "" "" 0 repo_id "" "" false (default "" cursor) (default 0 limit) "" "" "" false).
End requests.

(** ** Responses *)

Section responses.
Context `{Crates} `{WireJson} `{ClientJson}.

(** The loop of [read_response]: the bytes read so far, and what is left. *)
Fixpoint read_response_loop (buf : list byte) (rd : reader) : result (list byte * reader) string :=
  match rd with
  | [] => Ok (buf, [])
  | Err e :: _ => Err ("read response: " +:+ e)
  | Ok chunk :: rd =>
      let buf := (buf ++ chunk)%list in
      if decide (x0a ∈ buf) then Ok (buf, rd) else read_response_loop buf rd
  end.

(** [read_response]: the response, the leftover bytes, and the stream. *)
Definition read_response (rd : reader) : result (Wire.Response * list byte * reader) string :=
  let? r := read_response_loop [] rd in
  let '(buf, rd) := r in
  let? d := decode_line response_from_slice buf in
  let '(resp, consumed) := d in
  Ok (resp, drop (Z.to_nat consumed) buf, rd).

(** [recv.read_exact] into a buffer of [n] bytes. *)
Fixpoint read_exact_from (n : nat) (rd : reader) : result (list byte) string :=
  match n, rd with
  | O, _ => Ok []
  | _, [] => Err "stream finished early"
  | _, Err e :: _ => Err e
  | n, Ok chunk :: rd =>
      if decide (n <= length chunk)%nat then Ok (take n chunk)
      else let? rest := read_exact_from (n - length chunk) rd in Ok (chunk ++ rest)%list
  end.

(** The rest of the body after the leftover bytes, in [download] and [list]. *)
Definition read_rest (resp : Wire.Response) (leftover : list byte) (rd : reader) : result (list byte) string :=
  let remaining := sat_sub (Wire.rs_body_len resp) (vec_len leftover) in
  let? data :=
    (if decide (remaining > 0) then
       match read_exact_from (Z.to_nat remaining) rd with
       | Ok rest => Ok (leftover ++ rest)%list
       | Err e => Err ("read body: " +:+ e)
       end
     else Ok leftover) in
  Ok (take (Z.to_nat (Wire.rs_body_len resp)) data).

(** The end of [upload_with_type], [upload_lfs] and [upload_file]; [what] is
    the name in the error. *)
Definition upload_result (what our_sha256 : string) (rd : reader) : result BlobDescriptor string :=
  let? r := read_response rd in
  let '(resp, _, _) := r in
  if decide (Wire.rs_status resp ≠ Wire.StOk) then Err (what +:+ " failed: " +:+ Wire.rs_error resp)
  else
    let? value := ok_or (Wire.rs_descriptor resp) ("no descriptor in " +:+ what +:+ " response") in
    match descriptor_from_value value with
    | Err e => Err ("parse descriptor: " +:+ e)
    | Ok desc =>
        if decide (d_sha256 desc ≠ our_sha256) then
          Err ("SHA256 mismatch: server=" +:+ d_sha256 desc +:+ ", ours=" +:+ our_sha256)
        else Ok desc
    end.

(** The end of [download]. *)
Definition download_result (sha256 : string) (rd : reader) : result (list byte) string :=
  let? r := read_response rd in
  let '(resp, leftover, rd) := r in
  if decide (Wire.rs_status resp ≠ Wire.StOk) then Err ("download failed: " +:+ Wire.rs_error resp)
  else
    let? data := read_rest resp leftover rd in
    let actual := sha256_hex data in
    if decide (actual ≠ sha256) then Err ("SHA256 mismatch: expected=" +:+ sha256 +:+ ", actual=" +:+ actual)
    else Ok data.

(** The end of [exists] and of [delete]. *)
Definition status_result (rd : reader) : result bool string :=
  let? r := read_response rd in
  let '(resp, _, _) := r in Ok (bool_decide (Wire.rs_status resp = Wire.StOk)).

(** The end of [list]. *)
Definition list_result (rd : reader) : result (list BlobDescriptor) string :=
  let? r := read_response rd in
  let '(resp, leftover, rd) := r in
  if decide (Wire.rs_status resp ≠ Wire.StOk) then Err ("list failed: " +:+ Wire.rs_error resp)
  else
    let? data := read_rest resp leftover rd in
    match descriptors_from_slice data with Ok l => Ok l | Err e => Err ("parse list: " +:+ e) end.

(** The lock a response carries. *)
Definition response_lock (resp : Wire.Response) : result LockRecord string :=
  let? v := ok_or (Wire.rs_descriptor resp) "missing descriptor" in
  match lock_from_value v with Ok l => Ok l | Err e => Err ("parse lock: " +:+ e) end.

(** The end of [create_lock]. *)
Definition create_lock_result (rd : reader) : result LockRecord string :=
  let? r := read_response rd in
  let '(resp, _, _) := r in
  match Wire.rs_status resp with
  | Wire.StOk => response_lock resp
  | Wire.StConflict => Err "path already locked"
  | Wire.StUnauthorized => Err "unauthorized"
  | Wire.StForbidden => Err "forbidden"
  | Wire.StNotFound => Err "lock support not configured"
  | Wire.StError => Err (Wire.rs_error resp)
  end.

(** The end of [delete_lock]. *)
Definition delete_lock_result (rd : reader) : result LockRecord string :=
  let? r := read_response rd in
  let '(resp, _, _) := r in
  match Wire.rs_status resp with
  | Wire.StOk => response_lock resp
  | Wire.StNotFound => Err "lock not found"
  | Wire.StForbidden => Err (Wire.rs_error resp)
  | Wire.StUnauthorized => Err "unauthorized"
  | Wire.StError => Err (Wire.rs_error resp)
  | Wire.StConflict => Err "unexpected status: Conflict"
  end.

(** [desc.get(name)]: a field of an object. *)
Definition json_get (v : json) (name : string) : option json :=
  match v with
  | JObj fields => snd <$> List.find (fun '(k, _) => bool_decide (k = name)) fields
  | _ => None
  end.
Definition locks_field (desc : json) (name : string) : result (list LockRecord) string :=
  let? v := ok_or (json_get desc name) ("missing " +:+ name +:+ " field") in
  match locks_from_value v with Ok l => Ok l | Err e => Err ("parse " +:+ name +:+ ": " +:+ e) end.
Definition cursor_of (desc : json) : option string :=
  match json_get desc "next_cursor" with Some (JStr s) => Some s | _ => None end.

(** The end of [list_locks]. *)
Definition list_locks_result (rd : reader) : result (list LockRecord * option string) string :=
  let? r := read_response rd in
  let '(resp, _, _) := r in
  match Wire.rs_status resp with
  | Wire.StOk =>
      let? desc := ok_or (Wire.rs_descriptor resp) "missing descriptor" in
      let? v := ok_or (json_get desc "locks") "missing locks field" in
      match locks_from_value v with
      | Ok locks => Ok (locks, cursor_of desc)
      | Err e => Err ("parse: " +:+ e)
      end
  | Wire.StNotFound => Err "lock support not configured"
  | Wire.StError => Err (Wire.rs_error resp)
  | Wire.StUnauthorized => Err "unexpected status: Unauthorized"
  | Wire.StForbidden => Err "unexpected status: Forbidden"
  | Wire.StConflict => Err "unexpected status: Conflict"
  end.

(** The end of [verify_locks]. *)
Definition verify_locks_result (rd : reader) : result (list LockRecord * list LockRecord * option string) string :=
  let? r := read_response rd in
  let '(resp, _, _) := r in
  match Wire.rs_status resp with
  | Wire.StOk =>
      let? desc := ok_or (Wire.rs_descriptor resp) "missing descriptor" in
      let? ours := locks_field desc "ours" in
      let? theirs := locks_field desc "theirs" in
      Ok (ours, theirs, cursor_of desc)
  | Wire.StNotFound => Err "lock support not configured"
  | Wire.StUnauthorized => Err "unauthorized"
  | Wire.StError => Err (Wire.rs_error resp)
  | Wire.StForbidden => Err "unexpected status: Forbidden"
  | Wire.StConflict => Err "unexpected status: Conflict"
  end.
End responses.

(** ** What the client reads *)

Section reading.
Context `{Crates} `{Codec} `{WireJsonLaws} {B D V : Type} `{BlobBackend B} `{BlobDatabase D} `{LfsVersionDatabase V}.

Notation chunked := (map (@Ok (list byte) string)).

(** However the bytes are cut, the frame is found and the rest is not lost. *)
Lemma read_loop_chunks chunks : ∀ buf line body,
  x0a ∉ buf → x0a ∉ line → (buf ++ concat chunks = line ++ x0a :: body)%list →
  ∃ got more, read_response_loop buf (chunked chunks) = Ok ((line ++ x0a :: got)%list, chunked more)
    ∧ (got ++ concat more = body)%list.
Proof.
  induction chunks as [|c chunks IH]; intros buf line body Hb Hl E; cbn in *.
  { rewrite app_nil_r in E. subst buf. set_solver. }
  rewrite app_assoc in E. case_decide as Hin; [| by apply IH].
  exists (drop (S (length line)) (buf ++ c)), chunks.
  assert (Hlen : (length line < length (buf ++ c))%nat).
  { destruct (decide (length line < length (buf ++ c))%nat) as [?|Hge]; [done |].
    assert (Hp : (buf ++ c)%list = take (length (buf ++ c)) line).
    { rewrite <- (take_app_le line (x0a :: body)) by lia. rewrite <- E. by rewrite take_app_length. }
    rewrite Hp in Hin. exfalso. apply Hl. rewrite <- (take_drop (length (buf ++ c)) line). set_solver. }
  assert (Hbuf : (buf ++ c)%list = (line ++ x0a :: drop (S (length line)) (buf ++ c))%list).
  { rewrite <- (take_drop (S (length line)) (buf ++ c)) at 1.
    rewrite <- (take_app_le (buf ++ c) (concat chunks)) at 1 by lia. rewrite E.
    rewrite cons_middle, app_assoc, take_app_le by (rewrite length_app; cbn; lia).
    rewrite take_ge by (rewrite length_app; cbn; lia). by rewrite <- app_assoc. }
  split; [by rewrite <- Hbuf |].
  assert (Hsplit := E). rewrite Hbuf in Hsplit. rewrite <- app_assoc in Hsplit. apply app_inv_head in Hsplit.
  cbn in Hsplit. by injection Hsplit.
Qed.

Lemma read_response_chunks chunks (resp : Wire.Response) body :
  concat chunks = written (Some (resp, body)) →
  ∃ got more, read_response (chunked chunks) = Ok (resp, got, chunked more) ∧ (got ++ concat more = body)%list.
Proof.
  unfold written, encode_response. rewrite <- app_assoc. intros E.
  destruct (read_loop_chunks chunks [] (response_to_vec resp) body) as (got & more & Hr & Hg);
    [set_solver | apply response_one_line | exact E |].
  exists got, more. split; [| exact Hg]. unfold read_response. rewrite Hr.
  rewrite (decode_line_app _ resp) by apply response_one_line || apply response_roundtrip.
  f_equal. f_equal. f_equal. rewrite cons_middle, app_assoc. apply drop_app_length'.
  unfold vec_len. rewrite length_app. cbn. lia.
Qed.

Lemma read_exact_chunks chunks : ∀ n,
  (n <= length (concat chunks))%nat → read_exact_from n (chunked chunks) = Ok (take n (concat chunks)).
Proof.
  induction chunks as [|c chunks IH]; intros n Hn; cbn in *.
  - assert (n = 0%nat) as -> by lia. done.
  - rewrite length_app in Hn. destruct n as [|n]; [done |]. cbn [read_exact_from map].
    destruct (decide (S n <= length c)%nat) as [Hle|Hgt].
    + f_equal. by rewrite take_app_le.
    + rewrite (IH (S n - length c)%nat) by lia. f_equal.
      by rewrite take_app_ge by lia.
Qed.

Lemma read_rest_chunks (resp : Wire.Response) got more body :
  Wire.rs_body_len resp = vec_len body → (got ++ concat more = body)%list →
  read_rest resp got (chunked more) = Ok body.
Proof.
  intros Hl <-. unfold read_rest. rewrite Hl. unfold sat_sub, vec_len. rewrite length_app.
  destruct (decide _) as [Hgt|Hle].
  - rewrite read_exact_chunks by lia. cbv beta iota. f_equal. rewrite (take_ge (concat more)) by lia.
    apply take_ge. rewrite length_app. lia.
  - assert (concat more = []) as -> by (apply length_zero_iff_nil; lia). cbv beta iota.
    rewrite app_nil_r. f_equal. apply take_ge. cbn. lia.
Qed.

(** [handle_get] answers with what the HTTP handler serves. *)
Lemma handle_get_served (q : ReqEnv) h (s : ServerState B D V) :
  handle_get q h s =
  match get (q_env q) (s_backend s) h with
  | Some raw =>
      let x := served_data (q_env q) s h raw in
      (Wire.mkResponse Wire.StOk (vec_len x) "application/octet-stream" "" None, x)
  | None => reject_stream Wire.StNotFound "not found"
  end.
Proof.
  unfold handle_get, served_data, unwrap_or. destruct (get _ _ _); [| done].
  destruct (s_lfs_version_db s) as [db|]; [| done]. destruct (get_by_sha256 db h) as [[v|]|]; [| done..].
  by destruct (v_storage v).
Qed.

(** C11: a download over QUIC is what the server serves, verified.  However
    the transport cuts the answer of the server to a request for a blob into
    chunks, the client that reads it gets the bytes the server serves when they
    hash to what it asked for, and an error when they do not or there is no
    blob; and no stream at all makes it accept bytes of another hash. *)
Theorem client_download_verified (q : ReqEnv) h (s : ServerState B D V) chunks rd data :
  concat chunks = written (Some (handle_get q h s)) →
  download_result h (chunked chunks)
    = match get (q_env q) (s_backend s) h with
      | None => Err "download failed: not found"
      | Some raw =>
          let x := served_data (q_env q) s h raw in
          if decide (sha256_hex x = h) then Ok x
          else Err ("SHA256 mismatch: expected=" +:+ h +:+ ", actual=" +:+ sha256_hex x)
      end
  ∧ (download_result h rd = Ok data → sha256_hex data = h).
Proof.
  intros E. split.
  - rewrite handle_get_served in E. unfold download_result. destruct (get (q_env q) (s_backend s) h) as [raw|].
    + destruct (read_response_chunks _ _ _ E) as (got & more & -> & Hg). cbn [Wire.rs_status].
      rewrite decide_False by auto. erewrite read_rest_chunks; [| | exact Hg]; [| done].
      destruct (decide (sha256_hex _ = h)) as [Hh|Hh]; [by rewrite decide_False by auto | by rewrite decide_True by auto].
    + destruct (read_response_chunks _ _ _ E) as (got & more & -> & Hg). cbn. done.
  - unfold download_result. destruct (read_response rd) as [[[resp leftover] rd']|]; [| done].
    destruct (decide _); [done |]. destruct (read_rest _ _ _) as [x|]; [| done].
    destruct (decide (sha256_hex x ≠ h)) as [|Hh]; [done |]. intros [= <-].
    destruct (decide (sha256_hex x = h)); done.
Qed.
End reading.

(** ** The server accepts what the client builds *)

Section authorized.
Context `{CratesLaws} `{BlossomSigner} `{!SignerLaws} `{WireJson}.

(** The operations of the client that carry an authorization. *)
Inductive ClientOp :=
| CUpload (data : list byte) (content_type : string)
| CUploadLfs (data : list byte) (content_type path repo : string) (base : option string) (is_manifest : bool)
| CDelete (sha256 : string)
| CCreateLock (repo_id path : string)
| CDeleteLock (repo_id lock_id : string) (force : bool)
| CVerifyLocks (repo_id : string) (cursor : option string) (limit : option Z).

Definition client_request (now : Z) (nonce receiver : string) (op : ClientOp) : result Wire.Request string :=
  match op with
  | CUpload data ct => Ok (upload_request now nonce receiver data ct)
  | CUploadLfs data ct path repo base m => Ok (upload_lfs_request now nonce receiver data ct path repo base m)
  | CDelete h => Ok (delete_blob_request now nonce receiver h)
  | CCreateLock repo path => create_lock_request now nonce receiver repo path
  | CDeleteLock repo id force => delete_lock_request now nonce receiver repo id force
  | CVerifyLocks repo cursor limit => verify_locks_request now nonce receiver repo cursor limit
  end.

(** The names of an LFS upload are not empty. *)
Definition named (op : ClientOp) : bool :=
  match op with
  | CUploadLfs _ _ path repo base _ =>
      nonempty path && nonempty repo && match base with Some b => nonempty b | None => true end
  | _ => true
  end.

Lemma auth_event_header e : auth_event (auth_header_value e) = Ok e.
Proof.
  unfold auth_event, auth_header_value. rewrite strip_prefix_app. cbv beta iota zeta delta [from_option id].
  by rewrite base64url_decode_encode, event_json_roundtrip.
Qed.

Definition built (now : Z) (nonce action binding receiver : string) (extra : list (list string)) : NostrEvent :=
  build_blossom_auth_with_extra_tags now nonce action (Some binding) (Some receiver) "" extra.

Lemma built_tags now nonce action binding receiver extra (f : list string → bool) :
  List.filter f extra = [] →
  List.filter f (ev_tags (built now nonce action binding receiver extra))
  = (List.filter f [["t"; action]; ["x"; binding]; ["server"; receiver]]
     ++ List.filter f [["nonce"; nonce]; ["expiration"; u64_to_string (now + 60)]])%list.
Proof.
  intros Hx. change (ev_tags (built now nonce action binding receiver extra))
    with ([["t"; action]; ["x"; binding]; ["server"; receiver]] ++ extra
          ++ [["nonce"; nonce]; ["expiration"; u64_to_string (now + 60)]])%list.
  by rewrite !List.filter_app, Hx.
Qed.

Lemma built_verifies created now nonce action binding receiver extra req :
  in_u64 created → created + 60 <= u64_max → created <= now <= created + 60 →
  extra_ok action extra = true →
  op_action (Wire.rq_op req) = action → request_auth_binding req = Some binding →
  let e := built created nonce action binding receiver extra in
  Wire.rq_auth req = auth_header_value e →
  (Wire.rq_op req = Wire.Upload → verify_lfs_auth_binding e req = Ok tt) →
  verify_auth now (Wire.rq_auth req) req receiver = Ok (mkVerified public_key_hex (ev_id e)).
Proof.
  intros Hc Hmax Hn Hx Hact Hbind e Ha Hlfs. unfold verify_auth. rewrite Ha, auth_event_header.
  assert (Hnil : ∀ n, n ∈ ["expiration"; "server"; "u"; "method"; "x"] → List.filter (tag_named n) extra = [])
    by (intros n; by apply (extra_ok_named action)).
  assert (Hv : verify_blossom_auth now e (Some action) = Ok tt).
  { apply verify_blossom_auth_ok. split; [done |]. split; [by eapply fresh_later |]. split.
    - exists (u64_to_string (created + 60)), (created + 60). split.
      + unfold unique_tag, tags_named, e. by rewrite built_tags by (apply Hnil; set_solver).
      + split; [apply parse_u64_to_string; unfold in_u64 in *; lia |]. cbn. unfold sat_add. lia.
    - split; [| apply sign_event_authentic]. unfold has_action, e.
      rewrite built_tags by (by apply extra_ok_action). cbn -[u64_to_string bool_decide].
      rewrite (bool_decide_true ("t" = "t")), (bool_decide_true (action = action)), (bool_decide_false ("x" = "t")),
        (bool_decide_false ("server" = "t")), (bool_decide_false ("nonce" = "t")),
        (bool_decide_false ("expiration" = "t")) by done. done. }
  assert (Hs : tags_named "server" e = [["server"; receiver]]).
  { unfold tags_named, e. by rewrite built_tags by (apply Hnil; set_solver). }
  assert (Hxt : List.filter x_tag (ev_tags e) = [["x"; binding]]).
  { unfold e. rewrite built_tags; [done |]. pose proof (Hnil "x" ltac:(set_solver)) as Hxs. clear -Hxs.
    induction extra as [|t extra IH]; [done |]. cbn in *.
    destruct t as [|a [|b [|c l]]]; cbn in *; try (by apply IH); destruct (bool_decide (a = "x")); try done;
      by apply IH. }
  assert (Hb : verify_binding e req receiver = Ok tt).
  { unfold verify_binding. rewrite Hbind, Hs, Hxt. rewrite !decide_True by done. done. }
  cbv beta iota. rewrite decide_False by (intros Hk; by apply Hk). rewrite Hact, Hv, Hb.
  cbv beta iota. destruct (decide _) as [Hop|Hop]; [by rewrite (Hlfs Hop) | done].
Qed.

Lemma lfs_extra_verify created nonce binding receiver path repo base m req :
  nonempty path && nonempty repo && match base with Some b => nonempty b | None => true end = true →
  Wire.rq_lfs_path req = path → Wire.rq_lfs_repo req = repo → Wire.rq_lfs_base req = default "" base →
  Wire.rq_lfs_manifest req = m →
  verify_lfs_auth_binding (built created nonce "upload" binding receiver (lfs_extra_tags path repo base m)) req = Ok tt.
Proof.
  intros [[Hp Hr]%andb_true_iff Hb]%andb_true_iff E1 E2 E3 E4. unfold verify_lfs_auth_binding.
  rewrite E1, E2, E3, E4. unfold unique, tags_named. clear E1 E2 E3 E4.
  change (ev_tags (built created nonce "upload" binding receiver (lfs_extra_tags path repo base m)))
    with ([["t"; "upload"]; ["x"; binding]; ["server"; receiver]] ++ lfs_extra_tags path repo base m
          ++ [["nonce"; nonce]; ["expiration"; u64_to_string (created + 60)]])%list.
  generalize (u64_to_string (created + 60)) as exp. intros exp. unfold nonempty_some. rewrite Hp, Hr.
  assert (Hne : ∀ s, nonempty s = true → s ≠ "") by (intros s Hs ->; done).
  pose proof (Hne _ Hp) as Hp'. pose proof (Hne _ Hr) as Hr'.
  rewrite (decide_False (P := path = "")), (decide_False (P := repo = "")) by done.
  assert (Hbase : (if decide (default "" base = "") then None else Some (default "" base)) = base).
  { destruct base as [b|]; cbn [from_option id]; [| done]. by rewrite decide_False by (by apply Hne). }
  rewrite Hbase. set (tags := (_ ++ _ ++ _)%list).
  assert (List.filter is_lfs_tag tags = [["t"; "lfs"]] ∧ List.filter (tag_named "path") tags = [["path"; path]]
    ∧ List.filter (tag_named "repo") tags = [["repo"; repo]]
    ∧ List.filter (tag_named "base") tags = match base with Some b => [["base"; b]] | None => [] end
    ∧ List.filter (fun t => bool_decide (t = ["manifest"])) tags = if m then [["manifest"]] else [])
    as (-> & -> & -> & -> & ->) by (subst tags; destruct base as [b|], m; repeat split; reflexivity).
  cbn [length orb]. rewrite decide_True by done.
  destruct base as [b|]; rewrite !bool_decide_true by done; cbn [negb]; by destruct m.
Qed.

(** C12: what the client sends is authorized.  For every operation that needs
    one, the authorization the QUIC client builds for a server is verified by
    that server for that very request from then until it expires a minute later;
    an LFS upload must name a path and a repository, and its base, if it gives
    one, by something. *)
Theorem client_requests_authorized created now nonce receiver op req :
  in_u64 created → created + 60 <= u64_max → created <= now <= created + 60 → named op = true →
  client_request created nonce receiver op = Ok req →
  ∃ id, verify_auth now (Wire.rq_auth req) req receiver = Ok (mkVerified public_key_hex id).
Proof.
  intros Hc Hmax Hn Hop Hreq.
  destruct op as [data ct|data ct path repo base m|h|repo path|repo id force|repo cursor limit];
    injection Hreq as <-; eexists.
  - by apply (built_verifies created now nonce "upload" (sha256_hex data) receiver []).
  - apply (built_verifies created now nonce "upload" (sha256_hex data) receiver (lfs_extra_tags path repo base m)); try done.
    + by destruct base, m.
    + intros _. by apply lfs_extra_verify.
  - by apply (built_verifies created now nonce "delete" h receiver []).
  - by eapply (built_verifies created now nonce "lock" _ receiver []).
  - by eapply (built_verifies created now nonce "lock" _ receiver []).
  - by eapply (built_verifies created now nonce "lock" _ receiver []).
Qed.
End authorized.
