(* ===== verification/IrohStreams.v ===== *)
(** * QUIC and HTTP serve one store

    A blob is read over QUIC as it is over HTTP, an upload over QUIC is kept as
    one over HTTP is, and the streams of a node share its body budget without
    losing any of it. *)

From Stdlib Require Import ZArith Lia Ascii String.
From Stdlib Require Import Strings.Byte.
From stdpp Require Import base list gmap strings numbers sets.
From S2P Require Import Prelude Effects Protocol Auth Replay RequestAuth RateLimit Database Access Storage Locks Lfs Stats Server Durable Wire IrohReplay Iroh IrohSafety IrohClient.

Open Scope string_scope.
Open Scope Z_scope.
Open Scope handler_scope.

(** ** Reading *)

Section reading.
Context `{Crates} `{Codec} `{WireJsonLaws} {B D V L : Type} `{BlobBackend B} `{BlobDatabase D}
  `{LfsVersionDatabase V} `{LockDatabase L}.

(** What the peer reads off a stream: the response and the bytes after it. *)
Definition received (out : list byte) : option (Wire.Response * list byte) :=
  match decode_line response_from_slice out with
  | Ok (resp, n) => Some (resp, drop (Z.to_nat n) out)
  | Err _ => None
  end.

Lemma received_written (resp : Wire.Response) body :
  received (written (Some (resp, body))) = Some (resp, body).
Proof.
  unfold received, written, encode_response. rewrite <- app_assoc. cbn [app].
  rewrite (decode_line_app _ resp) by apply response_one_line || apply response_roundtrip.
  f_equal. f_equal. rewrite cons_middle, app_assoc. apply drop_app_length'.
  unfold vec_len. rewrite length_app. cbn [length]. lia.
Qed.

(** A stream that asks for a blob runs [handle_get] and changes nothing. *)
Lemma get_stream (q : ReqEnv) uuid receiver recv (n : IrohNode B D V L) req rest :
  read_request recv = Ok (req, rest) → Wire.rq_op req = Wire.Get →
  is_valid_sha256 (Wire.rq_sha256 req) = true →
  Wire.rq_auth req = "" ∨ is_Some (res_ok (verify_auth (q_auth q) (Wire.rq_auth req) req receiver)) →
  handle_stream q uuid receiver recv n = (n, Some (handle_get q (Wire.rq_sha256 req) (n_server n))).
Proof.
  intros Hreq Hop Hv Hauth. unfold handle_stream, open_stream. unfold bind at 1, lift. rewrite Hreq, Hv, orb_true_r. cbn [guard].
  assert (Ha : ∃ auth, authenticate (L := L) q receiver req n = (n, Ok auth)).
  { unfold authenticate, nonempty. destruct Hauth as [-> | [v Hok]]; [by eexists |].
    case_bool_decide; [by eexists |]. destruct (verify_auth _ _ _ _); [by eexists | done]. }
  destruct Ha as [auth Ha]. unfold ret. unfold bind. rewrite Ha, Hop. unfold admit_mutation, request_auth_binding. rewrite Hop.
  rewrite decide_False by done. unfold finish_stream, respond, bind, lift, read_body, dispatch. cbn [ret o_req o_auth o_rest o_permit].
  rewrite Hop, decide_False by done. unfold reading, release. cbn. rewrite Z.add_0_r. by destruct n.
Qed.

(** C7: a blob is the same over QUIC and over HTTP.  A stream whose header is a
    request to get a valid hash, without authorization or with one that
    verifies, leaves the node as it was, and its peer receives a frame and then
    exactly the bytes that a GET of the hash, with or without an extension,
    answers with over HTTP, their number in the frame; it is told that there is
    no blob exactly when the GET answers 404. *)
Theorem iroh_get_equals_http (q : ReqEnv) uuid receiver recv (n : IrohNode B D V L) req rest path :
  read_request recv = Ok (req, rest) → Wire.rq_op req = Wire.Get →
  is_valid_sha256 (Wire.rq_sha256 req) = true →
  Wire.rq_auth req = "" ∨ is_Some (res_ok (verify_auth (q_auth q) (Wire.rq_auth req) req receiver)) →
  strip_extension path = Wire.rq_sha256 req →
  let '(n', answer) := handle_stream q uuid receiver recv n in
  n' = n ∧
  match (handle_get_blob q path (n_server n)).2 with
  | (status, Some (ct, data)) =>
      status = 200 ∧ received (written answer)
        = Some (Wire.mkResponse Wire.StOk (vec_len data) "application/octet-stream" "" None, data)
  | (status, None) =>
      status = 404 ∧ received (written answer)
        = Some (Wire.mkResponse Wire.StNotFound 0 "" "not found" None, [])
  end.
Proof.
  intros Hreq Hop Hv Hauth Hpath. rewrite (get_stream q uuid receiver recv n req rest Hreq Hop Hv Hauth).
  split; [done |]. unfold handle_get_blob. rewrite Hpath, Hv, handle_get_served. cbn.
  destruct (get (q_env q) (s_backend (n_server n)) _) as [raw|]; cbn; (split; [done | apply received_written]).
Qed.
End reading.

(** ** Uploading *)

Section uploading.
Context `{CratesLaws} `{CodecLaws} `{!CodecTotal} `{WireJson} {B D L : Type}
  `{BlobBackend B} `{BDB : BlobDatabase D} `{!BlobBackendLaws B} `{LockDatabase L}.

Notation V := MemoryLfsVersionDatabase.
Notation S := (ServerState B D V).
Notation N := (IrohNode B D V L).

Lemma stores_store_upload q req pk data :
  stores (B := B) (D := D) q (parse_lfs_from_request req) data (store_upload q req pk data).
Proof. unfold store_upload. apply stores_before; [apply stores_put_blob |]. keeps. Qed.

(** Early returns of an upload are failures. *)
Lemma refuses_handle_upload q req pk data :
  refuses_with (fun r => ¬ succeeds r) (S := S) (let! p := check_upload req pk data in store_upload q req p data).
Proof.
  unfold check_upload, store_upload, put_blob, succeeds.
  repeat first [ match goal with |- ∀ _, _ => intro end | apply refuses_bind | apply refuses_gets | apply refuses_ret
    | apply refuses_modify | (apply refuses_guard; cbn; congruence) | (apply refuses_early; cbn; congruence)
    | match goal with |- refuses_with _ (match ?x with _ => _ end) => destruct x end ].
Qed.

Lemma iroh_upload_effect q req pk data (s s' : S) r :
  backend_wf (s_backend s) → handle_upload q data req pk s = (s', r) → succeeds r →
  backend_wf (s_backend s') ∧ upload_effect q (parse_lfs_from_request req) data s s'
  ∧ sha256_hex data = Wire.rq_sha256 req.
Proof.
  intros W. unfold handle_upload, respond.
  match goal with |- context [bind ?m ?k s] => destruct (bind m k s) as [s1 r1] eqn:E end.
  intros [= <- <-] Hs. destruct r1 as [x|e].
  2: { by destruct (refuses_handle_upload q req pk data _ _ _ E). }
  apply bind_ok in E as (p & s2 & (-> & _ & Hh & _)%check_upload_ok & Hu).
  destruct (stores_store_upload q req p data _ _ _ W Hu) as [W' [(_ & _ & ? & [=]) | Heff]]. done.
Qed.

Lemma stores_handle_upload q req pk data :
  stores (B := B) (D := D) q (parse_lfs_from_request req) data
    (let! p := check_upload req pk data in store_upload q req p data).
Proof. apply stores_after; [apply keeps_check_upload | intros p; apply stores_store_upload]. Qed.

Lemma keeps_delete_owned h pk : keeps (core (B := B) (D := D)) (delete_owned h pk).
Proof. unfold delete_owned. keeps. Qed.

Lemma preserves_delete_request q h pk :
  no_read_faults (q_env q) → valid_hash h = true → preserves (B := B) (D := D) h (delete_request q h pk).
Proof.
  intros Hf Hv. unfold delete_request. destruct pk as [p|]; [| by apply preserves_keeps].
  assert (Hc : preserves (B := B) (D := D) h (delete_content q h)).
  { unfold delete_content. apply preserves_bind; [by apply preserves_remove_blob |].
    intros [[]|]; apply preserves_keeps; keeps. }
  apply preserves_bind; [apply preserves_keeps; keeps | intros st]. apply preserves_guard. intros _.
  destruct (decide _); [done |].
  apply preserves_bind; [apply preserves_keeps, keeps_delete_owned | intros [a|]]; [by apply preserves_keeps | done].
Qed.

(** *** Events of a node *)

(** A request over HTTP, or a stream. *)
Inductive Event :=
| EHttp (r : Request)
| EStream (q : ReqEnv) (uuid receiver : string) (recv : RecvStream).

Definition step_node `{HashOrder} (n : N) (e : Event) : N :=
  match e with
  | EHttp r => set_server (serve r (n_server n)) n
  | EStream q uuid receiver recv => (handle_stream q uuid receiver recv n).1
  end.
Definition run_node `{HashOrder} (es : list Event) (n : N) : N := foldl step_node n es.

(** An event that neither deletes [h] nor sends it again as LFS content. *)
Definition event_spares (h : string) (e : Event) : Prop :=
  match e with
  | EHttp r => Durable.spares h r
  | EStream q _ _ recv => ∀ req rest, read_request recv = Ok (req, rest) →
      (Wire.rq_op req = Wire.Delete → Wire.rq_sha256 req ≠ h ∧ no_read_faults (q_env q))
      ∧ (Wire.rq_op req = Wire.Upload →
         is_lfs (parse_lfs_from_request req) = false ∨ Wire.rq_sha256 req ≠ h)
  end.

(** The hash of a request that names one is valid once its stream is open. *)
Lemma open_valid q receiver recv (n n' : N) o :
  open_stream q receiver recv n = (n', Ok o) → Wire.rq_op (o_req o) = Wire.Delete →
  is_valid_sha256 (Wire.rq_sha256 (o_req o)) = true.
Proof.
  unfold open_stream. intros ([req rest] & n1 & [= <- Hreq] & Hp)%bind_ok Hop.
  apply bind_ok in Hp as (u & n1 & [Hv ->]%guard_ok & Hp).
  apply bind_ok in Hp as (auth & n1 & _ & Hp).
  assert (o_req o = req) as E.
  { destruct (decide _); apply bind_ok in Hp as (k & n2 & _ & [= _ <-]); done. }
  rewrite E in *. apply orb_true_iff in Hv as [Hv | Hv]; [| done].
  apply negb_true_iff, bool_decide_eq_false in Hv. destruct Hv. rewrite Hop. set_solver.
Qed.

(** What a stream does to the server, once it is open. *)
Lemma stream_server q uuid receiver recv (n n' : N) r :
  handle_stream q uuid receiver recv n = (n', r) →
  core (n_server n') = core (n_server n) ∧ (∀ x, r = Some x → ¬ succeeds x)
  ∨ ∃ n1 o body n2 r2, open_stream q receiver recv n = (n1, Ok o)
      ∧ read_request recv = Ok (o_req o, o_rest o) ∧ core (n_server n1) = core (n_server n)
      ∧ read_body o = Ok body ∧ dispatch q uuid (o_req o) (o_auth o) body n1 = (n2, r2)
      ∧ n_server n' = n_server n2 ∧ r = match r2 with Ok x => x | Err x => x end.
Proof.
  unfold handle_stream. destruct (open_stream q receiver recv n) as [n1 [o|answer]] eqn:Eo;
    assert (Hc : core (n_server n1) = core (n_server n)).
  1, 3: pose proof (keeps_run _ _ _ _ _ (open_keeps q receiver recv) Eo) as Hk;
    unfold seen_in, held, held_by, core in *; congruence.
  2: { intros [= <- <-]. left. split; [done |]. intros x ->. by apply (open_refuses _ _ _ _ _ _ Eo). }
  intros (n2 & r2 & Hd & -> & ->)%finish_inv.
  apply bind_inv in Hd as [(body & n3 & [= <- Hbody] & Hd) | (e & [= <- Hbody] & ->)].
  2: { left. split; [done |]. intros x ->. unfold read_body in Hbody. destruct (decide _); [| done].
       by destruct (read_exact _ _). }
  right. destruct (open_ok _ _ _ _ _ _ Eo) as [Hreq _]. exists n1, o, body, n2, r2. done.
Qed.

Lemma stream_stored q uuid receiver recv (n : N) k x :
  server_wf (n_server n) → event_spares k (EStream q uuid receiver recv) → stored (n_server n) k x →
  let s' := n_server (handle_stream q uuid receiver recv n).1 in server_wf s' ∧ stored s' k x.
Proof.
  intros W Hsp Hst. destruct (handle_stream q uuid receiver recv n) as [n' r] eqn:Eh. cbn.
  destruct (stream_server _ _ _ _ _ _ _ Eh) as [[Hc _] | (n1 & o & body & n2 & r2 & Eo & Hreq & Hc & Hbody & Hd & -> & _)].
  { by eapply core_stored. }
  destruct (core_stored (n_server n) (n_server n1) k x Hc W Hst) as [W1 Hst1].
  destruct (Hsp _ _ Hreq) as [Hdel Hup]. unfold dispatch in Hd.
  destruct (Wire.rq_op (o_req o)) eqn:Eop; try (injection Hd as <- _; done);
    try (apply (keeps_run n_server) in Hd; [by rewrite Hd | keeps; by apply keeps_on_locks]).
  - apply on_server_inv in Hd as (s & y & Hu & -> & _). unfold handle_upload, respond in Hu.
    match type of Hu with context [bind ?m ?kk ?st] => destruct (bind m kk st) as [s1 r1] eqn:E end.
    injection Hu as <- _. destruct (decide (sha256_hex body = Wire.rq_sha256 (o_req o))) as [Eh'|Hne].
    + eapply stores_stored; [apply stores_handle_upload | exact E | done | | done]. rewrite Eh'. by apply Hup.
    + apply bind_inv in E as [(p & s2 & (_ & _ & ? & _)%check_upload_ok & _) | (e & Hck & _)]; [done |].
      apply (keeps_run core _ _ _ _ (keeps_check_upload core _ _ _)) in Hck. by eapply core_stored.
  - apply on_server_inv in Hd as (s & y & Hu & -> & _). unfold handle_delete, respond in Hu.
    match type of Hu with context [delete_request ?a ?b ?c ?st] => destruct (delete_request a b c st) as [s1 r1] eqn:E end.
    injection Hu as <- _. destruct (Hdel eq_refl) as [Hne Hf].
    destruct (preserves_delete_request _ _ _ Hf (open_valid _ _ _ _ _ _ Eo Eop) _ _ _ W1 E) as [W2 Hs2].
    split; [done |]. apply Hs2; [congruence | done].
Qed.

Lemma run_node_stored `{HashOrder} es (n : N) k x :
  server_wf (n_server n) → Forall (event_spares k) es → stored (n_server n) k x →
  server_wf (n_server (run_node es n)) ∧ stored (n_server (run_node es n)) k x.
Proof.
  revert n. induction es as [|e es IH]; intros n W Hall Hst; [done |]. apply Forall_cons in Hall as [He Hall].
  assert (Hstep : server_wf (n_server (step_node n e)) ∧ stored (n_server (step_node n e)) k x).
  { destruct e as [r|q uuid receiver recv]; [by apply serve_stored | by apply stream_stored]. }
  destruct Hstep. by apply IH.
Qed.

(** C8: an upload over QUIC is kept.  A node with the memory version database
    (or none) and working storage reads answers ok to a stream that uploads bytes
    of whose hash it has neither bytes nor version record.  If the upload goes
    through the LFS pipeline, it names repository and path, and a base of it that
    the node has is at most nine deltas deep, at least half the size of the
    upload and at most 2^28 bytes.  Then after any requests over HTTP (the kinds
    of C1) and streams over QUIC that neither delete its hash nor send the same
    bytes again as LFS content, deletions of other blobs with working reads
    included, both transports answer a request for its hash with exactly those
    bytes. *)
Theorem iroh_upload_kept `{HashOrder} q uuid receiver recv (n n' : N) r req rest data es q' :
  server_wf (n_server n) → no_read_faults (q_env q) → no_read_faults (q_env q') →
  handle_stream q uuid receiver recv n = (n', Some r) → succeeds r →
  read_request recv = Ok (req, rest) → Wire.rq_op req = Wire.Upload →
  read_exact rest (Wire.rq_body_len req) = Some data →
  let h := Wire.rq_sha256 req in
  bytes_of (n_server n) h = None →
  (∀ db, s_lfs_version_db (n_server n) = Some db → version_of db h = None) →
  lfs_named (parse_lfs_from_request req) → base_shallow (n_server n) (parse_lfs_from_request req) data →
  Forall (event_spares h) es →
  let s := n_server (run_node es n') in
  sha256_hex data = h
  ∧ (∃ ct, (handle_get_blob q' h s).2 = (200, Some (ct, data)))
  ∧ handle_get q' h s = (Wire.mkResponse Wire.StOk (vec_len data) "application/octet-stream" "" None, data).
Proof.
  intros W Hf Hf' Eh Hok Hreq Hop Hdata h Hfresh Hnew Hname Hbase Hall s.
  assert (Hup : server_wf (n_server n') ∧ sha256_hex data = h ∧ stored (n_server n') h data).
  { destruct (stream_server _ _ _ _ _ _ _ Eh) as [[_ Hbad] | (n1 & o & body & n2 & r2 & Eo & Ho & Hc & Hbody & Hd & -> & Hr)].
    { by destruct (Hbad r eq_refl). }
    assert (o_req o = req ∧ o_rest o = rest) as [Hor Hrest] by (split; congruence).
    unfold read_body in Hbody. rewrite Hor in Hbody, Hd. rewrite Hop, Hrest, Hdata in Hbody. injection Hbody as <-.
    unfold dispatch in Hd. rewrite Hop in Hd. apply on_server_inv in Hd as (s2 & y & Hu & -> & ->).
    injection Hr as <-. pose proof Hc as [= Hb Hv].
    destruct (iroh_upload_effect _ _ _ _ _ _ _ ltac:(rewrite Hb; apply W) Hu Hok) as (W2 & Heff & Hh). cbn.
    apply (core_effect _ _ _ _ _ (n_server n) s2) in Heff; [| done | done].
    split; [split; [done | eapply upload_effect_wf; [apply W | exact Heff]] |]. split; [done |].
    unfold h. rewrite <- Hh. apply (upload_effect_stores q (parse_lfs_from_request req) data (n_server n)); try done;
      [apply W | by rewrite Hh | by rewrite Hh]. }
  destruct Hup as (W' & Hh & Hst). split; [done |].
  destruct (run_node_stored es n' h data W' Hall Hst) as [W2 Hst2].
  assert (Hvalid : is_valid_sha256 h = true) by (rewrite <- Hh; apply valid_hash_sha256).
  split; [by apply get_stored; [apply W2 | ..] |].
  pose proof Hst2 as (raw & Hraw & _). rewrite handle_get_served. subst s. rewrite get_bytes by (done || apply W2). rewrite Hraw.
  by rewrite (served_stored (q_env q') _ h data raw (proj1 W2) Hf' Hst2 Hraw).
Qed.
End uploading.

(** ** Streams sharing a node *)

Section system.
Context `{Crates} `{Codec} `{WireJsonLaws} {B D V L : Type} `{BlobBackend B} `{BlobDatabase D}
  `{LfsVersionDatabase V} `{LockDatabase L}.

Notation N := (IrohNode B D V L).

(** A node and the streams that hold one of its stream permits: those that
    wait for a header and those that wait for a body. *)
Record System := mkSystem { y_node : N; y_streams : gmap nat (option Opened) }.

(** A stream ends: rejected, finished, or dropped by its timeout. *)
Inductive closes : System → System → Prop :=
| CReject (sy : System) id q receiver recv n answer :
    y_streams sy !! id = Some None →
    open_stream q receiver recv (y_node sy) = (n, Err answer) →
    closes sy (mkSystem n (delete id (y_streams sy)))
| CFinish (sy : System) id q uuid o n answer :
    y_streams sy !! id = Some (Some o) →
    finish_stream q uuid o (y_node sy) = (n, answer) →
    closes sy (mkSystem n (delete id (y_streams sy)))
| CTimeout (sy : System) id o :
    y_streams sy !! id = Some o →
    closes sy (mkSystem (match o with
                         | Some o => set_budget (n_body_budget (y_node sy) + o_permit o) (y_node sy)
                         | None => y_node sy end) (delete id (y_streams sy))).

(** [BlossomProtocol::accept] takes a stream when a permit is free; requests
    over HTTP change the server at any time. *)
Inductive step : System → System → Prop :=
| SAccept (sy : System) id :
    Z.of_nat (size (y_streams sy)) < MAX_CONCURRENT_STREAMS → y_streams sy !! id = None →
    step sy (mkSystem (y_node sy) (<[id := None]> (y_streams sy)))
| SOpen (sy : System) id q receiver recv n o :
    y_streams sy !! id = Some None →
    open_stream q receiver recv (y_node sy) = (n, Ok o) →
    step sy (mkSystem n (<[id := Some o]> (y_streams sy)))
| SClose sy sy' : closes sy sy' → step sy sy'
| SHttp (sy : System) s : step sy (mkSystem (set_server s (y_node sy)) (y_streams sy)).

(** [BlossomProtocol::new], on a server that may have locks. *)
Definition started (s : ServerState B D V) (l : option L) : System :=
  mkSystem (mkNode s l (IrohReplay.new MAX_REPLAY_ENTRIES MAX_REPLAY_ENTRIES_PER_PRINCIPAL)
              MAX_IN_FLIGHT_IROH_BODY_BYTES) ∅.

Definition permit_of (o : option Opened) : Z := match o with Some o => o_permit o | None => 0 end.
Definition reserved (m : gmap nat (option Opened)) : Z := map_fold (fun _ o acc => permit_of o + acc) 0 m.

Lemma reserved_insert m id o : m !! id = None → reserved (<[id := o]> m) = permit_of o + reserved m.
Proof. intros Hn. unfold reserved. rewrite map_fold_insert_L; [done | intros; lia | done]. Qed.
Lemma reserved_delete m id o : m !! id = Some o → reserved m = permit_of o + reserved (delete id m).
Proof. intros Ho. unfold reserved. rewrite (map_fold_delete_L _ _ id o m); [done | intros; lia | done]. Qed.

Lemma budget_keeps_gate (m : MR (ServerState B D V) GateError unit) : keeps (n_body_budget (L := L)) (gate m).
Proof. apply (keeps_gate _ (fun _ => tt)); [by intros s | done]. Qed.

Lemma budget_admit q req auth (n n' : N) r :
  admit_upload q req auth n = (n', r) →
  match r with
  | Ok k => try_reserve (n_body_budget n) (Wire.rq_body_len req) = Ok k ∧ n_body_budget n' = n_body_budget n - k
  | Err _ => n_body_budget n' = n_body_budget n
  end.
Proof.
  unfold admit_upload. intros [(n0 & n1 & [= <- <-] & Hp) | (e & [=] & _)]%bind_inv.
  apply bind_inv in Hp as [(u1 & n1 & [_ ->]%guard_ok & Hp) | (e & Hg & ->)];
    [| exact (keeps_run n_body_budget _ _ _ _ (keeps_guard n_body_budget _ _) Hg)].
  apply bind_inv in Hp as [(u2 & n1 & [_ ->]%guard_ok & Hp) | (e & Hg & ->)];
    [| exact (keeps_run n_body_budget _ _ _ _ (keeps_guard n_body_budget _ _) Hg)].
  apply bind_inv in Hp as [(u3 & n1 & Hg & Hp) | (e & Hg & ->)];
    [| exact (keeps_run n_body_budget _ _ _ _ (budget_keeps_gate _) Hg)].
  apply (keeps_run n_body_budget _ _ _ _ (budget_keeps_gate _)) in Hg. rewrite <- Hg.
  unfold reserve in Hp. apply bind_inv in Hp as [(k & n2 & Hr & Hp) | (e & Hr & ->)];
    destruct (try_reserve (n_body_budget n1) _) as [k'|] eqn:Et; try done; [| by injection Hr as <- _].
  injection Hr as <- <-. destruct auth as [a|]; [| by injection Hp as <- <-].
  pose proof (keeps_commit (n_body_budget (B := B) (D := D) (V := V) (L := L)) (q_mark q) a (fun _ _ => eq_refl)
    (set_budget (n_body_budget n1 - k') n1)) as Hc.
  destruct (commit_auth_event _ _ _) as [n3 [u|e]]; injection Hp as <- <-; cbn in *; [done | lia].
Qed.

Lemma budget_open q receiver recv (n n' : N) r :
  open_stream q receiver recv n = (n', r) →
  match r with
  | Ok o => n_body_budget n' = n_body_budget n - o_permit o
      ∧ (o_permit o = 0 ∨ try_reserve (n_body_budget n) (Wire.rq_body_len (o_req o)) = Ok (o_permit o))
  | Err _ => n_body_budget n' = n_body_budget n
  end.
Proof.
  unfold open_stream. intros [([req rest] & n1 & [= <- Hreq] & Hp) | (e & [= <- _] & ->)]%bind_inv; [| done].
  apply bind_inv in Hp as [(u1 & n1 & [_ ->]%guard_ok & Hp) | (e & Hg & ->)];
    [| exact (keeps_run n_body_budget _ _ _ _ (keeps_guard n_body_budget _ _) Hg)].
  apply bind_inv in Hp as [(auth & n1 & [-> _]%authenticate_ok & Hp) | (e & Hg & ->)];
    [| exact (keeps_run n_body_budget _ _ _ _ (keeps_authenticate n_body_budget _ _ _) Hg)].
  destruct (decide _) as [Hop|Hop].
  - apply bind_inv in Hp as [(k & n1 & Ha & [= <- <-]) | (e & Ha & ->)];
      apply budget_admit in Ha; [cbn; tauto | done].
  - pose proof (keeps_admit_mutation (n_body_budget (B := B) (D := D) (V := V) (L := L)) (fun _ => tt) q req auth
      (fun _ _ => eq_refl) (fun _ _ _ => eq_refl) (fun _ _ => eq_refl)) as Hk.
    apply bind_inv in Hp as [(k & n1 & Ha & [= <- <-]) | (e & Ha & ->)];
      apply (keeps_run _ _ _ _ _ Hk) in Ha; cbn; [lia | done].
Qed.

Lemma decoded_ok recv req rest : read_request recv = Ok (req, rest) → 0 <= Wire.rq_body_len req.
Proof.
  unfold read_request, decode_line. destruct (read_header _ _ _) as [[buf r]|]; [| done].
  destruct (before_newline buf) as [l|]; [| done]. destruct (request_from_slice l) as [v|] eqn:E; [| done].
  intros [= <- _]. apply request_in_range in E. unfold request_ok in E.
  apply andb_true_iff in E as [E%bool_decide_eq_true _]. lia.
Qed.

Lemma try_reserve_ok permits bytes k : try_reserve permits bytes = Ok k → k = bytes ∧ k <= permits.
Proof. unfold try_reserve. repeat case_decide; try done. by intros [= <-]. Qed.

Lemma budget_opened q receiver recv (n n' : N) o :
  0 <= n_body_budget n → open_stream q receiver recv n = (n', Ok o) →
  n_body_budget n' = n_body_budget n - o_permit o ∧ 0 <= o_permit o ∧ 0 <= n_body_budget n'.
Proof.
  intros Hn Ho. destruct (open_ok _ _ _ _ _ _ Ho) as [Hreq%decoded_ok _]. apply budget_open in Ho as [E [Hz | Hr]].
  - rewrite E, Hz. lia.
  - apply try_reserve_ok in Hr as [Hk Hle]. rewrite E, Hk in *. lia.
Qed.

Lemma budget_finished q uuid o (n n' : N) answer :
  finish_stream q uuid o n = (n', answer) → n_body_budget n' = n_body_budget n + o_permit o.
Proof.
  intros (n1 & r1 & Hd & -> & _)%finish_inv. cbn. f_equal.
  apply bind_inv in Hd as [(body & n2 & [= <- _] & Hd) | (e & [= <- _] & _)]; [| done].
  exact (keeps_run n_body_budget _ _ _ _ (dispatch_keeps n_body_budget _ _ _ _ _ (fun _ _ => eq_refl) (fun _ _ => eq_refl)) Hd).
Qed.

(** *** The invariant *)

Record sound (sy : System) : Prop := {
  so_sum : n_body_budget (y_node sy) + reserved (y_streams sy) = MAX_IN_FLIGHT_IROH_BODY_BYTES;
  so_free : 0 <= n_body_budget (y_node sy);
  so_permits : ∀ id o, y_streams sy !! id = Some o → 0 <= permit_of o;
  so_streams : Z.of_nat (size (y_streams sy)) <= MAX_CONCURRENT_STREAMS
}.

Lemma delete_sound (n : N) sy id o :
  sound sy → y_streams sy !! id = Some o →
  n_body_budget n = n_body_budget (y_node sy) + permit_of o →
  sound (mkSystem n (delete id (y_streams sy))) ∧ S (size (delete id (y_streams sy))) = size (y_streams sy).
Proof.
  intros Hs Ho Hn. pose proof (reserved_delete _ _ _ Ho) as Hr. pose proof (so_permits _ Hs _ _ Ho) as Hp.
  pose proof (so_sum _ Hs). pose proof (so_free _ Hs). pose proof (so_streams _ Hs).
  assert (Hsz : S (size (delete id (y_streams sy))) = size (y_streams sy)).
  { rewrite map_size_delete_Some by (by eexists). assert (size (y_streams sy) ≠ 0%nat); [| lia].
    intros Hz%map_size_empty_inv. rewrite Hz, lookup_empty in Ho. done. }
  split; [split; cbn; try lia | done]. intros id' o' [_ Ho']%lookup_delete_Some. by eapply so_permits.
Qed.

Lemma closes_sound sy sy' : sound sy → closes sy sy' → sound sy' ∧ S (size (y_streams sy')) = size (y_streams sy).
Proof.
  intros Hs Hc. destruct Hc as [sy id q receiver recv n answer Hi Ho|sy id q uuid o n answer Hi Hf|sy id o Hi].
  - apply budget_open in Ho. eapply delete_sound; [done | exact Hi | cbn; lia].
  - apply budget_finished in Hf. by eapply delete_sound; [| exact Hi |].
  - eapply delete_sound; [done | exact Hi |]. destruct o; cbn; lia.
Qed.

Lemma step_sound sy sy' : sound sy → step sy sy' → sound sy'.
Proof.
  intros Hs Hst. destruct Hst as [sy id Hlt Hn|sy id q receiver recv n o Hi Ho|sy sy' Hc|sy s].
  - destruct Hs as [S1 S2 S3 S4]. split; cbn; [rewrite reserved_insert by done; cbn; lia | done | | ].
    + intros id' o [[<- <-] | [_ Ho]]%lookup_insert_Some; [done | by eapply S3].
    + rewrite map_size_insert_None by done. lia.
  - destruct (budget_opened _ _ _ _ _ _ (so_free _ Hs) Ho) as (E1 & E2 & E3). pose proof Hs as [S1 S2 S3 S4].
    pose proof (reserved_delete _ _ _ Hi) as Hr. cbn in Hr. split; cbn; [| done | |].
    + rewrite <- insert_delete_eq, reserved_insert by apply lookup_delete_eq. cbn. lia.
    + intros id' o' [[<- <-] | [_ Ho']]%lookup_insert_Some; [done | by eapply S3].
    + rewrite map_size_insert_Some by (by eexists). done.
  - by apply (closes_sound sy sy').
  - destruct Hs. by split.
Qed.

Lemma reachable_sound s l sy : rtc step (started s l) sy → sound sy.
Proof.
  intros Hr. assert (H0' : sound (started s l)).
  { split; cbn; [vm_compute; reflexivity | vm_compute; congruence | intros id o; by rewrite lookup_empty | vm_compute; congruence]. }
  revert H0'. induction Hr as [|x y z Hxy Hyz IH]; [done |]. intros Hx. apply IH. by eapply step_sound.
Qed.

Lemma closing_sound k sy sy' : sound sy → nsteps closes k sy sy' → sound sy' ∧ (size (y_streams sy') + k)%nat = size (y_streams sy).
Proof.
  intros Hs Hc. induction Hc as [x|k x y z Hxy Hyz IH]; [split; [done | lia] |].
  destruct (closes_sound _ _ Hs Hxy) as [Hy Hsz]. destruct (IH Hy) as [Hz E]. split; [done | lia].
Qed.

(** C9: the body budget is never lost.  In every reachable state of a node the
    free bytes and those reserved by its open streams, at most 64, add up to the
    256 MiB of the budget; and however the open streams end, by a rejection,
    their response or their timeout, they end after as many steps as there are
    streams, one of them can always end, and when all have the budget is whole:
    every body within it is admitted. *)
Theorem stream_budget_conserved s l sy :
  rtc step (started s l) sy →
  n_body_budget (y_node sy) + reserved (y_streams sy) = MAX_IN_FLIGHT_IROH_BODY_BYTES
  ∧ 0 <= n_body_budget (y_node sy)
  ∧ Z.of_nat (size (y_streams sy)) <= MAX_CONCURRENT_STREAMS
  ∧ ∀ k sy', nsteps closes k sy sy' →
      (k <= size (y_streams sy))%nat
      ∧ (k = size (y_streams sy) ∨ ∃ sy'', closes sy' sy'')
      ∧ (k = size (y_streams sy) → n_body_budget (y_node sy') = MAX_IN_FLIGHT_IROH_BODY_BYTES
         ∧ ∀ bytes, 0 <= bytes <= MAX_IN_FLIGHT_IROH_BODY_BYTES →
             try_reserve (n_body_budget (y_node sy')) bytes = Ok bytes).
Proof.
  intros Hr%reachable_sound. pose proof Hr as [S1 S2 S3 S4]. split; [done |]. split; [done |]. split; [done |].
  intros k sy' Hc. destruct (closing_sound _ _ _ Hr Hc) as [[T1 T2 T3 T4] Hsz]. split; [lia |]. split.
  - destruct (decide (y_streams sy' = ∅)) as [He|Hne]; [left; rewrite He, map_size_empty in Hsz; lia | right].
    destruct (map_choose _ Hne) as (id & o & Ho). eexists. by apply (CTimeout sy' id o).
  - intros Hk. assert (He : y_streams sy' = ∅) by (apply map_size_empty_inv; lia).
    assert (Hb : n_body_budget (y_node sy') = MAX_IN_FLIGHT_IROH_BODY_BYTES).
    { rewrite <- T1, He. unfold reserved. rewrite map_fold_empty. lia. }
    split; [done |]. intros bytes Hby. rewrite Hb. unfold try_reserve.
    rewrite !decide_False, decide_True by (unfold u32_max, MAX_IN_FLIGHT_IROH_BODY_BYTES in *; lia). done.
Qed.
End system.

(** ** Streams that are not requests *)

Section errors.
Context `{Crates} `{Codec} `{WireJson} {B D V L : Type} `{BlobBackend B} `{BlobDatabase D}
  `{LfsVersionDatabase V} `{LockDatabase L}.

Notation N := (IrohNode B D V L).

Lemma read_header_spec bytes reset : ∀ buf,
  read_header buf bytes reset =
  match before_newline bytes with
  | Some l =>
      if decide (vec_len buf + vec_len l + 1 <= MAX_WIRE_HEADER)
      then Some ((buf ++ l ++ [x0a])%list, drop (S (length l)) bytes) else None
  | None =>
      if decide (bytes = [] ∨ vec_len buf + vec_len bytes <= MAX_WIRE_HEADER)
      then if reset then None else Some ((buf ++ bytes)%list, []) else None
  end.
Proof.
  induction bytes as [|b bytes IH]; intros buf; cbn [read_header before_newline].
  { rewrite app_nil_r, decide_True by auto. done. }
  rewrite IH. assert (Hl : vec_len (buf ++ [b]) = vec_len buf + 1) by (unfold vec_len; rewrite length_app; cbn; lia).
  rewrite Hl. destruct (decide (b = x0a)) as [->|Hb].
  - change (vec_len (A := byte) []) with 0. cbn [length drop app]. destruct (decide (vec_len buf + 1 > _)) as [Hg|Hg].
    + rewrite decide_False by lia. done.
    + rewrite decide_True by lia. done.
  - destruct (before_newline bytes) as [l|]; cbn [fmap option_fmap option_map length drop].
    + assert (vec_len (b :: l) = vec_len l + 1) as -> by (unfold vec_len; cbn [length]; lia).
      assert (0 <= vec_len l) by (unfold vec_len; lia).
      destruct (decide (vec_len buf + 1 > _)) as [Hg|Hg]; [by rewrite decide_False by lia |].
      rewrite <- app_assoc. cbn [app]. destruct (decide (vec_len buf + 1 + vec_len l + 1 <= _));
        [by rewrite decide_True by lia | by rewrite decide_False by lia].
    + assert (vec_len (b :: bytes) = vec_len bytes + 1) as -> by (unfold vec_len; cbn [length]; lia).
      destruct (decide (vec_len buf + 1 > _)) as [Hg|Hg].
      { rewrite decide_False; [done |]. intros [? | ?]; [done |]. unfold vec_len in *. lia. }
      rewrite <- app_assoc. cbn [app].
      destruct (decide (bytes = [] ∨ vec_len buf + 1 + vec_len bytes <= _)) as [[-> | ?]|Hn];
        [rewrite decide_True by (right; unfold vec_len in *; cbn; lia); done | by rewrite decide_True by (right; lia) |].
      rewrite decide_False; [done |]. intros [? | ?]; [done |]. apply Hn. right. lia.
Qed.

(** C10: a stream that is not an acceptable request changes nothing.  A header
    line of more than 16 KiB and a stream that breaks off before its header is
    complete are dropped without an answer; a stream that ends before its header
    line does, a line that is not a request, a hash that is not one and an
    authorization that is not verified are answered with their error; and the
    node is exactly as it was.  An upload whose body
    breaks off is never acknowledged: blobs, metadata, versions and locks are as
    they were, and its share of the body budget is given back. *)
Theorem bad_streams_change_nothing q uuid receiver recv (n : N) :
  let '(n', answer) := handle_stream q uuid receiver recv n in
  let line := before_newline (rv_bytes recv) in
  (match line with
   | Some l => MAX_WIRE_HEADER < vec_len l + 1
   | None => rv_reset recv = true ∨ MAX_WIRE_HEADER < vec_len (rv_bytes recv)
   end → n' = n ∧ answer = None)
  ∧ (line = None → rv_reset recv = false → vec_len (rv_bytes recv) <= MAX_WIRE_HEADER →
     n' = n ∧ answer = Some (reject_stream Wire.StError "no newline found in buffer"))
  ∧ (∀ l e, line = Some l → vec_len l + 1 <= MAX_WIRE_HEADER → request_from_slice l = Err e →
     n' = n ∧ answer = Some (reject_stream Wire.StError ("parse JSON line: " +:+ e)))
  ∧ ∀ req rest, read_request recv = Ok (req, rest) →
    let hashed := Wire.rq_op req ∈ [Wire.Get; Wire.Head; Wire.Delete; Wire.Upload] in
    (hashed → is_valid_sha256 (Wire.rq_sha256 req) = false →
     n' = n ∧ answer = Some (reject_stream Wire.StError "invalid SHA256 hash"))
    ∧ (∀ e, (hashed → is_valid_sha256 (Wire.rq_sha256 req) = true) → Wire.rq_auth req ≠ "" →
       verify_auth (q_auth q) (Wire.rq_auth req) req receiver = Err e →
       n' = n ∧ answer = Some (reject_stream Wire.StUnauthorized e))
    ∧ (Wire.rq_op req = Wire.Upload → read_exact rest (Wire.rq_body_len req) = None →
       held n' = held n ∧ n_body_budget n' = n_body_budget n
       ∧ match answer with Some r => ¬ succeeds r | None => True end).
Proof.
  destruct (handle_stream q uuid receiver recv n) as [n' answer] eqn:Eh. cbv zeta.
  assert (Hread : ∀ a, read_request recv = Err a → n' = n ∧ answer = a).
  { intros a Ha. unfold handle_stream, open_stream, bind, lift in Eh. rewrite Ha in Eh. by injection Eh as <- <-. }
  assert (Hhead : read_header [] (rv_bytes recv) (rv_reset recv) = None → n' = n ∧ answer = None)
    by (intros Hn; apply Hread; unfold read_request; by rewrite Hn).
  rewrite read_header_spec in Hhead. change (vec_len []) with 0 in Hhead. split; [| split; [| split]].
  - intros Hbad. apply Hhead. destruct (before_newline (rv_bytes recv)); [by rewrite decide_False by lia |].
    destruct Hbad as [-> | Hb]; [by destruct (decide _) |]. rewrite decide_False; [done |].
    intros [Hnil | ?]; [rewrite Hnil in Hb; vm_compute in Hb; done | lia].
  - intros Hl Hres Hle. apply Hread. unfold read_request. rewrite read_header_spec, Hl, Hres.
    change (vec_len []) with 0. rewrite decide_True by (right; lia). cbn [app]. unfold decode_line. by rewrite Hl.
  - intros l e Hl Hle He. apply Hread. unfold read_request. rewrite read_header_spec, Hl.
    change (vec_len []) with 0. rewrite decide_True by lia. cbn [app].
    destruct (before_newline_Some _ _ Hl) as (r & _ & Hni). unfold decode_line. by rewrite before_newline_app, He.
  - intros req rest Hreq. unfold handle_stream, open_stream in Eh. unfold bind at 1, lift in Eh. rewrite Hreq in Eh.
    split; [| split].
    + intros Hin Hv. rewrite bool_decide_true, Hv in Eh by done. cbn in Eh. by injection Eh as <- <-.
    + intros e Hv Ha He.
      assert (Hg : negb (bool_decide (Wire.rq_op req ∈ [Wire.Get; Wire.Head; Wire.Delete; Wire.Upload]))
                   || is_valid_sha256 (Wire.rq_sha256 req) = true)
        by (case_bool_decide as Hd; [by rewrite (Hv Hd) | done]).
      rewrite Hg in Eh. unfold bind at 1 in Eh. cbn [guard ret] in Eh. unfold authenticate, nonempty in Eh.
      rewrite bool_decide_false, He in Eh by done. cbn in Eh. by injection Eh as <- <-.
    + intros Hop Hshort. assert (Eh' : handle_stream q uuid receiver recv n = (n', answer)).
      { unfold handle_stream, open_stream. unfold bind at 1, lift. by rewrite Hreq. }
      clear Eh Hhead Hread. unfold handle_stream in Eh'. pose proof (open_keeps q receiver recv n) as Hk.
      destruct (open_stream q receiver recv n) as [n1 [o|a]] eqn:Eo; cbn in Hk; unfold seen_in in Hk.
      * destruct (open_ok _ _ _ _ _ _ Eo) as [Hreq' _]. apply budget_open in Eo as [Hb _].
        apply finish_inv in Eh' as (n2 & r2 & Hd & -> & ->).
        assert (o_req o = req ∧ o_rest o = rest) as [E1 E2] by (split; congruence).
        unfold bind, lift, read_body in Hd. rewrite E1, Hop, E2, Hshort in Hd. injection Hd as <- <-. cbn.
        split; [unfold held in *; cbn; congruence | split; [lia | done]].
      * injection Eh' as <- <-. split; [congruence |]. split; [by apply budget_open in Eo |].
        apply (open_refuses _ _ _ _ _ _ Eo).
Qed.
End errors.

(** ** Witnesses: an upload by the client of [IrohClient], over a stream *)
Module IrohExamples.
Import Concrete ConcreteCodec RequestAuthExamples ConcreteWire DurableExamples.

Definition receiver : string := "iroh://s".
Definition node : IrohNode MemoryBackend MemoryDatabase MemoryLfsVersionDatabase MemoryLockDatabase :=
  mkNode empty_server (Some ∅) (IrohReplay.new MAX_REPLAY_ENTRIES MAX_REPLAY_ENTRIES_PER_PRINCIPAL)
    MAX_IN_FLIGHT_IROH_BODY_BYTES.

Definition lfs_req : Wire.Request := upload_lfs_request 1000 "n" receiver v1 "t" "a.bin" "r" None false.
Definition recv : RecvStream := mkRecv (encode_request lfs_req ++ v1) false.
Lemma pair_some {A C} (x : A * option C) d : is_Some x.2 → x = (x.1, Some (default d x.2)).
Proof. destruct x as [a [c|]]; [done | by intros []]. Qed.
Lemma pair_ok {A C E} (x : A * result C E) d :
  is_Some (res_ok x.2) → x = (x.1, Ok (match x.2 with Ok c => c | Err _ => d end)).
Proof. destruct x as [a [c|]]; [done | by intros []]. Qed.

Definition uploaded := handle_stream request "id" receiver recv node.
Definition reply : Reply := default (reject_stream Wire.StError "") uploaded.2.

Lemma recv_request : read_request recv = Ok (lfs_req, v1).
Proof. vm_compute. reflexivity. Qed.
Lemma uploaded_eq : uploaded = (uploaded.1, Some reply).
Proof.
  assert (Hs : is_Some uploaded.2) by (vm_compute; by eexists).
  exact (pair_some uploaded (reject_stream Wire.StError "") Hs).
Qed.

Lemma iroh_changes_authorized_witness :
  ∃ req rest p, read_request recv = Ok (req, rest) ∧ changing (Wire.rq_op req) ∧ permitted node req p.
Proof.
  pose proof uploaded_eq as Hu. unfold uploaded at 1 in Hu.
  destruct (iroh_changes_authorized request "id" receiver recv node uploaded.1 (Some reply) Hu)
    as (req & rest & p & H1 & H2 & H3 & _).
  - intros E. apply (f_equal (fun h => len h.1.1.1)) in E. vm_compute in E. discriminate.
  - exists req, rest, p. split; [exact H1 |]. split; [exact H2 | exact H3].
Defined.

Definition lfs_event : NostrEvent :=
  build_blossom_auth_with_extra_tags 1000 "n" "upload" (Some (sha256_hex v1)) (Some receiver) ""
    (lfs_extra_tags "a.bin" "r" None false).
Definition verified : VerifiedAuth := mkVerified (ev_pubkey lfs_event) (ev_id lfs_event).

(** A stream that asks for what the first one uploaded. *)
Definition get_recv : RecvStream := mkRecv (encode_request (download_request (sha256_hex v1))) false.

Lemma iroh_get_equals_http_witness :
  (handle_stream request "id2" receiver get_recv uploaded.1).1 = uploaded.1
  ∧ received (written (handle_stream request "id2" receiver get_recv uploaded.1).2)
    = Some (Wire.mkResponse Wire.StOk 5 "application/octet-stream" "" None, v1).
Proof.
  assert (Hreq : read_request get_recv = Ok (download_request (sha256_hex v1), [])) by (vm_compute; reflexivity).
  assert (Hv : is_valid_sha256 (sha256_hex v1) = true) by (vm_compute; reflexivity).
  assert (Hp : strip_extension (sha256_hex v1 +:+ ".bin") = sha256_hex v1) by (vm_compute; reflexivity).
  pose proof (iroh_get_equals_http request "id2" receiver get_recv uploaded.1 (download_request (sha256_hex v1)) []
    (sha256_hex v1 +:+ ".bin") Hreq eq_refl Hv (or_introl eq_refl) Hp) as H.
  assert (E : (handle_get_blob request (sha256_hex v1 +:+ ".bin") (n_server uploaded.1)).2
    = (200, Some ("application/octet-stream", v1))) by (vm_compute; reflexivity).
  rewrite E in H. destruct (handle_stream request "id2" receiver get_recv uploaded.1). exact (conj (proj1 H) (proj2 (proj2 H))).
Defined.

Lemma iroh_upload_kept_witness :
  handle_get request (Wire.rq_sha256 lfs_req) (n_server (run_node [EHttp (RGet request "x")] uploaded.1))
  = (Wire.mkResponse Wire.StOk (vec_len v1) "application/octet-stream" "" None, v1).
Proof.
  assert (W : server_wf (n_server node)) by (split; [reflexivity | by intros db v [= <-] []]).
  assert (Hok : succeeds reply) by (vm_compute; reflexivity).
  assert (Hbody : read_exact v1 (Wire.rq_body_len lfs_req) = Some v1) by (vm_compute; reflexivity).
  assert (Hfresh : bytes_of (n_server node) (Wire.rq_sha256 lfs_req) = None) by (vm_compute; reflexivity).
  assert (Hnew : ∀ db, s_lfs_version_db (n_server node) = Some db → version_of db (Wire.rq_sha256 lfs_req) = None)
    by (intros db [= <-]; reflexivity).
  assert (Hname : lfs_named (parse_lfs_from_request lfs_req)) by (intros _ _; split; vm_compute; by eexists).
  assert (Hbase : base_shallow (n_server node) (parse_lfs_from_request lfs_req) v1)
    by (intros db base _ Hb; vm_compute in Hb; discriminate).
  assert (Hes : Forall (event_spares (Wire.rq_sha256 lfs_req)) [EHttp (RGet request "x")])
    by (constructor; [exact I | constructor]).
  pose proof uploaded_eq as Hu. unfold uploaded at 1 in Hu.
  exact (proj2 (proj2 (iroh_upload_kept request "id" receiver recv node uploaded.1 reply lfs_req v1 v1
    [EHttp (RGet request "x")] request W eq_refl eq_refl Hu Hok recv_request eq_refl Hbody Hfresh Hnew
    Hname Hbase Hes))).
Defined.

(** A node takes a stream and admits its upload. *)
Definition sys0 := started (B := MemoryBackend) (D := MemoryDatabase) (L := MemoryLockDatabase) empty_server (Some ∅).
Definition sys1 := mkSystem (y_node sys0) (<[1%nat := None]> (y_streams sys0)).
Definition opened := open_stream request receiver recv (y_node sys1).
Definition the_stream : Opened := match opened.2 with Ok o => o | Err _ => mkOpened lfs_req None 0 [] end.
Definition sys2 := mkSystem opened.1 (<[1%nat := Some the_stream]> (y_streams sys1)).

Lemma opened_eq : opened = (opened.1, Ok the_stream).
Proof.
  assert (Hs : is_Some (res_ok opened.2)) by (vm_compute; by eexists).
  exact (pair_ok opened (mkOpened lfs_req None 0 []) Hs).
Qed.
Lemma sys2_reachable : rtc step sys0 sys2.
Proof.
  assert (Hfree : Z.of_nat (size (y_streams sys0)) < MAX_CONCURRENT_STREAMS) by (vm_compute; reflexivity).
  assert (Hnone : y_streams sys0 !! 1%nat = None) by apply lookup_empty.
  assert (Hwait : y_streams sys1 !! 1%nat = Some None) by (vm_compute; reflexivity).
  pose proof opened_eq as Ho. unfold opened at 1 in Ho.
  exact (rtc_l _ _ _ _ (SAccept sys0 1%nat Hfree Hnone)
    (rtc_once _ _ (SOpen sys1 1%nat request receiver recv opened.1 the_stream Hwait Ho))).
Qed.

Lemma stream_budget_conserved_witness :
  n_body_budget (y_node sys2) + reserved (y_streams sys2) = MAX_IN_FLIGHT_IROH_BODY_BYTES.
Proof. exact (proj1 (stream_budget_conserved empty_server (Some ∅) sys2 sys2_reachable)). Defined.

Lemma client_download_verified_witness :
  download_result (sha256_hex v2) (map Ok [written (Some (handle_get request (sha256_hex v2) (n_server uploaded.1)))])
  = Err "download failed: not found".
Proof.
  pose proof (client_download_verified request (sha256_hex v2) (n_server uploaded.1)
    [written (Some (handle_get request (sha256_hex v2) (n_server uploaded.1)))] [] [] (app_nil_r _)) as H.
  assert (E : get (q_env request) (s_backend (n_server uploaded.1)) (sha256_hex v2) = None)
    by (vm_compute; reflexivity).
  rewrite E in H. exact (proj1 H).
Defined.

Lemma client_requests_authorized_witness :
  ∃ id, verify_auth 1060 (Wire.rq_auth lfs_req) lfs_req receiver = Ok (mkVerified public_key_hex id).
Proof.
  apply (client_requests_authorized 1000 1060 "n" receiver (CUploadLfs v1 "t" "a.bin" "r" None false) lfs_req).
  - unfold in_u64, u64_max. lia.
  - unfold u64_max. lia.
  - lia.
  - reflexivity.
  - reflexivity.
Defined.
End IrohExamples.
