(* ===== verification/PktLine.v ===== *)
(** * Ref updates of a push ([src/blossom-nip34/src/git_server/pktline.rs])

    The commands at the start of the body of a push are packet lines; the parser
    works on bytes and tests text with [str::from_utf8]. *)

From Stdlib Require Import ZArith Lia Ascii String.
From Stdlib Require Import Strings.Byte.
From stdpp Require Import base list gmap strings numbers.
From S2P Require Import Prelude.

Open Scope string_scope.
Open Scope Z_scope.

(** ** Text *)

(** A byte that continues a character. *)
Definition continues (b : byte) : bool := between 128 (b2z b) 191.

(** Whether [str::from_utf8] accepts the bytes. *)
Fixpoint is_utf8 (l : list byte) : bool :=
  match l with
  | [] => true
  | b :: r =>
      let n := b2z b in
      if n <=? 127 then is_utf8 r
      else if between 194 n 223 then
        match r with
        | c :: r => continues c && is_utf8 r
        | _ => false
        end
      else if between 224 n 239 then
        match r with
        | c :: d :: r =>
            between (if n =? 224 then 160 else 128) (b2z c) (if n =? 237 then 159 else 191)
            && continues d && is_utf8 r
        | _ => false
        end
      else if between 240 n 244 then
        match r with
        | c :: d :: e :: r =>
            between (if n =? 240 then 144 else 128) (b2z c) (if n =? 244 then 143 else 191)
            && continues d && continues e && is_utf8 r
        | _ => false
        end
      else false
  end.

(** [str::from_utf8]. *)
Definition from_utf8 (l : list byte) : option string :=
  if is_utf8 l then Some (from_utf8_unchecked l) else None.

(** [splitn(3, ' ')] and [split_once] on a character. *)
Fixpoint split_once (c : ascii) (s : string) : option (string * string) :=
  match s with
  | EmptyString => None
  | String x s =>
      if decide (x = c) then Some ("", s)
      else match split_once c s with
           | Some (l, r) => Some (String x l, r)
           | None => None
           end
  end.

(** ** Ref updates *)

(** [NULL_OID], [RefUpdate]. *)
Definition NULL_OID : string := "0000000000000000000000000000000000000000".
Record RefUpdate := mkUpdate {
  old_oid : string;
  new_oid : string;
  refname : string;
  capabilities : option string
}.
Definition is_create (u : RefUpdate) : bool := bool_decide (old_oid u = NULL_OID).
Definition is_delete (u : RefUpdate) : bool := bool_decide (new_oid u = NULL_OID).

(** [is_valid_sha1]. *)
Definition is_valid_sha1 (s : string) : bool := (str_len s =? 40) && str_all is_ascii_hexdigit s.

(** [strip_suffix(b"\n")]. *)
Definition strip_lf (payload : list byte) : list byte :=
  match rev payload with
  | b :: r => if decide (b = x0a) then rev r else payload
  | [] => payload
  end.

(** [parse_ref_update]. *)
Definition parse_ref_update (payload : list byte) : result RefUpdate string :=
  let? s := ok_or (from_utf8 (strip_lf payload)) "invalid UTF-8 in pkt-line" in
  match split_once " " s with
  | None => Err "missing new oid"
  | Some (old_oid, rest) =>
      match split_once " " rest with
      | None => Err "missing refname"
      | Some (new_oid, ref_with_caps) =>
          let '(refname, capabilities) :=
            match split_once "000" ref_with_caps with
            | Some (name, caps) => (name, Some (trim caps))
            | None => (ref_with_caps, None)
            end in
          if negb (is_valid_sha1 old_oid) then Err "invalid old oid"
          else if negb (is_valid_sha1 new_oid) then Err "invalid new oid"
          else if negb (starts_with "refs/" refname) then Err "refname must start with refs/"
          else Ok (mkUpdate old_oid new_oid refname capabilities)
      end
  end.

(** The test of [parse_ref_updates] for a line that is a command. *)
Definition looks_like_update (payload : list byte) : bool :=
  match from_utf8 payload with
  | Some s =>
      match split_char " " s with
      | a :: b :: _ => is_valid_sha1 a && is_valid_sha1 b
      | _ => false
      end
  | None => false
  end.

(** The loop of [parse_ref_updates], on what is left of the body. *)
Fixpoint parse_loop (fuel : nat) (body : list byte) (updates : list RefUpdate) : result (list RefUpdate) string :=
  match fuel with
  | O => Ok updates
  | S fuel =>
      if decide (vec_len body < 4) then Ok updates
      else
        let? len_str := ok_or (from_utf8 (take 4 body)) "invalid pkt-line length" in
        let? len := ok_or (from_str_radix 16 u16_max len_str) "invalid hex in pkt-line length" in
        if len <=? 2 then Ok updates
        else if len <? 4 then Err "pkt-line length too short"
        else if vec_len body <? len then Err "pkt-line extends beyond body"
        else
          let payload := drop 4 (take (Z.to_nat len) body) in
          if looks_like_update payload then
            let? update := parse_ref_update payload in
            parse_loop fuel (drop (Z.to_nat len) body) (updates ++ [update])%list
          else parse_loop fuel (drop (Z.to_nat len) body) updates
  end.

(** [parse_ref_updates]. *)
Definition parse_ref_updates (body : list byte) : result (list RefUpdate) string :=
  parse_loop (length body) body [].

(** [format!("{:04x}")] of a length. *)
Definition hex_char (d : Z) : ascii := if decide (d < 10) then chr (48 + d) else chr (87 + d).
Definition hex4 (n : Z) : string :=
  of_chars [hex_char (n / 4096 mod 16); hex_char (n / 256 mod 16); hex_char (n / 16 mod 16); hex_char (n mod 16)].

(** ** What is parsed back *)

(** A packet, the line of an update, with a line feed or not, and the start of a
    push: the packets, a flush, and the pack. *)
Definition pkt (payload : list byte) : list byte := (as_bytes (hex4 (vec_len payload + 4)) ++ payload)%list.
Definition command (u : RefUpdate) : string :=
  old_oid u +:+ " " +:+ new_oid u +:+ " " +:+ refname u
    +:+ match capabilities u with Some caps => String "000" caps | None => "" end.
Definition update_line (lf : bool) (u : RefUpdate) : list byte :=
  (as_bytes (command u) ++ if lf then [x0a] else [])%list.
(** A line of a push: an update, or something else. *)
Inductive push_line := LUpdate (lf : bool) (u : RefUpdate) | LOther (payload : list byte).
Definition line_payload (l : push_line) : list byte :=
  match l with LUpdate lf u => update_line lf u | LOther payload => payload end.
Definition push_body (lines : list push_line) (pack : list byte) : list byte :=
  (concat (map (fun l => pkt (line_payload l)) lines) ++ as_bytes "0000" ++ pack)%list.
(** What is read of it: capabilities are trimmed, and what is not a command in
    UTF-8 is skipped. *)
Definition trimmed (u : RefUpdate) : RefUpdate := mkUpdate (old_oid u) (new_oid u) (refname u) (trim <$> capabilities u).
Definition line_read (l : push_line) : option RefUpdate :=
  match l with LUpdate _ u => Some (trimmed u) | LOther _ => None end.

(** An update as git writes them, in UTF-8. *)
Definition update_ok (lf : bool) (u : RefUpdate) : Prop :=
  is_valid_sha1 (old_oid u) = true ∧ is_valid_sha1 (new_oid u) = true
  ∧ starts_with "refs/" (refname u) = true ∧ ("000"%char : ascii) ∉ chars (refname u)
  ∧ is_utf8 (as_bytes (command u)) = true
  ∧ (lf = false → list.last (as_bytes (command u)) ≠ Some x0a)
  ∧ vec_len (update_line lf u) <= 65531.
Definition line_ok (l : push_line) : Prop :=
  match l with
  | LUpdate lf u => update_ok lf u
  | LOther payload => looks_like_update payload = false ∧ (0 < length payload)%nat ∧ vec_len payload <= 65531
  end.

Lemma hex_char_code d : 0 <= d < 16 → digit_val 16 (hex_char d) = Some d ∧ b2z (byte_of_ascii (hex_char d)) <= 127
  ∧ hex_char d ≠ "+"%char.
Proof.
  intros Hd. assert (Hall : Forall (fun d => digit_val 16 (hex_char d) = Some d
    ∧ b2z (byte_of_ascii (hex_char d)) <= 127 ∧ hex_char d ≠ "+"%char) (seqZ 0 16)).
  { apply (bool_decide_eq_true_1 _). vm_compute. reflexivity. }
  rewrite list.Forall_forall in Hall. apply Hall, elem_of_seqZ. lia.
Qed.

Lemma hex4_parse n : 0 <= n <= u16_max → from_str_radix 16 u16_max (hex4 n) = Some n.
Proof.
  intros Hn. unfold u16_max in *. unfold hex4.
  destruct (hex_char_code (n / 4096 mod 16)) as (E1 & _ & P1); [apply Z.mod_pos_bound; lia |].
  destruct (hex_char_code (n / 256 mod 16)) as (E2 & _); [apply Z.mod_pos_bound; lia |].
  destruct (hex_char_code (n / 16 mod 16)) as (E3 & _); [apply Z.mod_pos_bound; lia |].
  destruct (hex_char_code (n mod 16)) as (E4 & _); [apply Z.mod_pos_bound; lia |].
  change (of_chars [?a; ?b; ?c; ?d]) with (String a (String b (String c (String d "")))).
  unfold from_str_radix. rewrite decide_False by done. cbn [parse_go]. rewrite E1, E2, E3, E4.
  assert (H1 : n = ((n / 4096 mod 16 * 16 + n / 256 mod 16) * 16 + n / 16 mod 16) * 16 + n mod 16)
    by (Z.div_mod_to_equations; lia).
  pose proof (Z.mod_pos_bound (n / 4096) 16). pose proof (Z.mod_pos_bound (n / 256) 16).
  pose proof (Z.mod_pos_bound (n / 16) 16). pose proof (Z.mod_pos_bound n 16).
  rewrite !decide_True by lia. f_equal. lia.
Qed.

Lemma utf8_ascii l : Forall (fun b => b2z b <= 127) l → is_utf8 l = true.
Proof. induction 1 as [|b l Hb _ IH]; cbn; [done |]. by rewrite (proj2 (Z.leb_le _ _) Hb). Qed.

Lemma utf8_app a b : is_utf8 b = true → is_utf8 a = true → is_utf8 (a ++ b)%list = true.
Proof.
  intros Hb. cut (∀ n a, (length a <= n)%nat → is_utf8 a = true → is_utf8 (a ++ b)%list = true); [intros H Ha; by eapply H |].
  clear a. induction n as [|n IH]; intros [|x a] Hn; try done; [cbn in Hn; lia |]. cbn in *.
  destruct (_ <=? 127); [apply IH; lia |].
  destruct (between 194 _ _); [destruct a as [|c a]; [done |]; cbn in *; rewrite !andb_true_iff; intuition auto with lia |].
  destruct (between 224 _ _); [destruct a as [|c [|d a]]; [done.. |]; cbn in *; rewrite !andb_true_iff; intuition auto with lia |].
  destruct (between 240 _ _); [| done].
  destruct a as [|c [|d [|e a]]]; [done.. |]; cbn in *; rewrite !andb_true_iff; intuition auto with lia.
Qed.

Lemma strip_lf_line lf l : (lf = false → list.last l ≠ Some x0a) → strip_lf (l ++ if lf : bool then [x0a] else [])%list = l.
Proof.
  intros Hl. unfold strip_lf. destruct lf.
  - rewrite rev_app_distr. cbn. by rewrite rev_involutive.
  - rewrite app_nil_r. destruct (rev l) as [|x r] eqn:E; [done |]. rewrite decide_False; [done |]. intros ->.
    apply Hl; [done |]. apply (f_equal (@rev _)) in E. rewrite rev_involutive in E. cbn in E. by rewrite E, last_snoc.
Qed.

Lemma split_once_app c l r : c ∉ chars l → split_once c (l +:+ String c r) = Some (l, r).
Proof.
  unfold chars. induction l as [|x l IH]; intros Hc.
  - change ("" +:+ ?t) with t. cbn [split_once]. by rewrite decide_True.
  - cbn in Hc. rewrite not_elem_of_cons in Hc. destruct Hc as [Hx Hl]. change (String x l +:+ ?t) with (String x (l +:+ t)).
    cbn [split_once]. rewrite decide_False by congruence. by rewrite (IH Hl).
Qed.
Lemma split_once_none c s : c ∉ chars s → split_once c s = None.
Proof.
  unfold chars. induction s as [|x s IH]; intros Hc; [done |]. cbn in Hc. rewrite not_elem_of_cons in Hc.
  destruct Hc as [Hx Hs]. cbn [split_once]. rewrite decide_False by congruence. by rewrite (IH Hs).
Qed.
Lemma split_char_app c l r : c ∉ chars l → split_char c (l +:+ String c r) = l :: split_char c r.
Proof.
  unfold chars. induction l as [|x l IH]; intros Hc.
  - change ("" +:+ ?t) with t. cbn [split_char]. by rewrite decide_True.
  - cbn in Hc. rewrite not_elem_of_cons in Hc. destruct Hc as [Hx Hl]. change (String x l +:+ ?t) with (String x (l +:+ t)).
    cbn [split_char]. rewrite decide_False by congruence. by rewrite (IH Hl).
Qed.

Lemma sha1_no_space s : is_valid_sha1 s = true → " "%char ∉ chars s.
Proof.
  unfold is_valid_sha1, str_all. intros [_ Hs]%andb_true_iff Hin. apply forallb_forall with (x := " "%char) in Hs; [done |].
  by apply list_elem_of_In.
Qed.

Lemma as_bytes_app s t : as_bytes (s +:+ t) = (as_bytes s ++ as_bytes t)%list.
Proof.
  unfold as_bytes, String.list_byte_of_string. change String.list_ascii_of_string with chars.
  by rewrite chars_app, map_app.
Qed.

Lemma as_bytes_cons c s : as_bytes (String c s) = byte_of_ascii c :: as_bytes s.
Proof. reflexivity. Qed.

(** A line is read back, and recognised. *)
Lemma update_line_parsed lf u : update_ok lf u → parse_ref_update (update_line lf u) = Ok (trimmed u).
Proof.
  intros (Ho & Hn & Hr & Hnul & Hu & Hlf & _). unfold parse_ref_update, update_line, from_utf8.
  rewrite strip_lf_line by done. rewrite Hu, from_as_bytes. cbn [ok_or]. unfold command.
  change (" " +:+ ?x) with (String " " x). rewrite split_once_app by by apply sha1_no_space.
  change (" " +:+ ?x) with (String " " x). rewrite split_once_app by by apply sha1_no_space.
  destruct u as [o n r [caps|]]; cbn [old_oid new_oid refname capabilities] in *.
  - rewrite split_once_app by done. by rewrite Ho, Hn, Hr.
  - assert (E : r +:+ "" = r) by (apply chars_inj; by rewrite chars_app, app_nil_r). rewrite E.
    rewrite split_once_none by done. by rewrite Ho, Hn, Hr.
Qed.
Lemma update_line_recognised lf u : update_ok lf u → looks_like_update (update_line lf u) = true.
Proof.
  intros (Ho & Hn & _ & _ & Hu & _ & _). unfold looks_like_update, update_line, from_utf8.
  rewrite utf8_app by (done || by destruct lf).
  assert (E : ∃ rest, from_utf8_unchecked (as_bytes (command u) ++ if lf then [x0a] else [])%list
    = old_oid u +:+ String " " (new_oid u +:+ String " " rest)).
  { exists (refname u +:+ match capabilities u with Some caps => String "000" caps | None => "" end
            +:+ if lf then String "010" "" else "").
    rewrite <- (from_as_bytes (old_oid u +:+ _)). f_equal. unfold command.
    repeat (rewrite as_bytes_app || rewrite as_bytes_cons). rewrite <- ?app_assoc. by destruct lf. }
  destruct E as [rest ->]. rewrite !split_char_app by by apply sha1_no_space. by rewrite Ho, Hn.
Qed.

Lemma hex4_bytes n : length (as_bytes (hex4 n)) = 4%nat.
Proof. done. Qed.

Lemma hex4_utf8 n : is_utf8 (as_bytes (hex4 n)) = true.
Proof.
  apply utf8_ascii. unfold hex4. cbn [of_chars string_of_list_ascii as_bytes list_byte_of_string].
  repeat constructor; apply hex_char_code, Z.mod_pos_bound; lia.
Qed.

(** A step of the loop over a packet. *)
Lemma parse_loop_pkt fuel payload rest updates :
  vec_len payload <= 65531 → (0 < length payload)%nat →
  parse_loop (S fuel) (pkt payload ++ rest)%list updates
  = if looks_like_update payload then
      let? update := parse_ref_update payload in parse_loop fuel rest (updates ++ [update])%list
    else parse_loop fuel rest updates.
Proof.
  intros Hl Hp. unfold vec_len in *. set (n := Z.of_nat (length payload) + 4).
  assert (Elen : length (pkt payload) = Z.to_nat n) by (unfold pkt; rewrite length_app, hex4_bytes; unfold vec_len; lia).
  cbn [parse_loop]. rewrite decide_False by (unfold vec_len; rewrite length_app, Elen; lia).
  assert (Etake : take 4 (pkt payload ++ rest)%list = as_bytes (hex4 n)).
  { unfold pkt. rewrite <- app_assoc, take_app_le by (rewrite hex4_bytes; lia). done. }
  rewrite Etake. unfold from_utf8 at 1. rewrite hex4_utf8, from_as_bytes. cbn [ok_or].
  rewrite hex4_parse by (unfold u16_max; lia). cbn [ok_or].
  replace (n <=? 2) with false by (symmetry; apply Z.leb_gt; lia).
  replace (n <? 4) with false by (symmetry; apply Z.ltb_ge; lia).
  replace (vec_len (pkt payload ++ rest)%list <? n) with false.
  2: { symmetry; apply Z.ltb_ge. unfold vec_len. rewrite length_app, Elen. lia. }
  rewrite <- Elen, take_app_length, drop_app_length. unfold pkt at 1.
  change 4%nat with (length (as_bytes (hex4 (vec_len payload + 4)))). by rewrite drop_app_length.
Qed.

Lemma parse_loop_flush fuel pack updates : parse_loop (S fuel) (as_bytes "0000" ++ pack)%list updates = Ok updates.
Proof.
  cbn [parse_loop]. rewrite decide_False.
  2: { unfold vec_len. rewrite length_app. change (length (as_bytes "0000")) with 4%nat. lia. }
  rewrite take_app_le by done. reflexivity.
Qed.

Lemma update_line_nonempty lf u : update_ok lf u → (0 < length (update_line lf u))%nat.
Proof.
  intros (Ho & _). unfold update_line, command. rewrite length_app, as_bytes_app, length_app.
  destruct (old_oid u); [done |]. rewrite as_bytes_cons. cbn [length]. lia.
Qed.

(** A line of a push is read as it should be. *)
Lemma parse_loop_line fuel l rest updates : line_ok l →
  parse_loop (S fuel) (pkt (line_payload l) ++ rest)%list updates
  = parse_loop fuel rest (updates ++ option_list (line_read l))%list.
Proof.
  destruct l as [lf u|payload]; cbn [line_ok line_payload line_read option_list].
  - intros Hu. rewrite parse_loop_pkt, update_line_recognised, update_line_parsed by (done || apply Hu || by apply update_line_nonempty). done.
  - intros (Hs & Hp & Hl). rewrite parse_loop_pkt, Hs by done. by rewrite app_nil_r.
Qed.

(** C40: what git sends is read.  From the packets of any lines of at most 65531
    bytes, a flush and any pack, [parse_ref_updates] reads exactly the updates
    among them whose names and capabilities are UTF-8, with a line feed or
    without, in order and with trimmed capabilities; lines that are not UTF-8 or
    do not begin with two object ids are skipped. *)
Theorem push_commands_parsed lines pack :
  Forall line_ok lines → parse_ref_updates (push_body lines pack) = Ok (omap line_read lines).
Proof.
  intros Hall. unfold parse_ref_updates, push_body.
  assert (Hgo : ∀ fuel updates, (length lines < fuel)%nat →
    parse_loop fuel (concat (map (fun l => pkt (line_payload l)) lines) ++ as_bytes "0000" ++ pack)%list updates
    = Ok (updates ++ omap line_read lines)%list).
  { induction Hall as [|l lines Hl _ IH]; intros [|fuel] updates Hf; try (cbn in Hf; lia).
    - cbn [map concat app]. rewrite parse_loop_flush. cbn. by rewrite app_nil_r.
    - cbn [map concat]. rewrite <- app_assoc, parse_loop_line by done. rewrite IH by (cbn in Hf; lia).
      rewrite <- app_assoc. do 2 f_equal. cbn. by destruct (line_read l). }
  apply (Hgo _ []). clear Hgo. rewrite length_app. cut (length lines <= length (concat (map (λ l, pkt (line_payload l)) lines)))%nat.
  { cbn. lia. }
  clear. induction lines as [|l lines IH]; [done |]. cbn [map concat length]. rewrite length_app.
  unfold pkt at 1. rewrite length_app, hex4_bytes. lia.
Qed.

Module PktLineExamples.
Definition oid_a : string := "ac281124fd463f368106445a4fe4eb251d9c7d7a".
Definition oid_b : string := "4559b8048c334a7e61c76a622cf7cd578a6af406".
Definition master : RefUpdate := mkUpdate oid_a oid_b "refs/heads/master" (Some " report-status-v2 side-band-64k").
Definition develop : RefUpdate := mkUpdate NULL_OID oid_b "refs/heads/develop" None.
Definition not_text : list byte := (as_bytes (oid_a +:+ " " +:+ oid_b +:+ " refs/heads/") ++ [xff])%list.

Lemma push_commands_parsed_witness :
  parse_ref_updates (push_body [LUpdate true master; LOther not_text; LUpdate false develop] (as_bytes "PACK"))
  = Ok [trimmed master; develop].
Proof.
  assert (Hm : update_ok true master).
  { repeat split; try (vm_compute; reflexivity || discriminate).
    apply (bool_decide_eq_true_1 _). vm_compute. reflexivity. }
  assert (Hd : update_ok false develop).
  { repeat split; try (vm_compute; reflexivity || discriminate).
    apply (bool_decide_eq_true_1 _). vm_compute. reflexivity. }
  assert (Ho : line_ok (LOther not_text)) by (repeat split; vm_compute; reflexivity || discriminate || lia).
  apply (push_commands_parsed [LUpdate true master; LOther not_text; LUpdate false develop] (as_bytes "PACK")).
  constructor; [exact Hm | constructor; [exact Ho | constructor; [exact Hd | constructor]]].
Defined.

(** A command that is not text is skipped: git reads it, the checks do not. *)
Example non_utf8_command_skipped :
  parse_ref_updates (pkt not_text ++ as_bytes "0000")%list = Ok [].
Proof. vm_compute. reflexivity. Qed.
End PktLineExamples.
