(* ===== verification/Git.v ===== *)
(** * The git server ([src/blossom-nip34/src/git_server/] and [state.rs])

    Repositories are kept under the key and the name of their owner; anybody may
    fetch, the owner may push with a signed event, and a push to a repository
    with branches must agree with the state the owner or a maintainer published.
    The git process, the relay database, the nostr and base64 crates are third
    party: [GitHost], and the environment of a request, [GitEnv]. *)

From Stdlib Require Import ZArith Lia Ascii String.
From Stdlib Require Import Strings.Byte.
From stdpp Require Import base list gmap strings numbers sets.
From S2P Require Import Prelude Effects Protocol Auth Replay RequestAuth RateLimit Database Access Storage Locks Lfs Stats Server PktLine.

Open Scope string_scope.
Open Scope Z_scope.
Open Scope handler_scope.

(** ** Third-party code *)

(** [nostr::Filter], as the server builds it. *)
Record RelayFilter := mkFilter {
  fl_authors : list string;
  fl_identifier : string;
  fl_kind : Z
}.

Class GitHost : Type := {
  (** base64: the engines [URL_SAFE_NO_PAD] and [STANDARD]. *)
  b64_url_decode : string → option (list byte);
  b64_std_decode : string → option (list byte);
  (** nostr: an event from JSON, its verification, keys to hex, and what is
      asked of its tags. *)
  event_of_json : list byte → option NostrEvent;
  event_verify : NostrEvent → bool;
  key_from_bech32 : string → option string;
  key_from_hex : string → option string;
  is_maintainers_tag : list string → bool;
  tag_kind : list string → string;
  tag_content : list string → option string;
  (** url: [Url::parse] succeeds. *)
  is_url : string → bool;
  (** A bare repository on disk: whether it has a [HEAD], and what listing its
      [refs/heads] gives, if that exists. *)
  Repo : Type;
  has_head : Repo → bool;
  list_heads : Repo → option (result (list string) string)
}.

(** ** Running git ([command.rs]) *)

(** [MAX_GIT_OUTPUT], [MAX_GIT_STDERR]. *)
Definition MAX_GIT_OUTPUT : Z := 64 * 1024 * 1024.
Definition MAX_GIT_STDERR : Z := 64 * 1024.

(** How a process went: whether it started, ended in time, took its input, its
    status, and what it wrote. *)
Record ProcessRun := mkRun {
  run_spawned : bool;
  run_in_time : bool;
  run_written : bool;
  run_success : option bool;
  run_stdout : option (list byte);
  run_stderr : option (list byte)
}.

(** [read_limited]. *)
Definition read_limited (output : option (list byte)) (limit : Z) : result (list byte) string :=
  match output with
  | None => Err "failed to read git output"
  | Some output => if decide (vec_len output > limit) then Err "git output limit exceeded" else Ok output
  end.

(** [run_bounded]: what is made of a run. *)
Definition run_bounded (input : option (list byte)) (p : ProcessRun) : result (bool * list byte * list byte) string :=
  if negb (run_spawned p) then Err "failed to spawn git"
  else if negb (run_in_time p) then Err "git command timed out"
  else if match input with Some _ => negb (run_written p) | None => false end then Err "failed to write to git stdin"
  else
    let? success := ok_or (run_success p) "failed to wait for git" in
    let? stdout := read_limited (run_stdout p) MAX_GIT_OUTPUT in
    let? stderr := read_limited (run_stderr p) MAX_GIT_STDERR in
    Ok (success, stdout, stderr).

(** ** State *)

Section git.
Context `{Crates} `{GitHost} `{HashOrder}.

(** The parts of [Nip34Config] the git server uses. *)
Record GitConfig := mkGitConfig { cfg_server_url : string; cfg_repos_path : string }.

(** The repositories by path, the events used up, and [GIT_BODY_BUFFER_LIMIT]. *)
Record GitState := mkGit {
  g_repos : gmap string Repo;
  g_seen : ReplayCache;
  g_permits : Z
}.

(** How [git init] goes in a new directory: errors of the directory, of the
    process and of the description, and what is at the path afterwards. *)
Record InitRun := mkInit {
  init_mkdir : option string;
  init_status : result bool string;
  init_repo : option Repo;
  init_describe : option string
}.

(** What a request meets: the clock at its two readings, the relay database,
    [git init], and a git process with its arguments and input. *)
Record GitEnv := mkGitEnv {
  ge_claims : Z;
  ge_verify : Z;
  ge_query : RelayFilter → result (list NostrEvent) string;
  ge_init : InitRun;
  ge_git : list string → option (list byte) → Repo → Repo * ProcessRun
}.

(** A response: its status, and a text or an output with its type. *)
Inductive GitBody := GText (text : string) | GOutput (content_type : string) (output : list byte).
Definition GitResponse : Type := Z * GitBody.
Notation M := (MR GitState GitResponse).

Definition set_repos (r : gmap string Repo) (s : GitState) : GitState := mkGit r (g_seen s) (g_permits s).
Definition set_git_seen (c : ReplayCache) (s : GitState) : GitState := mkGit (g_repos s) c (g_permits s).
Definition set_git_permits (n : Z) (s : GitState) : GitState := mkGit (g_repos s) (g_seen s) n.

(** [Nip34State::repo_path]. *)
Definition repo_char (c : ascii) : bool :=
  is_ascii_alphanumeric c || bool_decide (c = "-"%char) || bool_decide (c = "_"%char).
Definition owner_key (npub : string) : option string :=
  if starts_with "npub1" npub then key_from_bech32 npub
  else if (str_len npub =? 64) && str_all is_lower_hex npub then Some npub
  else None.
Definition repo_path (cfg : GitConfig) (npub repo_name : string) : option string :=
  if bool_decide (repo_name = "") || (30 <? str_len repo_name) || negb (str_all repo_char repo_name) then None
  else match owner_key npub with
       | Some owner => Some (cfg_repos_path cfg +:+ "/" +:+ owner +:+ "/" +:+ repo_name +:+ ".git")
       | None => None
       end.

(** [path.join("HEAD").exists()], [Nip34State::repo_exists]. *)
Definition head_at (s : GitState) (path : string) : bool :=
  match g_repos s !! path with Some r => has_head r | None => false end.
Definition repo_exists (cfg : GitConfig) (npub repo_name : string) (s : GitState) : bool :=
  match repo_path cfg npub repo_name with Some path => head_at s path | None => false end.

(** [ensure_repo]. *)
Definition ensure_repo (cfg : GitConfig) (npub repo_name : string) (s : GitState) : option string :=
  match repo_path cfg npub repo_name with
  | Some path => if head_at s path then Some path else None
  | None => None
  end.

(** [Nip34State::create_bare_repo]. *)
Definition create_bare_repo (cfg : GitConfig) (npub repo_name : string) (i : InitRun) : MR GitState string string :=
  match repo_path cfg npub repo_name with
  | None => early ("invalid repo name: " +:+ repo_name)
  | Some path =>
      let! s := gets (fun s => s) in
      if head_at s path then ret path
      else match init_mkdir i with
           | Some e => early ("create repo dir: " +:+ e)
           | None =>
               match init_status i with
               | Err e => early ("git init: " +:+ e)
               | Ok success =>
                   modify (fun s => set_repos (partial_alter (fun old => match init_repo i with Some r => Some r | None => old end)
                                                 path (g_repos s)) s) ;!
                   if negb success then early "git init --bare failed"
                   else match init_describe i with
                        | Some e => early ("write description: " +:+ e)
                        | None => ret path
                        end
               end
           end
  end.

(** [GitCommand::build_command]: the arguments; the environment is a constant. *)
Definition build_command (service : string) : list string :=
  ["-c"; "uploadpack.allowTipSHA1InWant=true"; "-c"; "uploadpack.allowReachableSHA1InWant=true"; service].

(** A git process in the repository at [path]. *)
Definition run_git (env : GitEnv) (path : string) (args : list string) (input : option (list byte))
    : MR GitState GitResponse (result (bool * list byte * list byte) string) :=
  fun s =>
    match g_repos s !! path with
    | Some r => let '(r, p) := ge_git env args input r in
                (set_repos (<[path := r]> (g_repos s)) s, Ok (run_bounded input p))
    | None => (s, Ok (Err "failed to spawn git"))
    end.

(** [GitCommand::refs], [run_stateless_rpc] of [upload_pack] and [receive_pack]. *)
Definition git_refs (env : GitEnv) (path service : string) : MR GitState GitResponse (result (list byte) string) :=
  let command := if decide (service = "git-upload-pack") then Some "upload-pack"
                 else if decide (service = "git-receive-pack") then Some "receive-pack" else None in
  match command with
  | None => ret (Err "unsupported git service")
  | Some command =>
      let! r := run_git env path (build_command command ++ ["--advertise-refs"; "."])%list None in
      ret match r with
          | Ok (true, stdout, _) => Ok stdout
          | Ok (false, _, _) => Err "git advertise-refs failed"
          | Err e => Err e
          end
  end.
Definition stateless_rpc (env : GitEnv) (path service : string) (body : list byte)
    : MR GitState GitResponse (result (list byte) string) :=
  let! r := run_git env path (build_command service ++ ["--stateless-rpc"; "."])%list (Some body) in
  ret match r with
      | Ok (true, stdout, _) => Ok stdout
      | Ok (false, _, _) => Err "git command failed"
      | Err e => Err e
      end.

(** ** Authorization of a push *)

(** The closure [unique] of [verify_push_auth_claims]. *)
Definition unique_value (tags : list (list string)) (name : string) : option string :=
  match List.filter (fun tag => bool_decide (head tag = Some name)) tags with
  | [[_; value]] => Some value
  | _ => None
  end.

(** [VerifiedPushAuth]. *)
Record VerifiedPushAuth := mkVerified { pa_pubkey : string; pa_event_id : string; pa_now : Z }.

(** The event in the header. *)
Definition push_event (headers : HeaderMap) : result NostrEvent string :=
  let? auth_value := ok_or (header_str headers "authorization") "push requires Authorization header" in
  let? b64 := ok_or (strip_prefix "Nostr " auth_value) "authorization must use 'Nostr <base64>' format" in
  let? json_bytes := ok_or (match b64_url_decode b64 with Some b => Some b | None => b64_std_decode b64 end)
                       "invalid base64 in authorization" in
  ok_or (event_of_json json_bytes) "invalid Nostr event in authorization".

(** The tests on a verified event. *)
Definition push_claims (now : Z) (event : NostrEvent) (repo_name expected_url method : string) (body_hash : option string)
    : result unit string :=
  let unique := unique_value (ev_tags event) in
  if negb (bool_decide (ev_kind event = 24242)) || bool_decide (ev_created_at event > sat_add now 30)
     || bool_decide (sat_sub now (ev_created_at event) > 60)
  then Err "push authorization is stale, future-dated, or wrong kind"
  else if negb (bool_decide (unique "t" = Some "git-push")) || negb (bool_decide (unique "repo" = Some repo_name))
          || negb (match unique "method" with Some v => eq_ignore_ascii_case v method | None => false end)
  then Err "push authorization is not bound to this operation"
  else
    let? url := ok_or (unique "u") "push authorization missing URL" in
    if negb (is_url url) then Err "push authorization URL is invalid"
    else if negb (bool_decide (url = expected_url)) then Err "push authorization is for a different repository or server"
    else
      let? expiration := ok_or (match unique "expiration" with Some v => parse_u64 v | None => None end)
                           "push authorization missing expiration" in
      if bool_decide (expiration < now) || bool_decide (expiration > sat_add (ev_created_at event) 120)
      then Err "push authorization expired"
      else if match body_hash with Some hash => negb (bool_decide (unique "x" = Some hash)) | None => false end
      then Err "push authorization is for a different request body"
      else if negb (match unique "nonce" with Some nonce => negb (bool_decide (nonce = "")) | None => false end)
      then Err "push authorization is missing a nonce"
      else Ok tt.

(** [verify_push_auth_claims]. *)
Definition verify_push_auth_claims (now : Z) (headers : HeaderMap) (expected_npub repo_name expected_url method : string)
    (body_hash : option string) : result VerifiedPushAuth string :=
  let? event := push_event headers in
  if negb (event_verify event) then Err "invalid event signature"
  else
    let? expected_pubkey :=
      (if starts_with "npub1" expected_npub then ok_or (key_from_bech32 expected_npub) "invalid npub in URL"
       else Ok expected_npub) in
    if negb (bool_decide (ev_pubkey event = expected_pubkey))
    then Err "authorization pubkey does not match repository owner"
    else
      let? _ := push_claims now event repo_name expected_url method body_hash in
      Ok (mkVerified (ev_pubkey event) (ev_id event) now).

(** [mark_auth_event_once] of this server: its own cache of the same kind. *)
Definition mark_push_once (principal event_id : string) (now : Z) (seen : ReplayCache) : ReplayCache * bool :=
  ReplayCache.check_and_insert seen principal event_id now (sat_add now 120).

(** [verify_push_auth]. *)
Definition verify_push_auth (now : Z) (headers : HeaderMap) (npub repo_name url method : string) (body_hash : option string)
    : MR GitState string string :=
  let! verified := lift (verify_push_auth_claims now headers npub repo_name url method body_hash) in
  fun s =>
    let '(seen, fresh) := mark_push_once (pa_pubkey verified) (pa_event_id verified) (pa_now verified) (g_seen s) in
    (set_git_seen seen s, if fresh : bool then Ok (pa_pubkey verified) else Err "push authorization has already been used").

(** ** Validation against the relay ([validation.rs]) *)

(** [nip34_types::REPO_ANNOUNCEMENT], [REPO_STATE]. *)
Definition REPO_ANNOUNCEMENT : Z := 30617.
Definition REPO_STATE : Z := 30618.

(** [extract_maintainers], [extract_state_refs]. *)
Definition extract_maintainers (event : NostrEvent) : list string :=
  omap tag_content (List.filter is_maintainers_tag (ev_tags event)).
Definition extract_state_refs (event : NostrEvent) : gmap string string :=
  fold_left (fun refs tag =>
    if starts_with "refs/" (tag_kind tag) then
      match tag_content tag with Some oid => <[tag_kind tag := oid]> refs | None => refs end
    else refs) (ev_tags event) ∅.

(** [check_ref_update]. *)
Definition check_ref_update (update : RefUpdate) (state_refs : gmap string string) : result unit string :=
  match state_refs !! refname update, is_delete update, is_create update with
  | Some expected, false, _ =>
      if negb (bool_decide (new_oid update = expected)) then Err "ref update doesn't match repository state" else Ok tt
  | None, false, true => Ok tt
  | None, false, false => Err "ref not found in repository state"
  | Some _, true, _ => Err "cannot delete ref that exists in repository state"
  | None, true, _ => Ok tt
  end.

(** [validate_push]. *)
Definition validate_push (ref_updates : list RefUpdate) (query : RelayFilter → result (list NostrEvent) string)
    (author_hex repo_id : string) : result (gmap string string) (Z * string) :=
  let? author_pubkey := ok_or (key_from_hex author_hex) (400, "invalid author pubkey") in
  match query (mkFilter [author_pubkey] repo_id REPO_ANNOUNCEMENT) with
  | Err _ => Err (500, "database error looking up repo announcement")
  | Ok announcements =>
      let? announcement := ok_or (head announcements) (404, "no repository announcement found — publish kind:30617 first") in
      let maintainers := omap key_from_hex (extract_maintainers announcement) in
      match query (mkFilter (author_pubkey :: maintainers) repo_id REPO_STATE) with
      | Err _ => Err (500, "database error looking up repo state")
      | Ok state_events =>
          let? state_event := ok_or (head state_events) (400, "no repository state found — publish kind:30618 first") in
          let state_refs := extract_state_refs state_event in
          Ok (fold_left (fun errors update =>
                match check_ref_update update state_refs with
                | Err reason => <[refname update := reason]> errors
                | Ok _ => errors
                end) ref_updates ∅)
      end
  end.

(** ** Handlers ([mod.rs]) *)

(** [GIT_BODY_BUFFER_LIMIT.try_acquire], the permit held while [m] runs. *)
Definition with_permit {A} (m : M A) : M A :=
  fun s =>
    if decide (0 < g_permits s) then
      let '(s, r) := m (set_git_permits (g_permits s - 1) s) in (set_git_permits (g_permits s + 1) s, r)
    else (s, Err (503, GText "git body capacity exhausted")).

Definition git_to_bytes (body : Body) : result (list byte) GitResponse :=
  match body_data body with
  | Ok data => if decide (vec_len data <= 256 * 1024 * 1024) then Ok data
               else Err (413, GText "git request body too large")
  | Err _ => Err (413, GText "git request body too large")
  end.

(** [format!("{}{}", server_url.trim_end_matches('/'), original_uri)]. *)
Definition request_url (cfg : GitConfig) (original_uri : string) : string :=
  trim_end_matches "/" (cfg_server_url cfg) +:+ original_uri.

(** [info_refs]. *)
Definition info_refs (cfg : GitConfig) (env : GitEnv) (npub repo original_uri : string) (headers : HeaderMap)
    (params : gmap string string) : M GitResponse :=
  let repo_name := trim_end_matches_str ".git" repo in
  let! s := gets (fun s => s) in
  match ensure_repo cfg npub repo_name s with
  | None => early (404, GText "repository not found")
  | Some path =>
      let service := default "git-upload-pack" (params !! "service") in
      if negb (bool_decide (service ∈ ["git-upload-pack"; "git-receive-pack"]))
      then early (400, GText "unsupported git service")
      else
        (if decide (service = "git-receive-pack") then
           map_err (fun _ => (401, GText "valid push authorization required"))
             (verify_push_auth (ge_verify env) headers npub repo_name (request_url cfg original_uri) "GET" None) ;!
           ret tt
         else ret tt) ;!
        let! r := git_refs env path service in
        match r with
        | Ok body =>
            let pkt_header := "# service=" +:+ service +:+ String "010" "" in
            ret (200, GOutput ("application/x-" +:+ service +:+ "-advertisement")
                   (as_bytes (hex4 (str_len pkt_header + 4) +:+ pkt_header) ++ as_bytes "0000" ++ body)%list)
        | Err e => early (500, GText e)
        end
  end.

(** [upload_pack]. *)
Definition upload_pack (cfg : GitConfig) (env : GitEnv) (npub repo : string) (body : Body) : M GitResponse :=
  let repo_name := trim_end_matches_str ".git" repo in
  let! s := gets (fun s => s) in
  match ensure_repo cfg npub repo_name s with
  | None => early (404, GText "repository not found")
  | Some path =>
      with_permit
        (let! data := lift (git_to_bytes body) in
         let! r := stateless_rpc env path "upload-pack" data in
         match r with
         | Ok output => ret (200, GOutput "application/x-git-upload-pack-result" output)
         | Err e => early (500, GText e)
         end)
  end.

(** [is_empty_repo] of [receive_pack]. *)
Definition is_empty_repo (s : GitState) (path : string) : bool :=
  match g_repos s !! path with
  | Some r => match list_heads r with Some (Ok (_ :: _)) => false | _ => true end
  | None => true
  end.

(** The repository of a push, created when it is not there. *)
Definition push_repo (cfg : GitConfig) (env : GitEnv) (npub repo_name : string) : M string :=
  match repo_path cfg npub repo_name with
  | Some path =>
      let! s := gets (fun s => s) in
      if head_at s path then ret path
      else map_err (fun e => (500, GText e)) (create_bare_repo cfg npub repo_name (ge_init env))
  | None => early (400, GText "invalid repository owner or name")
  end.

(** The GRASP validation of [receive_pack]. *)
Definition push_allowed (env : GitEnv) (npub repo_name path : string) (ref_updates : list RefUpdate) : M unit :=
  let! author_hex :=
    (if starts_with "npub1" npub then lift (ok_or (key_from_bech32 npub) (400, GText "invalid npub")) else ret npub) in
  let! s := gets (fun s => s) in
  if is_empty_repo s path then ret tt
  else match validate_push ref_updates (ge_query env) author_hex repo_name with
       | Ok errors =>
           if decide (errors = ∅) then ret tt
           else early (403, GText (String.concat "; " (map (fun e => e.1 +:+ ": " +:+ e.2) (hm_iter string string errors))))
       | Err (status, msg) => early (status, GText msg)
       end.

(** [receive_pack]. *)
Definition receive_pack (cfg : GitConfig) (env : GitEnv) (npub repo original_uri : string) (headers : HeaderMap)
    (body : Body) : M GitResponse :=
  let repo_name := trim_end_matches_str ".git" repo in
  let expected_url := request_url cfg original_uri in
  match verify_push_auth_claims (ge_claims env) headers npub repo_name expected_url "POST" None with
  | Err error => early (401, GText error)
  | Ok _ =>
      with_permit
        (let! data := lift (git_to_bytes body) in
         map_err (fun error => (401, GText error))
           (verify_push_auth (ge_verify env) headers npub repo_name expected_url "POST" (Some (sha256_hex data))) ;!
         let! path := push_repo cfg env npub repo_name in
         let! ref_updates := lift (match parse_ref_updates data with Ok u => Ok u | Err e => Err (400, GText e) end) in
         push_allowed env npub repo_name path ref_updates ;!
         let! r := stateless_rpc env path "receive-pack" data in
         match r with
         | Ok output => ret (200, GOutput "application/x-git-receive-pack-result" output)
         | Err e => early (500, GText e)
         end)
  end.
End git.
