(* ===== verification/GitSafety.v ===== *)
(** * What changes a repository

    The requests to the git server ([serve_git]), and what a push must present
    before it reaches git. *)

From Stdlib Require Import ZArith Lia Ascii String.
From Stdlib Require Import Strings.Byte.
From stdpp Require Import base list gmap strings numbers sets.
From S2P Require Import Prelude Effects Protocol Auth Replay RequestAuth RateLimit Database Access Storage Locks Lfs Stats Server PktLine Git.

Open Scope string_scope.
Open Scope Z_scope.
Open Scope handler_scope.

Section safety.
Context `{Crates} `{GitHost} `{HashOrder}.
Variable cfg : GitConfig.
Implicit Types s : GitState.

(** The routes of [git_router]. *)
Inductive GitRequest :=
| GInfo (npub repo original_uri : string) (headers : HeaderMap) (params : gmap string string)
| GFetch (npub repo : string) (body : Body)
| GPush (npub repo original_uri : string) (headers : HeaderMap) (body : Body).
Definition serve_git (env : GitEnv) (r : GitRequest) (s : GitState) : GitState * GitResponse :=
  match r with
  | GInfo npub repo uri headers params => respond (info_refs cfg env npub repo uri headers params) s
  | GFetch npub repo body => respond (upload_pack cfg env npub repo body) s
  | GPush npub repo uri headers body => respond (receive_pack cfg env npub repo uri headers body) s
  end.

Definition receive_args : list string := (build_command "receive-pack" ++ ["--stateless-rpc"; "."])%list.
(** Git writes to a repository only when it receives a push. *)
Definition fetch_reads (env : GitEnv) : Prop :=
  ∀ args input r, args ≠ receive_args → (ge_git env args input r).1 = r.
(** The [d] tag of an event names [id]. *)
Definition identified (id : string) (e : NostrEvent) : Prop := ∃ rest, ("d" :: id :: rest) ∈ ev_tags e.
(** The relay database answers with events that match the filter. *)
Definition relay_filters (env : GitEnv) : Prop :=
  ∀ f l, ge_query env f = Ok l →
    Forall (fun e => ev_pubkey e ∈ fl_authors f ∧ identified (fl_identifier f) e ∧ ev_kind e = fl_kind f) l.

(** ** What a push agrees with *)

(** The update makes the ref what the state says it is, or touches a ref the
    state does not name, to create or to delete it. *)
Definition agrees (refs : gmap string string) (u : RefUpdate) : Prop :=
  match refs !! refname u with
  | Some oid => new_oid u = oid ∧ oid ≠ NULL_OID
  | None => old_oid u = NULL_OID ∨ new_oid u = NULL_OID
  end.

Lemma check_ref_update_ok u refs : check_ref_update u refs = Ok tt ↔ agrees refs u.
Proof.
  unfold check_ref_update, agrees, is_delete, is_create.
  destruct (refs !! refname u) as [oid|]; repeat case_bool_decide; naive_solver.
Qed.

Lemma no_errors (refs : gmap string string) updates (errors : gmap string string) :
  fold_left (fun errors u => match check_ref_update u refs with
                             | Err reason => <[refname u := reason]> errors
                             | Ok _ => errors
                             end) updates errors = ∅ →
  errors = ∅ ∧ Forall (agrees refs) updates.
Proof.
  revert errors. induction updates as [|u updates IH]; intros errors; cbn; [done |]. intros E.
  destruct (IH _ E) as [E1 Hall]. destruct (check_ref_update u refs) as [[]|reason] eqn:Eu.
  - split; [done |]. constructor; [by apply check_ref_update_ok | done].
  - by apply insert_non_empty in E1.
Qed.

(** The state the owner published for the repository of that name, or a
    maintainer that the owner's announcement of the repository names. *)
Definition published_state (env : GitEnv) (owner repo_name : string) (state : NostrEvent) : Prop :=
  ∃ author announcement,
    key_from_hex owner = Some author
    ∧ ev_pubkey announcement = author ∧ ev_kind announcement = REPO_ANNOUNCEMENT ∧ identified repo_name announcement
    ∧ ev_kind state = REPO_STATE ∧ identified repo_name state
    ∧ (ev_pubkey state = author ∨ ∃ m, m ∈ extract_maintainers announcement ∧ key_from_hex m = Some (ev_pubkey state)).

Lemma validate_push_ok env updates owner repo_name :
  relay_filters env → validate_push updates (ge_query env) owner repo_name = Ok ∅ →
  ∃ state, published_state env owner repo_name state ∧ Forall (agrees (extract_state_refs state)) updates.
Proof.
  intros Hq. unfold validate_push. destruct (key_from_hex owner) as [author|] eqn:Ek; [| done]. cbn -[fold_left].
  destruct (ge_query env _) as [[|announcement l]|] eqn:E1; [done | | done]. cbn -[fold_left]. apply Hq in E1.
  destruct (ge_query env _) as [[|state l2]|] eqn:E2; [done | | done]. cbn -[fold_left]. intros [= E].
  apply no_errors in E as [_ Hall]. exists state. split; [| done]. apply Hq in E2.
  apply list.Forall_cons in E1 as [(Ea & Da & Ka) _], E2 as [(Es & Ds & Ks) _]. cbn in *.
  exists author, announcement. apply list_elem_of_singleton in Ea. repeat split; try done.
  apply elem_of_cons in Es as [Es | Es]; [by left | right].
  apply list_elem_of_omap in Es as (m & Hm & Hk). by exists m.
Qed.

(** ** What a push leaves alone *)

(** Everything but the repository at [path]. *)
Definition besides (path : string) (s : GitState) := (g_seen s, delete path (g_repos s)).

Lemma delete_altered (g : option Repo → option Repo) path (m : gmap string Repo) :
  delete path (partial_alter g path m) = delete path m.
Proof.
  apply map_eq. intros i. destruct (decide (i = path)) as [-> | Hi]; [by rewrite !lookup_delete_eq |].
  by rewrite !lookup_delete_ne, lookup_partial_alter_ne by done.
Qed.

Lemma keeps_respond {R X} (f : GitState → X) (m : MR GitState R R) s : keeps f m → f (respond m s).1 = f s.
Proof. intros Hm. specialize (Hm s). unfold respond. by destruct (m s). Qed.
Lemma keeps_with_permit {A X} (f : GitState → X) (m : MR GitState GitResponse A) :
  (∀ n s, f (set_git_permits n s) = f s) → keeps f m → keeps f (with_permit m).
Proof.
  intros Hf Hm s. unfold with_permit. case_decide; [| done].
  specialize (Hm (set_git_permits (g_permits s - 1) s)). destruct (m _). cbn in *. by rewrite Hf, Hm, Hf.
Qed.

Lemma keeps_besides_run env path args input : keeps (besides path) (run_git env path args input).
Proof.
  intros s. unfold run_git, besides. destruct (g_repos s !! path) as [r|]; [| done].
  destruct (ge_git env args input r). cbn. by rewrite delete_insert_eq.
Qed.
Lemma keeps_besides_rpc env path service data : keeps (besides path) (stateless_rpc env path service data).
Proof. unfold stateless_rpc. apply keeps_bind; [apply keeps_besides_run | done]. Qed.

Lemma keeps_besides_repo env npub repo_name path :
  repo_path cfg npub repo_name = Some path → keeps (besides path) (push_repo cfg env npub repo_name).
Proof.
  intros Hp s. unfold push_repo, create_bare_repo. rewrite Hp. unfold bind at 1, gets. destruct (head_at s path) eqn:Eh; [done |].
  unfold map_err, bind, gets, modify. rewrite Eh. destruct (init_mkdir _); [done |]. destruct (init_status _) as [[]|]; [| | done].
  - destruct (init_describe _); unfold besides; cbn; by rewrite delete_altered.
  - unfold besides. cbn. by rewrite delete_altered.
Qed.

Lemma keeps_allowed {X} (f : GitState → X) env npub repo_name path updates :
  keeps f (push_allowed env npub repo_name path updates).
Proof.
  unfold push_allowed. apply keeps_bind; [by destruct (starts_with _ _) | intros author].
  apply keeps_bind; [done | intros s0]. destruct (is_empty_repo _ _); [done |].
  destruct (validate_push _ _ _ _) as [errors|[status msg]]; [| done]. by case_decide.
Qed.

(** ** Reading *)

Lemma run_reads env path args input s :
  fetch_reads env → args ≠ receive_args → g_repos (run_git env path args input s).1 = g_repos s.
Proof.
  intros Hr Ha. unfold run_git. destruct (g_repos s !! path) as [r|] eqn:Er; [| done].
  specialize (Hr args input r Ha). destruct (ge_git env args input r) as [r' p]. cbn in *. subst r'. by apply insert_id.
Qed.

Lemma keeps_verify_push now headers npub repo_name url method hash :
  keeps g_repos (verify_push_auth now headers npub repo_name url method hash).
Proof.
  unfold verify_push_auth. apply keeps_bind; [done |]. intros v s. by destruct (mark_push_once _ _ _ _).
Qed.

Lemma reads_info env npub repo uri headers params s :
  fetch_reads env → g_repos (respond (info_refs cfg env npub repo uri headers params) s).1 = g_repos s.
Proof.
  intros Hr. apply keeps_respond. unfold info_refs. apply keeps_bind; [done | intros s0].
  destruct (ensure_repo _ _ _ _) as [path|]; [| done]. 
  destruct (negb _); [done |]. apply keeps_bind.
  - destruct (decide _); [| done]. apply keeps_bind; [| done]. apply keeps_map_err, keeps_verify_push.
  - intros _. apply keeps_bind; [| intros []; done]. unfold git_refs. destruct (if decide _ then _ else _) as [command|] eqn:Ec; [| done].
    apply keeps_bind; [| done]. intros s1. apply run_reads; [done |]. by intros [= _ ?].
Qed.

Lemma reads_fetch env npub repo body s :
  fetch_reads env → g_repos (respond (upload_pack cfg env npub repo body) s).1 = g_repos s.
Proof.
  intros Hr. apply keeps_respond. unfold upload_pack. apply keeps_bind; [done | intros s0].
  destruct (ensure_repo _ _ _ _) as [path|]; [| done]. apply keeps_with_permit; [done |].
  apply keeps_bind; [done | intros data]. apply keeps_bind; [| intros []; done].
  unfold stateless_rpc. apply keeps_bind; [| done]. intros s1. by apply run_reads.
Qed.

(** ** Pushing *)

Lemma repo_path_owner npub repo_name path : repo_path cfg npub repo_name = Some path → is_Some (owner_key npub).
Proof. unfold repo_path. destruct (_ || _); [done |]. by destruct (owner_key npub). Qed.

(** The author a request names by its key or its npub. *)
Lemma owner_key_author npub owner (e1 e2 : string) :
  owner_key npub = Some owner →
  (if starts_with "npub1" npub then ok_or (key_from_bech32 npub) e1 else Ok npub) = Ok owner.
Proof. unfold owner_key. case_match; [by intros -> |]. destruct (_ && _); [by intros [= ->] | done]. Qed.

Lemma push_repo_path env npub repo_name path s s' p :
  repo_path cfg npub repo_name = Some path → push_repo cfg env npub repo_name s = (s', Ok p) → p = path.
Proof.
  intros Hp. unfold push_repo, create_bare_repo, map_err, bind, gets, modify. rewrite Hp. destruct (head_at s path) eqn:Eh.
  - by intros [= _ ->].
  - rewrite Eh. destruct (init_mkdir _); [done |]. destruct (init_status _) as [[]|]; [| done..]. destruct (init_describe _); [done |]. by intros [= _ ->].
Qed.

(** What [push_allowed] has found when it lets a push pass. *)
Lemma push_allowed_ok env npub owner repo_name path updates s s' :
  relay_filters env → owner_key npub = Some owner → is_empty_repo s path = false →
  push_allowed env npub repo_name path updates s = (s', Ok tt) →
  ∃ state, published_state env owner repo_name state ∧ Forall (agrees (extract_state_refs state)) updates.
Proof.
  intros Hq Ho He (author & s1 & Ha & Hr)%bind_ok.
  assert (author = owner ∧ s1 = s) as [-> ->].
  { unfold owner_key in Ho. destruct (starts_with "npub1" npub).
    - unfold lift in Ha. rewrite Ho in Ha. by simplify_eq/=.
    - destruct (_ && _); [| done]. unfold ret in Ha. by simplify_eq. }
  unfold bind, gets in Hr. rewrite He in Hr. destruct (validate_push _ _ _ _) as [errors|[]] eqn:Ev; [| done].
  destruct (decide (errors = ∅)) as [-> |]; [| done]. by eapply validate_push_ok.
Qed.

(** The claims of an accepted push. *)
Lemma push_claims_ok now headers npub owner repo_name url hash v :
  owner_key npub = Some owner → verify_push_auth_claims now headers npub repo_name url "POST" hash = Ok v →
  ∃ e, push_event headers = Ok e ∧ event_verify e = true ∧ ev_pubkey e = owner
       ∧ push_claims now e repo_name url "POST" hash = Ok tt ∧ v = mkVerified owner (ev_id e) now.
Proof.
  intros Ho. unfold verify_push_auth_claims. destruct (push_event headers) as [e|]; [| done]. cbn -[push_claims].
  destruct (event_verify e) eqn:Ev; [| done]. cbn -[push_claims]. rewrite (owner_key_author npub owner _ "") by done. cbn -[push_claims].
  case_bool_decide as Hk; [| done]. cbn -[push_claims]. destruct (push_claims _ _ _ _ _ _) as [[]|] eqn:Ec; [| done].
  intros [= <-]. rewrite Hk. by exists e.
Qed.

(** The updates in the body agree with the published state. *)
Definition validated (env : GitEnv) (owner repo_name : string) (data : list byte) : Prop :=
  ∃ updates state, parse_ref_updates data = Ok updates ∧ published_state env owner repo_name state
    ∧ Forall (agrees (extract_state_refs state)) updates.

Definition push_authorized (env : GitEnv) (npub repo uri : string) (headers : HeaderMap) (body : Body) s s' : Prop :=
  let repo_name := trim_end_matches_str ".git" repo in
  ∃ path owner e data,
    repo_path cfg npub repo_name = Some path ∧ owner_key npub = Some owner
    ∧ push_event headers = Ok e ∧ event_verify e = true ∧ ev_pubkey e = owner
    ∧ body_data body = Ok data
    ∧ push_claims (ge_verify env) e repo_name (request_url cfg uri) "POST" (Some (sha256_hex data)) = Ok tt
    ∧ mark_push_once owner (ev_id e) (ge_verify env) (g_seen s) = (g_seen s', true)
    ∧ delete path (g_repos s') = delete path (g_repos s)
    ∧ (head_at s path = true → is_empty_repo s path = false → validated env owner repo_name data).

Lemma unless_with_permit {A X} (f : GitState → X) P (m : MR GitState GitResponse A) s :
  (∀ n s, f (set_git_permits n s) = f s) → (∀ n s, P s → P (set_git_permits n s)) →
  unless f P m (set_git_permits (g_permits s - 1) s) → unless f P (with_permit m) s.
Proof.
  intros Hf Hp Hm s' r. unfold with_permit. destruct (decide _); [| intros [= <- _]; by left].
  destruct (m _) as [s1 x] eqn:E. intros [= <- _]. rewrite Hf. destruct (Hm _ _ E) as [-> | Hs]; [left; apply Hf | right; auto].
Qed.

(** What a push does once it is authenticated: it touches its repository only,
    and one with branches only as the published state says. *)
Definition push_tail (env : GitEnv) (npub repo_name : string) (data : list byte) : MR GitState GitResponse GitResponse :=
  let! path := push_repo cfg env npub repo_name in
  let! ref_updates := lift (match parse_ref_updates data with Ok u => Ok u | Err e => Err (400, GText e) end) in
  push_allowed env npub repo_name path ref_updates ;!
  let! r := stateless_rpc env path "receive-pack" data in
  match r with
  | Ok output => ret (200, GOutput "application/x-git-receive-pack-result" output)
  | Err e => early (500, GText e)
  end.

Lemma keeps_besides_tail env npub repo_name path data s s' r :
  repo_path cfg npub repo_name = Some path → push_tail env npub repo_name data s = (s', r) → besides path s' = besides path s.
Proof.
  intros Hp [(p & s1 & E & Hr) | (e & E & _)]%bind_inv; [| by eapply keeps_run; [by apply keeps_besides_repo |]].
  assert (p = path) as -> by (by eapply push_repo_path).
  transitivity (besides path s1); [| by eapply keeps_run; [by apply keeps_besides_repo |]].
  eapply keeps_run; [| done]. apply keeps_bind; [done | intros u]. apply keeps_bind; [apply keeps_allowed | intros _].
  apply keeps_bind; [apply keeps_besides_rpc | intros []; done].
Qed.

Lemma push_repo_there env npub repo_name path s :
  repo_path cfg npub repo_name = Some path → head_at s path = true → push_repo cfg env npub repo_name s = (s, Ok path).
Proof. intros Hp Hh. unfold push_repo, bind, gets. rewrite Hp, Hh. done. Qed.

Lemma tail_validated env npub owner repo_name path data s :
  relay_filters env → repo_path cfg npub repo_name = Some path → owner_key npub = Some owner →
  head_at s path = true → is_empty_repo s path = false →
  unless g_repos (fun _ => validated env owner repo_name data) (push_tail env npub repo_name data) s.
Proof.
  intros Hq Hp Ho Hh He s' r. unfold push_tail. unfold bind at 1. rewrite (push_repo_there _ _ _ path) by done. revert s' r.
  apply unless_bind; [done |]. intros updates s1 [= <- Eu]. apply unless_bind; [apply keeps_allowed |]. intros [] s2 Ea s' r _. right.
  destruct (push_allowed_ok env npub owner repo_name path updates s s2) as (state & Hs & Hall); [done.. |].
  exists updates, state. split; [| done]. by destruct (parse_ref_updates data); simplify_eq/=.
Qed.

(** The event of an authenticated push is used up, and nothing else changes. *)
Lemma verify_push_ok now headers npub owner repo_name url hash s s' :
  owner_key npub = Some owner →
  (∃ k, map_err (fun error => (401, GText error)) (verify_push_auth now headers npub repo_name url "POST" hash) s = (s', Ok k)) →
  ∃ e, push_event headers = Ok e ∧ event_verify e = true ∧ ev_pubkey e = owner
       ∧ push_claims now e repo_name url "POST" hash = Ok tt
       ∧ mark_push_once owner (ev_id e) now (g_seen s) = (g_seen s', true) ∧ g_repos s' = g_repos s.
Proof.
  intros Ho [k Hv]. unfold map_err, verify_push_auth, bind, lift in Hv.
  destruct (verify_push_auth_claims _ _ _ _ _ _ _) as [v|] eqn:Ec; [| done].
  destruct (push_claims_ok _ _ _ owner _ _ _ _ Ho Ec) as (e & He & Hs & Hk & Hc & ->).
  exists e. do 4 (split; [done |]). cbn in Hv. destruct (mark_push_once _ _ _ _) as [seen []]; [| done].
  by injection Hv as <- _.
Qed.

Lemma git_to_bytes_ok body data : git_to_bytes body = Ok data → body_data body = Ok data.
Proof. unfold git_to_bytes. destruct (body_data body); [| done]. destruct (decide _); [by intros [= ->] | done]. Qed.

Lemma receive_authorized env npub repo uri headers body s :
  relay_filters env →
  unless g_repos (push_authorized env npub repo uri headers body s) (receive_pack cfg env npub repo uri headers body) s.
Proof.
  intros Hq. unfold receive_pack. destruct (verify_push_auth_claims _ _ _ _ _ _ _); [| by apply unless_keeps].
  apply unless_with_permit; [done.. |]. apply unless_bind; [done |]. intros data s1 [= <- Ed].
  apply unless_bind; [apply keeps_map_err, keeps_verify_push |]. intros k s2 Hv.
  set (repo_name := trim_end_matches_str ".git" repo) in *. intros s' r Hr. fold repo_name in Hr.
  change (push_tail env npub repo_name data s2 = (s', r)) in Hr.
  destruct (repo_path cfg npub repo_name) as [path|] eqn:Ep.
  2:{ left. unfold push_tail, push_repo, bind in Hr. rewrite Ep in Hr. by injection Hr as <- _. }
  destruct (repo_path_owner _ _ _ Ep) as [owner Eo].
  destruct (verify_push_ok _ _ _ owner _ _ _ _ _ Eo (ex_intro _ k Hv)) as (e & He & Hs & Hk & Hc & Hm & Es). cbn in Hm, Es.
  assert (body_data body = Ok data) as Eb by (by apply git_to_bytes_ok).
  pose proof (keeps_besides_tail _ _ _ _ _ _ _ _ Ep Hr) as E. injection E as Es' Er. rewrite Es in Er. rewrite <- Es' in Hm.
  enough (g_repos s' = g_repos s2 ∨ (head_at s path = true → is_empty_repo s path = false → validated env owner repo_name data))
    as [Hv' | Hv'].
  { by left. }
  { right. exists path, owner, e, data. do 9 (split; [done |]). exact Hv'. }
  assert (head_at s2 path = head_at s path ∧ is_empty_repo s2 path = is_empty_repo s path) as [<- <-]
    by (unfold head_at, is_empty_repo; by rewrite Es).
  destruct (head_at s2 path) eqn:Eh; [| by right]. destruct (is_empty_repo s2 path) eqn:Ei; [by right |].
  destruct (tail_validated env npub owner repo_name path data s2 Hq Ep Eo Eh Ei _ _ Hr) as [Hv' | Hv']; [by left | by right].
Qed.

End safety.

Module GitExamples.
Import Concrete PktLineExamples.

(** Repositories hold the refs by name; [ge_git] moves [master] on a push. *)
Definition owner : string := "7e7e9c42a91bfef19fa929e5fda1b72e0ebc1a4c1141673e2794234d86addf4e".
Definition on_disk (refs : gmap string string) : option (result (list string) string) :=
  Some (Ok (omap (strip_prefix "refs/heads/") (map fst (map_to_list refs)))).
#[local] Instance host : GitHost := {|
  b64_url_decode s := Some (as_bytes s);
  b64_std_decode s := Some (as_bytes s);
  event_of_json := event_from_json;
  event_verify e := bool_decide (ev_sig e = "signed");
  key_from_bech32 := strip_prefix "npub1";
  key_from_hex := Some;
  is_maintainers_tag tag := bool_decide (head tag = Some "maintainers");
  tag_kind tag := default "" (head tag);
  tag_content tag := head (tail tag);
  is_url := starts_with "https://";
  Repo := gmap string string;
  has_head _ := true;
  list_heads := on_disk
|}.

Definition cfg : GitConfig := mkGitConfig "https://git.example/" "/srv/repos".
Definition path : string := "/srv/repos/" +:+ owner +:+ "/app.git".
Definition announced : NostrEvent := mkEvent "a1" owner 90 30617 [["d"; "app"]] "" "signed".
Definition stated (oid : string) : NostrEvent :=
  mkEvent "a2" owner 91 30618 [["d"; "app"]; ["refs/heads/master"; oid]] "" "signed".
Definition is_identified (id : string) (e : NostrEvent) : bool :=
  existsb (fun tag => match tag with name :: v :: _ => bool_decide (name = "d") && bool_decide (v = id) | _ => false end) (ev_tags e).
Definition answer (l : list NostrEvent) (f : RelayFilter) : result (list NostrEvent) string :=
  Ok (filter (fun e => ev_pubkey e ∈ fl_authors f ∧ is_identified (fl_identifier f) e = true ∧ ev_kind e = fl_kind f) l).
Definition git_run (args : list string) (input : option (list byte)) (r : gmap string string) : gmap string string * ProcessRun :=
  (if decide (args = receive_args) then <["refs/heads/master" := oid_b]> r else r,
   mkRun true true true (Some true) (Some []) (Some [])).
Definition env (l : list NostrEvent) : GitEnv :=
  mkGitEnv 100 101 (answer l) (mkInit None (Ok true) None None) git_run.

Lemma git_run_reads l : fetch_reads (env l).
Proof. intros args input r Ha. cbn. by rewrite decide_False. Qed.
Lemma answer_filters l : relay_filters (env l).
Proof.
  intros f r [= <-]. apply list.Forall_forall. intros e [(Ha & Hi & Hk) _]%list_elem_of_filter. split; [done |]. split; [| done].
  unfold is_identified in Hi. apply existsb_exists in Hi as ([|n [|v rest]] & Hin & Ht); [done.. |].
  apply andb_true_iff in Ht as [->%bool_decide_eq_true ->%bool_decide_eq_true]. exists rest. by apply list_elem_of_In.
Qed.

Definition data : list byte := push_body [LUpdate true master] (as_bytes "PACK").
Definition push_auth : NostrEvent :=
  mkEvent "e1" owner 100 24242
    [["t"; "git-push"]; ["repo"; "app"]; ["method"; "POST"]; ["u"; "https://git.example/x/app.git/git-receive-pack"];
     ["expiration"; "150"]; ["nonce"; "n1"]; ["x"; sha256_hex data]] "" "signed".
Definition headers : HeaderMap := {[ "authorization" := Some ("Nostr " +:+ event_to_json push_auth) ]}.
Definition push : GitRequest := GPush owner "app.git" "/x/app.git/git-receive-pack" headers (mkBody (Ok data) None).
Definition before (refs : gmap string string) : GitState := mkGit {[ path := refs ]} (ReplayCache.new 10 10) 1.
Definition loose : gmap string string := {[ "refs/heads/master" := oid_a ]}.

Lemma push_lands : g_repos (serve_git cfg (env [announced; stated oid_b]) push (before loose)).1 !! path
  = Some {[ "refs/heads/master" := oid_b ]}.
Proof. vm_compute. reflexivity. Qed.


(** A push that the published state does not name is refused ... *)
Example push_unstated_refused :
  (serve_git cfg (env [announced; stated oid_a]) push (before loose)).2
  = (403, GText "refs/heads/master: ref update doesn't match repository state").
Proof. vm_compute. reflexivity. Qed.
(** ... and taken where git has packed the refs away: [refs/heads] is empty then,
    though the repository is not. *)
Definition packed : gmap string string := {[ "packed-refs" := "refs/heads/master " +:+ oid_a ]}.
Example push_unstated_into_packed :
  ∃ body, (serve_git cfg (env [announced; stated oid_a]) push (before packed)).2 = (200, body).
Proof. vm_compute. by eexists. Qed.
End GitExamples.
