(* ===== verification/Relay.v ===== *)
(** * The policy of the relay ([src/blossom-nip34/src/relay/])

    Who may publish to the relay ([policies.rs]), the persistence of that policy
    ([policy_db.rs]), the administration of it over HTTP ([admin.rs]) and the
    checks on announcements ([plugins.rs]).  The relay itself, LMDB and the SQL
    engine are third party. *)

From Stdlib Require Import ZArith Lia Ascii String.
From Stdlib Require Import Strings.Byte.
From stdpp Require Import base list gmap strings numbers sets.
From S2P Require Import Prelude Effects Protocol Auth Replay RequestAuth RateLimit Database Access Storage Locks Lfs Stats Server PktLine Git.

Open Scope string_scope.
Open Scope Z_scope.
Open Scope handler_scope.

(** Third-party code: the size of an event as JSON, [Kind] as text, the kinds of
    tags, and axum's extraction of a [PubkeyRequest] (or the status it answers). *)
Class RelayHost : Type := {
  event_json_len : NostrEvent → Z;
  kind_to_string : Z → string;
  is_d_tag : list string → bool;
  is_custom_tag : string → list string → bool;
  pubkey_request : HeaderMap → list byte → result string Z
}.

(** The items of a [HashSet] in its order. *)
Definition hs_iter `{HashOrder} `{Countable K} (X : gset K) : list K := hm_keys (gset_to_gmap () X).

(** ** Publishing ([policies.rs]) *)

Inductive PolicyResult := Accept | Reject (reason : string).

(** [RelayPolicy]; an address maps to a minute and the events counted in it. *)
Record RelayPolicy := mkPolicy {
  rp_admins : gset string;
  rp_blacklist : gset string;
  rp_whitelist : gset string;
  rp_max_event_size : Z;
  rp_allowed_kinds : gset Z;
  rp_disallowed_kinds : gset Z;
  rp_event_rate_per_min : Z;
  rp_event_rates : gmap string (Z * Z)
}.

(** [new], [with_config]. *)
Definition rp_new : RelayPolicy := mkPolicy ∅ ∅ ∅ 0 ∅ ∅ 120 ∅.
Definition with_config (admins : list string) (max_event_size event_rate_per_min : Z) : RelayPolicy :=
  mkPolicy (list_to_set admins) ∅ ∅ max_event_size ∅ ∅ event_rate_per_min ∅.

Definition set_admins (f : gset string → gset string) (p : RelayPolicy) : RelayPolicy :=
  mkPolicy (f (rp_admins p)) (rp_blacklist p) (rp_whitelist p) (rp_max_event_size p) (rp_allowed_kinds p)
    (rp_disallowed_kinds p) (rp_event_rate_per_min p) (rp_event_rates p).
Definition set_blacklist (f : gset string → gset string) (p : RelayPolicy) : RelayPolicy :=
  mkPolicy (rp_admins p) (f (rp_blacklist p)) (rp_whitelist p) (rp_max_event_size p) (rp_allowed_kinds p)
    (rp_disallowed_kinds p) (rp_event_rate_per_min p) (rp_event_rates p).
Definition set_whitelist (f : gset string → gset string) (p : RelayPolicy) : RelayPolicy :=
  mkPolicy (rp_admins p) (rp_blacklist p) (f (rp_whitelist p)) (rp_max_event_size p) (rp_allowed_kinds p)
    (rp_disallowed_kinds p) (rp_event_rate_per_min p) (rp_event_rates p).
Definition set_allowed (f : gset Z → gset Z) (p : RelayPolicy) : RelayPolicy :=
  mkPolicy (rp_admins p) (rp_blacklist p) (rp_whitelist p) (rp_max_event_size p) (f (rp_allowed_kinds p))
    (rp_disallowed_kinds p) (rp_event_rate_per_min p) (rp_event_rates p).
Definition set_disallowed (f : gset Z → gset Z) (p : RelayPolicy) : RelayPolicy :=
  mkPolicy (rp_admins p) (rp_blacklist p) (rp_whitelist p) (rp_max_event_size p) (rp_allowed_kinds p)
    (f (rp_disallowed_kinds p)) (rp_event_rate_per_min p) (rp_event_rates p).
Definition set_rates (r : gmap string (Z * Z)) (p : RelayPolicy) : RelayPolicy :=
  mkPolicy (rp_admins p) (rp_blacklist p) (rp_whitelist p) (rp_max_event_size p) (rp_allowed_kinds p)
    (rp_disallowed_kinds p) (rp_event_rate_per_min p) r.

(** [add_admin], [add_blacklist], [remove_blacklist], [add_whitelist],
    [remove_whitelist], [set_allowed_kinds], [add_allowed_kind],
    [add_disallowed_kind]. *)
Definition add_admin (k : string) : RelayPolicy → RelayPolicy := set_admins (fun X => {[k]} ∪ X).
Definition add_blacklist (k : string) : RelayPolicy → RelayPolicy := set_blacklist (fun X => {[k]} ∪ X).
Definition remove_blacklist (k : string) : RelayPolicy → RelayPolicy := set_blacklist (fun X => X ∖ {[k]}).
Definition add_whitelist (k : string) : RelayPolicy → RelayPolicy := set_whitelist (fun X => {[k]} ∪ X).
Definition remove_whitelist (k : string) : RelayPolicy → RelayPolicy := set_whitelist (fun X => X ∖ {[k]}).
Definition set_allowed_kinds (l : list Z) : RelayPolicy → RelayPolicy := set_allowed (fun _ => list_to_set l).
Definition add_allowed_kind (n : Z) : RelayPolicy → RelayPolicy := set_allowed (fun X => {[n]} ∪ X).
Definition add_disallowed_kind (n : Z) : RelayPolicy → RelayPolicy := set_disallowed (fun X => {[n]} ∪ X).

(** The rate limit of [check_event]: the counters, and whether the event passes. *)
Definition check_rate (limit minute : Z) (ip : string) (rates : gmap string (Z * Z)) : gmap string (Z * Z) * bool :=
  let rates := if decide (10000 <= Z.of_nat (size rates)) then filter (fun e => e.2.1 = minute) rates else rates in
  let entry := default (minute, 0) (rates !! ip) in
  let entry := if decide (entry.1 = minute) then entry else (minute, 0) in
  if decide (limit <= entry.2) then (<[ip := entry]> rates, false)
  else (<[ip := (entry.1, entry.2 + 1)]> rates, true).

Section policy.
Context `{RelayHost}.

(** The rest of [check_event]. *)
Definition check_policy (event : NostrEvent) (p : RelayPolicy) : PolicyResult :=
  let pubkey_hex := ev_pubkey event in
  if decide (pubkey_hex ∈ rp_admins p) then Accept
  else if decide (pubkey_hex ∈ rp_blacklist p) then Reject "pubkey is blacklisted"
  else if decide (rp_whitelist p ≠ ∅ ∧ pubkey_hex ∉ rp_whitelist p) then Reject "pubkey not in whitelist"
  else if decide (0 < rp_max_event_size p ∧ rp_max_event_size p < event_json_len event) then
    Reject ("event too large: " +:+ u64_to_string (event_json_len event) +:+ " bytes (max "
            +:+ u64_to_string (rp_max_event_size p) +:+ ")")
  else if decide (ev_kind event ∈ rp_disallowed_kinds p) then
    Reject ("event kind " +:+ kind_to_string (ev_kind event) +:+ " is not allowed")
  else if decide (rp_allowed_kinds p ≠ ∅ ∧ ev_kind event ∉ rp_allowed_kinds p) then
    Reject ("event kind " +:+ kind_to_string (ev_kind event) +:+ " is not in allowed list")
  else Accept.

(** [check_event], which is [admit_event]; [admit_query]. *)
Definition check_event (now : Z) (event : NostrEvent) (ip : string) (p : RelayPolicy) : RelayPolicy * PolicyResult :=
  if decide (0 < rp_event_rate_per_min p) then
    let '(rates, pass) := check_rate (rp_event_rate_per_min p) (now / 60) ip (rp_event_rates p) in
    if pass : bool then (set_rates rates p, check_policy event p)
    else (set_rates rates p, Reject "event rate limit exceeded")
  else (p, check_policy event p).
Definition admit_query (_ : RelayFilter) (_ : string) (_ : RelayPolicy) : PolicyResult := Accept.
End policy.

(** ** Persistence ([policy_db.rs]) *)

(** The rows of [relay_policy], as [PolicyDb::Memory] keeps them. *)
Definition PolicyDb : Type := list (string * string).

(** [add], [remove]. *)
Definition db_add (category value : string) (d : PolicyDb) : PolicyDb :=
  if decide ((category, value) ∈ d) then d else (d ++ [(category, value)])%list.
Definition db_remove (category value : string) (d : PolicyDb) : PolicyDb :=
  List.filter (fun '(c, v) => negb (bool_decide (c = category)) || negb (bool_decide (v = value))) d.

(** The loop of [load_into]. *)
Definition load_row (p : RelayPolicy) (row : string * string) : RelayPolicy :=
  let '(category, value) := row in
  if decide (category = "admin") then add_admin value p
  else if decide (category = "whitelist") then add_whitelist value p
  else if decide (category = "blacklist") then add_blacklist value p
  else if decide (category = "allowed_kind") then
    match from_str_radix 10 u16_max value with Some k => add_allowed_kind k p | None => p end
  else if decide (category = "disallowed_kind") then
    match from_str_radix 10 u16_max value with Some k => add_disallowed_kind k p | None => p end
  else p.
Definition load_into (rows : PolicyDb) (p : RelayPolicy) : RelayPolicy := fold_left load_row rows p.

(** The part of [Nip34Config] the policy is made from, and [Nip34State::new] on it. *)
Record RelayConfig := mkRelayConfig {
  rc_server_url : string;
  rc_max_event_size : Z;
  rc_rate_limit_events_per_min : Z;
  rc_admin_pubkeys : list string;
  rc_whitelist_pubkeys : list string;
  rc_blacklist_pubkeys : list string;
  rc_allowed_kinds : list Z;
  rc_disallowed_kinds : list Z
}.
Definition configured (c : RelayConfig) : RelayPolicy :=
  let p := with_config (rc_admin_pubkeys c) (rc_max_event_size c) (rc_rate_limit_events_per_min c) in
  let p := fold_left (fun p k => add_whitelist k p) (rc_whitelist_pubkeys c) p in
  let p := fold_left (fun p k => add_blacklist k p) (rc_blacklist_pubkeys c) p in
  let p := if decide (rc_allowed_kinds c = []) then p else set_allowed_kinds (rc_allowed_kinds c) p in
  fold_left (fun p n => add_disallowed_kind n p) (rc_disallowed_kinds c) p.
Definition start (c : RelayConfig) (rows : PolicyDb) : RelayPolicy := load_into rows (configured c).

(** ** Announcements ([plugins.rs], [nip34_types.rs]) *)

Definition MAX_REPO_NAME_LEN : Z := 30.
Definition PATCH : Z := 1617.
Definition PULL_REQUEST : Z := 1618.
Definition PULL_REQUEST_UPDATE : Z := 1619.
Definition ISSUE : Z := 1621.
Definition STATUS_OPEN : Z := 1630.
Definition STATUS_APPLIED : Z := 1631.
Definition STATUS_CLOSED : Z := 1632.
Definition STATUS_DRAFT : Z := 1633.
Definition USER_GRASP_LIST : Z := 10317.
Definition STATUS_KINDS : list Z := [STATUS_OPEN; STATUS_APPLIED; STATUS_CLOSED; STATUS_DRAFT].
Definition NIP34_KINDS : list Z :=
  [REPO_ANNOUNCEMENT; REPO_STATE; PATCH; PULL_REQUEST; PULL_REQUEST_UPDATE; ISSUE; STATUS_OPEN; STATUS_APPLIED;
   STATUS_CLOSED; STATUS_DRAFT; USER_GRASP_LIST].
Definition is_nip34_kind (kind : Z) : bool := bool_decide (kind ∈ NIP34_KINDS).
Definition is_status_kind (kind : Z) : bool := bool_decide (kind ∈ STATUS_KINDS).

Section plugins.
Context `{GitHost} `{RelayHost}.

(** The content of the first tag of a kind; [extract_repo_id], [extract_description]. *)
Definition first_content (kind : list string → bool) (event : NostrEvent) : option string :=
  List.find kind (ev_tags event) ≫= tag_content.
Definition extract_repo_id (event : NostrEvent) : option string := first_content is_d_tag event.
Definition extract_description (event : NostrEvent) : option string := first_content (is_custom_tag "description") event.

(** [validate_repo_announcement]. *)
Definition validate_repo_announcement (event : NostrEvent) : result unit string :=
  if negb (bool_decide (ev_kind event = REPO_ANNOUNCEMENT)) then Ok tt
  else
    let? d_value := ok_or (extract_repo_id event) "repository announcement missing 'd' tag" in
    if bool_decide (d_value = "") || (MAX_REPO_NAME_LEN <? str_len d_value) then Err "repository name must be 1-30 characters"
    else if negb (str_all repo_char d_value) then Err "repository name must be alphanumeric, hyphens, or underscores"
    else if negb (existsb (is_custom_tag "clone") (ev_tags event)) then Err "repository announcement missing 'clone' tag"
    else if negb (existsb (is_custom_tag "relays") (ev_tags event)) then Err "repository announcement missing 'relays' tag"
    else Ok tt.

(** [validate_repo_state]. *)
Definition valid_ref_tag (tag : list string) : bool :=
  if starts_with "refs/" (tag_kind tag) then
    match tag_content tag with Some sha => (str_len sha =? 40) && str_all is_ascii_hexdigit sha | None => true end
  else true.
Definition validate_repo_state (event : NostrEvent) : result unit string :=
  if negb (bool_decide (ev_kind event = REPO_STATE)) then Ok tt
  else
    let? _ := ok_or (extract_repo_id event) "repository state missing 'd' tag" in
    if negb (existsb (is_custom_tag "HEAD") (ev_tags event)) then Err "repository state missing 'HEAD' tag"
    else if negb (forallb valid_ref_tag (ev_tags event)) then Err "invalid SHA1 hash in ref tag"
    else Ok tt.

(** [str::contains], [repo_has_domain]. *)
Fixpoint contains (needle s : string) : bool :=
  starts_with needle s || match s with EmptyString => false | String _ s => contains needle s end.
Definition names_domain (name domain : string) (event : NostrEvent) : bool :=
  existsb (fun t => is_custom_tag name t && match tag_content t with Some c => contains domain c | None => false end)
    (ev_tags event).
Definition repo_has_domain (event : NostrEvent) (domain : string) : bool :=
  if negb (bool_decide (ev_kind event = REPO_ANNOUNCEMENT)) then false
  else names_domain "relays" domain event && names_domain "clone" domain event.
End plugins.

(** ** What the policy lets through *)

Section writes.
Context `{RelayHost}.

(** Who may publish what. *)
Definition may_publish (p : RelayPolicy) (event : NostrEvent) : Prop :=
  ev_pubkey event ∈ rp_admins p
  ∨ ev_pubkey event ∉ rp_blacklist p
    ∧ (rp_whitelist p = ∅ ∨ ev_pubkey event ∈ rp_whitelist p)
    ∧ (rp_max_event_size p <= 0 ∨ event_json_len event <= rp_max_event_size p)
    ∧ ev_kind event ∉ rp_disallowed_kinds p
    ∧ (rp_allowed_kinds p = ∅ ∨ ev_kind event ∈ rp_allowed_kinds p).

Lemma open_or `{Countable K} (X : gset K) k : ¬ (X ≠ ∅ ∧ k ∉ X) → X = ∅ ∨ k ∈ X.
Proof. destruct (decide (X = ∅)), (decide (k ∈ X)); tauto. Qed.

Lemma check_policy_accept p event : check_policy event p = Accept ↔ may_publish p event.
Proof.
  unfold check_policy, may_publish. destruct (decide (_ ∈ rp_admins p)) as [Ha|Ha]; [tauto |].
  destruct (decide (_ ∈ rp_blacklist p)) as [Hb|Hb]; [by split; [| intros [?|(? & _)]] |].
  destruct (decide (rp_whitelist p ≠ ∅ ∧ _)) as [[Hw1 Hw2]|Hw]; [by split; [| intros [?|(_ & [?|?] & _)]] |].
  destruct (decide (0 < _ ∧ _)) as [Hm|Hm]; [split; [done | intros [?|(_ & _ & ? & _)]; [done | lia]] |].
  destruct (decide (_ ∈ rp_disallowed_kinds p)) as [Hd|Hd]; [by split; [| intros [?|(_ & _ & _ & ? & _)]] |].
  destruct (decide (rp_allowed_kinds p ≠ ∅ ∧ _)) as [[Hk1 Hk2]|Hk]; [by split; [| intros [?|(_ & _ & _ & _ & [?|?])]] |].
  split; [intros _; right | done]. apply open_or in Hw, Hk. repeat split; [done.. | lia | done | done].
Qed.

(** Events as they come: the time, the event and the address of its sender. *)
Definition Publication : Type := Z * NostrEvent * string.
Definition publish (p : RelayPolicy) (r : Publication) : RelayPolicy * PolicyResult := check_event r.1.1 r.1.2 r.2 p.
Fixpoint publish_all (p : RelayPolicy) (rs : list Publication) : RelayPolicy * list PolicyResult :=
  match rs with
  | [] => (p, [])
  | r :: rs => let '(p, a) := publish p r in let '(p, l) := publish_all p rs in (p, a :: l)
  end.

(** The events from [ip] in a minute. *)
Definition from_in (ip : string) (minute : Z) (r : Publication) : bool :=
  bool_decide (r.2 = ip) && (r.1.1 / 60 =? minute).
Definition accepted (ip : string) (rs : list Publication) (l : list PolicyResult) : nat :=
  length (List.filter (fun x => bool_decide (x.1.2 = ip) && match x.2 with Accept => true | Reject _ => false end) (combine rs l)).

(** How many events the counters still allow an address in a minute. *)
Definition counted (ip : string) (minute : Z) (p : RelayPolicy) : Z :=
  match rp_event_rates p !! ip with Some (w, c) => if decide (w = minute) then c else 0 | None => 0 end.

Lemma check_rate_spec limit minute ip rates :
  let c i := match rates !! i with Some (w, c) => if decide (w = minute) then c else 0 | None => 0 end in
  let c' i := match (check_rate limit minute ip rates).1 !! i with Some (w, c) => if decide (w = minute) then c else 0 | None => 0 end in
  (check_rate limit minute ip rates).2 = bool_decide (c ip < limit)
  ∧ c' ip = (if decide (c ip < limit) then c ip + 1 else c ip)
  ∧ ∀ i, i ≠ ip → c' i = c i.
Proof.
  intros c c'. subst c c'. cbn beta. unfold check_rate.
  set (kept := if decide (10000 <= Z.of_nat (size rates)) then _ else rates).
  assert (Hk : ∀ i, match kept !! i with Some (w, c) => if decide (w = minute) then c else 0 | None => 0 end
                    = match rates !! i with Some (w, c) => if decide (w = minute) then c else 0 | None => 0 end).
  { intros i. subst kept. case_decide; [| done]. rewrite map_lookup_filter. destruct (rates !! i) as [[w c]|]; cbn; [| done].
    by case_guard as E; cbn in *; try case_decide. }
  assert (He : (if decide ((default (minute, 0) (kept !! ip)).1 = minute) then default (minute, 0) (kept !! ip) else (minute, 0))
               = (minute, match rates !! ip with Some (w, c) => if decide (w = minute) then c else 0 | None => 0 end)).
  { rewrite <- Hk. destruct (kept !! ip) as [[w c]|]; cbn; repeat case_decide; by subst. }
  rewrite He. clear He. set (n := match rates !! ip with Some _ => _ | None => 0 end). cbn [fst snd].
  destruct (decide (limit <= n)) as [Hl|Hl].
  - rewrite (decide_False (P := n < limit)) by lia. rewrite bool_decide_eq_false_2 by lia. cbn [fst snd].
    rewrite lookup_insert_eq. rewrite decide_True by done. repeat split. intros i Hi. by rewrite lookup_insert_ne, Hk by done.
  - rewrite (decide_True (P := n < limit)) by lia. rewrite bool_decide_eq_true_2 by lia. cbn [fst snd].
    rewrite lookup_insert_eq. rewrite decide_True by done. repeat split. intros i Hi. by rewrite lookup_insert_ne, Hk by done.
Qed.

(** An event changes the counters only, and only that of its sender. *)
Lemma publish_step p r ip m :
  rp_event_rate_per_min p <= 0 ∨ r.1.1 / 60 = m →
  let (p', a) := publish p r in
  p' = set_rates (rp_event_rates p') p
  ∧ (a = Accept → may_publish p r.1.2)
  ∧ (0 < rp_event_rate_per_min p →
     (a = Accept ↔ may_publish p r.1.2 ∧ counted r.2 m p < rp_event_rate_per_min p)
     ∧ counted ip m p' = if decide (r.2 = ip ∧ counted ip m p < rp_event_rate_per_min p)
                         then counted ip m p + 1 else counted ip m p).
Proof.
  intros Hm. unfold publish, check_event. destruct (decide (0 < _)) as [Hr|Hr].
  2: { split; [by destruct p |]. split; [apply check_policy_accept | done]. }
  destruct Hm as [Hm | Hm]; [lia |]. rewrite Hm.
  destruct (check_rate_spec (rp_event_rate_per_min p) m r.2 (rp_event_rates p)) as (Hp & Hc & Ho).
  destruct (check_rate _ _ _ _) as [rates pass]. cbn [fst snd] in *. subst pass.
  unfold counted. destruct (bool_decide _) eqn:Eb; (split; [done |]); cbn [rp_event_rates set_rates].
  - apply bool_decide_eq_true in Eb. split; [apply check_policy_accept |]. intros _.
    split; [rewrite check_policy_accept; tauto |]. destruct (decide (r.2 = ip)) as [<- | Hi].
    + rewrite Hc. by rewrite !decide_True.
    + rewrite Ho by done. by rewrite decide_False by tauto.
  - apply bool_decide_eq_false in Eb. split; [done |]. intros _. split; [split; [done | tauto] |].
    destruct (decide (r.2 = ip)) as [<- | Hi].
    + rewrite Hc. by rewrite !decide_False by tauto.
    + rewrite Ho by done. by rewrite decide_False by tauto.
Qed.

(** Publishing.  While events come, the lists of the policy stay as they
    are and an event is accepted only if its author may publish it; within a
    minute, from one address, at most [event_rate_per_min] events are accepted,
    administrators' included, and an event that may be published is refused only
    if that many from its address came in that minute. *)
Theorem relay_writes_policed p rs ip m :
  (∀ r, r ∈ rs → r.1.1 / 60 = m) → 0 < rp_event_rate_per_min p → counted ip m p = 0 →
  let (p', answers) := publish_all p rs in
  p' = set_rates (rp_event_rates p') p
  ∧ Forall2 (fun r a => a = Accept → may_publish p r.1.2) rs answers
  ∧ Z.of_nat (accepted ip rs answers) <= rp_event_rate_per_min p
  ∧ (Z.of_nat (length (List.filter (fun r => bool_decide (r.2 = ip)) rs)) <= rp_event_rate_per_min p →
     Forall2 (fun r a => r.2 = ip → may_publish p r.1.2 → a = Accept) rs answers).
Proof.
  intros Hm Hr He.
  assert (Hgen : ∀ p0, p0 = set_rates (rp_event_rates p0) p → 0 <= counted ip m p0 <= rp_event_rate_per_min p →
    let (p', answers) := publish_all p0 rs in
    p' = set_rates (rp_event_rates p') p
    ∧ Forall2 (fun r a => a = Accept → may_publish p r.1.2) rs answers
    ∧ Z.of_nat (accepted ip rs answers) <= rp_event_rate_per_min p - counted ip m p0
    ∧ (Z.of_nat (length (List.filter (fun r => bool_decide (r.2 = ip)) rs)) <= rp_event_rate_per_min p - counted ip m p0 →
       Forall2 (fun r a => r.2 = ip → may_publish p r.1.2 → a = Accept) rs answers)).
  { clear He. induction rs as [|r rs IH]; intros p0 E0 Hc; cbn [publish_all].
    { split; [done |]. split; [done |]. split; [cbn; lia | done]. }
    pose proof (publish_step p0 r ip m (or_intror (Hm r (list_elem_of_here _ _)))) as Hs.
    assert (Hrate : rp_event_rate_per_min p0 = rp_event_rate_per_min p) by (by rewrite E0).
    assert (Hmay : may_publish p0 r.1.2 ↔ may_publish p r.1.2) by (by rewrite E0).
    destruct (publish p0 r) as [p1 a]. destruct Hs as (E1 & Ha & Hb). destruct (Hb ltac:(lia)) as [Hiff Hcount]. clear Hb.
    assert (E1' : p1 = set_rates (rp_event_rates p1) p) by (rewrite E1 at 1; by rewrite E0).
    specialize (IH (fun r' Hin => Hm r' (list_elem_of_further _ _ _ Hin)) p1 E1').
    destruct (publish_all p1 rs) as [p' answers]. rewrite Hrate in *.
    destruct IH as (Ep & Hall & Hle & Hok); [rewrite Hcount; case_decide; lia |].
    split; [done |]. split; [constructor; [tauto | done] |].
    unfold accepted in *. cbn [combine List.filter fst snd]. rewrite Hcount in Hle, Hok. destruct (decide (r.2 = ip)) as [<- | Hi].
    - rewrite !bool_decide_eq_true_2 by done. cbn [andb length]. split.
      + destruct a; cbn [length]; [rewrite decide_True in Hle by tauto; lia | case_decide; lia].
      + intros Hlen. rewrite decide_True in Hok by (split; [done | lia]).
        constructor; [intros _ Hp; apply Hiff; split; [tauto | lia] | apply Hok; lia].
    - rewrite !bool_decide_eq_false_2 by done. cbn [andb]. rewrite decide_False in Hle, Hok by tauto.
      split; [done |]. intros Hlen. constructor; [done | by apply Hok]. }
  specialize (Hgen p). rewrite He in Hgen. destruct (publish_all p rs) as [p' answers].
  rewrite Z.sub_0_r in Hgen. apply Hgen; [by destruct p | lia].
Qed.
End writes.

Module RelayExamples.
#[local] Instance host : RelayHost := {|
  event_json_len e := 200;
  kind_to_string := u64_to_string;
  is_d_tag tag := bool_decide (head tag = Some "d");
  is_custom_tag name tag := bool_decide (head tag = Some name);
  pubkey_request _ body := Ok (from_utf8_unchecked body)
|}.

Definition by_key (k : string) (kind : Z) : NostrEvent := mkEvent "e" k 600 kind [] "" "".
Definition p0 : RelayPolicy := add_whitelist "alice" (with_config ["root"] 0 2).
Definition rs : list Publication :=
  [((600, by_key "alice" 1), "1.1.1.1"); ((601, by_key "bob" 1), "2.2.2.2"); ((602, by_key "root" 1), "1.1.1.1");
   ((603, by_key "root" 1), "1.1.1.1")].

(** The whitelist of one is open to all once that one is removed. *)
Example last_whitelisted_removed :
  (publish (remove_whitelist "alice" p0) ((601, by_key "bob" 1), "2.2.2.2")).2 = Accept.
Proof. vm_compute. reflexivity. Qed.
End RelayExamples.
