(* ===== verification/RelayAdmin.v ===== *)
(** * Administration of the relay ([src/blossom-nip34/src/relay/admin.rs])

    Every endpoint asks for an event of an administrator of the relay, bound to
    the URL, the method and, for a change, the body; its id is used up in a cache
    of the endpoint's own.  A change is made in the policy in force and then in
    the table; an error of the table is ignored. *)

From Stdlib Require Import ZArith Lia Ascii String.
From Stdlib Require Import Strings.Byte.
From stdpp Require Import base list gmap strings numbers sets.
From S2P Require Import Prelude Effects Protocol Auth Replay RequestAuth RateLimit Database Access Storage Locks Lfs Stats Server PktLine Git Relay.

Open Scope string_scope.
Open Scope Z_scope.
Open Scope handler_scope.

(** ** The replay cache *)

Record AdminCache := mkAdminCache {
  ac_entries : gmap string Z;
  ac_order : list string;
  ac_capacity : Z
}.

Module AdminReplayCache.
(** [ADMIN_REPLAY_CAPACITY], [new]. *)
Definition ADMIN_REPLAY_CAPACITY : Z := 10000.
Definition new (capacity : Z) : AdminCache := mkAdminCache ∅ [] capacity.

(** The first loop of [check_and_insert], over the queue. *)
Fixpoint drop_expired (now : Z) (entries : gmap string Z) (order : list string) : gmap string Z * list string :=
  match order with
  | [] => (entries, [])
  | oldest :: rest =>
      match entries !! oldest with
      | None => drop_expired now entries rest
      | Some expires_at => if decide (expires_at <= now) then drop_expired now (delete oldest entries) rest
                           else (entries, order)
      end
  end.
(** Its second loop. *)
Fixpoint evict (capacity : Z) (entries : gmap string Z) (order : list string) : gmap string Z * list string :=
  if decide (capacity <= Z.of_nat (size entries)) then
    match order with
    | [] => (entries, [])
    | oldest :: rest => evict capacity (delete oldest entries) rest
    end
  else (entries, order).

(** [check_and_insert]. *)
Definition check_and_insert (c : AdminCache) (event_id : string) (now : Z) : AdminCache * bool :=
  let '(entries, order) := drop_expired now (ac_entries c) (ac_order c) in
  match entries !! event_id with
  | Some _ => (mkAdminCache entries order (ac_capacity c), false)
  | None =>
      let '(entries, order) := evict (ac_capacity c) entries order in
      (mkAdminCache (<[event_id := sat_add now 120]> entries) (order ++ [event_id])%list (ac_capacity c), true)
  end.
End AdminReplayCache.

(** ** Authorization *)

Section admin.
Context `{Crates} `{GitHost} `{RelayHost} `{HashOrder}.

Record RelayState := mkRelay { rl_policy : RelayPolicy; rl_db : PolicyDb; rl_seen : AdminCache }.
Definition RelayResponse : Type := Z * option json.
Notation M := (MR RelayState RelayResponse).

Definition set_relay_policy (p : RelayPolicy) (s : RelayState) : RelayState := mkRelay p (rl_db s) (rl_seen s).
Definition set_relay_db (d : PolicyDb) (s : RelayState) : RelayState := mkRelay (rl_policy s) d (rl_seen s).
Definition set_relay_seen (c : AdminCache) (s : RelayState) : RelayState := mkRelay (rl_policy s) (rl_db s) c.

(** A request: the clock at its three readings, whether the table takes a
    change, and what came over HTTP. *)
Record AdminReq := mkAdminReq {
  aq_claims : Z;
  aq_verify : Z;
  aq_mark : Z;
  aq_db_ok : bool;
  aq_method : string;
  aq_path_and_query : string;
  aq_headers : HeaderMap;
  aq_body : Body
}.

(** [decode_auth_event] on the header. *)
Definition decode_auth_event (encoded : string) : option NostrEvent :=
  match match b64_url_decode encoded with Some b => Some b | None => b64_std_decode encoded end with
  | Some bytes => event_of_json bytes
  | None => None
  end.
Definition admin_event (headers : HeaderMap) : option NostrEvent :=
  (header_str headers "authorization" ≫= strip_prefix "Nostr ") ≫= decode_auth_event.

(** [verify_admin_event_claims]. *)
Definition verify_admin_event_claims (now : Z) (event : NostrEvent) (p : RelayPolicy) (expected_url method : string)
    (payload_hash : option string) : bool :=
  let unique := unique_value (ev_tags event) in
  let created_at := ev_created_at event in
  let kind := ev_kind event in
  event_verify event && bool_decide (ev_pubkey event ∈ rp_admins p)
  && negb (bool_decide (sat_add now 30 < created_at) || bool_decide (60 < sat_sub now created_at))
  && match unique "u", unique "method" with
     | Some url, Some tag_method =>
         is_url url && bool_decide (url = expected_url) && eq_ignore_ascii_case tag_method method
     | _, _ => false
     end
  && match payload_hash with
     | Some hash => bool_decide (unique (if decide (kind = 27235) then "payload" else "x") = Some hash)
     | None => true
     end
  && (bool_decide (kind = 27235)
      || bool_decide (kind = 24242) && bool_decide (unique "t" = Some "admin")
         && match unique "expiration" ≫= parse_u64 with
            | Some expiration => bool_decide (now <= expiration) && bool_decide (expiration <= wrap_u64 (created_at + 120))
            | None => false
            end)
  && match unique "nonce" with Some nonce => negb (bool_decide (nonce = "")) | None => false end.

(** [mark_auth_event_once]. *)
Definition mark_admin_event (event_id : string) (now : Z) : MR RelayState RelayResponse bool :=
  fun s => let '(c, fresh) := AdminReplayCache.check_and_insert (rl_seen s) event_id now in
           (set_relay_seen c s, Ok fresh).

Definition is_mutation (method : string) : bool := bool_decide (method ∈ ["POST"; "PUT"; "PATCH"; "DELETE"]).
Definition unauthorized : RelayResponse :=
  (401, Some (error_json "fresh, request-bound relay admin authorization required")).

(** [require_relay_admin] before the handler [next]. *)
Definition require_relay_admin (server_url : string) (q : AdminReq) (next : Body → M RelayResponse) : M RelayResponse :=
  let method := aq_method q in
  let expected_url := trim_end_matches "/" server_url +:+ aq_path_and_query q in
  match admin_event (aq_headers q) with
  | None => early unauthorized
  | Some event =>
      let! p := gets rl_policy in
      guard (verify_admin_event_claims (aq_claims q) event p expected_url method None) unauthorized ;!
      if negb (is_mutation method) then
        let! fresh := mark_admin_event (ev_id event) (aq_mark q) in
        guard fresh (401, None) ;! next (aq_body q)
      else
        let! body := lift (match body_data (aq_body q) with
                           | Ok data => if decide (vec_len data <= 64 * 1024) then Ok data else Err (413, None)
                           | Err _ => Err (413, None)
                           end) in
        let! p := gets rl_policy in
        guard (verify_admin_event_claims (aq_verify q) event p expected_url method (Some (sha256_hex body))) (401, None) ;!
        let! fresh := mark_admin_event (ev_id event) (aq_mark q) in
        guard fresh (401, None) ;! next (mkBody (Ok body) (Some (vec_len body)))
  end.

(** ** Handlers *)

Definition strs (l : list string) : json := JArr (map JStr l).

(** [get_policy]. *)
Definition get_policy : M RelayResponse :=
  let! p := gets rl_policy in
  ret (200, Some (JObj [("admins", strs (hs_iter (rp_admins p))); ("whitelist", strs (hs_iter (rp_whitelist p)));
                        ("blacklist", strs (hs_iter (rp_blacklist p))); ("max_event_size", JNum (rp_max_event_size p));
                        ("allowed_kinds", JArr (map JNum (hs_iter (rp_allowed_kinds p))));
                        ("disallowed_kinds", JArr (map JNum (hs_iter (rp_disallowed_kinds p))))])).

(** [get_whitelist], [get_blacklist], [get_admins]. *)
Definition get_keys (name : string) (keys : RelayPolicy → gset string) : M RelayResponse :=
  let! p := gets rl_policy in ret (200, Some (JObj [(name, strs (hs_iter (keys p)))])).

(** The change of the table, its error dropped. *)
Definition persist (q : AdminReq) (f : PolicyDb → PolicyDb) : M unit :=
  modify (fun s => if aq_db_ok q then set_relay_db (f (rl_db s)) s else s).
(** The change of a list in the policy and in the table. *)
Definition change (q : AdminReq) (body : Body) (f : string → RelayPolicy → RelayPolicy)
    (g : string → PolicyDb → PolicyDb) (verb : string) : M RelayResponse :=
  let! pubkey := lift (match body_data body with
                       | Ok data => match pubkey_request (aq_headers q) data with
                                    | Ok k => Ok k | Err status => Err (status, None) end
                       | Err _ => Err (400, None)
                       end) in
  modify (fun s => set_relay_policy (f pubkey (rl_policy s)) s) ;!
  persist q (g pubkey) ;!
  ret (200, Some (JObj [(verb, JStr pubkey)])).

(** [add_whitelist], [remove_whitelist], [add_blacklist], [remove_blacklist], [add_admin]. *)
Definition put_whitelist (q : AdminReq) (b : Body) : M RelayResponse := change q b add_whitelist (db_add "whitelist") "added".
Definition delete_whitelist (q : AdminReq) (b : Body) : M RelayResponse := change q b remove_whitelist (db_remove "whitelist") "removed".
Definition put_blacklist (q : AdminReq) (b : Body) : M RelayResponse := change q b add_blacklist (db_add "blacklist") "added".
Definition delete_blacklist (q : AdminReq) (b : Body) : M RelayResponse := change q b remove_blacklist (db_remove "blacklist") "removed".
Definition put_admin (q : AdminReq) (b : Body) : M RelayResponse := change q b add_admin (db_add "admin") "added".

(** The routes of [relay_admin_router]; a GET route serves HEAD too. *)
Inductive AdminRoute := RPolicy | RWhitelist | RBlacklist | RAdmins.
Definition is_read (method : string) : bool := bool_decide (method ∈ ["GET"; "HEAD"]).
Definition admin_handler (r : AdminRoute) (q : AdminReq) : option (Body → M RelayResponse) :=
  let m := aq_method q in
  match r with
  | RPolicy => if is_read m then Some (fun _ => get_policy) else None
  | RWhitelist => if is_read m then Some (fun _ => get_keys "whitelist" rp_whitelist)
                  else if decide (m = "PUT") then Some (put_whitelist q)
                  else if decide (m = "DELETE") then Some (delete_whitelist q) else None
  | RBlacklist => if is_read m then Some (fun _ => get_keys "blacklist" rp_blacklist)
                  else if decide (m = "PUT") then Some (put_blacklist q)
                  else if decide (m = "DELETE") then Some (delete_blacklist q) else None
  | RAdmins => if is_read m then Some (fun _ => get_keys "admins" rp_admins)
               else if decide (m = "PUT") then Some (put_admin q) else None
  end.

(** [relay_admin_router]. *)
Definition serve_admin (server_url : string) (r : AdminRoute) (q : AdminReq) (s : RelayState) : RelayState * RelayResponse :=
  match admin_handler r q with
  | Some handler => respond (require_relay_admin server_url q handler) s
  | None => (s, (405, None))
  end.
End admin.
