(* ===== verification/RelaySafety.v ===== *)
(** * The policy of the relay over time

    What changes it, and what is left of the changes when the relay is started
    again. *)

From Stdlib Require Import ZArith Lia Ascii String.
From Stdlib Require Import Strings.Byte.
From stdpp Require Import base list gmap strings numbers sets.
From S2P Require Import Prelude Effects Protocol Auth Replay RequestAuth RateLimit Database Access Storage Locks Lfs Stats Server PktLine Git GitSafety Relay RelayAdmin.

Open Scope string_scope.
Open Scope Z_scope.
Open Scope handler_scope.

(** ** Loading *)

Section loading.
Implicit Types (p : RelayPolicy) (rows : PolicyDb).

(** A list of the policy that the rows of a category extend. *)
Class Loaded {A} `{Countable A} (get : RelayPolicy → gset A) (category : string) (parse : string → option A) : Prop :=
  load_row_spec : ∀ p row k, k ∈ get (load_row p row) ↔ k ∈ get p ∨ row.1 = category ∧ parse row.2 = Some k.

Lemma load_into_spec {A} `{Countable A} (get : RelayPolicy → gset A) category parse `{!Loaded get category parse} rows : ∀ p k,
  k ∈ get (load_into rows p) ↔ k ∈ get p ∨ ∃ v, (category, v) ∈ rows ∧ parse v = Some k.
Proof.
  induction rows as [|[c v] rows IH]; intros p k.
  - cbn. split; [by left | intros [? | (v & Hv & _)]; [done | by apply elem_of_nil in Hv]].
  - change (load_into ((c, v) :: rows) p) with (load_into rows (load_row p (c, v))).
    rewrite IH, load_row_spec. cbn [fst snd]. split.
    + intros [[? | [<- ?]] | (w & Hw & ?)]; [by left | right; exists v; split; [left | done] | right; exists w; split; [by right | done]].
    + intros [? | (w & [[= <- <-] | Hw]%elem_of_cons & ?)]; [by left; left | by left; right | by right; exists w].
Qed.

Ltac load_row :=
  intros p [c v] k; unfold load_row; cbn;
  repeat case_decide; subst; cbn;
  repeat match goal with |- context [match from_str_radix 10 u16_max v with _ => _ end] => destruct (from_str_radix 10 u16_max v) eqn:? end;
  cbn; try (rewrite elem_of_union, elem_of_singleton); naive_solver.

#[export] Instance load_admins : Loaded rp_admins "admin" Some.
Proof. load_row. Qed.
#[export] Instance load_whitelist : Loaded rp_whitelist "whitelist" Some.
Proof. load_row. Qed.
#[export] Instance load_blacklist : Loaded rp_blacklist "blacklist" Some.
Proof. load_row. Qed.
#[export] Instance load_allowed : Loaded rp_allowed_kinds "allowed_kind" (from_str_radix 10 u16_max).
Proof. load_row. Qed.
#[export] Instance load_disallowed : Loaded rp_disallowed_kinds "disallowed_kind" (from_str_radix 10 u16_max).
Proof. load_row. Qed.

Lemma elem_of_db_add c v row rows : row ∈ db_add c v rows ↔ row = (c, v) ∨ row ∈ rows.
Proof.
  unfold db_add. case_decide; [naive_solver |]. rewrite elem_of_app, list_elem_of_singleton. tauto.
Qed.
Lemma elem_of_db_remove c v row rows : row ∈ db_remove c v rows ↔ row ∈ rows ∧ row ≠ (c, v).
Proof.
  unfold db_remove. rewrite !list_elem_of_In, filter_In. destruct row as [c' v'].
  rewrite orb_true_iff, !negb_true_iff, !bool_decide_eq_false. 
  split; intros [? Hn]; (split; [done |]); [intros [= -> ->]; tauto |]. destruct (decide (c' = c)); [right; congruence | by left].
Qed.
End loading.

(** ** Changing *)

Section changing.
Context `{Crates} `{GitHost} `{RelayHost} `{HashOrder}.
Implicit Types s : RelayState.

(** The changes the endpoints make, and which endpoint makes which. *)
Inductive Edit := AddAdmin | AddWhitelist | RemoveWhitelist | AddBlacklist | RemoveBlacklist.
Definition edit_policy (e : Edit) : string → RelayPolicy → RelayPolicy :=
  match e with
  | AddAdmin => add_admin | AddWhitelist => add_whitelist | RemoveWhitelist => remove_whitelist
  | AddBlacklist => add_blacklist | RemoveBlacklist => remove_blacklist
  end.
Definition edit_db (e : Edit) : string → PolicyDb → PolicyDb :=
  match e with
  | AddAdmin => db_add "admin" | AddWhitelist => db_add "whitelist" | RemoveWhitelist => db_remove "whitelist"
  | AddBlacklist => db_add "blacklist" | RemoveBlacklist => db_remove "blacklist"
  end.
Definition edit_of (r : AdminRoute) (method : string) : option Edit :=
  match r with
  | RPolicy => None
  | RWhitelist => if decide (method = "PUT") then Some AddWhitelist
                  else if decide (method = "DELETE") then Some RemoveWhitelist else None
  | RBlacklist => if decide (method = "PUT") then Some AddBlacklist
                  else if decide (method = "DELETE") then Some RemoveBlacklist else None
  | RAdmins => if decide (method = "PUT") then Some AddAdmin else None
  end.

(** What the endpoints change. *)
Definition policy_of s : RelayPolicy * PolicyDb := (rl_policy s, rl_db s).

Lemma admin_handler_cases r q h :
  admin_handler r q = Some h →
  (∀ b, keeps policy_of (h b))
  ∨ ∃ e verb, edit_of r (aq_method q) = Some e ∧ is_mutation (aq_method q) = true
      ∧ h = fun b => change q b (edit_policy e) (edit_db e) verb.
Proof.
  unfold admin_handler, edit_of, is_read.
  destruct r; (destruct (bool_decide (aq_method q ∈ ["GET"; "HEAD"])); [by intros [= <-]; left |]); try done;
    repeat case_decide; intros [= <-]; right; do 2 eexists; (split; [done |]);
    (split; [apply bool_decide_eq_true; set_solver | reflexivity]).
Qed.

(** An authorized change, from [s] to [s']. *)
Definition admin_authorized (server_url : string) (r : AdminRoute) (q : AdminReq) s s' : Prop :=
  ∃ e event data k,
    edit_of r (aq_method q) = Some e
    ∧ admin_event (aq_headers q) = Some event ∧ event_verify event = true ∧ ev_pubkey event ∈ rp_admins (rl_policy s)
    ∧ body_data (aq_body q) = Ok data
    ∧ verify_admin_event_claims (aq_verify q) event (rl_policy s) (trim_end_matches "/" server_url +:+ aq_path_and_query q)
        (aq_method q) (Some (sha256_hex data)) = true
    ∧ AdminReplayCache.check_and_insert (rl_seen s) (ev_id event) (aq_mark q) = (rl_seen s', true)
    ∧ pubkey_request (aq_headers q) data = Ok k
    ∧ rl_policy s' = edit_policy e k (rl_policy s)
    ∧ rl_db s' = (if aq_db_ok q then edit_db e k (rl_db s) else rl_db s).

Lemma keeps_mark id now : keeps policy_of (mark_admin_event id now).
Proof. intros s. unfold mark_admin_event. by destruct (AdminReplayCache.check_and_insert _ _ _). Qed.

Lemma claims_admin now event p url method hash :
  verify_admin_event_claims now event p url method hash = true → event_verify event = true ∧ ev_pubkey event ∈ rp_admins p.
Proof.
  unfold verify_admin_event_claims. destruct (event_verify event); [| done]. cbn [andb].
  case_bool_decide; [done |]. done.
Qed.

Lemma unless_mutation server_url r q e verb s :
  edit_of r (aq_method q) = Some e → is_mutation (aq_method q) = true →
  unless policy_of (admin_authorized server_url r q s)
    (require_relay_admin server_url q (fun b => change q b (edit_policy e) (edit_db e) verb)) s.
Proof.
  intros He Hm. unfold require_relay_admin. destruct (admin_event (aq_headers q)) as [event|] eqn:Eev; [| by apply unless_keeps].
  rewrite Hm. cbn [negb]. apply unless_bind; [done |]. intros p s1 [= <- <-].
  apply unless_guard. intros _. apply unless_bind; [done |]. intros data s1 [= <- Ed].
  apply unless_bind; [done |]. intros p s1 [= <- <-]. apply unless_guard. intros Hc.
  apply unless_bind; [apply keeps_mark |]. intros fresh s1 Ef. apply unless_guard. intros ->.
  unfold mark_admin_event in Ef. destruct (AdminReplayCache.check_and_insert _ _ _) as [c fresh] eqn:Ei. injection Ef as <- ->.
  unfold change. apply unless_bind; [done |]. intros k s1 [= <- Ek]. intros s' resp [= <- _]. right.
  assert (body_data (aq_body q) = Ok data) as Eb
    by (destruct (body_data (aq_body q)); [case_decide; [by injection Ed as -> | done] | done]).
  destruct (claims_admin _ _ _ _ _ _ Hc) as [Hv Ha]. exists e, event, data, k. do 6 (split; [done |]). cbn in Ek.
  destruct (pubkey_request (aq_headers q) data); [injection Ek as -> | done].
  destruct (aq_db_ok q); done.
Qed.

(** A request changes nothing, or is authorized. *)
Lemma serve_admin_changes server_url r q s :
  policy_of (serve_admin server_url r q s).1 = policy_of s
  ∨ admin_authorized server_url r q s (serve_admin server_url r q s).1.
Proof.
  unfold serve_admin. destruct (admin_handler r q) as [h|] eqn:Eh; [| by left]. apply unless_respond.
  destruct (admin_handler_cases _ _ _ Eh) as [Hk | (e & verb & He & Hm & ->)]; [| by apply unless_mutation].
  apply unless_keeps. unfold require_relay_admin. destruct (admin_event _); [| done].
  apply keeps_bind; [done | intros p]. apply keeps_bind; [apply keeps_guard | intros _]. destruct (negb _).
  - apply keeps_bind; [apply keeps_mark | intros fresh]. apply keeps_bind; [apply keeps_guard | done].
  - apply keeps_bind; [done | intros data]. apply keeps_bind; [done | intros p']. apply keeps_bind; [apply keeps_guard | intros _].
    apply keeps_bind; [apply keeps_mark | intros fresh]. apply keeps_bind; [apply keeps_guard | done].
Qed.
(** C14: what changes the policy of the relay.  A request to the administration
    endpoints that changes the policy in force or the table carried a verified
    event of an administrator of the relay, bound to the URL, the method and the
    hash of the body, whose id was not used before; it makes, for the key in the
    body, the one change its endpoint stands for, in the policy and, unless the
    table fails, in the table. *)
Theorem relay_admin_authorized server_url r q s :
  policy_of (serve_admin server_url r q s).1 ≠ policy_of s →
  admin_authorized server_url r q s (serve_admin server_url r q s).1.
Proof. intros Hne. by destruct (serve_admin_changes server_url r q s). Qed.
End changing.

(** ** Starting again *)

Section starting.
Context `{Crates} `{GitHost} `{RelayHost} `{HashOrder}.
Variable c : RelayConfig.

Lemma configured_is :
  configured c = mkPolicy (list_to_set (rc_admin_pubkeys c)) (list_to_set (rc_blacklist_pubkeys c))
    (list_to_set (rc_whitelist_pubkeys c)) (rc_max_event_size c) (list_to_set (rc_allowed_kinds c))
    (list_to_set (rc_disallowed_kinds c)) (rc_rate_limit_events_per_min c) ∅.
Proof.
  assert (Hw : ∀ l p, fold_left (fun p k => add_whitelist k p) l p = set_whitelist (fun X => list_to_set l ∪ X) p).
  { induction l as [|k l IH]; intros p; cbn; [| rewrite IH]; unfold add_whitelist, set_whitelist; destruct p; cbn; f_equal; set_solver. }
  assert (Hb : ∀ l p, fold_left (fun p k => add_blacklist k p) l p = set_blacklist (fun X => list_to_set l ∪ X) p).
  { induction l as [|k l IH]; intros p; cbn; [| rewrite IH]; unfold add_blacklist, set_blacklist; destruct p; cbn; f_equal; set_solver. }
  assert (Hd : ∀ l p, fold_left (fun p k => add_disallowed_kind k p) l p = set_disallowed (fun X => list_to_set l ∪ X) p).
  { induction l as [|k l IH]; intros p; cbn; [| rewrite IH]; unfold add_disallowed_kind, set_disallowed; destruct p; cbn; f_equal; set_solver. }
  unfold configured. rewrite Hw, Hb, Hd. unfold set_disallowed, set_allowed_kinds, set_allowed, set_blacklist, set_whitelist, with_config.
  case_decide as E; [rewrite E |]; cbn; by rewrite !union_empty_r_L.
Qed.

Lemma start_admins rows k : k ∈ rp_admins (start c rows) ↔ k ∈ rc_admin_pubkeys c ∨ ("admin", k) ∈ rows.
Proof.
  unfold start. rewrite (load_into_spec rp_admins "admin" Some), configured_is. cbn. rewrite elem_of_list_to_set. naive_solver.
Qed.
Lemma start_whitelist rows k : k ∈ rp_whitelist (start c rows) ↔ k ∈ rc_whitelist_pubkeys c ∨ ("whitelist", k) ∈ rows.
Proof.
  unfold start. rewrite (load_into_spec rp_whitelist "whitelist" Some), configured_is. cbn. rewrite elem_of_list_to_set. naive_solver.
Qed.
Lemma start_blacklist rows k : k ∈ rp_blacklist (start c rows) ↔ k ∈ rc_blacklist_pubkeys c ∨ ("blacklist", k) ∈ rows.
Proof.
  unfold start. rewrite (load_into_spec rp_blacklist "blacklist" Some), configured_is. cbn. rewrite elem_of_list_to_set. naive_solver.
Qed.

(** Rows of other categories do not matter to the kinds, and no row to the limits. *)
Lemma start_kinds rows rows' :
  (∀ row, row.1 ∉ ["admin"; "whitelist"; "blacklist"] → row ∈ rows ↔ row ∈ rows') →
  rp_allowed_kinds (start c rows) = rp_allowed_kinds (start c rows')
  ∧ rp_disallowed_kinds (start c rows) = rp_disallowed_kinds (start c rows').
Proof.
  intros Hr. split; apply set_eq; intros k; unfold start.
  - rewrite !(load_into_spec rp_allowed_kinds "allowed_kind" (from_str_radix 10 u16_max)). split; (intros [? | (v & Hv & ?)]; [by left | right; exists v; split; [| done]]); by apply Hr; [apply (bool_decide_unpack _); vm_compute |].
  - rewrite !(load_into_spec rp_disallowed_kinds "disallowed_kind" (from_str_radix 10 u16_max)). split; (intros [? | (v & Hv & ?)]; [by left | right; exists v; split; [| done]]); by apply Hr; [apply (bool_decide_unpack _); vm_compute |].
Qed.
Lemma start_limits rows :
  rp_max_event_size (start c rows) = rc_max_event_size c
  ∧ rp_event_rate_per_min (start c rows) = rc_rate_limit_events_per_min c.
Proof.
  unfold start. rewrite configured_is.
  assert (Hgen : ∀ p, rp_max_event_size (load_into rows p) = rp_max_event_size p
                      ∧ rp_event_rate_per_min (load_into rows p) = rp_event_rate_per_min p); [| apply Hgen].
  induction rows as [|[cat v] rows IH]; [done |]. intros p.
  change (load_into ((cat, v) :: rows) p) with (load_into rows (load_row p (cat, v))).
  destruct (IH (load_row p (cat, v))) as [-> ->]. unfold load_row.
  repeat case_decide; try done; by destruct (from_str_radix 10 u16_max v).
Qed.

(** What happens to the relay: administration and events. *)
Inductive RelayStep := SAdmin (r : AdminRoute) (q : AdminReq) | SPublish (x : Publication).
Definition relay_step (s : RelayState) (st : RelayStep) : RelayState :=
  match st with
  | SAdmin r q => (serve_admin (rc_server_url c) r q s).1
  | SPublish x => set_relay_policy (publish (rl_policy s) x).1 s
  end.
Definition table_works (st : RelayStep) : Prop := match st with SAdmin _ q => aq_db_ok q = true | SPublish _ => True end.

(** The policy a restart would load differs from the one in force in configured
    keys that were taken off a list. *)
Definition restartable (s : RelayState) : Prop :=
  let p := rl_policy s in
  let p' := start c (rl_db s) in
  rp_admins p' = rp_admins p
  ∧ rp_whitelist p ⊆ rp_whitelist p' ∧ rp_whitelist p' ⊆ rp_whitelist p ∪ list_to_set (rc_whitelist_pubkeys c)
  ∧ rp_blacklist p ⊆ rp_blacklist p' ∧ rp_blacklist p' ⊆ rp_blacklist p ∪ list_to_set (rc_blacklist_pubkeys c)
  ∧ rp_allowed_kinds p' = rp_allowed_kinds p ∧ rp_disallowed_kinds p' = rp_disallowed_kinds p
  ∧ rp_max_event_size p' = rp_max_event_size p ∧ rp_event_rate_per_min p' = rp_event_rate_per_min p.

Lemma restartable_start rows seen : restartable (mkRelay (start c rows) rows seen).
Proof. unfold restartable. cbn. repeat split; set_solver. Qed.

Lemma restartable_rates s rates seen :
  restartable s → restartable (mkRelay (set_rates rates (rl_policy s)) (rl_db s) seen).
Proof. done. Qed.

(** A change in the policy and the table. *)
Lemma restartable_edit s e k seen :
  restartable s → restartable (mkRelay (edit_policy e k (rl_policy s)) (edit_db e k (rl_db s)) seen).
Proof.
  intros (Ha & Hw1 & Hw2 & Hb1 & Hb2 & Hk1 & Hk2 & Hm & Hr). unfold restartable. cbn [rl_policy rl_db].
  destruct (start_limits (rl_db s)) as [Em Er], (start_limits (edit_db e k (rl_db s))) as [Em' Er'].
  destruct (start_kinds (edit_db e k (rl_db s)) (rl_db s)) as [Ek1 Ek2].
  { intros [cat v] Hcat. cbn in Hcat.
    destruct e; cbn; rewrite ?elem_of_db_add, ?elem_of_db_remove; set_solver. }
  assert (Hl : rp_allowed_kinds (edit_policy e k (rl_policy s)) = rp_allowed_kinds (rl_policy s)
    ∧ rp_disallowed_kinds (edit_policy e k (rl_policy s)) = rp_disallowed_kinds (rl_policy s)
    ∧ rp_max_event_size (edit_policy e k (rl_policy s)) = rp_max_event_size (rl_policy s)
    ∧ rp_event_rate_per_min (edit_policy e k (rl_policy s)) = rp_event_rate_per_min (rl_policy s)) by (by destruct e).
  destruct Hl as (-> & -> & -> & ->). rewrite Em', Er', <- Em, <- Er, Ek1, Ek2.
  assert (Ea : ∀ x, x ∈ rp_admins (rl_policy s) ↔ x ∈ rc_admin_pubkeys c ∨ ("admin", x) ∈ rl_db s).
  { intros x. rewrite <- Ha. apply start_admins. }
  assert (Ew : ∀ x, (x ∈ rp_whitelist (rl_policy s) → x ∈ rc_whitelist_pubkeys c ∨ ("whitelist", x) ∈ rl_db s)
                    ∧ (("whitelist", x) ∈ rl_db s → x ∈ rp_whitelist (rl_policy s) ∨ x ∈ rc_whitelist_pubkeys c)).
  { intros x. specialize (Hw1 x). specialize (Hw2 x). rewrite start_whitelist in Hw1, Hw2.
    rewrite elem_of_union, elem_of_list_to_set in Hw2. tauto. }
  assert (Eb : ∀ x, (x ∈ rp_blacklist (rl_policy s) → x ∈ rc_blacklist_pubkeys c ∨ ("blacklist", x) ∈ rl_db s)
                    ∧ (("blacklist", x) ∈ rl_db s → x ∈ rp_blacklist (rl_policy s) ∨ x ∈ rc_blacklist_pubkeys c)).
  { intros x. specialize (Hb1 x). specialize (Hb2 x). rewrite start_blacklist in Hb1, Hb2.
    rewrite elem_of_union, elem_of_list_to_set in Hb2. tauto. }
  clear Ha Hw1 Hw2 Hb1 Hb2 Em Er Em' Er' Ek1 Ek2.
  repeat (match goal with |- _ ∧ _ => split end); try done; [apply set_eq | ..]; intros x;
    rewrite ?elem_of_union, ?elem_of_list_to_set, ?start_admins, ?start_whitelist, ?start_blacklist;
    specialize (Ea x); specialize (Ew x); specialize (Eb x); destruct e; cbn;
    rewrite ?elem_of_db_add, ?elem_of_db_remove, ?elem_of_union, ?elem_of_difference, ?elem_of_singleton;
    destruct (decide (x = k)) as [-> |]; naive_solver.
Qed.

Lemma restartable_step s st : table_works st → restartable s → restartable (relay_step s st).
Proof.
  destruct st as [r q | x]; cbn [table_works relay_step]; intros Ht Hs.
  - destruct (serve_admin_changes (rc_server_url c) r q s) as [E | (e & event & data & k & _ & _ & _ & _ & _ & _ & _ & _ & Ep & Ed)].
    + unfold policy_of in E. injection E as Ep Ed. unfold restartable. by rewrite Ep, Ed.
    + rewrite Ht in Ed. unfold restartable. rewrite Ep, Ed. by apply (restartable_edit s e k (rl_seen s)).
  - unfold publish, check_event. case_decide; [| by destruct s].
    destruct (check_rate _ _ _ _) as [rates []]; by apply restartable_rates.
Qed.

(** A restart.  However the relay is administered after it was started, as
    long as the table takes the changes, starting it again gives the policy in
    force, but for keys of the configured whitelist and blacklist that were taken
    off and come back. *)
Theorem relay_policy_restartable rows seen steps :
  Forall table_works steps → restartable (fold_left relay_step steps (mkRelay (start c rows) rows seen)).
Proof.
  intros Hall. generalize (restartable_start rows seen). generalize (mkRelay (start c rows) rows seen).
  induction Hall as [|st steps Ht _ IH]; intros s Hs; cbn; [done |]. apply IH. by apply restartable_step.
Qed.
End starting.

Module RelayAdminExamples.
Import Concrete.
#[local] Existing Instance GitExamples.host.
#[local] Existing Instance RelayExamples.host.

Definition url : string := "https://relay.example".
Definition conf : RelayConfig := mkRelayConfig url 0 120 ["root"] [] ["mallory"] [] [].
Definition s0 : RelayState := mkRelay (start conf []) [] (AdminReplayCache.new 10).
Definition signed_by (key method path key_in_body : string) : NostrEvent :=
  mkEvent "ev" key 100 27235
    [["u"; url +:+ path]; ["method"; method]; ["payload"; sha256_hex (as_bytes key_in_body)]; ["nonce"; "n"]] "" "signed".
Definition request (event : NostrEvent) (method path key_in_body : string) : AdminReq :=
  mkAdminReq 101 102 102 true method path {[ "authorization" := Some ("Nostr " +:+ event_to_json event) ]}
    (mkBody (Ok (as_bytes key_in_body)) None).

Definition add_alice : AdminReq :=
  request (signed_by "root" "PUT" "/relay/admin/whitelist" "alice") "PUT" "/relay/admin/whitelist" "alice".
Lemma relay_admin_authorized_witness :
  admin_authorized url RWhitelist add_alice s0 (serve_admin url RWhitelist add_alice s0).1.
Proof.
  apply (relay_admin_authorized url RWhitelist add_alice s0). intros E.
  apply (f_equal snd) in E. vm_compute in E. discriminate E.
Defined.

(** A key of the configured blacklist is taken off, and is back after a restart. *)
Definition forgive : AdminReq :=
  request (signed_by "root" "DELETE" "/relay/admin/blacklist" "mallory") "DELETE" "/relay/admin/blacklist" "mallory".
Example forgiven_until_restart :
  let s := relay_step conf s0 (SAdmin RBlacklist forgive) in
  rp_blacklist (rl_policy s) = ∅ ∧ "mallory" ∈ rp_blacklist (start conf (rl_db s)).
Proof. split; [vm_compute; reflexivity |]. apply (bool_decide_unpack _). vm_compute. reflexivity. Qed.
End RelayAdminExamples.
