(* ===== verification/RelayReplay.v ===== *)
(** * The replay cache of the relay's administration

    [AdminReplayCache] (in [src/blossom-nip34/src/relay/admin.rs]): a map with a
    queue of the same ids, both bounded. *)

From Stdlib Require Import ZArith Lia String.
From stdpp Require Import base list gmap strings numbers sets.
From S2P Require Import Prelude Relay RelayAdmin.

Open Scope string_scope.
Open Scope Z_scope.

(** The queue holds the ids of the map, each once. *)
Definition queued (entries : gmap string Z) (order : list string) : Prop :=
  NoDup order ∧ ∀ i, i ∈ order ↔ is_Some (entries !! i).

Lemma queued_size entries order : queued entries order → size entries = length order.
Proof.
  intros [Hnd Hin]. rewrite <- size_dom, <- (size_list_to_set (C := gset string)) by done. f_equal.
  apply set_eq. intros i. by rewrite elem_of_dom, elem_of_list_to_set, Hin.
Qed.
Lemma queued_pop entries oldest rest : queued entries (oldest :: rest) → queued (delete oldest entries) rest.
Proof.
  intros [[Hni Hnd]%NoDup_cons Hin]. split; [done |]. intros i. specialize (Hin i). rewrite elem_of_cons in Hin.
  destruct (decide (i = oldest)) as [-> | Hi].
  - rewrite lookup_delete_eq. split; [done | by intros [? ?]].
  - rewrite lookup_delete_ne by done. rewrite <- Hin. tauto.
Qed.
Lemma queued_push entries order id t :
  queued entries order → entries !! id = None → queued (<[id := t]> entries) (order ++ [id]).
Proof.
  intros [Hnd Hin] Hid. assert (id ∉ order) as Hni by (rewrite Hin, Hid; by intros [? ?]). split.
  - apply NoDup_app. split; [done |]. split; [intros i Hi ->%list_elem_of_singleton; done | apply NoDup_singleton].
  - intros i. rewrite elem_of_app, list_elem_of_singleton, lookup_insert_is_Some', Hin. split; intros [?|?]; by (left + right).
Qed.

(** Both loops drop a part of the front of the queue, and of the map what they drop. *)
Definition dropped (gone : list string) (entries : gmap string Z) (order : list string) (r : gmap string Z * list string) : Prop :=
  queued r.1 r.2 ∧ order = (gone ++ r.2)%list ∧ ∀ i, i ∈ r.2 → r.1 !! i = entries !! i.

Lemma dropped_pop gone entries oldest rest r :
  queued entries (oldest :: rest) → dropped gone (delete oldest entries) rest r → dropped (oldest :: gone) entries (oldest :: rest) r.
Proof.
  intros [[Hni _]%NoDup_cons _] (Hq & -> & Hl). split; [done |]. split; [done |]. intros i Hi. rewrite Hl by done.
  apply lookup_delete_ne. intros <-. apply Hni, elem_of_app. by right.
Qed.

Lemma drop_expired_spec now order : ∀ entries, queued entries order →
  ∃ gone, dropped gone entries order (AdminReplayCache.drop_expired now entries order)
    ∧ ∀ i, i ∈ gone → ∃ t, entries !! i = Some t ∧ t <= now.
Proof.
  induction order as [|oldest rest IH]; intros entries Hq; cbn.
  { exists []. split; [done |]. by intros i ?%elem_of_nil. }
  destruct (entries !! oldest) as [t|] eqn:Et.
  2: { destruct Hq as [_ Hin]. destruct (Hin oldest) as [[? E] _]; [left | congruence]. }
  case_decide as Hn.
  - destruct (IH _ (queued_pop _ _ _ Hq)) as (gone & Hd & Hold). exists (oldest :: gone).
    split; [by apply dropped_pop |]. intros i [-> | Hi]%elem_of_cons; [by exists t |].
    destruct (Hold i Hi) as (t' & Ht' & Hle). exists t'. split; [| done]. by apply lookup_delete_Some in Ht' as [_ ?].
  - exists []. split; [done |]. by intros i ?%elem_of_nil.
Qed.

Lemma evict_spec capacity order : ∀ entries, 1 <= capacity → queued entries order →
  ∃ gone, dropped gone entries order (AdminReplayCache.evict capacity entries order)
    ∧ vec_len (AdminReplayCache.evict capacity entries order).2 < capacity
    ∧ (gone ≠ [] → capacity - 1 <= vec_len (AdminReplayCache.evict capacity entries order).2).
Proof.
  unfold vec_len. induction order as [|oldest rest IH]; intros entries Hc Hq; cbn [AdminReplayCache.evict];
    rewrite (queued_size _ _ Hq); case_decide as Hn; cbn [length snd] in *; try lia.
  - exists []. split; [done |]. split; [cbn; lia | done].
  - destruct (IH _ Hc (queued_pop _ _ _ Hq)) as (gone & Hd & Hlt & Hge). exists (oldest :: gone).
    split; [by apply dropped_pop |]. split; [done |]. intros _. destruct gone as [|x gone]; [| by apply Hge].
    destruct Hd as (_ & E & _). cbn in E. rewrite <- E. lia.
  - exists []. split; [done |]. split; [cbn; lia | done].
Qed.

Lemma after_shorter (gone order pre post : list string) id :
  (gone ++ order)%list = (pre ++ id :: post)%list → (length gone <= length pre)%nat → ∃ pre', order = (pre' ++ id :: post)%list.
Proof.
  revert pre. induction gone as [|x gone IH]; intros pre E Hl; [by exists pre |].
  destruct pre as [|y pre]; cbn in E, Hl; [lia |]. injection E as -> E. apply (IH pre E). lia.
Qed.

(** Calls to the cache. *)
Definition call (c : AdminCache) (r : string * Z) : AdminCache := (AdminReplayCache.check_and_insert c r.1 r.2).1.
Definition cache_ok (c : AdminCache) : Prop :=
  queued (ac_entries c) (ac_order c) ∧ 1 <= ac_capacity c ∧ vec_len (ac_order c) <= ac_capacity c.
(** [id] is held until [t], with at most [n] ids behind it. *)
Definition held (id : string) (t : Z) (n : nat) (c : AdminCache) : Prop :=
  ac_entries c !! id = Some t ∧ ∃ pre post, ac_order c = (pre ++ id :: post)%list ∧ (length post <= n)%nat.

(** What is dropped from before an id leaves it where it is. *)
Lemma after_drop (gone order pre post : list string) id :
  (gone ++ order)%list = (pre ++ id :: post)%list → id ∉ gone → ∃ pre', order = (pre' ++ id :: post)%list.
Proof.
  revert pre. induction gone as [|x gone IH]; intros pre E Hni; [by exists pre |].
  destruct pre as [|y pre]; cbn in E; injection E as -> E; [by destruct Hni; left |].
  apply (IH pre E). intros ?. apply Hni. by right.
Qed.

Lemma call_spec c id now : cache_ok c →
  let '(c', fresh) := AdminReplayCache.check_and_insert c id now in
  cache_ok c' ∧ ac_capacity c' = ac_capacity c
  ∧ (fresh = true → held id (sat_add now 120) 0 c')
  ∧ ∀ id' t n, held id' t n c → now < t → Z.of_nat n + 1 < ac_capacity c → held id' t (S n) c' ∧ (id' = id → fresh = false).
Proof.
  intros (Hq & Hc & Hlen). unfold AdminReplayCache.check_and_insert.
  destruct (drop_expired_spec now _ _ Hq) as (gone & (Hq1 & Eo & Hl1) & Hold).
  destruct (AdminReplayCache.drop_expired _ _ _) as [entries order]. cbn [fst snd] in *.
  assert (Hkeep : ∀ id' t n, held id' t n c → now < t →
    entries !! id' = Some t ∧ ∃ pre post, order = (pre ++ id' :: post)%list ∧ (length post <= n)%nat).
  { intros id' t n (Ht & pre & post & Ep & Hn) Hnow. rewrite Eo in Ep.
    assert (id' ∉ gone) as Hni by (intros (t' & Ht' & ?)%Hold; rewrite Ht in Ht'; injection Ht' as <-; lia).
    destruct (after_drop _ _ _ _ _ Ep Hni) as [pre' E']. split; [| by exists pre', post].
    rewrite Hl1; [done |]. rewrite E', elem_of_app. right. left. }
  assert (Hlen1 : vec_len order <= ac_capacity c) by (unfold vec_len in *; rewrite Eo, length_app in Hlen; lia).
  destruct (entries !! id) as [t0|] eqn:Eid.
  { split; [by split |]. split; [done |]. split; [done |]. intros id' t n Hh Hnow _. split; [| done].
    destruct (Hkeep _ _ _ Hh Hnow) as (Ht & pre & post & -> & ?). split; [done |]. exists pre, post. split; [done | lia]. }
  destruct (evict_spec (ac_capacity c) order entries Hc Hq1) as (gone2 & (Hq2 & Eo2 & Hl2) & Hlt & Hge).
  destruct (AdminReplayCache.evict _ _ _) as [entries2 order2]. cbn [fst snd] in *.
  assert (Hid2 : entries2 !! id = None).
  { apply eq_None_not_Some. intros Hs. destruct Hq2 as [_ Hin2]. assert (id ∈ order2) as Hi by by apply Hin2.
    rewrite (Hl2 _ Hi), Eid in Hs. by destruct Hs. }
  split; [| split; [done |]; split].
  - split; [by apply queued_push |]. split; [done |]. cbn. unfold vec_len in *. rewrite length_app. cbn. lia.
  - intros _. split; [apply lookup_insert_eq |]. exists order2, []. split; [done | cbn; lia].
  - intros id' t n Hh Hnow Hcap. destruct (Hkeep _ _ _ Hh Hnow) as (Ht & pre & post & Ep & Hn).
    assert (Hne : id' ≠ id) by (intros ->; congruence). split; [| done].
    assert (∃ pre2, order2 = (pre2 ++ id' :: post)%list) as [pre2 E2].
    { rewrite Eo2 in Ep. destruct (decide (length gone2 <= length pre)%nat) as [Hg | Hg]; [by eapply after_shorter |].
      apply (f_equal length) in Ep. rewrite !length_app in Ep. cbn in Ep. unfold vec_len in Hge.
      specialize (Hge ltac:(by destruct gone2; cbn in *; [lia |])). lia. }
    split; [| exists pre2, (post ++ [id])%list; cbn; rewrite E2, <- app_assoc; split; [done | rewrite length_app; cbn; lia]].
    cbn. rewrite lookup_insert_ne, Hl2; [done | | done]. rewrite E2, elem_of_app. right. left.
Qed.

Definition calls (c : AdminCache) (rs : list (string * Z)) : AdminCache := fold_left call rs c.

Lemma calls_ok c rs : cache_ok c → cache_ok (calls c rs) ∧ ac_capacity (calls c rs) = ac_capacity c.
Proof.
  revert c. induction rs as [|[id now] rs IH]; intros c Hc; [done |].
  change (calls c ((id, now) :: rs)) with (calls (call c (id, now)) rs).
  pose proof (call_spec c id now Hc) as Hs. unfold call. cbn [fst snd].
  destruct (AdminReplayCache.check_and_insert c id now) as [c' fresh]. destruct Hs as (Hc' & <- & _). by apply IH.
Qed.
Lemma calls_held id t rs : ∀ c n, cache_ok c → held id t n c → Forall (fun r => r.2 < t) rs →
  Z.of_nat (n + length rs) < ac_capacity c → held id t (n + length rs) (calls c rs).
Proof.
  induction rs as [|[id' now] rs IH]; intros c n Hc Hh Hall Hcap; cbn [length] in *; [by rewrite Nat.add_0_r |].
  apply list.Forall_cons in Hall as [Hnow Hall]. change (calls c ((id', now) :: rs)) with (calls (call c (id', now)) rs).
  pose proof (call_spec c id' now Hc) as Hs. unfold call. cbn [fst snd] in *.
  destruct (AdminReplayCache.check_and_insert c id' now) as [c' fresh]. destruct Hs as (Hc' & Ec & _ & Hk).
  destruct (Hk id t n Hh Hnow ltac:(lia)) as [Hh' _]. cbn [fst]. rewrite Nat.add_succ_r, <- Nat.add_succ_l.
  apply IH; [done.. |]. rewrite Ec. lia.
Qed.

(** An authorization of an administrator works once.  After any calls the
    cache holds at most its capacity of ids, in the map and in the queue; an id
    it accepted is refused for 120 seconds, as long as fewer calls than its
    capacity, less one, come in between. *)
Theorem relay_admin_once capacity rs id now rs' now' :
  1 <= capacity →
  let c := calls (AdminReplayCache.new capacity) rs in
  (AdminReplayCache.check_and_insert c id now).2 = true →
  let c' := calls (AdminReplayCache.check_and_insert c id now).1 rs' in
  Z.of_nat (size (ac_entries c')) = vec_len (ac_order c') ∧ vec_len (ac_order c') <= capacity
  ∧ (Forall (fun r => r.2 < sat_add now 120) rs' → now' < sat_add now 120 → Z.of_nat (length rs') + 1 < capacity →
     (AdminReplayCache.check_and_insert c' id now').2 = false).
Proof.
  intros Hcap c Hfresh.
  assert (Hnew : cache_ok (AdminReplayCache.new capacity)).
  { split; [| split; [done | unfold vec_len; cbn; lia]]. split; [apply NoDup_nil_2 |]. intros i. cbn. rewrite lookup_empty.
    split; [by intros ?%elem_of_nil | by intros [? ?]]. }
  destruct (calls_ok _ rs Hnew) as [Hc Ec]. fold c in Hc, Ec. cbn in Ec. pose proof (call_spec c id now Hc) as Hs.
  destruct (AdminReplayCache.check_and_insert c id now) as [c1 fresh]. cbn [fst snd] in *. subst fresh.
  destruct Hs as (Hc1 & Ec1 & Hh & _). specialize (Hh eq_refl). set (c' := calls c1 rs').
  destruct (calls_ok _ rs' Hc1) as [(Hq & Hc' & Hl) Ec']. fold c' in Hq, Hc', Hl, Ec'.
  split; [by unfold vec_len; rewrite (queued_size _ _ Hq) |]. split; [lia |]. intros Hall Hnow Hn.
  pose proof (calls_held id _ rs' c1 0 Hc1 Hh Hall ltac:(lia)) as Hh'. cbn in Hh'. fold c' in Hh'.
  pose proof (call_spec c' id now' (conj Hq (conj Hc' Hl))) as Hs.
  destruct (AdminReplayCache.check_and_insert c' id now') as [c2 fresh]. cbn. destruct Hs as (_ & _ & _ & Hk).
  by apply (Hk id (sat_add now 120) (length rs') Hh' Hnow ltac:(lia)).
Qed.

(** With a cache of three ids. *)
Example used_id_refused :
  let c := (AdminReplayCache.check_and_insert (AdminReplayCache.new 3) "e1" 100).1 in
  (AdminReplayCache.check_and_insert (call c ("e2", 130)) "e1" 219).2 = false.
Proof.
  refine (proj2 (proj2 (relay_admin_once 3 [] "e1" 100 [("e2", 130)] 219 _ _)) _ _ _);
    [lia | vm_compute; reflexivity | repeat constructor | reflexivity | cbn; lia].
Qed.
