(* ===== verification/Client.v ===== *)
(** * The clients ([src/src/traits.rs], [src/src/client/mod.rs])

    The trait of the clients, the HTTP client, which tries its servers in order,
    and the calls of the QUIC client.  What lies outside, the network, the file
    system, the clock and the random generator, is a state [W] that every call
    passes on ([Outside]): whatever answers the servers give, and however they
    change, is a choice of [W]. *)

From Stdlib Require Import ZArith Lia Ascii String.
From Stdlib Require Import Strings.Byte.
From stdpp Require Import base list gmap strings numbers sets.
From S2P Require Import Prelude Effects Protocol Auth Replay RequestAuth RateLimit Database Access Storage Locks Lfs Stats Server Wire IrohReplay Iroh IrohSafety IrohClient.

Open Scope string_scope.
Open Scope Z_scope.
Open Scope handler_scope.

(** ** The outside *)

(** A request of reqwest, with the body as its stream gives it, and a response,
    whose body may break off. *)
Record OutRequest := mkOut {
  out_method : string;
  out_url : string;
  out_authorization : option string;
  out_content_type : option string;
  out_content_length : option Z;
  out_body : reader
}.
Record InResponse := mkIn { in_status : Z; in_body : result (list byte) string }.

Class Outside (W : Type) : Type := {
  http_send : OutRequest → W → W * result InResponse string;
  (** A QUIC stream to a peer: the bytes written, and whether the stream was
      finished; what comes back, or the error of connecting or writing. *)
  quic_exchange : string → list byte → bool → W → W * result reader string;
  unix_now : W → W * Z;
  draw_nonce : W → W * string;
  file_len : string → W → W * result Z string;
  open_file : string → W → W * result reader string
}.

(** [serde_json] on the bodies of HTTP responses. *)
Class BodyJson : Type := {
  descriptor_from_slice : list byte → result BlobDescriptor string;
  descriptor_list_from_slice : list byte → result (list BlobDescriptor) string
}.

(** ** The trait *)

Definition Call (W A : Type) : Type := MR W string A.

(** [BlobClient]. *)
Class BlobClient (W C Address : Type) : Type := {
  bc_upload : C → Address → list byte → string → Call W BlobDescriptor;
  bc_download : C → Address → string → Call W (list byte);
  bc_exists : C → Address → string → Call W bool;
  bc_delete : C → Address → string → Call W bool;
  bc_list : C → Address → string → Call W (list BlobDescriptor);
  bc_upload_file : C → Address → string → string → Call W BlobDescriptor
}.
(** [upload_lfs] is a method of each client, outside the trait. *)
Class LfsClient (W C Address : Type) : Type := {
  lc_upload_lfs : C → Address → list byte → string → string → string → option string → bool → Call W BlobDescriptor
}.

(** What callers rely on: a download has the bytes asked for, an upload is
    answered with the hash of what was sent. *)
Class VerifiedClient `{Crates} (W C Address : Type) `{BlobClient W C Address} `{LfsClient W C Address} : Prop := {
  download_verified : ∀ c a sha256, ensures (fun data => sha256_hex data = sha256) (bc_download c a sha256);
  upload_verified : ∀ c a data ty, ensures (fun d => d_sha256 d = sha256_hex data) (bc_upload c a data ty);
  upload_lfs_verified : ∀ c a data ty path repo base m,
    ensures (fun d => d_sha256 d = sha256_hex data) (lc_upload_lfs c a data ty path repo base m)
}.

Section clients.
Context `{Crates} `{BlossomSigner} `{WireJson} `{ClientJson} `{BodyJson} {W : Type} `{Outside W}.

Definition call {A} (f : W → W * A) : Call W A := fun w => let '(w, a) := f w in (w, Ok a).
Definition call_err {A} (f : W → W * result A string) (msg : string) : Call W A := map_err (fun e => msg +:+ e) f.

(** ** HTTP *)

(** The configuration of [BlossomClient]. *)
Record BlossomClient := mkClient { servers : list string }.

(** [StatusCode::is_success]. *)
Definition is_success (status : Z) : bool := (200 <=? status) && (status <? 300).

(** The loop over the servers: the first that settles the call. *)
Fixpoint first_server {A} (servers : list string) (attempt : string → Call W (option A)) (failed : Call W A) : Call W A :=
  match servers with
  | [] => failed
  | server :: rest =>
      let! settled := attempt server in
      match settled with Some a => ret a | None => first_server rest attempt failed end
  end.

Definition base_of (server : string) : string := trim_end_matches "/" server.

(** The header of a request, its time and nonce drawn. *)
Definition request_auth (action : string) (sha256 : option string) (server url method : string) (extra : list (list string))
    : Call W string :=
  let! now := call unix_now in
  let! nonce := call draw_nonce in
  ret (auth_header_value
         (build_blossom_auth_for_request_with_extra_tags now nonce action sha256 (base_of server) url method "" extra)).

(** What is made of the response to an upload. *)
Definition uploaded (our_sha256 : string) (result : result InResponse string) : Call W (option BlobDescriptor) :=
  match result with
  | Ok resp =>
      if is_success (in_status resp) then
        match in_body resp with
        | Err e => early ("parse upload response: " +:+ e)
        | Ok body =>
            match descriptor_from_slice body with
            | Err e => early ("parse upload response: " +:+ e)
            | Ok desc =>
                if decide (d_sha256 desc ≠ our_sha256) then
                  early ("SHA256 mismatch: server=" +:+ d_sha256 desc +:+ ", ours=" +:+ our_sha256)
                else ret (Some desc)
            end
        end
      else ret None
  | Err _ => ret None
  end.

Definition send (r : OutRequest) : Call W (result InResponse string) := call (http_send r).

(** [upload_lfs]; [upload], which adds no tags. *)
Definition put_upload (c : BlossomClient) (data : list byte) (content_type : string) (extra : list (list string))
    (failed : string) : Call W BlobDescriptor :=
  let our_sha256 := sha256_hex data in
  first_server (servers c) (fun server =>
    let url := base_of server +:+ "/upload" in
    let! auth_header := request_auth "upload" (Some our_sha256) server url "PUT" extra in
    let! result := send (mkOut "PUT" url (Some auth_header) (Some content_type) (Some (vec_len data)) [Ok data]) in
    uploaded our_sha256 result) (early failed).
Definition upload (c : BlossomClient) (data : list byte) (content_type : string) : Call W BlobDescriptor :=
  put_upload c data content_type [] "all Blossom servers failed for upload".
Definition upload_lfs (c : BlossomClient) (data : list byte) (content_type path repo : string)
    (base_sha256 : option string) (is_manifest : bool) : Call W BlobDescriptor :=
  put_upload c data content_type (lfs_extra_tags path repo base_sha256 is_manifest)
    "all Blossom servers failed for LFS upload".

(** [download]. *)
Definition download (c : BlossomClient) (sha256 : string) : Call W (list byte) :=
  let! now := call unix_now in
  let! nonce := call draw_nonce in
  let auth_header := auth_header_value (build_blossom_auth now nonce "get" None None "") in
  first_server (servers c) (fun server =>
    let! result := send (mkOut "GET" (base_of server +:+ "/" +:+ sha256) (Some auth_header) None None []) in
    match result with
    | Ok resp =>
        if is_success (in_status resp) then
          match in_body resp with
          | Err e => early ("download body: " +:+ e)
          | Ok data =>
              let actual_hash := sha256_hex data in
              if decide (actual_hash ≠ sha256) then
                early ("SHA256 mismatch on download: expected=" +:+ sha256 +:+ ", actual=" +:+ actual_hash)
              else ret (Some data)
          end
        else ret None
    | Err _ => ret None
    end) (early ("blob " +:+ sha256 +:+ " not found on any Blossom server")).

(** [exists]. *)
Definition exists_ (c : BlossomClient) (sha256 : string) : Call W bool :=
  first_server (servers c) (fun server =>
    let! result := send (mkOut "HEAD" (base_of server +:+ "/" +:+ sha256) None None None []) in
    match result with
    | Ok resp => ret (if is_success (in_status resp) then Some true else None)
    | Err _ => ret None
    end) (ret false).

(** [delete]. *)
Definition delete_ (c : BlossomClient) (sha256 : string) : Call W bool :=
  first_server (servers c) (fun server =>
    let url := base_of server +:+ "/" +:+ sha256 in
    let! auth_header := request_auth "delete" (Some sha256) server url "DELETE" [] in
    let! result := send (mkOut "DELETE" url (Some auth_header) None None []) in
    match result with
    | Ok resp => ret (if is_success (in_status resp) then Some true
                      else if decide (in_status resp = 404) then Some false else None)
    | Err _ => ret None
    end) (early "all Blossom servers failed for delete").

(** [list]. *)
Definition list_ (c : BlossomClient) (pubkey : string) : Call W (list BlobDescriptor) :=
  first_server (servers c) (fun server =>
    let! result := send (mkOut "GET" (base_of server +:+ "/list/" +:+ pubkey) None None None []) in
    match result with
    | Ok resp =>
        if is_success (in_status resp) then
          match in_body resp with
          | Err e => early ("parse list response: " +:+ e)
          | Ok body => match descriptor_list_from_slice body with
                       | Ok descs => ret (Some descs)
                       | Err e => early ("parse list response: " +:+ e)
                       end
          end
        else ret None
    | Err _ => ret None
    end) (early "all Blossom servers failed for list").

(** The first pass of [upload_file], of both clients: the length and the hash. *)
Definition hash_pass (path : string) : Call W (Z * string) :=
  let! file_size := call_err (file_len path) "stat file: " in
  let! f := call_err (open_file path) "open file: " in
  let! h := lift (match sha256_stream f with Ok h => Ok h | Err e => Err ("hash file: " +:+ e) end) in
  ret (file_size, fst h).

(** [upload_file]. *)
Definition upload_file (c : BlossomClient) (path content_type : string) : Call W BlobDescriptor :=
  let! pass := hash_pass path in
  let '(file_size, our_sha256) := pass in
  first_server (servers c) (fun server =>
    let url := base_of server +:+ "/upload" in
    let! auth_header := request_auth "upload" (Some our_sha256) server url "PUT" [] in
    let! file := call_err (open_file path) "open file: " in
    let! result := send (mkOut "PUT" url (Some auth_header) (Some content_type) (Some file_size) file) in
    uploaded our_sha256 result) (early "all Blossom servers failed for upload_file").

#[export] Instance http_client : BlobClient W BlossomClient unit := {|
  bc_upload c _ := upload c;
  bc_download c _ := download c;
  bc_exists c _ := exists_ c;
  bc_delete c _ := delete_ c;
  bc_list c _ := list_ c;
  bc_upload_file c _ := upload_file c
|}.
#[export] Instance http_lfs_client : LfsClient W BlossomClient unit := {| lc_upload_lfs c _ := upload_lfs c |}.

(** ** QUIC *)

(** [IrohBlossomClient]: its endpoint is part of the outside; a peer is its id. *)
Record IrohBlossomClient := mkIrohClient {}.

(** [iroh_server_identity]. *)
Definition iroh_server_identity (id : string) : string := "iroh://" +:+ id.

(** Connecting, sending a request and finishing the stream. *)
Definition exchange (id : string) (req : Wire.Request) (body : list byte) : Call W reader :=
  quic_exchange id (encode_request req ++ body)%list true.
(** A time and a nonce for an event, then the exchange of the request made with them. *)
Definition signed_exchange (id : string) (req : Z → string → Wire.Request) (body : list byte) : Call W reader :=
  let! now := call unix_now in
  let! nonce := call draw_nonce in
  exchange id (req now nonce) body.

(** [upload_with_type], [upload_lfs], [download], [exists], [delete], [list]. *)
Definition iroh_upload (id : string) (data : list byte) (content_type : string) : Call W BlobDescriptor :=
  let! rd := signed_exchange id (fun now nonce => upload_request now nonce (iroh_server_identity id) data content_type) data in
  lift (upload_result "upload" (sha256_hex data) rd).
Definition iroh_upload_lfs (id : string) (data : list byte) (content_type path repo : string)
    (base_sha256 : option string) (is_manifest : bool) : Call W BlobDescriptor :=
  let! rd := signed_exchange id (fun now nonce =>
    upload_lfs_request now nonce (iroh_server_identity id) data content_type path repo base_sha256 is_manifest) data in
  lift (upload_result "upload_lfs" (sha256_hex data) rd).
Definition iroh_download (id sha256 : string) : Call W (list byte) :=
  let! rd := exchange id (download_request sha256) [] in lift (download_result sha256 rd).
Definition iroh_exists (id sha256 : string) : Call W bool :=
  let! rd := exchange id (exists_request sha256) [] in lift (status_result rd).
Definition iroh_delete (id sha256 : string) : Call W bool :=
  let! rd := signed_exchange id (fun now nonce => delete_blob_request now nonce (iroh_server_identity id) sha256) [] in
  lift (status_result rd).
Definition iroh_list (id pubkey : string) : Call W (list BlobDescriptor) :=
  let! rd := exchange id (list_request pubkey) [] in lift (list_result rd).

(** [upload_file]: a read error in the second pass leaves the stream unfinished. *)
Definition iroh_upload_file (id path content_type : string) : Call W BlobDescriptor :=
  let! pass := hash_pass path in
  let '(file_size, our_sha256) := pass in
  let! now := call unix_now in
  let! nonce := call draw_nonce in
  let req := Wire.mkRequest Wire.Upload our_sha256 "" (bound_auth now nonce "upload" our_sha256 (iroh_server_identity id) [])
    content_type file_size "" "" "" false "" 0 "" "" "" false in
  let! file := call (open_file path) in
  match file with
  | Err e => let! _ := quic_exchange id (encode_request req) false in early ("open file: " +:+ e)
  | Ok f =>
      let bytes := (encode_request req ++ delivered f)%list in
      match read_error f with
      | Some e => let! _ := quic_exchange id bytes false in early ("read file: " +:+ e)
      | None => let! rd := quic_exchange id bytes true in lift (upload_result "upload" our_sha256 rd)
      end
  end.

#[export] Instance iroh_client : BlobClient W IrohBlossomClient string := {|
  bc_upload _ := iroh_upload;
  bc_download _ := iroh_download;
  bc_exists _ := iroh_exists;
  bc_delete _ := iroh_delete;
  bc_list _ := iroh_list;
  bc_upload_file _ := iroh_upload_file
|}.
#[export] Instance iroh_lfs_client : LfsClient W IrohBlossomClient string := {| lc_upload_lfs _ := iroh_upload_lfs |}.
End clients.
