(* ===== verification/MultiClient.v ===== *)
(** * The client of both transports ([src/src/client/multi.rs])

    An HTTP and a QUIC client behind one, which prefers one or the other and
    falls back; and that whatever it answers is verified. *)

From Stdlib Require Import ZArith Lia Ascii String.
From Stdlib Require Import Strings.Byte.
From stdpp Require Import base list gmap strings numbers sets.
From S2P Require Import Prelude Effects Protocol Auth Replay RequestAuth RateLimit Database Access Storage Locks Lfs Stats Server Wire IrohReplay Iroh IrohSafety IrohClient Client.

Open Scope string_scope.
Open Scope Z_scope.
Open Scope handler_scope.

(** [Transport]. *)
Inductive Transport := Http | Iroh.
#[export] Instance transport_eq_dec : EqDecision Transport.
Proof. solve_decision. Defined.

Section multi.
Context {W HC IC Addr : Type} `{BlobClient W HC unit} `{LfsClient W HC unit} `{BlobClient W IC Addr} `{LfsClient W IC Addr}.

(** [MultiTransportClient]. *)
Record MultiTransportClient := mkMulti {
  mt_http : HC;
  mt_iroh : option IC;
  mt_iroh_addr : option Addr;
  upload_transport : Transport;
  download_transport : Transport
}.

(** [http_only], [new], [iroh_only], [force_http], [has_iroh]. *)
Definition http_only (http : HC) : MultiTransportClient := mkMulti http None None Http Http.
Definition new (http : HC) (iroh : IC) (addr : Addr) : MultiTransportClient := mkMulti http (Some iroh) (Some addr) Iroh Http.
Definition iroh_only (c : MultiTransportClient) : MultiTransportClient :=
  mkMulti (mt_http c) (mt_iroh c) (mt_iroh_addr c) Iroh Iroh.
Definition force_http (c : MultiTransportClient) : MultiTransportClient :=
  mkMulti (mt_http c) (mt_iroh c) (mt_iroh_addr c) Http Http.
Definition peer (c : MultiTransportClient) : option (IC * Addr) :=
  match mt_iroh c, mt_iroh_addr c with Some iroh, Some addr => Some (iroh, addr) | _, _ => None end.
Definition has_iroh (c : MultiTransportClient) : bool := match peer c with Some _ => true | None => false end.

(** A call whose error is looked at. *)
Definition attempt {A} (m : Call W A) : Call W (result A string) := fun w => let '(w, r) := m w in (w, Ok r).

(** The body of [upload], [upload_lfs] and [upload_file], and of [exists]. *)
Definition prefer {A} (t : Transport) (c : MultiTransportClient) (iroh : IC → Addr → Call W A) (http : Call W A) : Call W A :=
  let! tried :=
    match t, peer c with
    | Iroh, Some (i, addr) => attempt (iroh i addr)
    | _, _ => ret (Err "")
    end in
  match tried with
  | Ok a => ret a
  | Err _ =>
      let! result := attempt http in
      match result, t, peer c with
      | Err _, Http, Some (i, addr) => iroh i addr
      | _, _, _ => lift result
      end
  end.

Definition upload (c : MultiTransportClient) (data : list byte) (content_type : string) : Call W BlobDescriptor :=
  prefer (upload_transport c) c (fun i addr => bc_upload i addr data content_type) (bc_upload (mt_http c) tt data content_type).
Definition upload_lfs (c : MultiTransportClient) (data : list byte) (content_type path repo : string)
    (base_sha256 : option string) (is_manifest : bool) : Call W BlobDescriptor :=
  prefer (upload_transport c) c
    (fun i addr => lc_upload_lfs i addr data content_type path repo base_sha256 is_manifest)
    (lc_upload_lfs (mt_http c) tt data content_type path repo base_sha256 is_manifest).
Definition upload_file (c : MultiTransportClient) (path content_type : string) : Call W BlobDescriptor :=
  prefer (upload_transport c) c (fun i addr => bc_upload_file i addr path content_type)
    (bc_upload_file (mt_http c) tt path content_type).
Definition exists_ (c : MultiTransportClient) (sha256 : string) : Call W bool :=
  prefer (download_transport c) c (fun i addr => bc_exists i addr sha256) (bc_exists (mt_http c) tt sha256).

(** [download]. *)
Definition download (c : MultiTransportClient) (sha256 : string) : Call W (list byte) :=
  let http : Call W (list byte) := bc_download (mt_http c) tt sha256 in
  let! first :=
    (if bool_decide (download_transport c = Http) || negb (has_iroh c) then let! r := attempt http in ret (Some r) else ret None) in
  match first, peer c with
  | Some (Ok data), _ => ret data
  | Some (Err e), None => early e
  | _, Some (iroh, addr) =>
      let! result := attempt (bc_download iroh addr sha256) in
      match result, download_transport c with
      | Err _, Http => http
      | _, _ => lift result
      end
  | None, None => http
  end.

(** [delete], [list]. *)
Definition delete_ (c : MultiTransportClient) (sha256 : string) : Call W bool :=
  match peer c with
  | Some (iroh, addr) =>
      let! result := attempt (bc_delete iroh addr sha256) in
      match result with
      | Ok v => ret v
      | Err _ => bc_delete (mt_http c) tt sha256
      end
  | None => bc_delete (mt_http c) tt sha256
  end.
Definition list_ (c : MultiTransportClient) (pubkey : string) : Call W (list BlobDescriptor) :=
  bc_list (mt_http c) tt pubkey.

#[export] Instance multi_client : BlobClient W MultiTransportClient unit := {|
  bc_upload c _ := upload c;
  bc_download c _ := download c;
  bc_exists c _ := exists_ c;
  bc_delete c _ := delete_ c;
  bc_list c _ := list_ c;
  bc_upload_file c _ := upload_file c
|}.
#[export] Instance multi_lfs_client : LfsClient W MultiTransportClient unit := {| lc_upload_lfs c _ := upload_lfs c |}.
End multi.
Arguments MultiTransportClient : clear implicits.

(** ** What the answers are worth *)

Section verified.
Context `{Crates} {W : Type}.

Lemma ensures_lift {A} (Q : A → Prop) (r : result A string) : (∀ a, r = Ok a → Q a) → ensures (S := W) Q (lift r).
Proof. intros Hr w w' a [= _ ->]. by apply Hr. Qed.
Lemma ensures_of {A C} (P : A → Prop) (Q : C → Prop) (m : Call W A) (k : A → Call W C) :
  ensures P m → (∀ a, P a → ensures Q (k a)) → ensures Q (bind m k).
Proof. intros Hm Hk w w' x (a & w1 & Ha & Hx)%bind_ok. eapply Hk; [by eapply Hm | done]. Qed.

Section http.
Context `{BlossomSigner} `{WireJson} `{ClientJson} `{BodyJson} `{!Outside W}.

Lemma ensures_first_server {A} (Q : A → Prop) servers (attempt : string → Call W (option A)) failed :
  (∀ server, ensures (fun r => ∀ a, r = Some a → Q a) (attempt server)) → ensures Q failed →
  ensures Q (first_server servers attempt failed).
Proof.
  intros Ha Hf. induction servers as [|server rest IH]; [done |]. cbn.
  eapply ensures_of; [apply Ha |]. intros [a|] Hr; [apply ensures_ret; by apply Hr | apply IH].
Qed.
Lemma ensures_uploaded h r : ensures (S := W) (fun d => ∀ x, d = Some x → d_sha256 x = h) (uploaded h r).
Proof.
  unfold uploaded. destruct r as [resp|]; [| by apply ensures_ret]. destruct (is_success _); [| by apply ensures_ret].
  destruct (in_body resp) as [body|]; [| apply ensures_early]. destruct (descriptor_from_slice body) as [desc|]; [| apply ensures_early].
  destruct (decide _) as [|Hd]; [apply ensures_early |]. apply ensures_ret. intros x [= <-]. by apply dec_stable.
Qed.
Lemma ensures_put c data ty extra failed : ensures (fun d => d_sha256 d = sha256_hex data) (put_upload (W := W) c data ty extra failed).
Proof.
  apply ensures_first_server; [| apply ensures_early]. intros server.
  apply ensures_bind. intros auth. apply ensures_bind. intros result. apply ensures_uploaded.
Qed.

#[export] Instance http_verified : VerifiedClient W BlossomClient unit.
Proof.
  split.
  - intros c [] sha256. cbn. unfold Client.download. apply ensures_bind. intros now. apply ensures_bind. intros nonce.
    apply ensures_first_server; [| apply ensures_early]. intros server. apply ensures_bind. intros [resp|]; [| by apply ensures_ret].
    destruct (is_success _); [| by apply ensures_ret]. destruct (in_body resp) as [data|]; [| apply ensures_early].
    destruct (decide _) as [|Hd]; [apply ensures_early |]. apply ensures_ret. intros x [= <-]. by apply dec_stable.
  - intros c [] data ty. apply ensures_put.
  - intros c [] data ty path repo base m. apply ensures_put.
Qed.

Lemma upload_result_hash what h rd d : upload_result what h rd = Ok d → d_sha256 d = h.
Proof.
  unfold upload_result. destruct (read_response rd) as [[[resp got] rest]|]; [| done]. cbn.
  destruct (decide _); [done |]. destruct (Wire.rs_descriptor resp) as [v|]; [| done]. cbn.
  destruct (descriptor_from_value v) as [desc|]; [| done]. destruct (decide _) as [|Hd]; [done |].
  intros [= <-]. by apply dec_stable.
Qed.
Lemma download_result_hash h rd data : download_result h rd = Ok data → sha256_hex data = h.
Proof.
  unfold download_result. destruct (read_response rd) as [[[resp got] rest]|]; [| done]. cbn -[read_rest].
  destruct (decide _); [done |]. destruct (read_rest _ _ _) as [x|]; [| done]. cbn.
  destruct (decide _) as [|Hd]; [done |]. intros [= <-]. by apply dec_stable.
Qed.

#[export] Instance iroh_verified : VerifiedClient W IrohBlossomClient string.
Proof.
  split; intros; cbn; apply ensures_bind; intros rd; apply ensures_lift.
  - apply download_result_hash.
  - apply upload_result_hash.
  - apply upload_result_hash.
Qed.
End http.

Section multi.
Context {HC IC Addr : Type} `{!BlobClient W HC unit} `{!LfsClient W HC unit} `{!BlobClient W IC Addr} `{!LfsClient W IC Addr}.
Context `{!VerifiedClient W HC unit} `{!VerifiedClient W IC Addr}.

Lemma ensures_attempt {A} (Q : A → Prop) (m : Call W A) : ensures Q m → ensures (fun r => ∀ a, r = Ok a → Q a) (attempt m).
Proof.
  intros Hm w w' r. unfold attempt. destruct (m w) as [w1 x] eqn:E. intros [= <- <-] a ->. by eapply Hm.
Qed.
Lemma ensures_prefer {A} (Q : A → Prop) t (c : MultiTransportClient HC IC Addr) iroh (http : Call W A) :
  (∀ i addr, ensures Q (iroh i addr)) → ensures Q http → ensures Q (prefer t c iroh http).
Proof.
  intros Hi Hh. eapply (ensures_of (fun r => ∀ a, r = Ok a → Q a)).
  - destruct t, (peer c) as [[i addr]|]; try (by apply ensures_ret). by apply ensures_attempt.
  - intros [a|e] Ha; [apply ensures_ret; by apply Ha |].
    eapply ensures_of; [by apply ensures_attempt |]. intros [b|e2] Hb; [by apply ensures_lift |].
    destruct t, (peer c) as [[i addr]|]; try (by apply ensures_lift). apply Hi.
Qed.

#[export] Instance multi_verified : VerifiedClient W (MultiTransportClient HC IC Addr) unit.
Proof.
  split.
  - intros c [] sha256. cbn. unfold download. eapply (ensures_of (fun o => ∀ data, o = Some (Ok data) → sha256_hex data = sha256)).
    + destruct (_ || _); [| by apply ensures_ret].
      eapply ensures_of; [apply ensures_attempt, (download_verified (mt_http c) tt sha256) |].
      intros r Hr. apply ensures_ret. intros data [= ->]. by apply Hr.
    + intros o Ho. assert (Hi : ∀ i addr, ensures (fun data => sha256_hex data = sha256)
        (let! result := attempt (bc_download i addr sha256) in
         match result, download_transport c with Err _, Http => bc_download (mt_http c) tt sha256 | _, _ => lift result end)).
      { intros i addr. eapply ensures_of; [apply ensures_attempt, (download_verified i addr sha256) |].
        intros [data|e] Hr; [by apply ensures_lift |]. destruct (download_transport c); [apply download_verified | by apply ensures_lift]. }
      destruct o as [[data|e]|], (peer c) as [[i addr]|]; try apply Hi; try apply ensures_early; try apply download_verified;
        apply ensures_ret; by apply Ho.
  - intros c [] data ty. apply ensures_prefer; intros; apply upload_verified.
  - intros c [] data ty path repo base m. apply ensures_prefer; intros; apply upload_lfs_verified.
Qed.
End multi.

(** *** Falling back *)

Section fallback.
Context {HC IC Addr : Type} `{!BlobClient W HC unit} `{!LfsClient W HC unit} `{!BlobClient W IC Addr} `{!LfsClient W IC Addr}.
Implicit Types c : MultiTransportClient HC IC Addr.

(** A preferred HTTP client that fails is followed by the QUIC client, and that by
    the HTTP client again. *)
Lemma download_http_first c i addr h w :
  download_transport c = Http → peer c = Some (i, addr) →
  download c h w =
    match bc_download (mt_http c) tt h w with
    | (w1, Ok data) => (w1, Ok data)
    | (w1, Err _) =>
        match bc_download i addr h w1 with
        | (w2, Ok data) => (w2, Ok data)
        | (w2, Err _) => bc_download (mt_http c) tt h w2
        end
    end.
Proof.
  intros Ht Hp. unfold download, has_iroh. rewrite Hp, Ht, bool_decide_eq_true_2 by done. cbn [orb]. unfold bind, attempt, ret, lift.
  destruct (bc_download (mt_http c) tt h w) as [w1 [data|e]]; [done |].
  destruct (bc_download i addr h w1) as [w2 [data|e2]]; done.
Qed.

(** A preferred QUIC client has the last word on a download. *)
Lemma download_iroh_only c i addr h w :
  download_transport c = Iroh → peer c = Some (i, addr) → download c h w = bc_download i addr h w.
Proof.
  intros Ht Hp. unfold download, has_iroh. rewrite Hp, Ht, bool_decide_eq_false_2 by done. cbn [orb negb].
  unfold bind, attempt, ret, lift. by destruct (bc_download i addr h w) as [w1 [data|e]].
Qed.

(** Deletion goes to the QUIC client first, HTTP forced or not. *)
Lemma delete_ignores_force c h : delete_ (force_http c) h = delete_ c h.
Proof. done. Qed.
End fallback.

(** The HTTP client never fails to say whether a blob is there, ... *)
Lemma http_exists_answers `{BlossomSigner} `{BodyJson} `{!Outside W} (c : BlossomClient) h w :
  ∃ b, (Client.exists_ c h w).2 = Ok b.
Proof.
  unfold Client.exists_. revert w. induction (servers c) as [|server rest IH]; intros w; cbn; [by eexists |].
  unfold bind, send, call. destruct (http_send _ w) as [w1 [resp|e]]; cbn; [| apply IH].
  destruct (is_success _); cbn; [by eexists | apply IH].
Qed.
(** ... so that, preferred, the QUIC client is never asked. *)
Lemma exists_never_falls_back `{BlossomSigner} `{WireJson} `{ClientJson} `{BodyJson} `{!Outside W}
    (c : MultiTransportClient BlossomClient IrohBlossomClient string) h w :
  download_transport c = Http → exists_ c h w = Client.exists_ (mt_http c) h w.
Proof.
  intros Ht. unfold exists_, prefer. rewrite Ht. destruct (http_exists_answers (mt_http c) h w) as [b Hb].
  unfold bind, attempt, ret, lift. cbn [bc_exists http_client]. destruct (Client.exists_ (mt_http c) h w) as [w1 r]. cbn in Hb. by subst r.
Qed.

(** *** Uploads of files *)

(** The file at [path] could be read to its end at some moment, and what it had
    then has the hash of the descriptor. *)
Definition hashed_file `{!Outside W} (path : string) (d : BlobDescriptor) : Prop :=
  ∃ w1 w2 f, open_file path w1 = (w2, Ok f) ∧ read_error f = None ∧ d_sha256 d = sha256_hex (delivered f).

Section files.
Context `{!CratesLaws} `{!Outside W}.

Lemma ensures_hash_pass path :
  ensures (fun p => ∀ d, d_sha256 d = p.2 → hashed_file path d) (hash_pass (W := W) path).
Proof.
  intros w w' p. unfold hash_pass. intros (n & w1 & _ & (f & w2 & Hf & Hr)%bind_ok)%bind_ok.
  unfold call_err, map_err in Hf. destruct (open_file path w1) as [w3 [f'|]] eqn:Eo; [| done]. injection Hf as <- <-.
  apply bind_ok in Hr as (h & w4 & [= <- Hh] & [= _ <-]). cbn. intros d Hd.
  exists w1, w3, f'. split; [done |]. rewrite Hd. unfold sha256_stream in Hh. rewrite sha256_stream_loop_spec in Hh.
  destruct (read_error f'); [done |]. injection Hh as <-. done.
Qed.
Lemma ensures_http_file `{BlossomSigner} `{BodyJson} (c : BlossomClient) path ty :
  ensures (hashed_file path) (Client.upload_file (W := W) c path ty).
Proof.
  unfold Client.upload_file. eapply ensures_of; [apply ensures_hash_pass |]. intros [n h] Hh.
  apply ensures_first_server; [| apply ensures_early]. intros server.
  apply ensures_bind. intros auth. apply ensures_bind. intros file. apply ensures_bind. intros result.
  intros w w' r Hr d ->. apply Hh. cbn. by apply (ensures_uploaded _ _ _ _ _ Hr).
Qed.
Lemma ensures_iroh_file `{BlossomSigner} `{WireJson} `{ClientJson} (id path ty : string) :
  ensures (hashed_file path) (iroh_upload_file (W := W) id path ty).
Proof.
  unfold iroh_upload_file. eapply ensures_of; [apply ensures_hash_pass |]. intros [n h] Hh.
  apply ensures_bind. intros now. apply ensures_bind. intros nonce. apply ensures_bind. intros [f|e].
  - destruct (read_error f); apply ensures_bind; intros rd; [apply ensures_early |].
    apply ensures_lift. intros d Hd. apply Hh. by apply upload_result_hash in Hd.
  - apply ensures_bind. intros rd. apply ensures_early.
Qed.
End files.

(** C16: the clients trust no server.  Whatever the servers answer over HTTP and
    over QUIC, and whichever transport is preferred or fallen back to, a download
    that succeeds has the hash asked for, and an upload of bytes in memory that
    succeeds was answered with their hash.  An upload of a file that succeeds was
    answered with the hash of what the file had when it was read for its hash;
    the file is read again to be sent. *)
Theorem client_answers_verified `{!CratesLaws} `{BlossomSigner} `{WireJson} `{ClientJson} `{BodyJson} `{!Outside W}
    (c : MultiTransportClient BlossomClient IrohBlossomClient string) w w' :
  (∀ sha256 data, download c sha256 w = (w', Ok data) → sha256_hex data = sha256)
  ∧ (∀ data ty d, upload c data ty w = (w', Ok d) → d_sha256 d = sha256_hex data)
  ∧ (∀ data ty path repo base m d, upload_lfs c data ty path repo base m w = (w', Ok d) → d_sha256 d = sha256_hex data)
  ∧ (∀ path ty d, upload_file c path ty w = (w', Ok d) → hashed_file path d).
Proof.
  split; [| split; [| split]].
  - intros sha256 data. exact (download_verified (W := W) c tt sha256 w w' data).
  - intros data ty d. exact (upload_verified (W := W) c tt data ty w w' d).
  - intros data ty path repo base m d. exact (upload_lfs_verified (W := W) c tt data ty path repo base m w w' d).
  - intros path ty d. refine (ensures_prefer (hashed_file path) _ c _ _ _ _ w w' d).
    + intros i addr. apply ensures_iroh_file.
    + apply ensures_http_file.
Qed.
End verified.
