(* ===== verification/ClientServer.v ===== *)
(** * The HTTP client against the server

    What the two halves of the program make of each other: a blob uploaded by the
    client of [src/src/client/mod.rs] to the server of [src/src/server/mod.rs] is
    what the client downloads.  Between them lies the HTTP stack, third-party
    code on both sides: [Reaches] says what it does. *)

From Stdlib Require Import ZArith Lia Ascii String.
From Stdlib Require Import Strings.Byte.
From stdpp Require Import base list gmap strings numbers sets.
From S2P Require Import Prelude Effects Protocol Auth Replay RequestAuth RateLimit Database Access Storage Locks Lfs Stats Server Durable Wire IrohReplay Iroh IrohSafety IrohClient Client MultiClient.

Open Scope string_scope.
Open Scope Z_scope.
Open Scope handler_scope.

Section roundtrip.
Context `{CratesLaws} `{CodecLaws} `{!CodecTotal} {B D : Type} `{BlobBackend B} `{BlobDatabase D} `{!BlobBackendLaws B}.
Notation V := MemoryLfsVersionDatabase.
Context `{BlossomSigner} `{BodyJson} {W : Type} `{!Outside W} `{HashOrder}.

(** The body as the server reads it. *)
Definition out_bytes (r : OutRequest) : result (list byte) string :=
  match read_error (out_body r) with None => Ok (delivered (out_body r)) | Some e => Err e end.

(** Requests under [base] that are answered were answered by the handlers of the
    server whose state in a world is [host], with the headers and the body sent
    and storage that can be read; reading the clock or drawing a nonce leaves the
    server alone. *)
Record Reaches (base : string) (host : W → ServerState B D V) : Prop := {
  reaches_now : ∀ w, host (unix_now w).1 = host w;
  reaches_nonce : ∀ w, host (draw_nonce w).1 = host w;
  reaches_upload : ∀ r w w' resp,
    out_method r = "PUT" → out_url r = base +:+ "/upload" → http_send r w = (w', Ok resp) →
    ∃ q headers j, no_read_faults (q_env q) ∧ header_str headers "authorization" = out_authorization r
      ∧ Server.handle_upload q headers (mkBody (out_bytes r) (out_content_length r)) (host w) = (host w', (in_status resp, j));
  reaches_get : ∀ r w w' resp b path,
    out_method r = "GET" → out_url r = base +:+ "/" +:+ path → is_valid_sha256 path = true →
    http_send r w = (w', Ok resp) → in_body resp = Ok b →
    ∃ q ans, no_read_faults (q_env q) ∧ handle_get_blob q path (host w) = (host w', (in_status resp, ans))
      ∧ ∀ ct data, ans = Some (ct, data) → b = data
}.

Lemma call_run {A} (f : W → W * A) w : call f w = ((f w).1, Ok (f w).2).
Proof. unfold call. by destruct (f w). Qed.

(** The request of an upload, when it was answered. *)
Lemma put_upload_one base c data ty extra failed w w' d :
  servers c = [base] → put_upload c data ty extra failed w = (w', Ok d) →
  ∃ w0 now nonce resp,
    w0 = (draw_nonce (unix_now w).1).1
    ∧ http_send (mkOut "PUT" (base_of base +:+ "/upload")
        (Some (auth_header_value (build_blossom_auth_for_request_with_extra_tags now nonce "upload" (Some (sha256_hex data))
           (base_of base) (base_of base +:+ "/upload") "PUT" "" extra)))
        (Some ty) (Some (vec_len data)) [Ok data]) w0 = (w', Ok resp)
    ∧ is_success (in_status resp) = true.
Proof.
  intros Hs. unfold put_upload. rewrite Hs. cbn [first_server]. intros (settled & w1 & Ha & Hr)%bind_ok.
  apply bind_ok in Ha as (auth & w2 & Hauth & Ha). apply bind_ok in Ha as (result & w3 & Hsend & Hup).
  unfold request_auth, bind in Hauth. rewrite !call_run in Hauth. injection Hauth as <- <-.
  unfold send, call in Hsend. destruct (http_send _ _) as [w4 x] eqn:Es. injection Hsend as <- <-.
  unfold uploaded in Hup. destruct x as [resp|]; [| by injection Hup as <- <-].
  destruct (is_success (in_status resp)) eqn:Eok; [| by injection Hup as <- <-].
  assert (w4 = w') as <-.
  { destruct (in_body resp); [| done]. destruct (descriptor_from_slice _); [| done]. destruct (decide _); [done |].
    injection Hup as <- <-. by injection Hr. }
  do 4 eexists. split; [done |]. by split.
Qed.

(** An event without LFS tags is not taken for an LFS upload. *)
Lemma plain_context headers now nonce h base url :
  header_str headers "authorization" =
    Some (auth_header_value (build_blossom_auth_for_request_with_extra_tags now nonce "upload" (Some h) base url "PUT" "" [])) →
  ctx_of headers = default_lfs_context.
Proof. intros Hh. unfold ctx_of. by rewrite (extract_header _ _ Hh). Qed.

Lemma delivered_one (data : list byte) : delivered [Ok data] = data ∧ read_error [Ok data] = None.
Proof. destruct data; cbn; by rewrite ?app_nil_r. Qed.

(** The server after an upload that the client reports as done. *)
Lemma uploaded_stored base host c data ty w w' d :
  Reaches (base_of base) host → servers c = [base] → server_wf (host w) →
  bytes_of (host w) (sha256_hex data) = None →
  (∀ db, s_lfs_version_db (host w) = Some db → version_of db (sha256_hex data) = None) →
  Client.upload c data ty w = (w', Ok d) →
  server_wf (host w') ∧ stored (host w') (sha256_hex data) data.
Proof.
  intros HR Hs Wf Hfresh Hnew Hu. destruct (put_upload_one base _ _ _ _ _ _ _ _ Hs Hu) as (w0 & now & nonce & resp & -> & Hsend & Hok).
  assert (Eh : host (draw_nonce (unix_now w).1).1 = host w) by (by rewrite (reaches_nonce _ _ HR), (reaches_now _ _ HR)).
  edestruct (reaches_upload _ _ HR) as (q & headers & j & Hf & Hh & Hup); [| | exact Hsend |]; [done.. |]. rewrite Eh in Hup. cbn in Hup.
  assert (Eb : out_bytes (mkOut "PUT" (base_of base +:+ "/upload") None None None [Ok data]) = Ok data).
  { unfold out_bytes. cbn [out_body]. by destruct (delivered_one data) as [-> ->]. }
  unfold out_bytes in Hup, Eb. cbn [out_body] in Hup, Eb. rewrite Eb in Hup.
  pose proof (plain_context headers _ _ _ _ _ Hh) as Ec.
  destruct (handle_upload_effect q headers _ _ _ _ (proj1 Wf) Hup) as [W' [(_ & _ & Hbad) | (data' & Hd & Heff)]].
  - exfalso. unfold is_success in Hok. cbn in Hbad. apply andb_true_iff in Hok as [_ Hok]. apply Z.ltb_lt in Hok. lia.
  - cbn in Hd. injection Hd as <-. rewrite Ec in Heff. split.
    + split; [done | eapply upload_effect_wf; [apply Wf | exact Heff]].
    + eapply upload_effect_stores; [apply Wf | exact Hf | done | done | | | exact Heff]; [done | by intros ? ? _ ?].
Qed.

(** C15: the client's round trip.  Take a client of one server, which keeps
    the memory version database (or none) and whose storage reads do not fail.  A
    blob of whose hash the server has neither bytes nor version record, uploaded by
    the client with success and without LFS tags, and kept through any requests of
    the Blossom API (the kinds of C1) that neither delete it nor send it again as
    LFS content, is what the client downloads, when the server's answers arrive. *)
Theorem client_round_trip base host c data ty w w1 d rs w2 :
  Reaches (base_of base) host → servers c = [base] → server_wf (host w) →
  bytes_of (host w) (sha256_hex data) = None →
  (∀ db, s_lfs_version_db (host w) = Some db → version_of db (sha256_hex data) = None) →
  Client.upload c data ty w = (w1, Ok d) →
  Forall (spares (sha256_hex data)) rs → host w2 = serve_all rs (host w1) →
  (∀ r w, out_method r = "GET" → ∃ w' resp b, http_send r w = (w', Ok resp) ∧ in_body resp = Ok b) →
  (Client.download c (sha256_hex data) w2).2 = Ok data.
Proof.
  intros HR Hs Wf Hfresh Hnew Hu Hall E2 Harrives.
  destruct (uploaded_stored _ _ _ _ _ _ _ _ HR Hs Wf Hfresh Hnew Hu) as [W1 Hst].
  destruct (serve_all_stored rs _ _ data W1 Hall Hst) as [W2 Hst2]. rewrite <- E2 in W2, Hst2.
  unfold Client.download. rewrite Hs. unfold bind at 1. rewrite call_run. unfold bind at 1. rewrite call_run. cbn [first_server].
  set (w3 := (draw_nonce (unix_now w2).1).1).
  assert (Eh : host w3 = host w2) by (subst w3; by rewrite (reaches_nonce _ _ HR), (reaches_now _ _ HR)).
  set (r := mkOut "GET" _ _ _ _ _). destruct (Harrives r w3 eq_refl) as (w4 & resp & b & Hsend & Hb).
  destruct (reaches_get _ _ HR r w3 w4 resp b (sha256_hex data)) as (q & ans & Hf & Hg & Hbody);
    [done | done | apply valid_hash_sha256 | done | done |].
  rewrite Eh in Hg. destruct (get_stored q (host w2) (sha256_hex data) data (proj1 W2) Hf (valid_hash_sha256 data) Hst2) as [ct Hans].
  rewrite Hg in Hans. cbn in Hans. injection Hans as Estatus Eans. specialize (Hbody _ _ Eans) as ->.
  unfold bind, send, call. rewrite Hsend, Estatus. cbn. rewrite Hb. by rewrite decide_False by tauto.
Qed.
End roundtrip.

Module ClientServerExamples.
Import Concrete ConcreteCodec ConcreteWire RequestAuthExamples DurableExamples.

(** A network that loses nothing, with one server and a clock that stands still;
    the text of a descriptor is its hash. *)
Notation World := (ServerState MemoryBackend MemoryDatabase MemoryLfsVersionDatabase).
Definition headers_of (r : OutRequest) : HeaderMap :=
  match out_authorization r with Some a => {["authorization" := Some a]} | None => ∅ end.
#[local] Instance bodies : BodyJson := {|
  descriptor_from_slice b := Ok (mkDescriptor (from_utf8_unchecked b) 0 None None None);
  descriptor_list_from_slice _ := Err "not used"
|}.
Definition answer (r : OutRequest) (s : World) : World * result InResponse string :=
  if decide (out_method r = "PUT") then
    let '(s', (status, j)) :=
      Server.handle_upload request (headers_of r) (mkBody (out_bytes r) (out_content_length r)) s in
    (s', Ok (mkIn status (Ok (match json_get j "sha256" with Some (JStr h) => as_bytes h | _ => [] end))))
  else
    let '(s', (status, ans)) := handle_get_blob request (default "" (strip_prefix "http://s/" (out_url r))) s in
    (s', Ok (mkIn status (Ok (match ans with Some (_, data) => data | None => [] end)))).
#[local] Instance network : Outside World := {|
  http_send := answer;
  quic_exchange _ _ _ s := (s, Err "no route");
  unix_now s := (s, 1000);
  draw_nonce s := (s, "n");
  file_len _ s := (s, Err "no such file");
  open_file _ s := (s, Err "no such file")
|}.

Lemma reached : Reaches "http://s" (fun s : World => s).
Proof.
  split; [done | done | |].
  - intros r w w' resp Hm _. cbn. unfold answer. rewrite decide_True by done.
    destruct (Server.handle_upload _ _ _ _) as [s' [status j]] eqn:E. intros [= <- <-].
    exists request, (headers_of r), j. split; [done |]. split; [| done].
    unfold headers_of. destruct (out_authorization r) as [a|]; vm_compute; reflexivity.
  - intros r w w' resp b path Hm Hu _. cbn. unfold answer. rewrite decide_False by (by rewrite Hm). rewrite Hu.
    change ("http://s" +:+ "/" +:+ path) with ("http://s/" +:+ path). rewrite strip_prefix_app. cbn [default from_option id].
    destruct (handle_get_blob request path w) as [s' [status ans]] eqn:E. intros [= <- <-] [= <-].
    exists request, ans. split; [done |]. split; [done |]. by intros ct data ->.
Qed.

Definition client : BlossomClient := mkClient ["http://s/"].
Definition sent : World * result BlobDescriptor string := Client.upload client v1 "text/plain" empty_server.

Lemma client_round_trip_witness : (Client.download client (sha256_hex v1) sent.1).2 = Ok v1.
Proof.
  destruct sent.2 as [d|e] eqn:E; [| vm_compute in E; discriminate E].
  apply (client_round_trip "http://s/" (fun s => s) client v1 "text/plain" empty_server sent.1 d [] sent.1).
  - exact reached.
  - reflexivity.
  - split; [done |]. intros db v. intros [= <-]. intros [].
  - reflexivity.
  - intros db [= <-]. reflexivity.
  - rewrite <- E. apply surjective_pairing.
  - constructor.
  - reflexivity.
  - clear E d. intros r w Hm. cbn [http_send network]. unfold answer. rewrite Hm. rewrite decide_False by discriminate.
    destruct (handle_get_blob _ _ _) as [s' [status ans]]. by do 3 eexists.
Defined.

(** The same through the client of both transports, without a peer. *)
Definition both : MultiTransportClient BlossomClient IrohBlossomClient string := http_only client.
#[local] Instance no_json : ClientJson := {|
  descriptor_from_value _ := Err "not used";
  lock_from_value _ := Err "not used";
  locks_from_value _ := Err "not used";
  descriptors_from_slice _ := Err "not used"
|}.
Lemma client_answers_verified_witness :
  (MultiClient.download both (sha256_hex v1) sent.1).2 = Ok v1 ∧ sha256_hex v1 = sha256_hex v1.
Proof.
  assert (E : MultiClient.download both (sha256_hex v1) sent.1
              = ((MultiClient.download both (sha256_hex v1) sent.1).1, Ok v1)) by (vm_compute; reflexivity).
  split; [by rewrite E |].
  exact (proj1 (client_answers_verified both sent.1 (MultiClient.download both (sha256_hex v1) sent.1).1) (sha256_hex v1) v1 E).
Defined.
End ClientServerExamples.
