(* ===== verification/Batch.v ===== *)
(** * Uploading files in batches ([src/src/client/batch.rs])

    One after the other, or as tasks that share a semaphore.  A task is waiting
    for a permit, uploading, or finished; the steps of the tasks interleave in any
    order, and what an upload gives depends on what the outside is at the time. *)

From Stdlib Require Import ZArith Lia Ascii String.
From Stdlib Require Import Strings.Byte.
From stdpp Require Import base list gmap strings numbers sets relations.
From S2P Require Import Prelude Effects Protocol Auth Wire Iroh IrohClient Client.

Open Scope string_scope.
Open Scope Z_scope.
Open Scope handler_scope.

(** ** Content types *)

(** [Path::file_name], [Path::extension] of a path that is text. *)
Definition file_name (path : string) : option string :=
  match list.last (List.filter (fun c => negb (bool_decide (c = "") || bool_decide (c = "."))) (split_char "/" path)) with
  | Some name => if decide (name = "..") then None else Some name
  | None => None
  end.
Definition extension (path : string) : option string :=
  match file_name path with
  | None => None
  | Some name =>
      match rev (split_char "." name) with
      | after :: before => if decide (before = [] ∨ before = [""]) then None else Some after
      | [] => None
      end
  end.

(** [detect_content_type]. *)
Definition content_types : list (list string * string) :=
  [(["jpg"; "jpeg"], "image/jpeg"); (["png"], "image/png"); (["gif"], "image/gif"); (["webp"], "image/webp");
   (["svg"], "image/svg+xml"); (["mp4"], "video/mp4"); (["webm"], "video/webm"); (["pdf"], "application/pdf");
   (["json"], "application/json"); (["txt"], "text/plain"); (["html"; "htm"], "text/html"); (["css"], "text/css");
   (["js"], "application/javascript"); (["wasm"], "application/wasm"); (["zip"], "application/zip");
   (["gz"; "gzip"], "application/gzip"); (["tar"], "application/x-tar")].
Definition detect_content_type (path : string) : string :=
  match extension path with
  | Some e => match List.find (fun t => bool_decide (e ∈ fst t)) content_types with
              | Some (_, ty) => ty
              | None => "application/octet-stream"
              end
  | None => "application/octet-stream"
  end.

Example content_types_detected :
  map detect_content_type ["photo.jpg"; "a.b/doc.pdf"; "data.bin"; "style.css"; ".png"; "x.tar.gz"; "dir/"; "PHOTO.JPG"]
  = ["image/jpeg"; "application/pdf"; "application/octet-stream"; "text/css"; "application/octet-stream"; "application/gzip";
     "application/octet-stream"; "application/octet-stream"].
Proof. vm_compute. reflexivity. Qed.

(** [DEFAULT_MAX_CONCURRENT]. *)
Definition DEFAULT_MAX_CONCURRENT : Z := 8.

Section batch.
Context {W C Address : Type} `{BlobClient W C Address}.
Notation R := (result BlobDescriptor string).

(** The upload of one file. *)
Definition upload_one (client : C) (addr : Address) (path : string) : W → W * R :=
  bc_upload_file client addr path (detect_content_type path).

(** [upload_batch]. *)
Definition upload_batch (client : C) (addr : Address) (files : list string) (w : W) : W * list R :=
  fold_left (fun s path =>
    let '(w, results) := (s : W * list R) in
    let '(w, result) := upload_one client addr path w in (w, results ++ [result])%list) files (w, []).

(** ** Tasks *)

(** A task of [upload_batch_concurrent]; a finished one may have panicked. *)
Inductive Task := Waiting | Uploading | Finished (r : option R).
Record Batch := mkBatch { bt_permits : Z; bt_tasks : list Task }.

(** The tasks as they are spawned. *)
Definition spawn (max_concurrent : Z) (files : list string) : Batch := mkBatch max_concurrent (map (fun _ => Waiting) files).

(** What the task of a file can give: what an upload of it gives, or a panic. *)
Definition gives (client : C) (addr : Address) (files : list string) (i : nat) (r : option R) : Prop :=
  ∀ x, r = Some x → ∃ path w w', files !! i = Some path ∧ upload_one client addr path w = (w', x).

(** A task acquires a permit, or ends and drops it. *)
Inductive batch_step (client : C) (addr : Address) (files : list string) : Batch → Batch → Prop :=
| acquire i p ts : ts !! i = Some Waiting → 0 < p →
    batch_step client addr files (mkBatch p ts) (mkBatch (p - 1) (<[i := Uploading]> ts))
| finish i r p ts : ts !! i = Some Uploading → gives client addr files i r →
    batch_step client addr files (mkBatch p ts) (mkBatch (p + 1) (<[i := Finished r]> ts)).

Definition is_finished (t : Task) : bool := match t with Finished _ => true | _ => false end.
Definition is_uploading (t : Task) : bool := match t with Uploading => true | _ => false end.

(** The end of [upload_batch_concurrent]: the results of the finished tasks. *)
Fixpoint fill (i : nat) (ts : list Task) (results : list (option R)) : list (option R) :=
  match ts with
  | [] => results
  | t :: ts => fill (S i) ts (match t with Finished (Some r) => <[i := Some r]> results | _ => results end)
  end.
Definition collect (ts : list Task) : list R :=
  map (fun r => match r with Some r => r | None => Err "task panicked" end) (fill 0 ts (map (fun _ => None) ts)).

(** ** What the steps keep *)

Definition uploading (b : Batch) : Z := Z.of_nat (length (List.filter is_uploading (bt_tasks b))).
(** The steps a task still has to make. *)
Definition weight (t : Task) : nat := match t with Waiting => 2 | Uploading => 1 | Finished _ => 0 end.
Definition left_to_do (b : Batch) : nat := sum_list_with weight (bt_tasks b).

Lemma insert_count (f : Task → bool) ts i t t' :
  ts !! i = Some t →
  (length (List.filter f (<[i := t']> ts)) + (if f t then 1 else 0) = length (List.filter f ts) + (if f t' then 1 else 0))%nat.
Proof.
  revert i. induction ts as [|x ts IH]; intros [|i]; [done | done | |].
  - intros [= ->]. change (<[0%nat := t']> (t :: ts)) with (t' :: ts). cbn [List.filter]. destruct (f t), (f t'); cbn [length]; lia.
  - intros Ht. change (<[S i := t']> (x :: ts)) with (x :: <[i := t']> ts). specialize (IH i Ht). cbn [List.filter].
    destruct (f x); cbn [length]; lia.
Qed.
Lemma insert_weight ts i t t' :
  ts !! i = Some t → (sum_list_with weight (<[i := t']> ts) + weight t = sum_list_with weight ts + weight t')%nat.
Proof.
  revert i. induction ts as [|x ts IH]; intros [|i]; [done | done | |].
  - intros [= ->]. change (<[0%nat := t']> (t :: ts)) with (t' :: ts). cbn [sum_list_with]. lia.
  - intros Ht. change (<[S i := t']> (x :: ts)) with (x :: <[i := t']> ts). specialize (IH i Ht). cbn [sum_list_with]. lia.
Qed.

Section steps.
Context (client : C) (addr : Address) (files : list string) (max : Z).
Notation step := (batch_step client addr files).

(** Permits are conserved, and the finished tasks have their results. *)
Definition batch_ok (b : Batch) : Prop :=
  uploading b + bt_permits b = max ∧ 0 <= bt_permits b ∧ length (bt_tasks b) = length files
  ∧ ∀ i r, bt_tasks b !! i = Some (Finished r) → gives client addr files i r.

Lemma spawn_ok : 0 <= max → batch_ok (spawn max files).
Proof.
  intros Hm. unfold batch_ok, uploading, spawn. cbn. rewrite length_map. split; [| split; [done | split; [done |]]].
  - clear. induction files as [|f l IH]; [done |]. exact IH.
  - intros i r Hi. apply list_lookup_fmap_Some in Hi as (? & ? & _). done.
Qed.

Lemma step_ok b b' : step b b' → batch_ok b → batch_ok b' ∧ S (left_to_do b') = left_to_do b.
Proof.
  intros [i p ts Hi Hp | i r p ts Hi Hg] (Hc & Hnn & Hl & Hr); unfold batch_ok, uploading, left_to_do in *; cbn in *.
  - pose proof (insert_count is_uploading ts i Waiting Uploading Hi). pose proof (insert_weight ts i Waiting Uploading Hi).
    cbn in *. split; [| lia]. split; [lia |]. split; [lia |]. split; [by rewrite length_insert |].
    intros j r [(-> & [=] & _) | (? & Hj)]%list_lookup_insert_Some. by apply Hr.
  - pose proof (insert_count is_uploading ts i Uploading (Finished r) Hi).
    pose proof (insert_weight ts i Uploading (Finished r) Hi).
    cbn in *. split; [| lia]. split; [lia |]. split; [lia |]. split; [by rewrite length_insert |].
    intros j r' [(-> & [= ->] & _) | (? & Hj)]%list_lookup_insert_Some; [done | by apply Hr].
Qed.

(** A task can go on as long as there is a permit at all: one that uploads ends
    with what its upload gives, else one that waits starts. *)
Lemma step_possible b (w : W) :
  batch_ok b → 0 < max → forallb is_finished (bt_tasks b) = false → ∃ b', step b b'.
Proof.
  intros (Hc & Hnn & Hl & _) Hm Hf. destruct b as [p ts]. unfold uploading in Hc. cbn in *.
  destruct (List.filter is_uploading ts) as [|t l] eqn:Eu.
  - destruct (forallb (fun t => negb (bool_decide (weight t = 2%nat))) ts) eqn:Ew.
    + exfalso. rewrite <- not_true_iff_false in Hf. apply Hf. apply forallb_forall. intros t Ht.
      rewrite forallb_forall in Ew. specialize (Ew t Ht). destruct t; [done | | done].
      assert (Hin : In Uploading (List.filter is_uploading ts)) by by apply filter_In. by rewrite Eu in Hin.
    + apply not_true_iff_false in Ew. rewrite forallb_forall in Ew.
      destruct (list_find (fun t => weight t = 2%nat) ts) as [[i t]|] eqn:Ef.
      * apply list_find_Some in Ef as (Hi & Ht & _). destruct t; [| done..]. eexists. cbn in Hc. apply (acquire _ _ _ i); [done | lia].
      * exfalso. apply Ew. apply list_find_None in Ef. rewrite list.Forall_forall in Ef. intros t Ht%list_elem_of_In.
        specialize (Ef t Ht). cbn in Ef. destruct t; done.
  - assert (Hin : In t (List.filter is_uploading ts)) by (rewrite Eu; by left). apply filter_In in Hin as [Hin Ht].
    destruct t; [done | | done]. apply list_elem_of_In, list_elem_of_lookup in Hin as [i Hi].
    destruct (lookup_lt_is_Some_2 files i) as [path Hp]; [rewrite <- Hl; by eapply lookup_lt_Some |].
    destruct (upload_one client addr path w) as [w' x] eqn:Ex. eexists. apply (finish _ _ _ i (Some x)); [done |].
    intros y [= <-]. by exists path, w, w'.
Qed.

Lemma steps_ok b b' n : nsteps step n b b' → batch_ok b → batch_ok b' ∧ (left_to_do b' + n = left_to_do b)%nat.
Proof.
  induction 1 as [|n b b1 b' Hs _ IH]; intros Hb; [split; [done | lia] |].
  destruct (step_ok _ _ Hs Hb) as [H1 E1]. destruct (IH H1) as [? ?]. split; [done | lia].
Qed.
Lemma finished_weight ts : forallb is_finished ts = true ↔ sum_list_with weight ts = 0%nat.
Proof.
  induction ts as [|t ts IH]; cbn -[weight]; [done |]. rewrite andb_true_iff, IH. destruct t; cbn; intuition (done || lia).
Qed.
Lemma spawn_weight : left_to_do (spawn max files) = (2 * length files)%nat.
Proof. unfold left_to_do, spawn. cbn [bt_tasks]. clear. induction files as [|f l IH]; [done |]. cbn [map sum_list_with weight length]. lia. Qed.

(** What [fill] does to each place. *)
Lemma fill_lookup ts : ∀ k results i,
  (k + length ts <= length results)%nat →
  fill k ts results !! i =
    match results !! i with
    | Some old => Some (if decide (k <= i)%nat then match ts !! (i - k)%nat with Some (Finished (Some r)) => Some r | _ => old end
                        else old)
    | None => None
    end.
Proof.
  induction ts as [|t ts IH]; intros k results i Hl; cbn [fill length] in *.
  { destruct (results !! i); [| done]. by case_decide. }
  rewrite IH by (destruct t as [| |[r|]]; rewrite ?length_insert; lia).
  destruct (decide (i = k)) as [-> | Hi].
  - destruct (lookup_lt_is_Some_2 results k ltac:(lia)) as [old Ho].
    assert (E : (match t with Finished (Some r) => <[k := Some r]> results | _ => results end) !! k
                = Some (match t with Finished (Some r) => Some r | _ => old end)).
    { destruct t as [| |[r|]]; try done. rewrite list_lookup_insert_eq by lia. done. }
    rewrite E, Ho, Nat.sub_diag. rewrite decide_False by lia. by rewrite decide_True by lia.
  - assert (E : (match t with Finished (Some r) => <[k := Some r]> results | _ => results end) !! i = results !! i).
    { destruct t as [| |[r|]]; try done. by rewrite list_lookup_insert_ne by done. }
    rewrite E. destruct (results !! i) as [old|]; [| done]. f_equal.
    destruct (decide (S k <= i)%nat); [| by rewrite decide_False by lia].
    rewrite decide_True by lia. replace (i - k)%nat with (S (i - S k)) by lia. done.
Qed.
Lemma collect_lookup ts i : collect ts !! i =
  match ts !! i with Some (Finished (Some r)) => Some r | Some _ => Some (Err "task panicked") | None => None end.
Proof.
  unfold collect. rewrite list_lookup_fmap, fill_lookup by (rewrite length_map; lia). rewrite list_lookup_fmap, Nat.sub_0_r.
  destruct (ts !! i) as [[| |[r|]]|]; done.
Qed.
End steps.

(** C17: a concurrent batch.  With [max_concurrent] at least one and uploads
    that return, the tasks always finish, whatever the order of their steps: two
    for each file, one of which can be made as long as a task is left; no more than
    [max_concurrent] files are uploaded at a time; and when all have finished, the
    results stand in the order of the files, each what an upload of that file gave,
    or a panic. *)
Theorem batch_completes (client : C) (addr : Address) (files : list string) (max : Z) n b (w : W) :
  0 < max → nsteps (batch_step client addr files) n (spawn max files) b →
  uploading b <= max ∧ (n <= 2 * length files)%nat
  ∧ ((∃ b', batch_step client addr files b b') ∨
     n = (2 * length files)%nat ∧ length (collect (bt_tasks b)) = length files
     ∧ ∀ i x, collect (bt_tasks b) !! i = Some x → x = Err "task panicked" ∨ gives client addr files i (Some x)).
Proof.
  intros Hm Hn. destruct (steps_ok client addr files max _ _ _ Hn (spawn_ok client addr files max ltac:(lia))) as [Hok Hleft].
  rewrite (spawn_weight files max) in Hleft. pose proof Hok as (Hc & Hnn & Hl & Hr).
  split; [lia |]. split; [lia |]. destruct (forallb is_finished (bt_tasks b)) eqn:Ef; [right | left; by eapply step_possible].
  apply finished_weight in Ef. unfold left_to_do in *. split; [lia |]. split.
  - rewrite <- Hl. unfold collect. rewrite length_map. clear. assert (Hgen : ∀ ts k results, length (fill k ts results) = length results).
    { induction ts as [|t ts IH]; intros k results; cbn; [done |]. rewrite IH. destruct t as [| |[r|]]; by rewrite ?length_insert. }
    by rewrite Hgen, length_map.
  - intros i x. rewrite collect_lookup. destruct (bt_tasks b !! i) as [[| |[r|]]|] eqn:Ei; try done; intros [= <-]; try by left.
    right. by apply (Hr i).
Qed.
End batch.

Module BatchExamples.
(** A client whose uploads are answered with the path and how many came before. *)
#[local] Instance counting : BlobClient Z unit unit := {|
  bc_upload _ _ _ _ := early "not used";
  bc_download _ _ _ := early "not used";
  bc_exists _ _ _ := early "not used";
  bc_delete _ _ _ := early "not used";
  bc_list _ _ _ := early "not used";
  bc_upload_file _ _ path ty w := (w + 1, Ok (mkDescriptor path w (Some ty) None None))
|}.
Definition files : list string := ["a.png"; "b"].
Definition result_of (w : Z) (path ty : string) : result BlobDescriptor string := Ok (mkDescriptor path w (Some ty) None None).

(** The second file is uploaded first. *)
Definition done_b : list Task :=
  [Finished (Some (result_of 1 "a.png" "image/png")); Finished (Some (result_of 0 "b" "application/octet-stream"))].
Lemma second_first : nsteps (batch_step tt tt files) 4 (spawn 1 files) (mkBatch 1 done_b).
Proof.
  eapply nsteps_l; [apply (acquire tt tt files 1%nat); [reflexivity | lia] |].
  eapply nsteps_l; [apply (finish tt tt files 1%nat (Some (result_of 0 "b" "application/octet-stream"))); [reflexivity |] |].
  { intros x [= <-]. exists "b", 0, 1. split; vm_compute; reflexivity. }
  eapply nsteps_l; [apply (acquire tt tt files 0%nat); [reflexivity | lia] |].
  eapply nsteps_l; [apply (finish tt tt files 0%nat (Some (result_of 1 "a.png" "image/png"))); [reflexivity |] |].
  { intros x [= <-]. exists "a.png", 1, 2. split; vm_compute; reflexivity. }
  apply nsteps_O.
Qed.

Lemma batch_completes_witness :
  uploading (mkBatch 1 done_b) <= 1
  ∧ collect done_b = [result_of 1 "a.png" "image/png"; result_of 0 "b" "application/octet-stream"].
Proof.
  split; [| vm_compute; reflexivity].
  exact (proj1 (batch_completes tt tt files 1 4 (mkBatch 1 done_b) 0 ltac:(lia) second_first)).
Defined.

(** Without a permit no task ever starts. *)
Example no_permit_no_step b : ¬ batch_step tt tt files (spawn 0 files) b.
Proof.
  intros Hs. remember (spawn 0 files) as b0 eqn:E. destruct Hs as [i p ts Hi Hp | i r p ts Hi _]; injection E as -> ->; [lia |].
  destruct i as [|[|i]]; discriminate Hi.
Qed.
End BatchExamples.
