(* ===== verification/Sql.v ===== *)
(** * The SQL engines ([src/src/db/sqlite.rs], [src/src/db/postgres.rs])

    What the database files ask of SQLite and PostgreSQL, through sqlx: tables
    that are maps from their primary keys, statements that happen as a whole or
    fail, and transactions that are rolled back when they are dropped before
    their commit.  [Dialect] holds what the two engines do differently. *)

From Stdlib Require Import ZArith Lia Ascii String Floats.SpecFloat.
From stdpp Require Import base list gmap strings numbers.
From S2P Require Import Prelude Effects Protocol RateLimit Storage Lfs Database.

Open Scope string_scope.
Open Scope Z_scope.
Open Scope handler_scope.

(** ** Running statements *)

(** A connection: the tables, the number of statements run so far, and which of
    them fail, by that number and the name the code gives the statement in its
    error messages. *)
Record Engine (T : Type) := mkEngine {
  en_tables : T;
  en_tick : nat;
  en_faults : nat → string → option string
}.
Arguments mkEngine {T} _ _ _.
Arguments en_tables {T} _.
Arguments en_tick {T} _.
Arguments en_faults {T} _ _ _.

Section statements.
Context {T : Type}.
Notation M := (MR (Engine T) string).

(** A statement, which may fail by itself too, on a constraint or an overflow;
    the error has the message the code maps it to. *)
Definition exec {A} (what : string) (statement : T → result (T * A) string) : M A :=
  fun e =>
    let failed m := (mkEngine (en_tables e) (S (en_tick e)) (en_faults e), Err (what +:+ ": " +:+ m)) in
    match en_faults e (en_tick e) what with
    | Some m => failed m
    | None =>
        match statement (en_tables e) with
        | Ok (t, a) => (mkEngine t (S (en_tick e)) (en_faults e), Ok a)
        | Err m => failed m
        end
    end.
(** A statement that only reads. *)
Definition query {A} (what : string) (rows : T → result A string) : M A :=
  exec what (fun t => match rows t with Ok a => Ok (t, a) | Err m => Err m end).
Definition begin (what : string) : M unit := exec what (fun t => Ok (t, tt)).
Definition commit (what : string) : M unit := exec what (fun t => Ok (t, tt)).

(** A transaction is rolled back unless it ends with its commit. *)
Definition transaction {A} (what : string) (m : M A) : M A :=
  begin what ;!
  fun e => let '(e', r) := m e in
           match r with
           | Ok a => (e', Ok a)
           | Err m => (mkEngine (en_tables e) (en_tick e') (en_faults e'), Err m)
           end.
End statements.

(** ** Numbers *)

(** A column of 64-bit integers.  SQLite turns a sum that overflows into a
    floating-point number and stores that. *)
Inductive Num := Int (z : Z) | Real (f : f64).

Definition i64_min : Z := -9223372036854775808.
Definition in_i64 (z : Z) : bool := (i64_min <=? z) && (z <=? i64_max).

Lemma u64_of_i64 z : in_u64 z → as_u64 (as_i64 z) = z.
Proof.
  unfold in_u64, as_u64, as_i64. intros Hz. change u64_max with 18446744073709551615 in *.
  Z.div_mod_to_equations. lia.
Qed.
Lemma i64_small z : 0 <= z <= i64_max → as_i64 z = z.
Proof. unfold as_i64, i64_max. change u64_max with 18446744073709551615. intros. Z.div_mod_to_equations. lia. Qed.
Lemma u64_small z : 0 <= z <= i64_max → as_u64 z = z.
Proof. unfold as_u64, i64_max. change u64_max with 18446744073709551615. intros. Z.div_mod_to_equations. lia. Qed.

(** Decoding a column as [i64]. *)
Definition as_column (n : Num) : result Z string :=
  match n with
  | Int z => Ok z
  | Real _ => Err "mismatched types; Rust type `i64` is not compatible with SQL type `REAL`"
  end.

(** What the two engines do differently: adding a number to a column, taking
    one off it down to zero, and the texts they take. *)
Class Dialect : Type := {
  num_add : Num → Z → result Num string;
  num_sub_floor : Num → Z → result Num string;
  text_ok : string → bool
}.

Module Sqlite.
Definition to_f64 (n : Num) : f64 := match n with Int z => u64_as_f64 z | Real f => f end.
(** [INTEGER] affinity: a whole number within the range is stored as one. *)
Definition exact_i64 (x : f64) : option Z :=
  match x with
  | S754_zero _ => Some 0
  | S754_finite s m e =>
      let whole := if 0 <=? e then Some (Z.pos m * 2 ^ e)
                   else if Z.pos m mod 2 ^ (- e) =? 0 then Some (Z.pos m / 2 ^ (- e)) else None in
      match whole with
      | Some v => let v := if s then - v else v in
                  if (i64_min <? v) && (v <? i64_max) then Some v else None
      | None => None
      end
  | _ => None
  end.
Definition store (n : Num) : Num :=
  match n with Int _ => n | Real f => match exact_i64 f with Some z => Int z | None => Real f end end.
(** [a + b], [a - b]. *)
Definition arith (op : Z → Z → Z) (fop : f64 → f64 → f64) (a : Num) (b : Z) : Num :=
  match a with
  | Int z => if in_i64 (op z b) then Int (op z b) else Real (fop (u64_as_f64 z) (u64_as_f64 b))
  | Real f => Real (fop f (u64_as_f64 b))
  end.
(** [MAX(0, n)]. *)
Definition max0 (n : Num) : Num :=
  match n with
  | Int z => Int (Z.max 0 z)
  | Real f => if SFltb (S754_zero false) f then Real f else Int 0
  end.
#[local] Instance dialect : Dialect := {|
  num_add a b := Ok (store (arith Z.add (SFadd 53 1024) a b));
  num_sub_floor a b := Ok (store (max0 (arith Z.sub (SFsub 53 1024) a b)));
  text_ok _ := true
|}.
End Sqlite.

Module Postgres.
(** [BIGINT] arithmetic fails on overflow, and a [TEXT] holds no zero byte. *)
Definition arith (op : Z → Z → Z) (a : Num) (b : Z) : result Z string :=
  match a with
  | Int z => if in_i64 (op z b) then Ok (op z b) else Err "bigint out of range"
  | Real _ => Err "bigint out of range"
  end.
#[local] Instance dialect : Dialect := {|
  num_add a b := let? z := arith Z.add a b in Ok (Int z);
  num_sub_floor a b := let? z := arith Z.sub a b in Ok (Int (Z.max 0 z));
  text_ok s := str_all (fun c => negb (bool_decide (code c = 0))) s
|}.
End Postgres.

(** What the code needs of the arithmetic: it is exact while it does not overflow. *)
Class DialectLaws `{Dialect} : Prop := {
  add_exact : ∀ a b, i64_min <= a + b <= i64_max → num_add (Int a) b = Ok (Int (a + b));
  sub_floor_exact : ∀ a b, i64_min <= a - b <= i64_max → num_sub_floor (Int a) b = Ok (Int (Z.max 0 (a - b)))
}.

Lemma in_i64_true z : i64_min <= z <= i64_max → in_i64 z = true.
Proof. intros ?. apply andb_true_iff. by rewrite !Z.leb_le. Qed.

Lemma sqlite_laws : @DialectLaws Sqlite.dialect.
Proof. split; intros a b Hb; cbn; by rewrite (in_i64_true _ Hb). Qed.
Lemma postgres_laws : @DialectLaws Postgres.dialect.
Proof. split; intros a b Hb; cbn; by rewrite (in_i64_true _ Hb). Qed.

(** A statement with the texts bound to it. *)
Definition bound `{Dialect} {T A} (texts : list string) (f : T → result (T * A) string) (t : T) : result (T * A) string :=
  if forallb text_ok texts then f t else Err "invalid byte sequence for encoding UTF8: 0x00".

(** ** Reasoning *)

Section reasoning.
Context `{Dialect} {T : Type}.
Notation M := (MR (Engine T) string).

(** No statement is refused. *)
Definition healthy (e : Engine T) : Prop :=
  (∀ n what, en_faults e n what = None) ∧ ∀ s, text_ok s = true.

(** [m] does [f] to the tables and gives [a], or fails without a trace, which it
    does on an unhealthy engine only. *)
Definition does {A} (m : M A) (t t' : T) (a : A) : Prop :=
  ∀ e, en_tables e = t →
    (en_tables (m e).1 = t' ∧ (m e).2 = Ok a ∧ en_faults (m e).1 = en_faults e)
    ∨ (en_tables (m e).1 = t ∧ (∃ msg, (m e).2 = Err msg) ∧ ¬ healthy e).
(** The same without the rollback: a failure may leave some of the work. *)
Definition gives {A} (m : M A) (t t' : T) (a : A) : Prop :=
  ∀ e, en_tables e = t →
    (en_tables (m e).1 = t' ∧ (m e).2 = Ok a ∧ en_faults (m e).1 = en_faults e)
    ∨ ((∃ msg, (m e).2 = Err msg) ∧ ¬ healthy e).

Lemma does_gives {A} (m : M A) t t' a : does m t t' a → gives m t t' a.
Proof. intros Hm e He. destruct (Hm e He) as [? | [_ ?]]; [by left | by right]. Qed.
Lemma fault_unhealthy (e : Engine T) n what msg : en_faults e n what = Some msg → ¬ healthy e.
Proof. intros E [Hf _]. by rewrite Hf in E. Qed.
Lemma does_exec {A} what (f : T → result (T * A) string) t t' a : f t = Ok (t', a) → does (exec what f) t t' a.
Proof.
  intros Hf e He. unfold exec. destruct (en_faults e _ _) eqn:E.
  - right. split; [done |]. split; [by eexists | by eapply fault_unhealthy].
  - rewrite He, Hf. by left.
Qed.
Lemma gives_ret {A} (a : A) t : gives (ret a) t t a.
Proof. intros e He. by left. Qed.
Lemma gives_bind {A B} (m : M A) (k : A → M B) t t1 t' a b :
  gives m t t1 a → gives (k a) t1 t' b → gives (bind m k) t t' b.
Proof.
  intros Hm Hk e He. unfold bind. specialize (Hm e He). destruct (m e) as [e1 r]. cbn [fst snd] in Hm.
  destruct Hm as [(E & -> & F) | [[msg ->] Hh]]; [| right; split; [by eexists | done]].
  destruct (Hk e1 E) as [(? & ? & ?) | [? Hh]]; [left; split; [done | split; [done | congruence]] | right].
  split; [done |]. unfold healthy in *. by rewrite <- F.
Qed.
Lemma does_transaction {A} what (m : M A) t t' a : gives m t t' a → does (transaction what m) t t' a.
Proof.
  intros Hm e He. unfold transaction, begin, bind, exec. destruct (en_faults e _ _) as [msg|] eqn:E.
  { right. split; [done |]. split; [by eexists | by eapply fault_unhealthy]. }
  set (e1 := mkEngine _ _ _). specialize (Hm e1 He). destruct (m e1) as [e2 r]. cbn [fst snd] in Hm.
  destruct Hm as [(? & -> & ?) | [[msg ->] ?]]; [by left | right; split; [done |]; split; [by eexists | done]].
Qed.
Lemma does_map_err {A E} (f : string → E) (m : M A) t t' a e : does m t t' a → en_tables e = t →
  (en_tables (map_err f m e).1 = t' ∧ (map_err f m e).2 = Ok a)
  ∨ (en_tables (map_err f m e).1 = t ∧ (∃ msg, (map_err f m e).2 = Err (f msg)) ∧ ¬ healthy e).
Proof.
  intros Hm He. specialize (Hm e He). unfold map_err. destruct (m e) as [e' [x|msg]]; cbn in *;
    destruct Hm as [(? & Hr & _) | (? & [? Hr] & ?)]; [left | done | done | right]; (split; [done |]); [congruence |].
  split; [by eexists | done].
Qed.

Lemma does_bound {A} what texts (f : T → result (T * A) string) t t' a :
  f t = Ok (t', a) → does (exec what (bound texts f)) t t' a.
Proof.
  intros Hf e He. unfold bound. destruct (forallb text_ok texts) eqn:E.
  - apply (does_exec what f t t' a Hf e He).
  - right. assert (Hh : ¬ healthy e).
    { intros [_ Ht]. rewrite (proj2 (List.forallb_forall text_ok texts)) in E; [done | intros; apply Ht]. }
    unfold exec. destruct (en_faults e _ _); (split; [done |]; split; [by eexists | done]).
Qed.
Lemma gives_bound {A} what texts (f : T → result (T * A) string) t t' a :
  f t = Ok (t', a) → gives (exec what (bound texts f)) t t' a.
Proof. intros. by apply does_gives, does_bound. Qed.
Lemma gives_commit what (t : T) : gives (commit what) t t tt.
Proof. by apply does_gives, does_exec. Qed.

(** The faults of an engine are its own. *)
Lemma faults_exec {A} what (f : T → result (T * A) string) : keeps en_faults (exec what f).
Proof. intros e. unfold exec. destruct (en_faults e _ _); [done |]. by destruct (f (en_tables e)) as [[? ?]|]. Qed.
Lemma faults_transaction {A} what (m : M A) : keeps en_faults m → keeps en_faults (transaction what m).
Proof. intros Hm. apply keeps_bind; [apply faults_exec |]. intros [] e. specialize (Hm e). by destruct (m e) as [e' []]. Qed.
End reasoning.
#[export] Hint Resolve faults_exec faults_transaction : blossom.
