(* ===== verification/SqlDatabase.v ===== *)
(** * The SQL databases ([src/src/db/sqlite.rs], [src/src/db/postgres.rs])

    The two files run the same statements in the two dialects.  The tables, the
    statements, and the functions of the trait as the sequences of statements
    that they run. *)

From Stdlib Require Import ZArith Lia Ascii String.
From stdpp Require Import base list gmap strings numbers.
From S2P Require Import Prelude Effects Protocol RateLimit Storage Lfs Database Sql.

Open Scope string_scope.
Open Scope Z_scope.
Open Scope handler_scope.

(** ** Tables *)

Record UploadRow := mkUploadRow { up_size : Z; up_mime_type : string; up_pubkey : string; up_created_at : Z }.
Record UserRow := mkUserRow { u_quota_bytes : option Z; u_used_bytes : Num; u_role : string }.
Record StatsRow := mkStatsRow { fs_egress_bytes : Num; fs_last_accessed : Z }.

(** [uploads], [upload_owners] (with [created_at]), [users], [file_stats]. *)
Record Tables := mkTables {
  t_uploads : gmap string UploadRow;
  t_owners : gmap (string * string) Z;
  t_users : gmap string UserRow;
  t_stats : gmap string StatsRow
}.
Definition no_rows : Tables := mkTables ∅ ∅ ∅ ∅.

Definition with_users (us : gmap string UserRow) (t : Tables) : Tables :=
  mkTables (t_uploads t) (t_owners t) us (t_stats t).
Definition with_stats (st : gmap string StatsRow) (t : Tables) : Tables :=
  mkTables (t_uploads t) (t_owners t) (t_users t) st.

Section ops.
Context `{HashOrder} `{Dialect}.
Notation M := (MR (Engine Tables) string).

(** ** Statements *)

(** [INSERT OR IGNORE INTO uploads], or [INSERT ... ON CONFLICT DO NOTHING]. *)
Definition insert_upload (record : UploadRecord) (t : Tables) : result (Tables * unit) string :=
  Ok (match t_uploads t !! r_sha256 record with
      | Some _ => t
      | None =>
          mkTables (<[r_sha256 record := mkUploadRow (as_i64 (r_size record)) (r_mime_type record) (r_pubkey record)
                                           (as_i64 (r_created_at record))]> (t_uploads t))
            (t_owners t) (t_users t) (t_stats t)
      end, tt).
(** The same [INTO upload_owners], under its foreign key; the rows affected. *)
Definition insert_owner (record : UploadRecord) (t : Tables) : result (Tables * Z) string :=
  match t_owners t !! (r_sha256 record, r_pubkey record) with
  | Some _ => Ok (t, 0)
  | None =>
      match t_uploads t !! r_sha256 record with
      | None => Err "FOREIGN KEY constraint failed"
      | Some _ =>
          Ok (mkTables (t_uploads t)
                (<[(r_sha256 record, r_pubkey record) := as_i64 (r_created_at record)]> (t_owners t))
                (t_users t) (t_stats t), 1)
      end
  end.
(** [INSERT INTO users ... ON CONFLICT(pubkey) DO UPDATE SET used_bytes = used_bytes + ?]. *)
Definition upsert_used (pubkey : string) (size : Z) (t : Tables) : result (Tables * unit) string :=
  match t_users t !! pubkey with
  | None => Ok (with_users (<[pubkey := mkUserRow None (Int size) "member"]> (t_users t)) t, tt)
  | Some u =>
      let? used := num_add (u_used_bytes u) size in
      Ok (with_users (<[pubkey := mkUserRow (u_quota_bytes u) used (u_role u)]> (t_users t)) t, tt)
  end.
(** [UPDATE users SET used_bytes = MAX(0, used_bytes - ?)], or [GREATEST(0, ...)]. *)
Definition debit_used (pubkey : string) (size : Z) (t : Tables) : result (Tables * unit) string :=
  match t_users t !! pubkey with
  | None => Ok (t, tt)
  | Some u =>
      let? used := num_sub_floor (u_used_bytes u) size in
      Ok (with_users (<[pubkey := mkUserRow (u_quota_bytes u) used (u_role u)]> (t_users t)) t, tt)
  end.
(** The join of [upload_owners] with [uploads], as the records of the owners. *)
Definition owned (t : Tables) : list (string * string * UploadRow * Z) :=
  omap (fun kc : string * string * Z =>
          match t_uploads t !! kc.1.1 with Some u => Some (kc.1, u, kc.2) | None => None end)
    (hm_iter (string * string) Z (t_owners t)).
(** [DELETE FROM uploads], which cascades to the owners; the rows affected. *)
Definition delete_row (sha256 : string) (t : Tables) : result (Tables * Z) string :=
  match t_uploads t !! sha256 with
  | None => Ok (t, 0)
  | Some _ =>
      Ok (mkTables (delete sha256 (t_uploads t)) (filter (fun kc => kc.1.1 ≠ sha256) (t_owners t))
            (t_users t) (t_stats t), 1)
  end.
(** [DELETE FROM upload_owners]; the rows affected. *)
Definition delete_owner_row (sha256 pubkey : string) (t : Tables) : result (Tables * Z) string :=
  match t_owners t !! (sha256, pubkey) with
  | None => Ok (t, 0)
  | Some _ =>
      Ok (mkTables (t_uploads t) (delete (sha256, pubkey) (t_owners t)) (t_users t) (t_stats t), 1)
  end.
(** The columns of a user that are set on conflict. *)
Definition upsert_user (pubkey : string) (new : UserRow) (update : UserRow → UserRow) (t : Tables)
    : result (Tables * unit) string :=
  Ok (with_users (<[pubkey := match t_users t !! pubkey with Some u => update u | None => new end]> (t_users t)) t, tt).

(** A row as a record. *)
Definition upload_record (sha256 : string) (row : UploadRow) (pubkey : string) (created_at : Z) : UploadRecord :=
  mkUpload sha256 (as_u64 (up_size row)) (up_mime_type row) pubkey (as_u64 created_at) None.
Definition user_record (pubkey : string) (u : UserRow) : result UserRecord string :=
  let? used := as_column (u_used_bytes u) in
  Ok (mkUser pubkey (u_role u) (as_u64 <$> u_quota_bytes u) (as_u64 used)).

(** ** Operations *)

(** [record_upload]. *)
Definition record_upload (record : UploadRecord) : M unit :=
  transaction "begin upload transaction"
    (exec "insert upload" (bound [r_sha256 record; r_mime_type record; r_pubkey record] (insert_upload record)) ;!
     let! rows := exec "insert upload owner" (bound [r_sha256 record; r_pubkey record] (insert_owner record)) in
     if decide (rows = 0) then commit "commit upload"
     else
       exec "upsert user" (bound [r_pubkey record] (upsert_used (r_pubkey record) (as_i64 (r_size record)))) ;!
       commit "commit upload").

(** [get_upload]. *)
Definition get_upload (sha256 : string) : M (option UploadRecord) :=
  exec "get upload" (bound [sha256] (fun t =>
    Ok (t, match t_uploads t !! sha256 with
           | Some u => Some (upload_record sha256 u (up_pubkey u) (up_created_at u))
           | None => None
           end))).

(** [list_uploads_by_pubkey]: the order of equal times is the engine's. *)
Definition list_uploads_by_pubkey (pubkey : string) : M (list UploadRecord) :=
  exec "list uploads" (bound [pubkey] (fun t =>
    let rows := List.filter (fun r => bool_decide (r.1.1.2 = pubkey)) (owned t) in
    Ok (t, map (fun r => upload_record r.1.1.1 r.1.2 r.1.1.2 r.2) (sort_by_key (fun r => - r.2) rows)))).

(** The loop of [delete_upload]. *)
Fixpoint debit_owners (owners : list (string * Z)) : M unit :=
  match owners with
  | [] => ret tt
  | (pubkey, size) :: owners =>
      exec "update used_bytes" (bound [pubkey] (debit_used pubkey size)) ;! debit_owners owners
  end.

(** [delete_upload]. *)
Definition delete_upload (sha256 : string) : M bool :=
  transaction "begin delete transaction"
    (let! owners := exec "find upload" (bound [sha256] (fun t =>
       Ok (t, map (fun r => (r.1.1.2, up_size r.1.2)) (List.filter (fun r => bool_decide (r.1.1.1 = sha256)) (owned t))))) in
     let! rows := exec "delete upload" (bound [sha256] (delete_row sha256)) in
     debit_owners owners ;!
     exec "delete file stats" (bound [sha256] (fun t => Ok (with_stats (delete sha256 (t_stats t)) t, tt))) ;!
     commit "commit delete" ;!
     ret (bool_decide (rows > 0))).

(** [is_upload_owner]. *)
Definition is_upload_owner (sha256 pubkey : string) : M bool :=
  exec "check upload owner" (bound [sha256; pubkey] (fun t =>
    Ok (t, bool_decide (is_Some (t_owners t !! (sha256, pubkey)))))).

(** [upload_owner_count]. *)
Definition upload_owner_count (sha256 : string) : M Z :=
  exec "count upload owners" (bound [sha256] (fun t =>
    Ok (t, vec_len (List.filter (fun k => bool_decide (k.1 = sha256)) (hm_keys (t_owners t)))))).

(** [delete_upload_owner]. *)
Definition delete_upload_owner (sha256 pubkey : string) : M bool :=
  transaction "begin owner delete transaction"
    (let! size := exec "find upload owner" (bound [sha256; pubkey] (fun t =>
       Ok (t, match t_owners t !! (sha256, pubkey), t_uploads t !! sha256 with
              | Some _, Some u => Some (up_size u)
              | _, _ => None
              end))) in
     match size with
     | None => commit "commit owner delete" ;! ret false
     | Some size =>
         let! rows := exec "delete upload owner" (bound [sha256; pubkey] (delete_owner_row sha256 pubkey)) in
         (if decide (rows > 0) then exec "update used_bytes" (bound [pubkey] (debit_used pubkey size)) else ret tt) ;!
         commit "commit owner delete" ;!
         ret (bool_decide (rows > 0))
     end).

(** [get_or_create_user]: two statements, each on its own. *)
Definition get_or_create_user (pubkey : string) : M UserRecord :=
  exec "create user" (bound [pubkey] (upsert_user pubkey (mkUserRow None (Int 0) "member") (fun u => u))) ;!
  exec "get user" (bound [pubkey] (fun t =>
    match t_users t !! pubkey with
    | Some u => let? r := user_record pubkey u in Ok (t, r)
    | None => Err "no rows returned by a query that expected to return at least one row"
    end)).

(** [set_quota]; [i64::try_from] refuses a quota that does not fit. *)
Definition set_quota (pubkey : string) (quota_bytes : option Z) : M unit :=
  match quota_bytes with
  | Some q =>
      if decide (q <= i64_max) then
        exec "set quota" (bound [pubkey] (upsert_user pubkey (mkUserRow (Some q) (Int 0) "member")
          (fun u => mkUserRow (Some q) (u_used_bytes u) (u_role u))))
      else early "quota exceeds database range"
  | None =>
      exec "set quota" (bound [pubkey] (upsert_user pubkey (mkUserRow None (Int 0) "member")
        (fun u => mkUserRow None (u_used_bytes u) (u_role u))))
  end.

(** [check_quota]; [used + additional_bytes] wraps in a release build. *)
Definition quota_row (pubkey : string) : M (option (option Z * Z)) :=
  exec "check quota" (bound [pubkey] (fun t =>
    match t_users t !! pubkey with
    | Some u => let? used := as_column (u_used_bytes u) in Ok (t, Some (u_quota_bytes u, used))
    | None => Ok (t, None)
    end)).
Definition check_quota (pubkey : string) (additional_bytes : Z) (e : Engine Tables) : result unit DbError :=
  match (quota_row pubkey e).2 with
  | Err msg => Err (Internal msg)
  | Ok (Some (Some limit, used)) =>
      if decide (wrap_u64 (as_u64 used + additional_bytes) > as_u64 limit)
      then Err (QuotaExceeded (as_u64 used) additional_bytes (as_u64 limit)) else Ok tt
  | Ok _ => Ok tt
  end.

(** [update_used_bytes]. *)
Definition update_used_bytes (pubkey : string) (used_bytes : Z) : M unit :=
  exec "update used_bytes" (bound [pubkey] (fun t =>
    Ok (match t_users t !! pubkey with
        | Some u => with_users (<[pubkey := mkUserRow (u_quota_bytes u) (Int (as_i64 used_bytes)) (u_role u)]> (t_users t)) t
        | None => t
        end, tt))).

(** [record_access]; [now] is the clock. *)
Definition record_access (now : Z) (sha256 : string) (bytes_served : Z) : M unit :=
  exec "record access" (bound [sha256] (fun t =>
    let? row := match t_stats t !! sha256 with
                | None => Ok (mkStatsRow (Int (as_i64 bytes_served)) (as_i64 now))
                | Some s => let? egress := num_add (fs_egress_bytes s) (as_i64 bytes_served) in
                            Ok (mkStatsRow egress (as_i64 now))
                end in
    Ok (with_stats (<[sha256 := row]> (t_stats t)) t, tt))).

(** [get_stats]. *)
Definition get_stats (sha256 : string) : M (option FileStats) :=
  exec "get stats" (bound [sha256] (fun t =>
    match t_stats t !! sha256 with
    | Some s => let? egress := as_column (fs_egress_bytes s) in
                Ok (t, Some (mkStats sha256 (as_u64 egress) (as_u64 (fs_last_accessed s))))
    | None => Ok (t, None)
    end)).

(** [upload_count], [user_count]: 0 when the query fails. *)
Definition upload_count : M Z := query "" (fun t => Ok (Z.of_nat (size (t_uploads t)))).
Definition user_count : M Z := query "" (fun t => Ok (Z.of_nat (size (t_users t)))).

(** [set_role]. *)
Definition set_role (pubkey role : string) : M unit :=
  exec "set role" (bound [pubkey; role] (upsert_user pubkey (mkUserRow None (Int 0) role)
    (fun u => mkUserRow (u_quota_bytes u) (u_used_bytes u) role))).

(** [get_role]: a failure reads as no user. *)
Definition get_role (pubkey : string) : M (option string) :=
  exec "" (bound [pubkey] (fun t => Ok (t, u_role <$> t_users t !! pubkey))).

(** [list_users_by_role]. *)
Fixpoint user_records (rows : list (string * UserRow)) : result (list UserRecord) string :=
  match rows with
  | [] => Ok []
  | (pubkey, u) :: rows => let? r := user_record pubkey u in let? rs := user_records rows in Ok (r :: rs)
  end.
Definition list_users_by_role (role : string) : M (list UserRecord) :=
  exec "list by role" (bound [role] (fun t =>
    let? users := user_records (List.filter (fun ku => bool_decide (u_role ku.2 = role)) (hm_iter string UserRow (t_users t))) in
    Ok (t, users))).

(** ** The trait *)

(** An operation that changes the tables, and one that is only read off. *)
Definition run {A} (m : M A) (e : Engine Tables) : Engine Tables * result A DbError := map_err Internal m e.
Definition look {A} (m : M A) (e : Engine Tables) : result A DbError := (run m e).2.
Definition fetch_one {A} (m : M (option A)) (e : Engine Tables) : result A DbError :=
  match look m e with Ok (Some a) => Ok a | Ok None => Err NotFound | Err x => Err x end.

Definition impl : BlobDatabase (Engine Tables) := {|
  Database.record_upload d r := run (record_upload r) d;
  Database.get_upload d h := fetch_one (get_upload h) d;
  Database.list_uploads_by_pubkey d p := look (list_uploads_by_pubkey p) d;
  Database.delete_upload d h := run (delete_upload h) d;
  Database.is_upload_owner d h p := look (is_upload_owner h p) d;
  Database.upload_owner_count d h := look (upload_owner_count h) d;
  Database.delete_upload_owner d h p := run (delete_upload_owner h p) d;
  Database.get_or_create_user d p := run (get_or_create_user p) d;
  Database.set_quota d p q := run (set_quota p q) d;
  Database.check_quota d p n := check_quota p n d;
  Database.update_used_bytes d p n := run (update_used_bytes p n) d;
  Database.record_access d now h n := run (record_access now h n) d;
  Database.get_stats d h := fetch_one (get_stats h) d;
  Database.upload_count d := unwrap_or (upload_count d).2 0;
  Database.user_count d := unwrap_or (user_count d).2 0;
  Database.set_role d p role := run (set_role p role) d;
  Database.get_role d p := default "member" (unwrap_or (get_role p d).2 None);
  Database.list_users_by_role d role := look (list_users_by_role role) d;
  Database.find_by_phash d phash := Ok []
|}.
End ops.

(** The databases of the two files, on a fresh engine or one with tables in it. *)
Definition SqliteDatabase `{HashOrder} : BlobDatabase (Engine Tables) := impl (H0 := Sqlite.dialect).
Definition PostgresDatabase `{HashOrder} : BlobDatabase (Engine Tables) := impl (H0 := Postgres.dialect).
