(* ===== verification/SqlLaws.v ===== *)
(** * The SQL databases meet the interface

    What the tables are a database of, and that every operation does to it what
    [BlobDatabaseLaws] says, or fails and leaves it alone, whichever statements
    the engine refuses.  The quotas are left to the callers. *)

From Stdlib Require Import ZArith Lia Ascii String.
From stdpp Require Import base list gmap strings numbers.
From S2P Require Import Prelude Effects Protocol RateLimit Storage Lfs Database Sql SqlDatabase.

Open Scope string_scope.
Open Scope Z_scope.
Open Scope handler_scope.

(** ** The database in the tables *)

Definition owner_record (t : Tables) (hp : string * string) (created_at : Z) : option UploadRecord :=
  (fun u => upload_record hp.1 u hp.2 created_at) <$> t_uploads t !! hp.1.
Definition abs (t : Tables) : AbsDb :=
  mkAbs (map_imap (fun h u => Some (upload_record h u (up_pubkey u) (up_created_at u))) (t_uploads t))
        (map_imap (owner_record t) (t_owners t))
        (omap u_quota_bytes (t_users t)).

(** The bytes a user is charged with, when the column holds a number. *)
Definition used (t : Tables) (p : string) : option Z :=
  match t_users t !! p with
  | None => Some 0
  | Some u => match u_used_bytes u with Int z => Some z | Real _ => None end
  end.

Record wf (t : Tables) : Prop := {
  wf_stored : ∀ h p, is_Some (t_owners t !! (h, p)) → is_Some (t_uploads t !! h);
  wf_size : ∀ h u, t_uploads t !! h = Some u → 0 <= up_size u <= i64_max;
  wf_quota : ∀ p q, omap u_quota_bytes (t_users t) !! p = Some q → 0 <= q <= i64_max;
  wf_used : ∀ p, used t p = Some (used_by (a_owners (abs t)) p);
  wf_max : ∀ p, used_by (a_owners (abs t)) p <= i64_max
}.

Lemma wf_no_rows : wf no_rows.
Proof.
  split; cbn.
  - intros h p [? [=]].
  - intros h u [=].
  - intros p q [=].
  - done.
  - intros p. vm_compute. done.
Qed.

Lemma abs_upload t h : a_uploads (abs t) !! h =
  (fun u => upload_record h u (up_pubkey u) (up_created_at u)) <$> t_uploads t !! h.
Proof. cbn. rewrite map_lookup_imap. by destruct (t_uploads t !! h). Qed.
Lemma abs_owner t h p : a_owners (abs t) !! (h, p) =
  t_owners t !! (h, p) ≫= fun c => owner_record t (h, p) c.
Proof. cbn. by rewrite map_lookup_imap. Qed.

Lemma wf_owner t h p : wf t → is_Some (a_owners (abs t) !! (h, p)) ↔ is_Some (t_owners t !! (h, p)).
Proof.
  intros W. rewrite abs_owner. unfold owner_record. destruct (t_owners t !! (h, p)) as [c|] eqn:E; [| cbn; split; by intros [? [=]]].
  destruct (wf_stored _ W h p) as [u Hu]; [by rewrite E |]. cbn. rewrite Hu. cbn. split; eauto.
Qed.
Lemma abs_sizes t : wf t → map_Forall (fun _ r => 0 <= r_size r) (a_owners (abs t)).
Proof.
  intros W [h p] r. rewrite abs_owner. unfold owner_record. destruct (t_owners t !! (h, p)); [| done]. cbn.
  destruct (t_uploads t !! h) as [u|] eqn:E; [| done]. intros [= <-]. cbn.
  pose proof (wf_size _ W _ _ E). rewrite u64_small; lia.
Qed.
Lemma owned_bytes_nonneg t p : wf t → 0 <= used_by (a_owners (abs t)) p.
Proof. intros W. by apply used_by_nonneg, abs_sizes. Qed.

(** The owners are the same while the rows they refer to are. *)
Lemma abs_owners_ext t t' :
  t_owners t' = t_owners t → (∀ h p, is_Some (t_owners t !! (h, p)) → t_uploads t' !! h = t_uploads t !! h) →
  a_owners (abs t') = a_owners (abs t).
Proof.
  intros Ho Hu. apply map_eq. intros [h p]. rewrite !abs_owner, Ho. unfold owner_record.
  destruct (t_owners t !! (h, p)) as [c|] eqn:E; [| done]. cbn. by rewrite (Hu h p); [| rewrite E].
Qed.

(** Tables that differ only in what no account depends on. *)
Lemma wf_ext t t' :
  wf t → t_uploads t' = t_uploads t → t_owners t' = t_owners t →
  omap u_quota_bytes (t_users t') = omap u_quota_bytes (t_users t) → (∀ p, used t' p = used t p) →
  wf t' ∧ abs t' = abs t.
Proof.
  intros [Ws Wz Wq Wu Wm] Hu Ho Hq Hused.
  assert (E : abs t' = abs t).
  { assert (Eo : a_owners (abs t') = a_owners (abs t)) by (apply abs_owners_ext; [done | by intros; rewrite Hu]).
    cbn in Eo. unfold abs. by rewrite Eo, Hu, Hq. }
  split; [| done]. split; rewrite ?Hu, ?Ho, ?Hq, ?E; try done. intros p. by rewrite Hused.
Qed.

Section laws.
Context `{HashOrder} `{DialectLaws}.

(** A computation that does [f], as an operation of the trait. *)
Lemma run_does {A} (m : MR (Engine Tables) string A) e t' a :
  does m (en_tables e) t' a →
  (en_tables (run m e).1 = t' ∧ (run m e).2 = Ok a)
  ∨ (en_tables (run m e).1 = en_tables e ∧ (∃ msg, (run m e).2 = Err (Internal msg)) ∧ ¬ healthy e).
Proof. intros Hm. by apply does_map_err. Qed.

(** A row of [users] whose [used_bytes] is a number, charged or debited. *)
Definition add_used (n : Z) (u : UserRow) : UserRow :=
  mkUserRow (u_quota_bytes u) (match u_used_bytes u with Int z => Int (z + n) | r => r end) (u_role u).
Definition sub_used (n : Z) (u : UserRow) : UserRow :=
  mkUserRow (u_quota_bytes u) (match u_used_bytes u with Int z => Int (Z.max 0 (z - n)) | r => r end) (u_role u).

Lemma wf_user t p u : wf t → t_users t !! p = Some u →
  u_used_bytes u = Int (used_by (a_owners (abs t)) p) ∧ 0 <= used_by (a_owners (abs t)) p <= i64_max.
Proof.
  intros W E. pose proof (wf_used _ W p) as Hu. unfold used in Hu. rewrite E in Hu.
  destruct (u_used_bytes u); simplify_eq. split; [done |]. split; [by apply owned_bytes_nonneg | apply (wf_max _ W)].
Qed.

Lemma debit_row us t p n z :
  t_users t = us → us !! p = Some z → (∃ k, u_used_bytes z = Int k ∧ 0 <= k <= i64_max) → 0 <= n <= i64_max →
  debit_used p n t = Ok (with_users (<[p := sub_used n z]> us) t, tt).
Proof.
  intros <- Hz (k & Hk & Hr) Hn. unfold debit_used, sub_used. rewrite Hz, Hk, sub_floor_exact; [done |].
  unfold i64_min, i64_max in *. lia.
Qed.

(** ** Recording *)

Lemma insert_upload_row r t : insert_upload r t =
  Ok (mkTables (match t_uploads t !! r_sha256 r with
                | Some _ => t_uploads t
                | None => <[r_sha256 r := mkUploadRow (as_i64 (r_size r)) (r_mime_type r) (r_pubkey r) (as_i64 (r_created_at r))]>
                            (t_uploads t)
                end) (t_owners t) (t_users t) (t_stats t), tt).
Proof. unfold insert_upload. destruct (t_uploads t !! r_sha256 r); [by destruct t | done]. Qed.

(** The tables after [record_upload] of a blob that the user does not own. *)
Definition recorded (r : UploadRecord) (t : Tables) : Tables :=
  mkTables (match t_uploads t !! r_sha256 r with
            | Some _ => t_uploads t
            | None => <[r_sha256 r := mkUploadRow (as_i64 (r_size r)) (r_mime_type r) (r_pubkey r) (as_i64 (r_created_at r))]>
                        (t_uploads t)
            end)
    (<[(r_sha256 r, r_pubkey r) := as_i64 (r_created_at r)]> (t_owners t))
    (<[r_pubkey r := match t_users t !! r_pubkey r with
                     | Some u => add_used (r_size r) u
                     | None => mkUserRow None (Int (r_size r)) "member"
                     end]> (t_users t))
    (t_stats t).

Lemma record_does r t :
  wf t → may_record (abs t) r →
  does (record_upload r) t
    (match t_owners t !! (r_sha256 r, r_pubkey r) with Some _ => t | None => recorded r t end) tt.
Proof.
  intros W (Hsz & _ & Hmax & _). apply does_transaction.
  pose proof (owned_bytes_nonneg t (r_pubkey r) W) as Hnn.
  eapply gives_bind; [apply gives_bound, insert_upload_row |].
  set (t1 := mkTables _ _ _ _).
  destruct (t_owners t !! (r_sha256 r, r_pubkey r)) as [c|] eqn:Eo.
  - assert (t1 = t) as ->.
    { destruct (wf_stored _ W (r_sha256 r) (r_pubkey r)) as [u Hu]; [by rewrite Eo |]. unfold t1. rewrite Hu. by destruct t. }
    eapply gives_bind; [apply gives_bound; unfold insert_owner; by rewrite Eo |]. cbn. apply gives_commit.
  - assert (∃ u, t_uploads t1 !! r_sha256 r = Some u) as [u1 Hu1].
    { unfold t1. cbn [t_uploads]. destruct (t_uploads t !! r_sha256 r) eqn:Eu; [by eexists | rewrite lookup_insert_eq; by eexists]. }
    eapply gives_bind.
    { apply gives_bound. unfold insert_owner. change (t_owners t1) with (t_owners t). rewrite Eo, Hu1. reflexivity. }
    cbn beta iota delta [decide]. eapply gives_bind; [| apply gives_commit]. apply gives_bound.
    unfold upsert_used. cbn [t_users]. unfold t1, recorded. cbn [t_users]. rewrite !(i64_small (r_size r)) by lia.
    destruct (t_users t !! r_pubkey r) as [u|] eqn:Ep; [| done].
    destruct (wf_user _ _ _ W Ep) as [Hu Hr]. unfold add_used. rewrite Hu, add_exact by (unfold i64_min, i64_max in *; lia).
    done.
Qed.

(** Recording gives the tables of the abstract recording. *)
Section recorded.
Context (r : UploadRecord) (t : Tables).
Context (W : wf t) (Hmay : may_record (abs t) r) (Eo : t_owners t !! (r_sha256 r, r_pubkey r) = None).

Lemma recorded_size : as_u64 (as_i64 (r_size r)) = r_size r.
Proof. destruct Hmay as (Hsz & _ & Hmax & _). pose proof (owned_bytes_nonneg t (r_pubkey r) W). rewrite i64_small, u64_small; lia. Qed.

Lemma recorded_owners :
  charge <$> a_owners (abs (recorded r t)) = charge <$> <[(r_sha256 r, r_pubkey r) := r]> (a_owners (abs t)).
Proof.
  destruct Hmay as (Hsz & Hc & Hmax & Hsame).
  apply map_eq. intros [h p]. rewrite !lookup_fmap, abs_owner. unfold owner_record. cbn [recorded t_owners t_uploads fst snd].
  destruct (decide ((h, p) = (r_sha256 r, r_pubkey r))) as [[= -> ->]|Hne].
  - rewrite !lookup_insert_eq. cbn. destruct (t_uploads t !! r_sha256 r) as [u|] eqn:Eu.
    + rewrite Eu. cbn. unfold charge. cbn. f_equal. rewrite (u64_of_i64 _ Hc).
      pose proof (Hsame (upload_record (r_sha256 r) u (up_pubkey u) (up_created_at u))) as Hs. rewrite abs_upload, Eu in Hs.
      specialize (Hs eq_refl). cbn in Hs. by rewrite Hs.
    + rewrite lookup_insert_eq. cbn. unfold charge. cbn. by rewrite recorded_size, (u64_of_i64 _ Hc).
  - rewrite !lookup_insert_ne by congruence. rewrite abs_owner. unfold owner_record. cbn [fst snd].
    destruct (t_owners t !! (h, p)) as [c|] eqn:E; [| done]. cbn.
    destruct (wf_stored _ W h p) as [u Hu]; [by rewrite E |].
    destruct (t_uploads t !! r_sha256 r) eqn:Eu; [done |]. rewrite lookup_insert_ne by congruence. done.
Qed.

Lemma recorded_used q :
  used_by (a_owners (abs (recorded r t))) q = add_size q (r_sha256 r, r_pubkey r) r (used_by (a_owners (abs t)) q).
Proof. rewrite (used_by_charge _ _ q recorded_owners). apply used_by_insert. by rewrite abs_owner, Eo. Qed.

Lemma recorded_quota : omap u_quota_bytes (t_users (recorded r t)) = omap u_quota_bytes (t_users t).
Proof.
  apply map_eq. intros q. rewrite !lookup_omap. cbn [recorded t_users]. destruct (decide (r_pubkey r = q)) as [<-|].
  - rewrite lookup_insert_eq. by destruct (t_users t !! r_pubkey r).
  - by rewrite lookup_insert_ne.
Qed.

Lemma recorded_row : ∃ u, t_uploads (recorded r t) !! r_sha256 r = Some u.
Proof. cbn. destruct (t_uploads t !! r_sha256 r) eqn:Eu; [by eexists | rewrite lookup_insert_eq; by eexists]. Qed.
Lemma recorded_keeps h u : t_uploads t !! h = Some u → t_uploads (recorded r t) !! h = Some u.
Proof. cbn. intros Hu. destruct (t_uploads t !! r_sha256 r) eqn:Eu; [done |]. by rewrite lookup_insert_ne by congruence. Qed.

Lemma recorded_column q : used (recorded r t) q = Some (add_size q (r_sha256 r, r_pubkey r) r (used_by (a_owners (abs t)) q)).
Proof.
  unfold add_size, used. cbn [recorded t_users snd]. pose proof (wf_used _ W q) as Hu. unfold used in Hu.
  destruct (decide (r_pubkey r = q)) as [<-|]; [| by rewrite lookup_insert_ne].
  rewrite lookup_insert_eq. destruct (t_users t !! r_pubkey r) as [u|] eqn:Ep.
  - destruct (wf_user _ _ _ W Ep) as [Hn _]. unfold add_used. cbn [u_used_bytes]. rewrite Hn. f_equal. lia.
  - cbn [u_used_bytes]. assert (0 = used_by (a_owners (abs t)) (r_pubkey r)) by congruence. f_equal. lia.
Qed.

Lemma recorded_wf : wf (recorded r t).
Proof.
  destruct Hmay as (Hsz & Hc & Hmax & Hsame). pose proof (owned_bytes_nonneg t (r_pubkey r) W). split.
  - intros h p. cbn [recorded t_owners]. rewrite lookup_insert_is_Some. intros [[= <- <-] | [_ Ho]]; [apply recorded_row |].
    destruct (wf_stored _ W h p Ho) as [u Hu]. exists u. by apply recorded_keeps.
  - intros h u. cbn [recorded t_uploads]. destruct (t_uploads t !! r_sha256 r) eqn:Eu; [apply (wf_size _ W) |].
    rewrite lookup_insert_Some. intros [[<- <-] | [_ Hu]]; [| by apply (wf_size _ W _ _ Hu)].
    cbn. rewrite i64_small; lia.
  - rewrite recorded_quota. apply (wf_quota _ W).
  - intros q. by rewrite recorded_used, recorded_column.
  - intros q. rewrite recorded_used. unfold add_size. case_decide as Hq; [cbn in Hq; subst; lia | apply (wf_max _ W)].
Qed.

Lemma recorded_abs : abs (recorded r t) ≡ (Abs.record_unmetered (abs t) r).1.
Proof.
  destruct Hmay as (Hsz & Hc & Hmax & Hsame).
  unfold Abs.record_unmetered. rewrite abs_owner, Eo. cbn [mbind option_bind fst].
  split; [| split; [apply recorded_owners | apply recorded_quota]].
  match goal with |- _ = _ <$> a_uploads (mkAbs ?x ?y ?z) => change (a_uploads (mkAbs x y z)) with x end.
  apply map_eq. intros h. rewrite !lookup_fmap, !abs_upload. cbn [recorded t_uploads].
  destruct (t_uploads t !! r_sha256 r) as [u|] eqn:Eu; cbn [fmap option_fmap option_map]; [by rewrite abs_upload |].
  destruct (decide (r_sha256 r = h)) as [<-|].
  - rewrite !lookup_insert_eq. cbn. unfold erase_phash, upload_record. cbn. by rewrite recorded_size, (u64_of_i64 _ Hc).
  - rewrite !lookup_insert_ne by done. by rewrite abs_upload.
Qed.
End recorded.

(** ** Deleting *)

Definition debited (n : option Z) (u : UserRow) : UserRow :=
  match n with Some n => sub_used n u | None => u end.

Lemma debit_owners_gives l : ∀ t,
  (∀ p u, t_users t !! p = Some u → ∃ k, u_used_bytes u = Int k ∧ 0 <= k <= i64_max) →
  NoDup l.*1 → Forall (fun x => 0 <= x.2 <= i64_max) l →
  ∃ us, gives (debit_owners l) t (with_users us t) tt
        ∧ ∀ p, us !! p = debited ((list_to_map l : gmap string Z) !! p) <$> t_users t !! p.
Proof.
  induction l as [|[p n] l IH]; intros t Hint Hnd Hall.
  - exists (t_users t). split; [by destruct t; apply gives_ret |]. intros p. by destruct (t_users t !! p).
  - apply list.NoDup_cons in Hnd as [Hp Hnd]. apply list.Forall_cons in Hall as [Hn Hall]. cbn in Hp, Hn.
    assert (Hl : (list_to_map l : gmap string Z) !! p = None) by by apply not_elem_of_list_to_map_1.
    destruct (t_users t !! p) as [u|] eqn:Eu.
    + destruct (Hint p u Eu) as (k & Hk & Hr).
      destruct (IH (with_users (<[p := sub_used n u]> (t_users t)) t)) as (us & Hg & Hus); [| done | done |].
      { intros q v. cbn. rewrite lookup_insert_Some. intros [[<- <-] | [_ Hv]]; [| by apply (Hint q)].
        unfold sub_used. cbn. rewrite Hk. eexists. split; [done | lia]. }
      exists us. split.
      * cbn [debit_owners]. eapply gives_bind; [apply gives_bound | exact Hg].
        apply (debit_row (t_users t)); [done | done | by exists k | done].
      * intros q. rewrite Hus. cbn. destruct (decide (p = q)) as [<-|].
        -- by rewrite !lookup_insert_eq, Hl, Eu.
        -- by rewrite !lookup_insert_ne.
    + destruct (IH t Hint Hnd Hall) as (us & Hg & Hus). exists us. split.
      * cbn [debit_owners]. eapply gives_bind; [| exact Hg]. apply gives_bound. unfold debit_used. by rewrite Eu.
      * intros q. rewrite Hus. cbn. destruct (decide (p = q)) as [<-|]; [by rewrite Eu | by rewrite lookup_insert_ne].
Qed.

Lemma NoDup_omap {A B K L} (f : A → option B) (g : B → K) (key : A → L) (l : list A) :
  NoDup (key <$> l) → (∀ x y b c, f x = Some b → f y = Some c → g b = g c → key x = key y) → NoDup (g <$> omap f l).
Proof.
  intros Hnd Hinj. induction l as [|x l IH]; [apply NoDup_nil_2 |]. cbn in Hnd. apply list.NoDup_cons in Hnd as [Hx Hnd].
  cbn. destruct (f x) as [b|] eqn:Eb; [| by apply IH]. cbn. apply list.NoDup_cons. split; [| by apply IH].
  intros (c & Hc & (y & Hy & Ey)%list_elem_of_omap)%list_elem_of_fmap. apply Hx. apply list_elem_of_fmap. exists y.
  split; [| done]. by apply (Hinj x y b c).
Qed.

(** The owners of a blob, as [delete_upload] finds them. *)
Definition owners_found (h : string) (t : Tables) : list (string * Z) :=
  map (fun r => (r.1.1.2, up_size r.1.2)) (List.filter (fun r => bool_decide (r.1.1.1 = h)) (owned t)).

Lemma owners_found_omap h t : owners_found h t =
  omap (fun kc : string * string * Z =>
          if decide (kc.1.1 = h) then (fun u => (kc.1.2, up_size u)) <$> t_uploads t !! h else None)
    (hm_iter (string * string) Z (t_owners t)).
Proof.
  unfold owners_found, owned. induction (hm_iter _ _ _) as [|[[h' p] c] l IH]; [done |]. cbn.
  destruct (decide (h' = h)) as [->|Hne].
  - destruct (t_uploads t !! h); cbn; [| done]. rewrite bool_decide_eq_true_2 by done. cbn. by rewrite IH.
  - destruct (t_uploads t !! h'); cbn; [| done]. by rewrite bool_decide_eq_false_2.
Qed.

Lemma owners_found_spec h t u :
  t_uploads t !! h = Some u →
  NoDup (owners_found h t).*1 ∧ Forall (fun x => x.2 = up_size u) (owners_found h t)
  ∧ ∀ p, (list_to_map (owners_found h t) : gmap string Z) !! p = (fun _ => up_size u) <$> t_owners t !! (h, p).
Proof.
  intros Hu. assert (Hnd : NoDup (owners_found h t).*1).
  { rewrite owners_found_omap. apply (NoDup_omap _ fst fst).
    - apply (NoDup_hm_keys (t_owners t)).
    - intros [[h1 p1] c1] [[h2 p2] c2] b c. cbn. do 2 case_decide; [| done..]. rewrite Hu. cbn. naive_solver. }
  assert (Hin : ∀ p n, (p, n) ∈ owners_found h t ↔ is_Some (t_owners t !! (h, p)) ∧ n = up_size u).
  { intros p n. rewrite owners_found_omap, list_elem_of_omap. split.
    - intros ([[h1 p1] c1] & Hk & E). cbn in E. case_decide; [| done]. rewrite Hu in E. cbn in E. simplify_eq.
      apply elem_of_hm_iter in Hk. split; [by eexists | done].
    - intros [[c Hc] ->]. exists (h, p, c). split; [by apply elem_of_hm_iter |]. cbn. rewrite decide_True by done. by rewrite Hu. }
  split; [done |]. split.
  - apply list.Forall_forall. intros [p n] Hp. by apply Hin in Hp as [_ ->].
  - intros p. destruct (t_owners t !! (h, p)) as [c|] eqn:E; cbn.
    + apply elem_of_list_to_map_1; [done |]. apply Hin. rewrite E. split; [by eexists | done].
    + apply not_elem_of_list_to_map_1. intros ([q n] & -> & Hq)%list_elem_of_fmap. apply Hin in Hq as [[? Hq] _]. cbn in E. congruence.
Qed.

(** Tables with some owners dropped, their users debited. *)
Definition dropped (t t' : Tables) (h : string) (gone : string * string → bool) : Prop :=
  t_owners t' = filter (fun kc => gone kc.1 = false) (t_owners t)
  ∧ (∀ hp, gone hp = true → hp.1 = h)
  ∧ ∀ p, t_users t' !! p =
      debited (match t_owners t !! (h, p), t_uploads t !! h with
               | Some _, Some u => if gone (h, p) then Some (up_size u) else None
               | _, _ => None
               end) <$> t_users t !! p.

Lemma debited_quota n u : u_quota_bytes (debited n u) = u_quota_bytes u.
Proof. by destruct n. Qed.

(** The rows that remain are what they were, and so are the accounts, less what was dropped. *)
Section dropped.
Context (t t' : Tables) (h : string) (gone : string * string → bool).
Context (W : wf t) (Hd : dropped t t' h gone).
Context (Hu : ∀ h' p, is_Some (t_owners t' !! (h', p)) → t_uploads t' !! h' = t_uploads t !! h').
Context (Hsub : ∀ h' u, t_uploads t' !! h' = Some u → t_uploads t !! h' = Some u).

Lemma dropped_owner h' p : t_owners t' !! (h', p) = if gone (h', p) then None else t_owners t !! (h', p).
Proof.
  destruct Hd as (-> & _). destruct (gone (h', p)) eqn:E.
  - apply map_lookup_filter_None. right. intros x _. cbn. by rewrite E.
  - apply option_eq. intros x. rewrite map_lookup_filter_Some. cbn. naive_solver.
Qed.
Lemma dropped_owners : a_owners (abs t') = filter (fun kr => gone kr.1 = false) (a_owners (abs t)).
Proof.
  apply map_eq. intros [h' p]. apply option_eq. intros r. rewrite map_lookup_filter_Some, !abs_owner, dropped_owner. cbn.
  unfold owner_record. cbn. specialize (Hu h' p). rewrite dropped_owner in Hu. destruct (gone (h', p)); [naive_solver |].
  destruct (t_owners t !! (h', p)); [| naive_solver]. cbn. rewrite Hu by by eexists. naive_solver.
Qed.
Lemma dropped_quota : omap u_quota_bytes (t_users t') = omap u_quota_bytes (t_users t).
Proof.
  apply map_eq. intros p. rewrite !lookup_omap. destruct Hd as (_ & _ & ->). destruct (t_users t !! p); [| done].
  cbn. apply debited_quota.
Qed.
Lemma dropped_sum p : used_by (a_owners (abs t)) p = used_by (a_owners (abs t')) p
  + match a_owners (abs t) !! (h, p) with Some r => if gone (h, p) then r_size r else 0 | None => 0 end.
Proof.
  rewrite dropped_owners. set (o := a_owners (abs t)). set (o' := filter (fun kr => gone kr.1 = false) o).
  assert (Hrest : used_by (filter (fun kr => kr.1.1 ≠ h) o') p = used_by (filter (fun kr => kr.1.1 ≠ h) o) p).
  { f_equal. unfold o'. rewrite map_filter_filter. apply map_filter_ext. intros [h' p'] r _. cbn.
    destruct Hd as (_ & Hg & _). specialize (Hg (h', p')). cbn in Hg. destruct (gone (h', p')); naive_solver. }
  rewrite (used_by_without o h p), (used_by_without o' h p), Hrest.
  assert (Ho' : o' !! (h, p) = if gone (h, p) then None else o !! (h, p)).
  { apply option_eq. intros x. unfold o'. rewrite map_lookup_filter_Some. cbn. destruct (gone (h, p)); naive_solver. }
  rewrite Ho'. destruct (gone (h, p)), (o !! (h, p)); lia.
Qed.
Lemma dropped_column p : used t' p = Some (used_by (a_owners (abs t')) p).
Proof.
  pose proof (dropped_sum p) as Hs. rewrite abs_owner in Hs. unfold owner_record in Hs. cbn in Hs.
  assert (Hnn : 0 <= used_by (a_owners (abs t')) p).
  { apply used_by_nonneg. rewrite dropped_owners. intros k r [Hk _]%map_lookup_filter_Some. by apply (abs_sizes t W k). }
  unfold used. destruct Hd as (_ & _ & ->). pose proof (wf_used _ W p) as Hp. unfold used in Hp.
  destruct (t_users t !! p) as [v|] eqn:Ev; cbn.
  - destruct (wf_user _ _ _ W Ev) as [Hv Hr].
    destruct (t_owners t !! (h, p)) as [c|] eqn:Ec; cbn in *; [| rewrite Hv; f_equal; lia].
    destruct (t_uploads t !! h) as [u|] eqn:Eu; cbn in *; [| rewrite Hv; f_equal; lia].
    pose proof (wf_size _ W _ _ Eu). rewrite u64_small in Hs by lia.
    destruct (gone (h, p)); cbn; rewrite Hv; f_equal; lia.
  - injection Hp as Hp. pose proof (owned_bytes_nonneg t p W). f_equal.
    destruct (t_owners t !! (h, p)); cbn in *; [| lia]. destruct (t_uploads t !! h) as [u|] eqn:Eu; cbn in *; [| lia].
    pose proof (wf_size _ W _ _ Eu). rewrite u64_small in Hs by lia. destruct (gone (h, p)); lia.
Qed.
Lemma dropped_wf : wf t'.
Proof.
  split.
  - intros h' p Ho. rewrite (Hu h' p Ho). rewrite dropped_owner in Ho. destruct (gone (h', p)); [by destruct Ho |]. by apply (wf_stored _ W h' p).
  - intros h' u Hx. apply (wf_size _ W h'). by apply Hsub.
  - rewrite dropped_quota. apply (wf_quota _ W).
  - apply dropped_column.
  - intros p. pose proof (dropped_sum p) as Hs. pose proof (wf_max _ W p). pose proof (abs_sizes t W) as Hz.
    destruct (a_owners (abs t) !! (h, p)) as [r|] eqn:E; [| lia]. specialize (Hz _ _ E). cbn in Hz. destruct (gone (h, p)); lia.
Qed.
End dropped.

Definition is_blob (h : string) (hp : string * string) : bool := bool_decide (hp.1 = h).

(** The tables after [delete_upload] of a stored blob. *)
Lemma delete_does h t u :
  wf t → t_uploads t !! h = Some u →
  ∃ t', does (delete_upload h) t t' true ∧ dropped t t' h (is_blob h) ∧ t_uploads t' = delete h (t_uploads t).
Proof.
  intros W Hu. destruct (owners_found_spec h t u Hu) as (Hnd & Hall & Hmap).
  set (t1 := mkTables (delete h (t_uploads t)) (filter (fun kc => kc.1.1 ≠ h) (t_owners t)) (t_users t) (t_stats t)).
  destruct (debit_owners_gives (owners_found h t) t1) as (us & Hg & Hus); [| done | |].
  { intros p v Hv. destruct (wf_user _ _ _ W Hv) as [? ?]. by eexists. }
  { eapply list.Forall_impl; [exact Hall |]. cbn. intros x ->. by apply (wf_size _ W h). }
  exists (with_stats (delete h (t_stats t)) (with_users us t1)). split; [| split; [| done]].
  - apply does_transaction. eapply gives_bind; [by apply gives_bound |]. fold (owners_found h t).
    eapply gives_bind; [apply gives_bound; unfold delete_row; by rewrite Hu |]. fold t1.
    eapply gives_bind; [exact Hg |]. eapply gives_bind; [by apply gives_bound |].
    eapply gives_bind; [apply gives_commit | apply gives_ret].
  - split; [| split].
    + cbn. apply map_filter_ext. intros [h' p] c _. unfold is_blob. cbn. by rewrite bool_decide_eq_false.
    + intros hp. unfold is_blob. by rewrite bool_decide_eq_true.
    + intros p. cbn. rewrite Hus, Hmap, Hu. unfold is_blob. cbn. rewrite bool_decide_eq_true_2 by done.
      by destruct (t_owners t !! (h, p)).
Qed.
Lemma delete_missing h t :
  wf t → t_uploads t !! h = None → does (delete_upload h) t (with_stats (delete h (t_stats t)) t) false.
Proof.
  intros W Hu. assert (Hnil : owners_found h t = []).
  { rewrite owners_found_omap. rewrite Hu. induction (hm_iter _ _ _) as [|kc l IH]; [done |]. cbn. by case_decide. }
  apply does_transaction. eapply gives_bind; [by apply gives_bound |]. fold (owners_found h t). rewrite Hnil.
  eapply gives_bind; [apply gives_bound; unfold delete_row; by rewrite Hu |].
  eapply gives_bind; [apply gives_ret |]. eapply gives_bind; [by apply gives_bound |].
  eapply gives_bind; [apply gives_commit | apply gives_ret].
Qed.

(** The same of [delete_upload_owner]. *)
Definition is_owner (h p : string) (hp : string * string) : bool := bool_decide (hp = (h, p)).
Lemma delete_owner_does h p t c :
  wf t → t_owners t !! (h, p) = Some c →
  ∃ t', does (delete_upload_owner h p) t t' true ∧ dropped t t' h (is_owner h p) ∧ t_uploads t' = t_uploads t.
Proof.
  intros W Hc. destruct (wf_stored _ W h p) as [u Hu]; [by eexists |]. pose proof (wf_size _ W _ _ Hu) as Hsz.
  set (t1 := mkTables (t_uploads t) (delete (h, p) (t_owners t)) (t_users t) (t_stats t)).
  set (t2 := match t_users t !! p with Some v => with_users (<[p := sub_used (up_size u) v]> (t_users t)) t1 | None => t1 end).
  exists t2. split; [| split].
  - apply does_transaction. eapply gives_bind; [by apply gives_bound |]. cbn beta. rewrite Hc, Hu. cbn iota.
    eapply gives_bind; [apply gives_bound; unfold delete_owner_row; by rewrite Hc |]. fold t1. rewrite decide_True by lia.
    eapply gives_bind; [apply (gives_bound _ _ _ t1 t2 tt) |]; [| eapply gives_bind; [apply gives_commit | apply gives_ret]].
    unfold t2. destruct (t_users t !! p) as [v|] eqn:Ev.
    + destruct (wf_user _ _ _ W Ev) as [? ?]. apply (debit_row (t_users t)); [done | done | by eexists | done].
    + unfold debit_used. cbn. by rewrite Ev.
  - split; [| split].
    + assert (t_owners t2 = delete (h, p) (t_owners t)) as -> by (unfold t2; by destruct (t_users t !! p)).
      apply map_eq. intros k. apply option_eq. intros x. rewrite lookup_delete_Some, map_lookup_filter_Some. unfold is_owner. cbn.
      rewrite bool_decide_eq_false. naive_solver.
    + intros hp. unfold is_owner. rewrite bool_decide_eq_true. by intros ->.
    + intros q. unfold is_owner. destruct (decide (q = p)) as [->|Hne].
      * rewrite Hc, Hu. rewrite bool_decide_eq_true_2 by done. unfold t2. destruct (t_users t !! p) as [v|] eqn:Ev; cbn.
        -- by rewrite lookup_insert_eq.
        -- by rewrite Ev.
      * rewrite bool_decide_eq_false_2 by congruence. unfold t2.
        assert (t_users (match t_users t !! p with Some v => with_users (<[p := sub_used (up_size u) v]> (t_users t)) t1 | None => t1 end) !! q
                = t_users t !! q) as ->.
        { destruct (t_users t !! p); cbn; [by rewrite lookup_insert_ne | done]. }
        destruct (t_owners t !! (h, q)), (t_uploads t !! h), (t_users t !! q); done.
  - unfold t2. by destruct (t_users t !! p).
Qed.

(** ** The operations *)

(** [m] does to the database what [ares] says, or fails and leaves it alone; on a
    healthy engine it does not fail. *)
Definition carries {A} (m : MR (Engine Tables) string A) (e : Engine Tables) (ares : AbsDb * result A DbError) : Prop :=
  wf (en_tables (run m e).1)
  ∧ refines ares (abs (en_tables e)) (abs (en_tables (run m e).1)) (run m e).2
  ∧ (healthy e → abs (en_tables (run m e).1) ≡ ares.1 ∧ (run m e).2 = ares.2).

Lemma committed_refines {A} (m : MR (Engine Tables) string A) e t' a ares :
  wf (en_tables e) → wf t' → does m (en_tables e) t' a → abs t' ≡ ares.1 → Ok a = ares.2 → carries m e ares.
Proof.
  intros W W' Hm Ha Hr. unfold carries. destruct (run_does m e t' a Hm) as [[-> ->] | (-> & [msg ->] & Hf)].
  - split; [done |]. split; [by left | done].
  - split; [done |]. split; [right; split; [done | by eexists] | done].
Qed.
Lemma run_keeps {A} (m : MR (Engine Tables) string A) e t' a :
  wf (en_tables e) → wf t' ∧ abs t' = abs (en_tables e) → does m (en_tables e) t' a →
  wf (en_tables (run m e).1) ∧ abs (en_tables (run m e).1) ≡ abs (en_tables e).
Proof. intros W [W' E] Hm. destruct (run_does m e t' a Hm) as [[-> _] | [-> _]]; [by rewrite E | done]. Qed.
Lemma look_reads {A} (m : MR (Engine Tables) string A) e t' a : does m (en_tables e) t' a → reads (Ok a) (look m e).
Proof.
  intros Hm. unfold look. destruct (run_does m e t' a Hm) as [[_ ->] | (_ & [msg ->] & _)]; [by left | right; by eexists].
Qed.

Lemma upsert_wf p new update t :
  wf t → u_used_bytes new = Int 0 → u_quota_bytes new = None →
  (∀ u, u_used_bytes (update u) = u_used_bytes u ∧ u_quota_bytes (update u) = u_quota_bytes u) →
  let t' := with_users (<[p := match t_users t !! p with Some u => update u | None => new end]> (t_users t)) t in
  wf t' ∧ abs t' = abs t.
Proof.
  intros W Hn Hq Hup. apply wf_ext; [done | done | done | |].
  - apply map_eq. intros q. rewrite !lookup_omap. cbn. destruct (decide (p = q)) as [<-|]; [| by rewrite lookup_insert_ne].
    rewrite lookup_insert_eq. destruct (t_users t !! p) as [u|]; cbn; [apply Hup | done].
  - intros q. unfold used. cbn. destruct (decide (p = q)) as [<-|]; [| by rewrite lookup_insert_ne].
    rewrite lookup_insert_eq. destruct (t_users t !! p) as [u|]; [| by rewrite Hn]. by destruct (Hup u) as [-> _].
Qed.

Lemma quota_rows_wf p q t :
  wf t → (∀ l, q = Some l → 0 <= l <= i64_max) →
  let t' := with_users (<[p := match t_users t !! p with
                               | Some u => mkUserRow q (u_used_bytes u) (u_role u)
                               | None => mkUserRow q (Int 0) "member"
                               end]> (t_users t)) t in
  wf t' ∧ abs t' = (Abs.set_quota (abs t) p q).1.
Proof.
  intros W Hl t'.
  assert (Eq : omap u_quota_bytes (t_users t') = match q with Some l => <[p := l]> (a_quota (abs t)) | None => delete p (a_quota (abs t)) end).
  { apply map_eq. intros p'. unfold t'. cbn. rewrite lookup_omap. destruct (decide (p = p')) as [<-|].
    - rewrite lookup_insert_eq. destruct q; cbn; rewrite ?lookup_insert_eq, ?lookup_delete_eq; by destruct (t_users t !! p).
    - rewrite lookup_insert_ne by done. destruct q; by rewrite ?lookup_insert_ne, ?lookup_delete_ne, lookup_omap by done. }
  assert (Eo : a_owners (abs t') = a_owners (abs t)) by by apply abs_owners_ext.
  assert (E : abs t' = (Abs.set_quota (abs t) p q).1).
  { unfold Abs.set_quota. cbn [fst]. rewrite <- Eq, <- Eo. done. }
  split; [| done]. split; rewrite ?Eo; try apply W.
  - intros p' l. rewrite Eq. destruct q as [l'|].
    + rewrite lookup_insert_Some. intros [[<- <-] | [_ Hx]]; [by apply Hl | by apply (wf_quota _ W p')].
    + intros [_ Hx]%lookup_delete_Some. by apply (wf_quota _ W p').
  - intros p'. unfold used, t'. cbn [with_users t_users]. rewrite <- (wf_used _ W p'). unfold used. destruct (decide (p = p')) as [<-|].
    + rewrite lookup_insert_eq. by destruct (t_users t !! p).
    + by rewrite lookup_insert_ne.
Qed.

Lemma drop_abs_owner h p t t' :
  wf t → t_uploads t' = t_uploads t → dropped t t' h (is_owner h p) → is_Some (t_owners t !! (h, p)) →
  wf t' ∧ (abs t', Ok true) = Abs.delete_upload_owner (abs t) h p.
Proof.
  intros W Eu Hd Ho. assert (Hs : ∀ h' u, t_uploads t' !! h' = Some u → t_uploads t !! h' = Some u) by (intros; congruence).
  assert (Hx : ∀ h' p', is_Some (t_owners t' !! (h', p')) → t_uploads t' !! h' = t_uploads t !! h') by (intros; congruence).
  split; [by eapply dropped_wf |]. pose proof (dropped_owners t t' h _ Hd Hx) as Eo.
  pose proof (dropped_quota t t' h _ Hd) as Eq.
  apply (wf_owner _ _ _ W) in Ho as [r Hr]. unfold Abs.delete_upload_owner. rewrite Hr. f_equal.
  assert (delete (h, p) (a_owners (abs t)) = a_owners (abs t')) as ->.
  { rewrite Eo. apply map_eq. intros k. apply option_eq. intros x. rewrite lookup_delete_Some, map_lookup_filter_Some.
    unfold is_owner. cbn. rewrite bool_decide_eq_false. naive_solver. }
  unfold abs at 1. cbn. by rewrite Eu, Eq.
Qed.
Lemma drop_abs_blob h t t' :
  wf t → t_uploads t' = delete h (t_uploads t) → dropped t t' h (is_blob h) → is_Some (t_uploads t !! h) →
  wf t' ∧ (abs t', Ok true) = Abs.delete_upload (abs t) h.
Proof.
  intros W Eu Hd [u Hu]. assert (Hs : ∀ h' u, t_uploads t' !! h' = Some u → t_uploads t !! h' = Some u).
  { intros h' u'. rewrite Eu. by intros [_ ?]%lookup_delete_Some. }
  assert (Hx : ∀ h' p', is_Some (t_owners t' !! (h', p')) → t_uploads t' !! h' = t_uploads t !! h').
  { intros h' p'. destruct Hd as (-> & _). intros [c [_ Hc]%map_lookup_filter_Some]. unfold is_blob in Hc. cbn in Hc.
    apply bool_decide_eq_false in Hc. rewrite Eu, lookup_delete_ne; [done | congruence]. }
  split; [by eapply dropped_wf |]. pose proof (dropped_owners t t' h _ Hd Hx) as Eo.
  pose proof (dropped_quota t t' h _ Hd) as Eq.
  unfold Abs.delete_upload. rewrite abs_upload, Hu. cbn [fmap option_fmap option_map]. f_equal.
  assert (filter (fun kr => kr.1.1 ≠ h) (a_owners (abs t)) = a_owners (abs t')) as ->.
  { rewrite Eo. apply map_filter_ext. intros [h' p'] r _. unfold is_blob. cbn. by rewrite bool_decide_eq_false. }
  unfold abs at 1. cbn. rewrite Eu, Eq. f_equal. apply map_eq. intros k. rewrite map_lookup_imap.
  destruct (decide (h = k)) as [<-|]; [by rewrite !lookup_delete_eq |].
  by rewrite !lookup_delete_ne, map_lookup_imap.
Qed.

Lemma get_upload_does h t : does (get_upload h) t t (a_uploads (abs t) !! h).
Proof. apply does_bound. rewrite abs_upload. by destruct (t_uploads t !! h). Qed.

Lemma owner_count_does h t : wf t → does (upload_owner_count h) t t (Z.of_nat (size (Abs.owners_of (abs t) h))).
Proof.
  intros W. apply does_bound. do 3 f_equal. unfold vec_len. rewrite (length_filter_hm_keys (fun k => bool_decide (k.1 = h))).
  f_equal. unfold Abs.owners_of. rewrite <- !(size_dom (D := gset _)). f_equal. apply set_eq. intros [h' p].
  rewrite !elem_of_dom. unfold is_Some. setoid_rewrite map_lookup_filter_Some. cbn.
  pose proof (wf_owner t h' p W) as [Hi Ho]. unfold is_Some in Hi, Ho. setoid_rewrite bool_decide_eq_true. naive_solver.
Qed.

Lemma check_quota_law p n e :
  wf (en_tables e) → 0 <= n <= i64_max → reads (Abs.check_quota (abs (en_tables e)) p n) (check_quota p n e).
Proof.
  intros W Hn. set (t := en_tables e) in *. unfold check_quota.
  assert (Hq : does (quota_row p) t t ((fun u => (u_quota_bytes u, used_by (a_owners (abs t)) p)) <$> t_users t !! p)).
  { apply does_bound. destruct (t_users t !! p) as [u|] eqn:Eu; [| done]. destruct (wf_user _ _ _ W Eu) as [-> _]. done. }
  destruct (Hq e eq_refl) as [(_ & -> & _) | (_ & [msg ->] & _)]; [left | right; by eexists].
  unfold Abs.check_quota. assert (a_quota (abs t) !! p = t_users t !! p ≫= u_quota_bytes) as -> by apply lookup_omap.
  destruct (t_users t !! p) as [u|] eqn:Eu; [| done]. cbn [fmap option_fmap option_map mbind option_bind].
  destruct (u_quota_bytes u) as [limit|] eqn:El; [| done].
  destruct (wf_user _ _ _ W Eu) as [_ Hr].
  pose proof (wf_quota _ W p limit) as Hlim. rewrite lookup_omap, Eu in Hlim. specialize (Hlim El).
  rewrite (u64_small limit), (u64_small (used_by _ _)) by lia. unfold wrap_u64. rewrite Z.mod_small by (unfold i64_max, u64_max in *; lia).
  do 2 case_decide; unfold i64_max, u64_max in *; try done; lia.
Qed.

Lemma record_law e r : wf (en_tables e) → may_record (abs (en_tables e)) r →
  carries (record_upload r) e (Abs.record_unmetered (abs (en_tables e)) r).
Proof.
  intros W Hr. pose proof (record_does r _ W Hr) as Hd.
  destruct (t_owners (en_tables e) !! (r_sha256 r, r_pubkey r)) as [c|] eqn:Eo.
  - destruct (proj2 (wf_owner _ (r_sha256 r) (r_pubkey r) W)) as [x Hx]; [by rewrite Eo |].
    eapply committed_refines; [done | exact W | exact Hd | |]; unfold Abs.record_unmetered; by rewrite Hx.
  - eapply committed_refines; [done | by apply recorded_wf | exact Hd | by apply recorded_abs |].
    unfold Abs.record_unmetered. by destruct (a_owners _ !! _).
Qed.

Lemma delete_law e h : wf (en_tables e) → carries (delete_upload h) e (Abs.delete_upload (abs (en_tables e)) h).
Proof.
  intros W. destruct (t_uploads (en_tables e) !! h) as [u|] eqn:Eu.
  - destruct (delete_does _ _ _ W Eu) as (t' & Hd & Hdr & Ht'). destruct (drop_abs_blob h _ t' W Ht' Hdr) as [W' E]; [by eexists |].
    by eapply committed_refines; [.. | exact Hd | rewrite <- E | rewrite <- E].
  - pose proof (delete_missing _ _ W Eu) as Hd.
    destruct (wf_ext _ (with_stats (delete h (t_stats (en_tables e))) (en_tables e)) W) as [W' E]; [done.. |].
    eapply committed_refines; [done | exact W' | exact Hd | |]; unfold Abs.delete_upload; rewrite abs_upload, Eu; [| done]. by rewrite E.
Qed.

Lemma delete_owner_law e h p : wf (en_tables e) →
  carries (delete_upload_owner h p) e (Abs.delete_upload_owner (abs (en_tables e)) h p).
Proof.
  intros W. destruct (t_owners (en_tables e) !! (h, p)) as [c|] eqn:Ec.
  - destruct (delete_owner_does _ _ _ _ W Ec) as (t' & Hd & Hdr & Ht').
    destruct (drop_abs_owner h p _ t' W Ht' Hdr) as [W' E]; [by eexists |].
    by eapply committed_refines; [.. | exact Hd | rewrite <- E | rewrite <- E].
  - assert (Hd : does (delete_upload_owner h p) (en_tables e) (en_tables e) false).
    { apply does_transaction. eapply gives_bind; [by apply gives_bound |]. cbn beta. rewrite Ec.
      eapply gives_bind; [apply gives_commit | apply gives_ret]. }
    assert (Ho : a_owners (abs (en_tables e)) !! (h, p) = None) by by rewrite abs_owner, Ec.
    eapply committed_refines; [done | exact W | exact Hd | |]; unfold Abs.delete_upload_owner; by rewrite Ho.
Qed.

Lemma set_quota_carries e p q : wf (en_tables e) → (∀ l, q = Some l → 0 <= l <= i64_max) →
  carries (set_quota p q) e (Abs.set_quota (abs (en_tables e)) p q).
Proof.
  intros W Hl. pose proof (quota_rows_wf p q _ W Hl) as [W' E].
  eapply committed_refines; [done | exact W' | | by rewrite E | done].
  destruct q as [l|]; cbn; [rewrite decide_True by (apply (Hl l); done) |]; by apply does_bound.
Qed.
Lemma set_quota_law e p q : wf (en_tables e) → (∀ l, q = Some l → in_u64 l) →
  wf (en_tables (run (set_quota p q) e).1)
  ∧ refines (Abs.set_quota (abs (en_tables e)) p q) (abs (en_tables e)) (abs (en_tables (run (set_quota p q) e).1))
      (run (set_quota p q) e).2.
Proof.
  intros W Hq.
  destruct q as [l|]; [destruct (decide (l <= i64_max)) as [Hle|Hgt] |].
  - destruct (set_quota_carries e p (Some l) W) as (? & ? & _); [| done].
    intros l' [= <-]. specialize (Hq l eq_refl). unfold in_u64 in Hq. lia.
  - unfold run, map_err, set_quota. rewrite decide_False by done. split; [done |]. right. split; [done | by eexists].
  - by destruct (set_quota_carries e p None W) as (? & ? & _).
Qed.

Lemma exec_keeps {A} what texts (f : Tables → result (Tables * A) string) e (P : Tables → Prop) :
  P (en_tables e) → (∀ t' a, f (en_tables e) = Ok (t', a) → P t') → P (en_tables (exec what (bound texts f) e).1).
Proof.
  intros He Hf. unfold exec, bound. destruct (en_faults _ _ _); [done |]. destruct (forallb _ _); [| done].
  destruct (f (en_tables e)) as [[t' a]|] eqn:E; [by eapply Hf | done].
Qed.

Lemma create_law e p : wf (en_tables e) →
  wf (en_tables (run (get_or_create_user p) e).1) ∧ abs (en_tables (run (get_or_create_user p) e).1) ≡ abs (en_tables e).
Proof.
  intros W. set (P t := wf t ∧ abs t = abs (en_tables e)).
  assert (HP : P (en_tables (get_or_create_user p e).1)).
  { unfold get_or_create_user, bind.
    assert (Hc : P (en_tables (exec "create user" (bound [p] (upsert_user p (mkUserRow None (Int 0) "member") (fun u => u))) e).1)).
    { apply exec_keeps; [done |]. intros t' a [= <- _].
      apply (upsert_wf p (mkUserRow None (Int 0) "member") (fun u => u) _ W eq_refl eq_refl (fun u => conj eq_refl eq_refl)). }
    destruct (exec "create user" _ e) as [e1 [[]|]]; [| done]. cbn [fst] in Hc. apply exec_keeps; [done |].
    intros t' a. destruct (t_users (en_tables e1) !! p); [| done]. destruct (user_record p _); [by intros [= <- _] | done]. }
  unfold run, map_err. destruct (get_or_create_user p e) as [e' r]. destruct HP as [? E]. cbn in *. by rewrite E.
Qed.

Lemma access_law e now h n : wf (en_tables e) →
  wf (en_tables (run (record_access now h n) e).1) ∧ abs (en_tables (run (record_access now h n) e).1) ≡ abs (en_tables e).
Proof.
  intros W. set (P t := wf t ∧ abs t = abs (en_tables e)).
  assert (HP : P (en_tables (record_access now h n e).1)).
  { unfold record_access. apply exec_keeps; [done |]. intros t' a. destruct (match t_stats (en_tables e) !! h with Some _ => _ | None => _ end); [| done].
    intros [= <- _]. by apply wf_ext. }
  unfold run, map_err. destruct (record_access now h n e) as [e' r]. destruct HP as [? E]. cbn in *. by rewrite E.
Qed.

(** Both databases meet the interface; they need no more of the engine than its
    transactions. *)
Lemma laws : @BlobDatabaseLaws (Engine Tables) impl.
Proof.
  refine (@Build_BlobDatabaseLaws (Engine Tables) impl (fun e => abs (en_tables e)) (fun e => wf (en_tables e)) _ _ _ _ _ _ _ _ _ _ _);
    intros e; cbn [impl Database.record_upload Database.get_upload Database.delete_upload Database.is_upload_owner
      Database.upload_owner_count Database.delete_upload_owner Database.check_quota Database.set_quota
      Database.get_or_create_user Database.record_access Database.set_role].
  - intros r W Hr. destruct (record_law e r W Hr) as (? & ? & _). split; [done |]. by exists false.
  - intros h W. unfold fetch_one.
    destruct (look_reads _ _ _ _ (get_upload_does h (en_tables e))) as [-> | [msg ->]]; [left | right; by eexists].
    by destruct (a_uploads _ !! h).
  - intros h W. destruct (delete_law e h W) as (? & ? & _). done.
  - intros h p W. eapply look_reads. apply (does_bound _ _ _ (en_tables e) (en_tables e)).
    do 3 f_equal. apply bool_decide_ext. symmetry. by apply wf_owner.
  - intros h W. eapply look_reads. by apply owner_count_does.
  - intros h p W. destruct (delete_owner_law e h p W) as (? & ? & _). done.
  - intros p n. apply check_quota_law.
  - intros p q. apply set_quota_law.
  - intros p. apply create_law.
  - intros now h n. apply access_law.
  - intros p role W. eapply run_keeps; [done | | apply does_bound; reflexivity]. by apply upsert_wf.
Defined.
End laws.
