(* ===== verification/Quotas.v ===== *)
(** * Quotas, over any database

    The handlers ask [check_quota] before they store, and [record_upload] after,
    under one lock.  Whether the database enforces quotas itself, as the one in
    memory does, or leaves them to its callers, as the SQL ones do, an upload
    does not take its user over the quota. *)

From Stdlib Require Import ZArith Lia Ascii String.
From Stdlib Require Import Strings.Byte.
From stdpp Require Import base list gmap strings numbers sets.
From S2P Require Import Prelude Effects Protocol Auth Replay RequestAuth RateLimit Database Access Storage Locks Lfs Stats Server Nip96 Wire IrohReplay Iroh.

Open Scope string_scope.
Open Scope Z_scope.
Open Scope handler_scope.

(** ** One upload *)

(** The user is within the quota, if there is one. *)
Definition within (a : AbsDb) (p : string) : Prop :=
  ∀ limit, a_quota a !! p = Some limit → used_by (a_owners a) p <= limit.
#[export] Instance within_proper : Proper ((≡) ==> (=) ==> iff) within.
Proof.
  intros a b E p ? <-. unfold within. pose proof (used_by_proper _ _ E p p eq_refl) as Eu. cbn in Eu.
  destruct E as (_ & _ & ->). by rewrite Eu.
Qed.

(** There is room for a blob of [n] bytes: no account overflows, and the blob is
    not recorded with another size. *)
Definition room (a : AbsDb) (h : string) (n : Z) : Prop :=
  0 <= n <= i64_max ∧ (∀ p, used_by (a_owners a) p + n <= i64_max)
  ∧ ∀ u, a_uploads a !! h = Some u → r_size u = n.

Section database.
Context `{BlobDatabaseLaws D}.
Implicit Types d : D.

(** The check passed, or was skipped because the query failed. *)
Definition checked (lenient : bool) (d : D) (h p : string) (n : Z) : Prop :=
  check_quota d p (additional_bytes d h p n) = Ok tt
  ∨ lenient = true ∧ ∃ e, check_quota d p (additional_bytes d h p n) = Err e ∧ ∀ u r l, e ≠ QuotaExceeded u r l.
(** The database answers whether the user is over the quota. *)
Definition answers_quota (d : D) : Prop :=
  ∀ p n e, check_quota d p n = Err e → ∃ u r l, e = QuotaExceeded u r l.

Lemma record_within d r p :
  db_wf d → in_u64 (r_created_at r) → room (db_abs d) (r_sha256 r) (r_size r) →
  (r_pubkey r = p → check_quota d p (additional_bytes d (r_sha256 r) p (r_size r)) = Ok tt) →
  within (db_abs d) p → within (db_abs (record_upload d r).1) p.
Proof.
  intros W Hc (Hn & Hmax & Hsame) Hchk Hw.
  destruct (record_upload_refines d r W) as (_ & metered & [[E _] | [E _]]); [split; [lia | by split] | | by rewrite E].
  rewrite E. clear E. set (a := db_abs d) in *.
  assert (Hcase : let a' := ((if metered then Abs.record_upload else Abs.record_unmetered) a r).1 in
    a' = a ∨ a_owners a !! (r_sha256 r, r_pubkey r) = None ∧ a_quota a' = a_quota a
             ∧ a_owners a' = <[(r_sha256 r, r_pubkey r) := r]> (a_owners a)).
  { destruct metered; cbn; unfold Abs.record_upload, Abs.record_unmetered; destruct (a_owners a !! _) eqn:Eo; try by left.
    - case_decide; [by left |]. destruct (a_quota a !! _); [case_decide; [by left |] |]; right; by repeat split.
    - right. by repeat split. }
  cbn zeta in Hcase. destruct Hcase as [-> | (Ho & Hq & Ho')]; [done |]. intros limit. rewrite Hq, Ho', used_by_insert by done.
  intros Hl. specialize (Hw _ Hl). unfold add_size. cbn. case_decide as Hp; [| done]. specialize (Hchk Hp).
  assert (Hadd : additional_bytes d (r_sha256 r) p (r_size r) = r_size r).
  { unfold additional_bytes. destruct (is_upload_owner_reads d (r_sha256 r) p W) as [-> | [msg ->]]; [| done].
    fold a. rewrite <- Hp, Ho. cbn. done. }
  rewrite Hadd in Hchk. destruct (check_quota_reads d p (r_size r) W Hn) as [E | [msg E]]; rewrite E in Hchk; [| done].
  unfold Abs.check_quota in Hchk. fold a in Hchk. rewrite Hl in Hchk. case_decide; [done | lia].
Qed.
End database.

(** ** The handlers *)

Section handlers.
Context `{Crates} `{Codec} {B D V : Type} `{BlobBackend B} `{BDB : BlobDatabase D} `{!BlobDatabaseLaws D} `{LfsVersionDatabase V}.
Notation S := (ServerState B D V).
Implicit Types s : S.

(** The database after a handler that started with [d]: one upload of [n] bytes
    under [h] was recorded, for a user whose quota was checked or for nobody. *)
Definition charged (lenient : bool) (d : D) (now : Z) (h : string) (n : Z) (s' : S) : Prop :=
  ∃ r, r_sha256 r = h ∧ r_size r = n ∧ r_created_at r = now ∧ s_database s' = (record_upload d r).1
       ∧ (r_pubkey r ≠ "anonymous" → checked lenient d h (r_pubkey r) n).

Lemma charged_within lenient d now h n s' :
  db_wf d → in_u64 now → room (db_abs d) h n → (lenient = true → answers_quota d) →
  s_database s' = d ∨ charged lenient d now h n s' →
  db_wf (s_database s') ∧ ∀ p, p ≠ "anonymous" → within (db_abs d) p → within (db_abs (s_database s')) p.
Proof.
  intros W Hc Hroom Hstrict [-> | (r & <- & <- & <- & -> & Hchk)]; [done |].
  split.
  - destruct Hroom as (? & Hmax & ?). destruct (record_upload_refines d r W) as [? _]; [split; [lia | by split] | done].
  - intros p Hp. apply record_within; [done.. |].
    intros <-. destruct (Hchk Hp) as [E | (El & e & E & Hne)]; [done |].
    destruct (Hstrict El _ _ _ E) as (u & x & l & ->). by destruct (Hne u x l).
Qed.

Notation unless_charged l d now h n m s := (unless s_database (charged l d now h n) m s).

Lemma unless_body {A} limit headers body (k : list byte → MR S Response A) (P : S → Prop) s :
  (∀ n s', P s' → P (set_permits n s')) →
  (∀ data s1, body_data body = Ok data → s_database s1 = s_database s → s_backend s1 = s_backend s →
     unless s_database P (k data) s1) →
  unless s_database P (with_body limit headers body k) s.
Proof.
  intros Hp Hk. unfold with_body. apply unless_bind; [apply keeps_lift |]. intros units s0 [= <- _].
  apply unless_bind; [by apply keeps_acquire |]. intros [] s1 Ha.
  assert (Hd : s_database s1 = s_database s) by (eapply (keeps_run s_database); [| exact Ha]; by apply keeps_acquire).
  assert (Hb : s_backend s1 = s_backend s) by (eapply (keeps_run s_backend); [| exact Ha]; by apply keeps_acquire).
  intros s' r. unfold releasing. destruct (bind (lift (to_bytes body limit)) k s1) as [s2 r2] eqn:E. intros [= <- <-].
  assert (Hu : unless s_database P (bind (lift (to_bytes body limit)) k) s1).
  { apply unless_bind; [apply keeps_lift |]. intros data s3 [= <- Ht]. apply Hk; [| done..].
    unfold to_bytes in Ht. destruct (body_data body) as [x|]; [| done]. case_decide; [congruence | done]. }
  destruct (Hu _ _ E) as [? | ?]; [by left | right]. by apply Hp.
Qed.

Lemma charged_permits l d now h n k s : charged l d now h n s → charged l d now h n (set_permits k s).
Proof. done. Qed.

(** A [record_upload] after its check, and what follows it. *)
Lemma charged_record {A} l r (k : unit → MR S Response A) s :
  (r_pubkey r ≠ "anonymous" → checked l (s_database s) (r_sha256 r) (r_pubkey r) (r_size r)) →
  (∀ u, keeps s_database (k u)) →
  unless_charged l (s_database s) (r_created_at r) (r_sha256 r) (r_size r) (bind (record r) k) s.
Proof.
  intros Hc Hk s' x Hm. right. exists r. do 3 (split; [done |]). split; [| done].
  assert (Hr : s_database (record r s).1 = (record_upload (s_database s) r).1).
  { unfold record. by destruct (record_upload _ _). }
  rewrite <- Hr. unfold bind in Hm. destruct (record r s) as [s1 [[]|e]]; cbn; [by eapply keeps_run | by injection Hm as <- _].
Qed.

Lemma charged_insert_recorded {A} l q data (g : BlobDescriptor → UploadRecord) (k : BlobDescriptor → MR S Response A) now p `{!BlobBackendLaws B} s :
  backend_wf (s_backend s) →
  (let d := make_descriptor (env_now (q_env q)) data (s_base_url s) in
   r_sha256 (g d) = sha256_hex data ∧ r_size (g d) = vec_len data ∧ r_created_at (g d) = now ∧ r_pubkey (g d) = p) →
  checked l (s_database s) (sha256_hex data) p (vec_len data) →
  (∀ d, keeps s_database (k d)) →
  unless_charged l (s_database s) now (sha256_hex data) (vec_len data) (bind (insert_recorded q data g) k) s.
Proof.
  intros W Hg Hc Hk. unfold insert_recorded. apply unless_assoc, unless_bind; [keeps |]. intros s0 s0' [= <- <-].
  pose proof (try_insert_law (q_env q) (s_backend s) data (s_base_url s) W) as Hl.
  destruct (try_insert _ _ _ _) as [b [desc|e]]; cbv beta.
  - apply unless_assoc, unless_bind; [by apply keeps_modify |]. intros u s1 [= <- _]. destruct Hl as (_ & _ & ->).
    destruct Hg as (E1 & E2 & <- & <-). rewrite <- E1, <- E2. apply unless_assoc.
    change (s_database s) with (s_database (set_backend b s)). apply charged_record; [by rewrite E1, E2 |].
    intros []. apply keeps_bind; [apply keeps_ret | done].
  - apply unless_keeps. keeps.
Qed.

Lemma keeps_put {R} q ctx data (f : string → R) : keeps s_database (put_blob (B := B) (D := D) (V := V) q ctx data f).
Proof. unfold put_blob. keeps. Qed.

(** *** HTTP *)

Lemma charged_upload_store q headers pubkey data s :
  unless_charged false (s_database s) (q_now q) (sha256_hex data) (vec_len data) (upload_store q headers pubkey data) s.
Proof.
  unfold upload_store. apply unless_bind; [keeps |]. intros req s0 [= <- _]. apply unless_guard. intros _.
  apply unless_bind; [keeps |]. intros [] s1 Hchk.
  assert (s1 = s ∧ (default "anonymous" pubkey ≠ "anonymous" → checked false (s_database s) (sha256_hex data) (default "anonymous" pubkey) (vec_len data)))
    as [-> Hok].
  { destruct pubkey as [owner|]; [| by injection Hchk as <-]. unfold bind, gets in Hchk.
    destruct (check_quota _ _ _) as [[]|] eqn:Eq; [| done]. injection Hchk as <-. split; [done |]. intros _. by left. }
  apply unless_guard. intros _. apply unless_bind; [apply keeps_put |]. intros [] s2 Hput.
  assert (Ed : s_database s2 = s_database s) by (revert Hput; apply (keeps_run s_database), keeps_put).
  apply unless_bind; [keeps |]. intros url s3 [= <- _]. rewrite <- Ed in Hok |- *.
  apply (charged_record false (mkUpload (sha256_hex data) (vec_len data) _ (default "anonymous" pubkey) (q_now q) None)); [done |]. keeps.
Qed.

Lemma keeps_authorize q headers : keeps s_database (upload_authorize (B := B) (D := D) (V := V) q headers).
Proof. unfold upload_authorize. keeps. Qed.
Lemma keeps_bind_upload q e data : keeps s_database (upload_bind (B := B) (D := D) (V := V) q e data).
Proof. unfold upload_bind. keeps. Qed.

Lemma charged_handle_upload q headers body s :
  s_database (Server.handle_upload q headers body s).1 = s_database s
  ∨ ∃ data, body_data body = Ok data
      ∧ charged false (s_database s) (q_now q) (sha256_hex data) (vec_len data) (Server.handle_upload q headers body s).1.
Proof.
  apply (unless_respond s_database (fun s' => ∃ data, body_data body = Ok data
    ∧ charged false (s_database s) (q_now q) (sha256_hex data) (vec_len data) s')).
  apply unless_bind; [apply keeps_authorize |]. intros [[event pubkey] limit] s1 Ha.
  assert (Ed : s_database s1 = s_database s) by (revert Ha; apply (keeps_run s_database), keeps_authorize).
  apply unless_body; [intros n s' (data & ? & ?); by exists data |]. intros data s2 Hd E2 _.
  apply unless_bind; [apply keeps_bind_upload |]. intros [] s3 Hb.
  assert (E3 : s_database s3 = s_database s2) by (revert Hb; apply (keeps_run s_database), keeps_bind_upload).
  intros s' r Hm. destruct (charged_upload_store q headers pubkey data s3 s' r Hm) as [? | Hc]; [by left |].
  right. exists data. split; [done |]. by rewrite E3, E2, Ed in Hc.
Qed.

(** *** NIP-96: a query that fails lets the upload pass *)

Lemma refuse_over_quota_checked h p n g s s' x :
  refuse_over_quota h p n g s = (s', Ok x) → s' = s ∧ checked true (s_database s) h p n.
Proof.
  unfold refuse_over_quota, bind, gets, checked. destruct (check_quota _ _ _) as [[]|e] eqn:E.
  - intros [= <-]. split; [done | by left].
  - destruct e; [done | |]; intros [= <-]; (split; [done | right; split; [done | by eexists]]).
Qed.

Lemma charged_nip96_store `{!BlobBackendLaws B} q headers p data s :
  backend_wf (s_backend s) → unless s_database (charged true (s_database s) (env_now (q_env q)) (sha256_hex data) (vec_len data))
    (nip96_store q headers p data) s.
Proof.
  intros W. unfold nip96_store. apply unless_bind; [keeps |]. intros req s0 [= <- _]. apply unless_guard. intros _.
  apply unless_guard. intros _. apply unless_bind; [keeps |]. intros [] s1 [-> Hc]%refuse_over_quota_checked.
  apply unless_bind; [keeps |]. intros url s2 [= <- _].
  apply (charged_insert_recorded true q data _ _ (env_now (q_env q)) p); [done | by repeat split | done | by intros d].
Qed.

Lemma keeps_nip96_authorize q headers : keeps s_database (nip96_authorize (B := B) (D := D) (V := V) q headers).
Proof. unfold nip96_authorize. keeps. Qed.
Lemma keeps_nip96_bind q e data : keeps s_database (nip96_bind (B := B) (D := D) (V := V) q e data).
Proof. unfold nip96_bind. keeps. Qed.

Lemma charged_handle_nip96_upload `{!BlobBackendLaws B} q headers body s :
  backend_wf (s_backend s) →
  s_database (handle_nip96_upload q headers body s).1 = s_database s
  ∨ ∃ data, body_data body = Ok data
      ∧ charged true (s_database s) (env_now (q_env q)) (sha256_hex data) (vec_len data) (handle_nip96_upload q headers body s).1.
Proof.
  intros W. apply (unless_respond s_database (fun s' => ∃ data, body_data body = Ok data
    ∧ charged true (s_database s) (env_now (q_env q)) (sha256_hex data) (vec_len data) s')).
  apply unless_bind; [apply keeps_nip96_authorize |]. intros [event limit] s1 Ha.
  assert (Ed : s_database s1 = s_database s) by (revert Ha; apply (keeps_run s_database), keeps_nip96_authorize).
  assert (Eb : s_backend s1 = s_backend s) by (revert Ha; apply (keeps_run s_backend); unfold nip96_authorize; keeps).
  apply unless_body; [intros n s' (data & ? & ?); by exists data |]. intros data s2 Hd E2 B2.
  apply unless_bind; [apply keeps_nip96_bind |]. intros [] s3 Hb.
  assert (E3 : s_database s3 = s_database s2) by (revert Hb; apply (keeps_run s_database), keeps_nip96_bind).
  assert (B3 : s_backend s3 = s_backend s2) by (revert Hb; apply (keeps_run s_backend); unfold nip96_bind; keeps).
  intros s' r Hm. destruct (charged_nip96_store q headers (ev_pubkey event) data s3 ltac:(by rewrite B3, B2, Eb) s' r Hm) as [? | Hc]; [by left |].
  right. exists data. split; [done |]. by rewrite E3, E2, Ed in Hc.
Qed.

(** *** QUIC *)

Lemma charged_quic_upload q data req pubkey s :
  s_database (Iroh.handle_upload q data req pubkey s).1 = s_database s
  ∨ charged false (s_database s) (q_now q) (sha256_hex data) (vec_len data) (Iroh.handle_upload q data req pubkey s).1.
Proof.
  apply (unless_respond s_database (charged false (s_database s) (q_now q) (sha256_hex data) (vec_len data))).
  intros s' r [(p & s1 & Hc & Hs) | (e & Hc & _)]%bind_inv.
  2: { left. revert Hc. apply (keeps_run s_database). unfold check_upload. keeps. }
  assert (s1 = s ∧ checked false (s_database s) (sha256_hex data) p (vec_len data)) as [-> Hok].
  { unfold check_upload in Hc. apply bind_ok in Hc as (s0 & s0' & [= <- <-] & Hc).
    apply bind_ok in Hc as ([] & s2 & [_ ->]%guard_ok & Hc). apply bind_ok in Hc as ([] & s2 & [_ ->]%guard_ok & Hc).
    apply bind_ok in Hc as ([] & s2 & [_ ->]%guard_ok & Hc). apply bind_ok in Hc as ([] & s2 & [_ ->]%guard_ok & Hc).
    apply bind_ok in Hc as ([] & s2 & Hq & Hc). destruct (check_quota _ _ _) as [[]|] eqn:Eq; [| done]. injection Hq as <-.
    apply bind_ok in Hc as ([] & s2 & [Hsha ->]%guard_ok & [= <- <-]). apply bool_decide_eq_true in Hsha. rewrite Hsha.
    split; [done | by left]. }
  revert Hs. unfold store_upload. apply unless_bind; [apply keeps_put |]. intros [] s2 Hput.
  assert (Ed : s_database s2 = s_database s) by (revert Hput; apply (keeps_run s_database), keeps_put).
  apply unless_bind; [keeps |]. intros url s3 [= <- _]. apply unless_bind; [keeps |]. intros d s3 [= <- <-].
  intros s3 x Hm. right. exists (mkUpload (sha256_hex data) (vec_len data) "application/octet-stream" p (q_now q) None).
  do 3 (split; [done |]). split; [| by intros _]. cbn in Hm. rewrite Ed in Hm.
  destruct (record_upload (s_database s) _) as [d' [[]|e]]; by injection Hm as <- _.
Qed.

(** ** The theorem *)

Inductive QuotaRequest :=
| UploadHttp (q : ReqEnv) (headers : HeaderMap) (body : Body)
| UploadNip96 (q : ReqEnv) (headers : HeaderMap) (body : Body)
| UploadQuic (q : ReqEnv) (data : list byte) (req : Wire.Request) (pubkey : option string).

Definition serve_quota (r : QuotaRequest) (s : S) : S :=
  match r with
  | UploadHttp q headers body => (Server.handle_upload q headers body s).1
  | UploadNip96 q headers body => (handle_nip96_upload q headers body s).1
  | UploadQuic q data req pubkey => (Iroh.handle_upload q data req pubkey s).1
  end.
Definition content (r : QuotaRequest) : result (list byte) string :=
  match r with UploadHttp _ _ body | UploadNip96 _ _ body => body_data body | UploadQuic _ data _ _ => Ok data end.
Definition clock (r : QuotaRequest) : Z :=
  match r with UploadHttp q _ _ | UploadQuic q _ _ _ => q_now q | UploadNip96 q _ _ => env_now (q_env q) end.
Definition lenient (r : QuotaRequest) : bool := match r with UploadNip96 _ _ _ => true | _ => false end.

(** C23: uploads respect the quotas, whichever database the server has.  An
    upload by PUT /upload, POST /n96 or QUIC, of bytes for which there is room (no
    account overflows an [i64], and the blob is not recorded with another size),
    keeps the database well formed and leaves every user but the anonymous one,
    whose uploads are not checked, within the quota if he was; over NIP-96 this
    needs the database to answer the question. *)
Theorem uploads_within_quota `{!BlobBackendLaws B} r s :
  backend_wf (s_backend s) → db_wf (s_database s) → in_u64 (clock r) →
  (∀ data, content r = Ok data → room (db_abs (s_database s)) (sha256_hex data) (vec_len data)) →
  (lenient r = true → answers_quota (s_database s)) →
  db_wf (s_database (serve_quota r s))
  ∧ ∀ p, p ≠ "anonymous" → within (db_abs (s_database s)) p → within (db_abs (s_database (serve_quota r s))) p.
Proof.
  intros Wb W Hc Hroom Hans.
  assert (Hcase : s_database (serve_quota r s) = s_database s
    ∨ ∃ data, content r = Ok data ∧ charged (lenient r) (s_database s) (clock r) (sha256_hex data) (vec_len data) (serve_quota r s)).
  { destruct r as [q headers body | q headers body | q data req pubkey]; cbn.
    - apply charged_handle_upload.
    - by apply charged_handle_nip96_upload.
    - destruct (charged_quic_upload q data req pubkey s) as [? | ?]; [by left | right; by exists data]. }
  destruct Hcase as [-> | (data & Hd & Hch)]; [done |].
  eapply charged_within; [done | done | by apply Hroom | done | by right].
Qed.
End handlers.
