(* ===== verification/SqlRuns.v ===== *)
(** * The SQL databases along whole runs

    Every database that meets the interface answers a sequence of operations as
    the abstract database does, but for operations that fail and change nothing;
    the SQL databases do so whichever statements their engine refuses. *)

From Stdlib Require Import ZArith Lia Ascii String.
From Stdlib Require Import Strings.Byte.
From stdpp Require Import base list gmap strings numbers.
From S2P Require Import Prelude Effects Protocol Auth Replay RequestAuth RateLimit SqlDatabase SqlLaws Sql Database.

Open Scope string_scope.
Open Scope Z_scope.

(** ** Operations *)

Inductive op :=
| RecordUpload (r : UploadRecord)
| DeleteUpload (h : string)
| DeleteOwner (h p : string)
| SetQuota (p : string) (q : option Z)
| CreateUser (p : string)
| RecordAccess (now : Z) (h : string) (n : Z)
| SetRole (p role : string).

(** What the caller of an operation learns. *)
Inductive answer := Done (r : result unit DbError) | Deleted (r : result bool DbError) | Silent.

Definition with_answer {S A} (f : A → answer) (x : S * A) : S * answer := (x.1, f x.2).

Definition apply `{BlobDatabase D} (d : D) (o : op) : D * answer :=
  match o with
  | RecordUpload r => with_answer Done (record_upload d r)
  | DeleteUpload h => with_answer Deleted (delete_upload d h)
  | DeleteOwner h p => with_answer Deleted (delete_upload_owner d h p)
  | SetQuota p q => with_answer Done (set_quota d p q)
  | CreateUser p => with_answer (fun _ => Silent) (get_or_create_user d p)
  | RecordAccess now h n => with_answer (fun _ => Silent) (record_access d now h n)
  | SetRole p role => with_answer (fun _ => Silent) (set_role d p role)
  end.

(** The abstract database, with or without the enforcement of quotas. *)
Definition abs_apply (metered : bool) (a : AbsDb) (o : op) : AbsDb * answer :=
  match o with
  | RecordUpload r => with_answer Done ((if metered then Abs.record_upload else Abs.record_unmetered) a r)
  | DeleteUpload h => with_answer Deleted (Abs.delete_upload a h)
  | DeleteOwner h p => with_answer Deleted (Abs.delete_upload_owner a h p)
  | SetQuota p q => with_answer Done (Abs.set_quota a p q)
  | CreateUser _ | RecordAccess _ _ _ | SetRole _ _ => (a, Silent)
  end.

Definition failure (o : op) (msg : string) : answer :=
  match o with
  | RecordUpload _ | SetQuota _ _ => Done (Err (Internal msg))
  | DeleteUpload _ | DeleteOwner _ _ => Deleted (Err (Internal msg))
  | _ => Silent
  end.

(** A run of the abstract database in which any operation may fail. *)
Inductive abstract_run : AbsDb → list op → list answer → AbsDb → Prop :=
| run_done a : abstract_run a [] [] a
| run_step metered a a1 o x ops xs b :
    abs_apply metered a o = (a1, x) → abstract_run a1 ops xs b → abstract_run a (o :: ops) (x :: xs) b
| run_failed a o msg ops xs b :
    abstract_run a ops xs b → abstract_run a (o :: ops) (failure o msg :: xs) b.

Fixpoint run `{BlobDatabase D} (d : D) (ops : list op) : D * list answer :=
  match ops with
  | [] => (d, [])
  | o :: ops => let '(d, x) := apply d o in let '(d, xs) := run d ops in (d, x :: xs)
  end.

(** ** The abstract operations on equivalent states *)

Lemma owners_equiv (a b : AbsDb) k : a ≡ b → is_Some (a_owners a !! k) ↔ is_Some (a_owners b !! k).
Proof.
  intros (_ & Ho & _). pose proof (f_equal (lookup k) Ho) as E. rewrite !lookup_fmap in E.
  destruct (a_owners a !! k), (a_owners b !! k); done.
Qed.
Lemma uploads_equiv (a b : AbsDb) h : a ≡ b → is_Some (a_uploads a !! h) ↔ is_Some (a_uploads b !! h).
Proof.
  intros (Hu & _). pose proof (f_equal (lookup h) Hu) as E. rewrite !lookup_fmap in E.
  destruct (a_uploads a !! h), (a_uploads b !! h); done.
Qed.

(** The state after a recording, whether metered or not. *)
Definition stored (a : AbsDb) (r : UploadRecord) : AbsDb :=
  mkAbs (match a_uploads a !! r_sha256 r with Some _ => a_uploads a | None => <[r_sha256 r := r]> (a_uploads a) end)
        (<[(r_sha256 r, r_pubkey r) := r]> (a_owners a)) (a_quota a).
Lemma stored_proper a b r : a ≡ b → stored a r ≡ stored b r.
Proof.
  intros E. pose proof (uploads_equiv a b (r_sha256 r) E) as Hs. destruct E as (Hu & Ho & Hq).
  split; [| split; [cbn; by rewrite !fmap_insert, Ho | done]]. cbn.
  destruct (a_uploads a !! r_sha256 r), (a_uploads b !! r_sha256 r); try done.
  - by destruct Hs as [[? [=]] _].
  - by destruct Hs as [_ [? [=]]].
  - by rewrite !fmap_insert, Hu.
Qed.

Lemma record_proper (metered : bool) a b r : a ≡ b →
  let f := if metered then Abs.record_upload else Abs.record_unmetered in (f a r).1 ≡ (f b r).1 ∧ (f a r).2 = (f b r).2.
Proof.
  intros E. pose proof (owners_equiv a b (r_sha256 r, r_pubkey r) E) as Ho. pose proof (stored_proper a b r E) as Hs.
  pose proof (used_by_proper a b E (r_pubkey r) _ eq_refl) as Hu. cbn in Hu. pose proof E as (_ & _ & Hq).
  destruct metered; unfold Abs.record_upload, Abs.record_unmetered; fold (stored a r) (stored b r).
  - destruct (a_owners a !! _), (a_owners b !! _); [done | by destruct Ho as [[? [=]] _] | by destruct Ho as [_ [? [=]]] |].
    rewrite Hu, Hq. case_decide; [done |]. destruct (a_quota b !! _); [case_decide |]; done.
  - destruct (a_owners a !! _), (a_owners b !! _); [done | by destruct Ho as [[? [=]] _] | by destruct Ho as [_ [? [=]]] | done].
Qed.

Lemma charge_filter (h : string) (o : owner_map) :
  charge <$> filter (fun kr : string * string * UploadRecord => kr.1.1 ≠ h) o
  = filter (fun kc : string * string * (Z * Z) => kc.1.1 ≠ h) (charge <$> o).
Proof. by rewrite map_filter_fmap. Qed.

Lemma abs_apply_proper m a b o : a ≡ b → (abs_apply m a o).1 ≡ (abs_apply m b o).1 ∧ (abs_apply m a o).2 = (abs_apply m b o).2.
Proof.
  intros E. destruct o as [r|h|h p|p q|p|now h n|p role]; cbn [abs_apply]; unfold with_answer; try done.
  - destruct (record_proper m a b r E) as [E1 E2]. split; [exact E1 |]. cbn. by rewrite E2.
  - unfold Abs.delete_upload. pose proof (uploads_equiv a b h E) as Hs.
    destruct (a_uploads a !! h), (a_uploads b !! h); [| by destruct Hs as [[? [=]] _] | by destruct Hs as [_ [? [=]]] | done].
    destruct E as (Hu & Ho & Hq). split; [| done]. split; [cbn; by rewrite !fmap_delete, Hu | split; [| done]]. cbn.
    by rewrite !charge_filter, Ho.
  - unfold Abs.delete_upload_owner. pose proof (owners_equiv a b (h, p) E) as Hs.
    destruct (a_owners a !! _), (a_owners b !! _); [| by destruct Hs as [[? [=]] _] | by destruct Hs as [_ [? [=]]] | done].
    destruct E as (Hu & Ho & Hq). split; [| done]. split; [done | split; [| done]]. cbn. by rewrite !fmap_delete, Ho.
  - destruct E as (Hu & Ho & Hq). split; [| done]. split; [done | split; [done |]]. cbn. by rewrite Hq.
Qed.

Lemma abstract_run_equiv a a' ops xs b : abstract_run a ops xs b → a ≡ a' → ∃ b', abstract_run a' ops xs b' ∧ b ≡ b'.
Proof.
  intros Hr. revert a'. induction Hr as [a | m a a1 o x ops xs b Hx _ IH | a o msg ops xs b _ IH]; intros a' E.
  - exists a'. split; [constructor | done].
  - destruct (abs_apply_proper m a a' o E) as [E1 E2]. rewrite Hx in E1, E2. cbn in E1, E2.
    destruct (IH _ E1) as (b' & Hb & Eb). exists b'. split; [| done]. eapply (run_step m); [| exact Hb].
    rewrite E2. by destruct (abs_apply m a' o).
  - destruct (IH _ E) as (b' & Hb & Eb). exists b'. split; [by constructor | done].
Qed.

(** ** What fits *)

(** The bytes the operations still to come may charge. *)
Fixpoint budget (ops : list op) : Z :=
  match ops with
  | [] => 0
  | RecordUpload r :: ops => r_size r + budget ops
  | _ :: ops => budget ops
  end.

(** An operation within the ranges of its types; a blob always has its own size. *)
Definition op_fits (sz : string → Z) (o : op) : Prop :=
  match o with
  | RecordUpload r => r_size r = sz (r_sha256 r) ∧ 0 <= r_size r ∧ in_u64 (r_created_at r)
  | SetQuota _ (Some q) => in_u64 q
  | _ => True
  end.
Definition fits (sz : string → Z) (a : AbsDb) (ops : list op) : Prop :=
  Forall (op_fits sz) ops ∧ (∀ h u, a_uploads a !! h = Some u → r_size u = sz h)
  ∧ map_Forall (fun _ r => 0 <= r_size r) (a_owners a) ∧ ∀ p, used_by (a_owners a) p + budget ops <= i64_max.

Lemma budget_nonneg sz ops : Forall (op_fits sz) ops → 0 <= budget ops.
Proof. induction 1 as [|[] ops Ho _ IH]; cbn in *; lia. Qed.

Lemma fits_equiv sz a b ops : a ≡ b → fits sz a ops → fits sz b ops.
Proof.
  intros E (Hops & Hu & Hz & Hb). split; [done |]. split; [| split].
  - intros h u Hh. destruct E as (Eu & _). pose proof (f_equal (lookup h) Eu) as El. rewrite !lookup_fmap, Hh in El.
    destruct (a_uploads a !! h) as [v|] eqn:Ev; [| done]. injection El as El. specialize (Hu _ _ Ev). congruence.
  - intros k r Hk. destruct E as (_ & Eo & _). pose proof (f_equal (lookup k) Eo) as El. rewrite !lookup_fmap, Hk in El.
    destruct (a_owners a !! k) as [v|] eqn:Ev; [| done]. injection El as El. specialize (Hz _ _ Ev). cbn in Hz. lia.
  - intros p. pose proof (used_by_proper a b E p p eq_refl) as Hp. cbn in Hp. rewrite <- Hp. apply Hb.
Qed.

Lemma fits_tail sz a o ops : fits sz a (o :: ops) → fits sz a ops.
Proof.
  intros ([Ho Hops]%list.Forall_cons & Hu & Hz & Hb). split; [done |]. split; [done |]. split; [done |].
  intros p. specialize (Hb p). destruct o; cbn in Hb, Ho; lia.
Qed.

Lemma fits_less sz a b ops :
  fits sz a ops → (∀ h u, a_uploads b !! h = Some u → a_uploads a !! h = Some u) →
  (∀ k r, a_owners b !! k = Some r → a_owners a !! k = Some r) →
  (∀ p, used_by (a_owners b) p <= used_by (a_owners a) p) → fits sz b ops.
Proof.
  intros (Hops & Hu & Hz & Hb) Su So Sp. split; [done |]. split; [| split].
  - intros h u Hh. by apply (Hu h), Su.
  - intros k r Hk. by apply (Hz k r), So.
  - intros p. specialize (Hb p). specialize (Sp p). lia.
Qed.

Lemma fits_stored sz a r ops :
  fits sz a (RecordUpload r :: ops) → a_owners a !! (r_sha256 r, r_pubkey r) = None → fits sz (stored a r) ops.
Proof.
  intros ([(Hr & Hn & Hc) Hops]%list.Forall_cons & Hu & Hz & Hb) Ho. split; [done |]. split; [| split].
  - intros h u. cbn. destruct (a_uploads a !! r_sha256 r); [apply Hu |].
    rewrite lookup_insert_Some. intros [[<- <-] | [_ Hh]]; [done | by apply Hu].
  - cbn. by apply map_Forall_insert_2.
  - intros p. cbn [stored a_owners]. rewrite used_by_insert by done. specialize (Hb p). cbn in Hb. unfold add_size. case_decide; lia.
Qed.

Lemma fits_step sz m a o ops : fits sz a (o :: ops) → fits sz (abs_apply m a o).1 ops.
Proof.
  intros Hf. pose proof (fits_tail _ _ _ _ Hf) as Ht.
  destruct o as [r|h|h p|p q|p|now h n|p role]; cbn [abs_apply with_answer fst]; try done.
  - destruct m; unfold Abs.record_upload, Abs.record_unmetered; fold (stored a r);
      destruct (a_owners a !! _) eqn:Eo; try done; [| by apply fits_stored].
    case_decide; [done |]. destruct (a_quota a !! _); [case_decide; [done |] |]; by apply fits_stored.
  - unfold Abs.delete_upload. destruct (a_uploads a !! h); [| done]. cbn. eapply fits_less; [exact Ht | | |]; cbn.
    + by intros h' u' [_ ?]%lookup_delete_Some.
    + by intros k r [? _]%map_lookup_filter_Some.
    + intros p. apply MemoryDatabase.used_by_filter_le, Ht.
  - unfold Abs.delete_upload_owner. destruct (a_owners a !! _) as [r|] eqn:Er; [| done]. cbn. eapply fits_less; [exact Ht | done | |]; cbn.
    + by intros k x [_ ?]%lookup_delete_Some.
    + intros q. rewrite (used_by_delete (a_owners a) q _ _ Er). destruct Ht as (_ & _ & Hz & _). specialize (Hz _ _ Er). cbn in Hz.
      unfold add_size. case_decide; lia.
Qed.

(** ** Any database that meets the interface *)

Section lawful.
Context `{BlobDatabaseLaws D}.

Lemma refines_step {A} (f : result A DbError → answer) m (ares : AbsDb * result A DbError) a (x : D * result A DbError) o :
  abs_apply m a o = with_answer f ares → (∀ msg, f (Err (Internal msg)) = failure o msg) →
  refines ares a (db_abs x.1) x.2 →
  (∃ m, (abs_apply m a o).2 = f x.2 ∧ db_abs x.1 ≡ (abs_apply m a o).1) ∨ (db_abs x.1 ≡ a ∧ ∃ msg, f x.2 = failure o msg).
Proof.
  intros Ha Hf [[E ->] | [E [msg ->]]]; [left; exists m; by rewrite Ha | right].
  split; [done |]. exists msg. apply Hf.
Qed.

Lemma fits_may_record sz a r ops : fits sz a (RecordUpload r :: ops) → may_record a r.
Proof.
  intros ([(Hr & Hn & Hc) Hops]%list.Forall_cons & Hu & Hz & Hb). split; [done |]. split; [done |]. split.
  - specialize (Hb (r_pubkey r)). cbn in Hb. pose proof (budget_nonneg sz ops Hops). lia.
  - intros u Hh. by rewrite Hr, (Hu _ _ Hh).
Qed.

Lemma apply_step sz d o ops :
  db_wf d → fits sz (db_abs d) (o :: ops) →
  db_wf (apply d o).1
  ∧ ((∃ m, (abs_apply m (db_abs d) o).2 = (apply d o).2 ∧ db_abs (apply d o).1 ≡ (abs_apply m (db_abs d) o).1)
     ∨ (db_abs (apply d o).1 ≡ db_abs d ∧ ∃ msg, (apply d o).2 = failure o msg)).
Proof.
  intros W Hf. destruct o as [r|h|h p|p q|p|now h n|p role]; cbn [apply with_answer fst snd].
  - destruct (record_upload_refines d r W (fits_may_record _ _ _ _ Hf)) as (W' & m & Hr). split; [done |].
    by apply (refines_step Done m _ _ (record_upload d r) (RecordUpload r)) in Hr.
  - destruct (delete_upload_refines d h W) as (W' & Hr). split; [done |].
    by apply (refines_step Deleted true _ _ (delete_upload d h) (DeleteUpload h)) in Hr.
  - destruct (delete_upload_owner_refines d h p W) as (W' & Hr). split; [done |].
    by apply (refines_step Deleted true _ _ (delete_upload_owner d h p) (DeleteOwner h p)) in Hr.
  - destruct (set_quota_refines d p q W) as (W' & Hr).
    { destruct Hf as ([Ho _]%list.Forall_cons & _). intros l ->. exact Ho. }
    split; [done |]. by apply (refines_step Done true _ _ (set_quota d p q) (SetQuota p q)) in Hr.
  - destruct (get_or_create_user_refines d p W) as (W' & E). split; [done |]. left. by exists true.
  - destruct (record_access_refines d now h n W) as (W' & E). split; [done |]. left. by exists true.
  - destruct (set_role_refines d p role W) as (W' & E). split; [done |]. left. by exists true.
Qed.

Lemma lawful_run_refines sz ops : ∀ d, db_wf d → fits sz (db_abs d) ops →
  db_wf (run d ops).1 ∧ ∃ b, abstract_run (db_abs d) ops (run d ops).2 b ∧ db_abs (run d ops).1 ≡ b.
Proof.
  induction ops as [|o ops IH]; intros d W Hf; [split; [done |]; exists (db_abs d); split; [constructor | done] |].
  destruct (apply_step sz d o ops W Hf) as [W' Hs]. cbn [run]. destruct (apply d o) as [d1 x]. cbn [fst snd] in *.
  destruct Hs as [(m & Hx & E) | (E & msg & ->)].
  - destruct (IH d1 W') as (W2 & b & Hr & Eb).
    { eapply fits_equiv; [symmetry; exact E |]. by apply fits_step. }
    destruct (run d1 ops) as [d2 xs]. split; [done |].
    destruct (abstract_run_equiv _ _ _ _ _ Hr E) as (b' & Hr' & Eb'). exists b'. split; [| by rewrite Eb].
    eapply (run_step m); [| exact Hr']. rewrite <- Hx. by destruct (abs_apply m (db_abs d) o).
  - destruct (IH d1 W') as (W2 & b & Hr & Eb).
    { eapply fits_equiv; [symmetry; exact E |]. by eapply fits_tail. }
    destruct (run d1 ops) as [d2 xs]. split; [done |].
    destruct (abstract_run_equiv _ _ _ _ _ Hr E) as (b' & Hr' & Eb'). exists b'. split; [by constructor | by rewrite Eb].
Qed.
End lawful.

(** ** The SQL databases *)

Definition empty_engine (faults : nat → string → option string) : Engine Tables := mkEngine no_rows 0 faults.
#[local] Existing Instance impl.

Lemma abs_no_rows : SqlLaws.abs no_rows = mkAbs ∅ ∅ ∅.
Proof. unfold SqlLaws.abs. cbn. by rewrite !map_imap_empty, omap_empty. Qed.

(** A run without failures and without metering. *)
Fixpoint unmetered_run (a : AbsDb) (ops : list op) : AbsDb * list answer :=
  match ops with
  | [] => (a, [])
  | o :: ops => let '(a, x) := abs_apply false a o in let '(a, xs) := unmetered_run a ops in (a, x :: xs)
  end.
Lemma unmetered_run_proper ops : ∀ a b, a ≡ b →
  (unmetered_run a ops).1 ≡ (unmetered_run b ops).1 ∧ (unmetered_run a ops).2 = (unmetered_run b ops).2.
Proof.
  induction ops as [|o ops IH]; intros a b E; cbn [unmetered_run]; [done |].
  destruct (abs_apply_proper false a b o E) as [E1 E2].
  destruct (abs_apply false a o) as [a1 x], (abs_apply false b o) as [b1 y]. cbn in E1, E2.
  destruct (IH _ _ E1) as [E3 E4]. destruct (unmetered_run a1 ops), (unmetered_run b1 ops). cbn in *. by rewrite E2, E4.
Qed.

(** A quota that the column holds; the SQL databases refuse the others. *)
Definition storable (o : op) : Prop := match o with SetQuota _ (Some q) => q <= i64_max | _ => True end.

Section engine.
Context `{HashOrder} `{DialectLaws}.
Implicit Types e : Engine Tables.

Lemma faults_debit l : keeps en_faults (debit_owners l).
Proof. induction l as [|[p n] l IH]; cbn; [apply keeps_ret |]. apply keeps_bind; [apply faults_exec | done]. Qed.
#[local] Hint Resolve faults_debit : blossom.
Ltac faults :=
  repeat first
    [ progress auto with blossom | apply faults_transaction | apply keeps_bind; [| intros ?]
    | match goal with |- keeps _ (match ?x with _ => _ end) => destruct x end | progress unfold commit ].
Lemma faults_run {A} (m : MR (Engine Tables) string A) e : keeps en_faults m → en_faults (SqlDatabase.run m e).1 = en_faults e.
Proof. intros Hm. by apply keeps_map_err. Qed.
Lemma faults_kept e o : en_faults (apply e o).1 = en_faults e.
Proof.
  destruct o as [r|h|h p|p q|p|now h n|p role]; cbn [apply with_answer fst];
    [apply (faults_run (SqlDatabase.record_upload r)) | apply (faults_run (SqlDatabase.delete_upload h))
      | apply (faults_run (SqlDatabase.delete_upload_owner h p)) | apply (faults_run (SqlDatabase.set_quota p q))
      | apply (faults_run (SqlDatabase.get_or_create_user p)) | apply (faults_run (SqlDatabase.record_access now h n))
      | apply (faults_run (SqlDatabase.set_role p role))];
    unfold SqlDatabase.record_upload, SqlDatabase.delete_upload, SqlDatabase.delete_upload_owner, SqlDatabase.set_quota,
      SqlDatabase.get_or_create_user, SqlDatabase.record_access, SqlDatabase.set_role; faults.
Qed.

Lemma healthy_step sz e o ops :
  healthy e → storable o → wf (en_tables e) → fits sz (SqlLaws.abs (en_tables e)) (o :: ops) →
  SqlLaws.abs (en_tables (apply e o).1) ≡ (abs_apply false (SqlLaws.abs (en_tables e)) o).1
  ∧ (apply e o).2 = (abs_apply false (SqlLaws.abs (en_tables e)) o).2.
Proof.
  intros Hh Hs W Hf. destruct o as [r|h|h p|p q|p|now h n|p role]; cbn [apply abs_apply with_answer fst snd].
  - destruct (record_law e r W (fits_may_record _ _ _ _ Hf)) as (_ & _ & E'). destruct (E' Hh) as [E1 E2]. split; [exact E1 | by f_equal].
  - destruct (delete_law e h W) as (_ & _ & E'). destruct (E' Hh) as [E1 E2]. split; [exact E1 | by f_equal].
  - destruct (delete_owner_law e h p W) as (_ & _ & E'). destruct (E' Hh) as [E1 E2]. split; [exact E1 | by f_equal].
  - destruct (set_quota_carries e p q W) as (_ & _ & E'); [| destruct (E' Hh) as [E1 E2]; split; [exact E1 | by f_equal]].
    destruct Hf as ([Ho _]%list.Forall_cons & _). intros l ->. cbn in Ho, Hs. unfold in_u64 in Ho. lia.
  - split; [apply (create_law e p W) | done].
  - split; [apply (access_law e now h n W) | done].
  - split; [apply (set_role_refines (BlobDatabaseLaws := laws) e p role W) | done].
Qed.

Lemma healthy_run sz ops : ∀ e, healthy e → Forall storable ops → wf (en_tables e) → fits sz (SqlLaws.abs (en_tables e)) ops →
  SqlLaws.abs (en_tables (run e ops).1) ≡ (unmetered_run (SqlLaws.abs (en_tables e)) ops).1
  ∧ (run e ops).2 = (unmetered_run (SqlLaws.abs (en_tables e)) ops).2.
Proof.
  induction ops as [|o ops IH]; intros e Hh Hs W Hf; [done |]. apply list.Forall_cons in Hs as [Ho Hs].
  destruct (healthy_step sz e o ops Hh Ho W Hf) as [E1 E2].
  pose proof (faults_kept e o) as Hk. destruct (apply_step (H0 := laws) sz e o ops W Hf) as [W' _].
  pose proof (fits_step sz false _ _ _ Hf) as Hf'. cbn [run unmetered_run].
  destruct (apply e o) as [e1 x]. destruct (abs_apply false (SqlLaws.abs (en_tables e)) o) as [a1 y]. cbn [fst snd] in *. subst y.
  destruct (IH e1) as [E3 E4]; [| done | done | by eapply fits_equiv; [symmetry |] |].
  { unfold healthy in *. by rewrite Hk. }
  destruct (unmetered_run_proper ops _ _ E1) as [E5 E6].
  destruct (run e1 ops), (unmetered_run a1 ops), (unmetered_run (SqlLaws.abs (en_tables e1)) ops). cbn in *.
  split; [by rewrite E3 | by rewrite E4, E6].
Qed.
End engine.

(** What the tables say of the questions a server asks: the abstract answer, or
    an error of the engine. *)
Definition answers_questions `{HashOrder} `{DialectLaws} (e : Engine Tables) (a : AbsDb) : Prop :=
  (∀ h, reads (ok_or (erase_phash <$> a_uploads a !! h) NotFound) (map_ok erase_phash (get_upload e h)))
  ∧ (∀ h p, reads (Ok (bool_decide (is_Some (a_owners a !! (h, p))))) (is_upload_owner e h p))
  ∧ (∀ h, reads (Ok (Z.of_nat (size (Abs.owners_of a h)))) (upload_owner_count e h))
  ∧ (∀ p n, 0 <= n <= i64_max → reads (Abs.check_quota a p n) (check_quota e p n)).

