(* ===== verification/SqlExamples.v ===== *)
(** * A server on SQLite

    The theorems on the SQL databases and on quotas at work: a server whose
    metadata are in SQLite, with a quota, and an engine that refuses a commit or
    a query. *)

From Stdlib Require Import ZArith Lia Ascii String.
From Stdlib Require Import Strings.Byte.
From stdpp Require Import base list gmap strings numbers sets.
From S2P Require Import Prelude Effects Protocol Auth Replay RequestAuth RateLimit SqlDatabase SqlLaws SqlRuns Sql Database Access Storage Locks Lfs Stats Server Durable Nip96 Deployment Nip96Store Wire IrohReplay Iroh Quotas.

Open Scope string_scope.
Open Scope Z_scope.

Module SqlExamples.
Import Concrete ConcreteCodec RequestAuthExamples DurableExamples DeploymentExamples Nip96Examples.

(** ** Runs *)

(** The engine refuses to commit the first transaction. *)
Definition refuse_commit (n : nat) (what : string) : option string :=
  if bool_decide (n = 4%nat ∧ what = "commit upload") then Some "database is locked" else None.
Definition sizes (h : string) : Z := if bool_decide (h = "h1") then 40 else 70.
Definition sqlite_ops : list op :=
  [RecordUpload (mkUpload "h1" 40 "" "a" 10 None); RecordUpload (mkUpload "h1" 40 "" "a" 11 None);
   RecordUpload (mkUpload "h1" 40 "" "b" 12 None); RecordUpload (mkUpload "h2" 70 "" "a" 13 None);
   DeleteOwner "h1" "a"; DeleteUpload "h1"].
Definition sqlite_run := SqlRuns.run (H := SqliteDatabase) (empty_engine refuse_commit) sqlite_ops.

(** The refused upload leaves nothing, and the rest is accounted for. *)
Example refused_commit_leaves_nothing :
  sqlite_run.2 = [Done (Err (Internal "commit upload: database is locked")); Done (Ok tt); Done (Ok tt); Done (Ok tt);
                  Deleted (Ok true); Deleted (Ok true)]
  ∧ SqlLaws.used (en_tables sqlite_run.1) "a" = Some 70 ∧ SqlLaws.used (en_tables sqlite_run.1) "b" = Some 0.
Proof. vm_compute. done. Qed.

Lemma sqlite_ops_fit : Forall (op_fits sizes) sqlite_ops.
Proof.
  unfold sqlite_ops. repeat (apply list.Forall_cons_2; [cbn; unfold in_u64, u64_max; repeat split; try done; lia |]).
  apply list.Forall_nil_2.
Qed.


(** ** A server with a quota *)

(** SQLite with a quota of 8 bytes for the user whose key signs the uploads. *)
Definition sqlite (faults : nat → string → option string) : Engine Tables :=
  (SqlRuns.run (H := SqliteDatabase) (empty_engine faults) [SetQuota public_key_hex (Some 8)]).1.
Definition sqlite_server faults : ServerState MemoryBackend (Engine Tables) MemoryLfsVersionDatabase :=
  mkServer MemoryBackend.new (sqlite faults) OpenAccess ∅ None "http://s" (mkRequirements None [] true) 1000
    None SEEN_AUTH_EVENTS 256 [].
#[local] Existing Instance SqliteDatabase.
#[local] Existing Instance sqlite_laws.

Definition put (data : list byte) := UploadHttp request (upload_headers 1000 data []) (body data).
Definition post (data : list byte) := UploadNip96 request (nip96_headers data) (body data).
Definition healthy_engine : nat → string → option string := fun _ _ => None.
(** An engine that fails to answer what a user's quota is. *)
Definition refuse_quota (n : nat) (what : string) : option string :=
  if bool_decide (what = "check quota") then Some "database is locked" else None.
Definition used_after (s : ServerState MemoryBackend (Engine Tables) MemoryLfsVersionDatabase) : option Z :=
  SqlLaws.used (en_tables (s_database s)) public_key_hex.

(** Five bytes fit, six more do not. *)
Example quota_of_eight :
  let s := serve_quota (put v1) (sqlite_server healthy_engine) in
  used_after s = Some 5 ∧ used_after (serve_quota (put v2) s) = Some 5.
Proof. vm_compute. done. Qed.
(** When the query fails, an upload over HTTP is refused, one over NIP-96 passes:
    two of them take the user over the quota. *)
Example quota_unanswered :
  let s := sqlite_server refuse_quota in
  used_after (serve_quota (put v1) s) = Some 0
  ∧ used_after (serve_quota (post v2) (serve_quota (post v1) s)) = Some 11.
Proof. vm_compute. done. Qed.

#[local] Instance sqlite_database_laws : BlobDatabaseLaws (Engine Tables) := SqlLaws.laws (H0 := Sqlite.dialect).

Lemma sqlite_wf : db_wf (sqlite healthy_engine).
Proof.
  apply (set_quota_law (empty_engine healthy_engine) public_key_hex (Some 8) wf_no_rows).
  intros l [= <-]. unfold in_u64, u64_max. lia.
Qed.
Lemma sqlite_no_uploads :
  a_owners (db_abs (sqlite healthy_engine)) = ∅ ∧ a_uploads (db_abs (sqlite healthy_engine)) = ∅
  ∧ ∀ p, used_by (a_owners (db_abs (sqlite healthy_engine))) p = 0.
Proof.
  assert (E : a_owners (db_abs (sqlite healthy_engine)) = ∅) by (vm_compute; reflexivity).
  split; [exact E |]. split; [vm_compute; reflexivity |]. intros p. by rewrite E.
Qed.

Lemma uploads_within_quota_witness :
  used_after (serve_quota (put v1) (sqlite_server healthy_engine)) = Some 5
  ∧ Quotas.within (db_abs (s_database (serve_quota (put v1) (sqlite_server healthy_engine)))) public_key_hex.
Proof.
  split; [vm_compute; reflexivity |]. destruct sqlite_no_uploads as (_ & Eu & Eo).
  assert (Hne : public_key_hex ≠ "anonymous") by (vm_compute; discriminate).
  assert (Hc : in_u64 (clock (put v1))) by (unfold in_u64, u64_max; cbn; lia).
  assert (Hroom : ∀ data, content (put v1) = Ok data → room (db_abs (sqlite healthy_engine)) (sha256_hex data) (vec_len data)).
  { intros data [= <-]. split; [vm_compute; split; discriminate |]. rewrite Eu.
    split; [intros p; rewrite Eo; vm_compute; discriminate | intros u Hu; discriminate Hu]. }
  assert (Hw : Quotas.within (db_abs (sqlite healthy_engine)) public_key_hex).
  { intros l Hl. rewrite Eo. apply (wf_quota _ sqlite_wf _ _ Hl). }
  assert (Hb : backend_wf (s_backend (sqlite_server healthy_engine))) by done.
  refine (proj2 (uploads_within_quota (put v1) (sqlite_server healthy_engine) Hb sqlite_wf Hc Hroom _) public_key_hex Hne Hw).
  intros Hl. discriminate Hl.
Defined.
End SqlExamples.
