(* ===== verification/SqlLocks.v ===== *)
(** * Locks in SQL ([src/src/locks/sqlite.rs], [src/src/locks/postgres.rs])

    The table [lfs_locks] with its two keys, the statements on it, and the
    functions of the trait as sequences of statements.  Between two statements of
    one server those of another may run: [system] interleaves them. *)

From Stdlib Require Import ZArith Lia Ascii String.
From stdpp Require Import base list gmap strings numbers.
From S2P Require Import Prelude Effects Protocol RateLimit Lfs Locks Database Sql.

Open Scope string_scope.
Open Scope Z_scope.
Open Scope handler_scope.

(** Membership in a list put together from others. *)
Ltac in_app := repeat (rewrite elem_of_app || rewrite elem_of_cons || rewrite list_elem_of_singleton); tauto.

(** [str::parse::<i64>], [i64::to_string]. *)
Definition parse_i64 (s : string) : option Z :=
  match s with
  | String "-" EmptyString => None
  | String "-" body => Z.opp <$> parse_go 10 (i64_max + 1) 0 body
  | _ => from_str_radix 10 i64_max s
  end.
Definition i64_to_string (z : Z) : string :=
  if decide (z < 0) then "-" +:+ u64_to_string (- z) else u64_to_string z.

(** ** The table *)

(** A row of [lfs_locks], under its primary key, the repository and the id. *)
Record LockRow := mkLockRow { lr_path : string; lr_pubkey : string; lr_locked_at : Z }.
Notation LockTable := (gmap (string * string) LockRow).

Definition lock_record (k : string * string) (row : LockRow) : LockRecord :=
  mkLock k.2 k.1 (lr_path row) (lr_pubkey row) (as_u64 (lr_locked_at row)).
Definition row_of (l : LockRecord) : LockRow := mkLockRow (l_path l) (l_pubkey l) (as_i64 (l_locked_at l)).
Definition key_of (l : LockRecord) : string * string := (l_repo_id l, l_id l).

Section ops.
Context `{HashOrder} `{Dialect}.
Notation M := (MR (Engine LockTable) LockError).
Implicit Types t : LockTable.

(** [SELECT id ... WHERE repo_id = ? AND path = ?]. *)
Definition on_file (repo path : string) (kr : string * string * LockRow) : bool :=
  bool_decide (kr.1.1 = repo) && bool_decide (lr_path kr.2 = path).
Definition find_on_path (repo path : string) t : option (string * string * LockRow) :=
  List.find (on_file repo path) (hm_iter (string * string) LockRow t).
(** [INSERT INTO lfs_locks], under [PRIMARY KEY (repo_id, id)] and
    [UNIQUE (repo_id, path)]. *)
Definition insert_lock (l : LockRecord) t : result (LockTable * unit) string :=
  match t !! key_of l, find_on_path (l_repo_id l) (l_path l) t with
  | None, None => Ok (<[key_of l := row_of l]> t, tt)
  | _, _ => Err "UNIQUE constraint failed"
  end.

(** ** Operations *)

Definition sql {A} (what : string) (texts : list string) (f : LockTable → result (LockTable * A) string) : M A :=
  map_err (fun e => LockInternal e) (exec what (bound texts f)).

(** [create_lock]; [now] is the clock and [uuid] the id drawn. *)
Definition create_lock (now : Z) (uuid repo path pubkey : string) : M LockRecord :=
  let! existing := sql "check conflict" [repo; path] (fun t => Ok (t, find_on_path repo path t)) in
  match existing with
  | Some kr => early (Conflict kr.1.2)
  | None =>
      let l := mkLock uuid repo path pubkey now in
      sql "insert lock" [uuid; repo; path; pubkey] (insert_lock l) ;! ret l
  end.

Definition may_unlock (force : bool) (requester : string) (l : LockRecord) : bool :=
  force || bool_decide (l_pubkey l = requester).

(** [delete_lock]. *)
Definition delete_lock (repo id : string) (force : bool) (requester : string) : M LockRecord :=
  let! row := sql "find lock" [repo; id] (fun t => Ok (t, t !! (repo, id))) in
  match row with
  | None => early LockNotFound
  | Some row =>
      let l := lock_record (repo, id) row in
      guard (may_unlock force requester l) (Forbidden "only the lock owner or an admin can unlock") ;!
      sql "delete lock" [repo; id] (fun t => Ok (delete (repo, id) t, tt)) ;!
      ret l
  end.

(** [ORDER BY locked_at]: the order of equal times is the engine's. *)
Definition repo_rows (repo : string) t : list LockRecord :=
  sort_by_key (fun l => as_i64 (l_locked_at l))
    (map (fun kr => lock_record kr.1 kr.2)
      (List.filter (fun kr => bool_decide (kr.1.1 = repo)) (hm_iter (string * string) LockRow t))).
Definition filtered (filters : LockFilters) (l : LockRecord) : bool :=
  MemoryLocks.opt_eq (fl_path filters) (l_path l) && MemoryLocks.opt_eq (fl_id filters) (l_id l).

(** [LIMIT limit + 1 OFFSET offset], and the page that is made of it. *)
Definition window {A} (limit offset : Z) (rows : list A) : list A :=
  take (Z.to_nat (limit + 1)) (drop (Z.to_nat offset) rows).
Definition lock_page (limit offset : Z) (locks : list LockRecord) : list LockRecord * option string :=
  (take (Z.to_nat limit) locks,
   if decide (vec_len locks > limit) then Some (i64_to_string (as_i64 (offset + limit))) else None).
Definition limit_of (filters : LockFilters) : Z := default 100 (fl_limit filters).
Definition offset_of (filters : LockFilters) : Z := default 0 (fl_cursor filters ≫= parse_i64).

(** [list_locks] of [sqlite.rs]: the filters are in the query.  A negative
    offset counts as none. *)
Definition sqlite_list_locks (repo : string) (filters : LockFilters) : M (list LockRecord * option string) :=
  let limit := limit_of filters in
  let offset := offset_of filters in
  let! rows := sql "list locks" (repo :: option_list (fl_path filters) ++ option_list (fl_id filters))
    (fun t => Ok (t, window limit offset (List.filter (filtered filters) (repo_rows repo t)))) in
  ret (lock_page limit offset rows).
(** [list_locks] of [postgres.rs]: the filters are applied to the rows of the
    window.  A negative offset is an error. *)
Definition postgres_list_locks (repo : string) (filters : LockFilters) : M (list LockRecord * option string) :=
  let limit := limit_of filters in
  let offset := offset_of filters in
  let! rows := sql "list locks" [repo] (fun t =>
    if decide (offset < 0) then Err "OFFSET must not be negative" else Ok (t, window limit offset (repo_rows repo t))) in
  ret (lock_page limit offset (List.filter (filtered filters) rows)).

(** [get_lock], [get_lock_by_path]. *)
Definition get_lock (repo id : string) : M LockRecord :=
  let! row := sql "get lock" [repo; id] (fun t => Ok (t, t !! (repo, id))) in
  match row with Some row => ret (lock_record (repo, id) row) | None => early LockNotFound end.
Definition get_lock_by_path (repo path : string) : M LockRecord :=
  let! row := sql "get lock by path" [repo; path] (fun t => Ok (t, find_on_path repo path t)) in
  match row with Some kr => ret (lock_record kr.1 kr.2) | None => early LockNotFound end.

(** ** The trait *)

Definition lock_impl (list_locks : string → LockFilters → M (list LockRecord * option string))
    : LockDatabase (Engine LockTable) := {|
  Locks.create_lock e now uuid repo path pubkey := create_lock now uuid repo path pubkey e;
  Locks.delete_lock e repo id force requester := delete_lock repo id force requester e;
  Locks.list_locks e repo filters := (list_locks repo filters e).2;
  Locks.get_lock e repo id := (get_lock repo id e).2;
  Locks.get_lock_by_path e repo path := (get_lock_by_path repo path e).2
|}.
End ops.

Definition SqliteLockDatabase `{HashOrder} : LockDatabase (Engine LockTable) :=
  lock_impl (H0 := Sqlite.dialect) (sqlite_list_locks (H0 := Sqlite.dialect)).
Definition PostgresLockDatabase `{HashOrder} : LockDatabase (Engine LockTable) :=
  lock_impl (H0 := Postgres.dialect) (postgres_list_locks (H0 := Postgres.dialect)).

(** ** Several servers on one table

    A request is a task that runs its statements one by one; the statements of
    the tasks interleave.  One may be refused, or run and its answer be lost. *)

Inductive LockTask :=
| Locking (l : LockRecord)
| Inserting (l : LockRecord)
| Unlocking (repo id : string) (force : bool) (requester : string)
| Deleting (l : LockRecord) (force : bool) (requester : string)
| Locked (l : LockRecord)
| Unlocked (l : LockRecord)
| Refused (e : LockError).

Inductive outcome := Runs | Fails (msg : string) | AnswerLost (msg : string).

(** What happened to the table. *)
Inductive lock_event :=
| Inserted (l : LockRecord)
| Deleted (l : LockRecord) (force : bool) (requester : string).

Section tasks.
Context `{HashOrder}.
Implicit Types t : LockTable.

(** One statement of a task that the engine runs. *)
Definition task_step t (k : LockTask) : LockTable * LockTask * list lock_event :=
  match k with
  | Locking l =>
      (t, match find_on_path (l_repo_id l) (l_path l) t with
          | Some kr => Refused (Conflict kr.1.2)
          | None => Inserting l
          end, [])
  | Inserting l =>
      match insert_lock l t with
      | Ok (t', _) => (t', Locked l, [Inserted l])
      | Err msg => (t, Refused (LockInternal ("insert lock: " +:+ msg)), [])
      end
  | Unlocking repo id force requester =>
      (t, match t !! (repo, id) with
          | None => Refused LockNotFound
          | Some row =>
              if may_unlock force requester (lock_record (repo, id) row)
              then Deleting (lock_record (repo, id) row) force requester
              else Refused (Forbidden "only the lock owner or an admin can unlock")
          end, [])
  | Deleting l force requester =>
      (delete (key_of l) t, Unlocked l,
       match t !! key_of l with Some row => [Deleted (lock_record (key_of l) row) force requester] | None => [] end)
  | _ => (t, k, [])
  end.
Definition task_outcome t (k : LockTask) (o : outcome) : LockTable * LockTask * list lock_event :=
  match o with
  | Runs => task_step t k
  | Fails msg => (t, Refused (LockInternal msg), [])
  | AnswerLost msg => let '(t', _, evs) := task_step t k in (t', Refused (LockInternal msg), evs)
  end.

Record LockSystem := mkSystem { sys_table : LockTable; sys_tasks : list LockTask; sys_events : list lock_event }.

(** The task [i] runs its next statement, if it has one. *)
Definition system_step (s : LockSystem) (i : nat) (o : outcome) : LockSystem :=
  match sys_tasks s !! i with
  | None | Some (Locked _) | Some (Unlocked _) | Some (Refused _) => s
  | Some k =>
      let '(t, k', evs) := task_outcome (sys_table s) k o in
      mkSystem t (<[i := k']> (sys_tasks s)) (sys_events s ++ evs)%list
  end.
Definition system (tasks : list LockTask) (schedule : list (nat * outcome)) : LockSystem :=
  foldl (fun s io => system_step s io.1 io.2) (mkSystem ∅ tasks []) schedule.

(** A task before its first statement. *)
Definition fresh_task (k : LockTask) : Prop :=
  match k with Locking l => in_u64 (l_locked_at l) | Unlocking _ _ _ _ => True | _ => False end.
(** The lock a task may still insert. *)
Definition pending (k : LockTask) : option LockRecord :=
  match k with Locking l | Inserting l => Some l | _ => None end.
Definition same_file (l1 l2 : LockRecord) : Prop := l_repo_id l1 = l_repo_id l2 ∧ l_path l1 = l_path l2.
(** Ids are drawn once. *)
Definition distinct_ids (tasks : list LockTask) : Prop :=
  ∀ i j k1 k2 l1 l2, tasks !! i = Some k1 → tasks !! j = Some k2 → pending k1 = Some l1 → pending k2 = Some l2 →
    key_of l1 = key_of l2 → i = j.
End tasks.

(** *** The invariant *)

Section exclusion.
Context `{HashOrder}.
Implicit Types t : LockTable.
Implicit Types s : LockSystem.

(** What a task knows of what happened. *)
Definition task_ok (evs : list lock_event) (k : LockTask) : Prop :=
  match k with
  | Locking l | Inserting l => in_u64 (l_locked_at l) ∧ ∀ l', Inserted l' ∈ evs → key_of l' ≠ key_of l
  | Deleting l force requester => Inserted l ∈ evs ∧ may_unlock force requester l = true
  | Locked l => Inserted l ∈ evs
  | _ => True
  end.
(** The row of a lock is there from its insertion to its deletion. *)
Definition deleted_in (l : LockRecord) (evs : list lock_event) : Prop :=
  ∃ l' force requester, Deleted l' force requester ∈ evs ∧ key_of l' = key_of l.

Lemma deleted_in_dec l evs : deleted_in l evs ∨ ¬ deleted_in l evs.
Proof.
  induction evs as [|ev evs [(x & f & r & Hx & E) | Hn]]; [right | left | ].
  - by intros (x & f & r & ?%elem_of_nil & _).
  - exists x, f, r. split; [by apply list_elem_of_further | done].
  - destruct ev as [l'|l' f r].
    + right. intros (x & f & r & [[=] | Hx]%elem_of_cons & E). apply Hn. by exists x, f, r.
    + destruct (decide (key_of l' = key_of l)) as [E|E]; [left | right].
      * exists l', f, r. split; [by apply list_elem_of_here | done].
      * intros (x & f' & r' & [[= -> -> ->] | Hx]%elem_of_cons & E'); [done |]. apply Hn. by exists x, f', r'.
Qed.

Record system_ok s : Prop := {
  sok_tasks : ∀ i k, sys_tasks s !! i = Some k → task_ok (sys_events s) k;
  sok_distinct : distinct_ids (sys_tasks s);
  sok_there : ∀ a l b, sys_events s = (a ++ Inserted l :: b)%list → ¬ deleted_in l b → sys_table s !! key_of l = Some (row_of l);
  sok_rows : ∀ k row, sys_table s !! k = Some row → Inserted (lock_record k row) ∈ sys_events s;
  sok_ids : ∀ l l', Inserted l ∈ sys_events s → Inserted l' ∈ sys_events s → key_of l = key_of l' → l = l';
  sok_excluded : ∀ a l1 b l2 c, sys_events s = (a ++ Inserted l1 :: b ++ Inserted l2 :: c)%list → same_file l1 l2 → deleted_in l1 b;
  sok_deleted : ∀ l force requester, Deleted l force requester ∈ sys_events s →
    Inserted l ∈ sys_events s ∧ may_unlock force requester l = true
}.

Lemma lock_record_row l : in_u64 (l_locked_at l) → lock_record (key_of l) (row_of l) = l.
Proof.
  intros Hl. destruct l. unfold lock_record, key_of, row_of. cbn in *. by rewrite u64_of_i64.
Qed.
Lemma find_on_path_none repo path t k row :
  find_on_path repo path t = None → t !! k = Some row → ¬ (k.1 = repo ∧ lr_path row = path).
Proof.
  intros Hf Hk [<- <-]. unfold find_on_path in Hf.
  assert (Hin : In (k, row) (hm_iter (string * string) LockRow t)) by (apply list_elem_of_In, elem_of_hm_iter, Hk).
  pose proof (List.find_none _ _ Hf _ Hin) as Hn. unfold on_file in Hn. cbn in Hn. by rewrite !bool_decide_eq_true_2 in Hn.
Qed.

(** What one statement does to the table, the task and the events. *)
Inductive effect t (k : LockTask) : LockTable → LockTask → list lock_event → Prop :=
| effect_none k' :
    pending k' = None ∨ pending k' = pending k →
    (∀ l f r, k' = Deleting l f r → ∃ row, t !! key_of l = Some row ∧ l = lock_record (key_of l) row ∧ may_unlock f r l = true) →
    (∀ l, k' ≠ Locked l) → effect t k t k' []
| effect_insert l k' :
    pending k = Some l → t !! key_of l = None → find_on_path (l_repo_id l) (l_path l) t = None →
    k' = Locked l ∨ (∃ e, k' = Refused e) → effect t k (<[key_of l := row_of l]> t) k' [Inserted l]
| effect_delete l f r row k' :
    k = Deleting l f r → t !! key_of l = Some row → k' = Unlocked l ∨ (∃ e, k' = Refused e) →
    effect t k (delete (key_of l) t) k' [Deleted (lock_record (key_of l) row) f r].

Lemma task_outcome_effect t k o t' k' evs :
  task_outcome t k o = (t', k', evs) →
  match k with Locked _ | Unlocked _ | Refused _ => True | _ => effect t k t' k' evs end.
Proof.
  assert (Hr : ∀ e, effect t k t (Refused e) []) by (intros e; constructor; [by left | done | done]).
  destruct k as [l|l|repo id f r|l f r|l|l|e]; try done; destruct o as [|msg|msg]; cbn [task_outcome task_step];
    try (intros [= <- <- <-]; apply Hr).
  - destruct (find_on_path _ _ _); intros [= <- <- <-]; [apply Hr |]. by constructor; [right | |].
  - unfold insert_lock. destruct (t !! key_of l) eqn:E1; [| destruct (find_on_path _ _ t) eqn:E2];
      intros [= <- <- <-]; [apply Hr.. |]. by apply effect_insert; [| | | left].
  - unfold insert_lock. destruct (t !! key_of l) eqn:E1; [| destruct (find_on_path _ _ t) eqn:E2];
      intros [= <- <- <-]; [apply Hr.. |]. apply effect_insert; [done.. | right; by eexists].
  - destruct (t !! (repo, id)) as [row|] eqn:E; [| intros [= <- <- <-]; apply Hr].
    destruct (may_unlock _ _ _) eqn:Em; intros [= <- <- <-]; [| apply Hr]. constructor; [by left | | done].
    intros l f' r' [= <- <- <-]. exists row. done.
  - destruct (t !! key_of l) as [row|] eqn:E; intros [= <- <- <-]; [by apply effect_delete; [| | left] |].
    rewrite delete_id by done. by constructor; [left | |].
  - destruct (t !! key_of l) as [row|] eqn:E; intros [= <- <- <-]; [apply effect_delete; [done | done | right; by eexists] |].
    rewrite delete_id by done. apply Hr.
Qed.

Lemma snoc_split {A} (x a b : list A) e y :
  (x ++ [e])%list = (a ++ y :: b)%list → (b = [] ∧ e = y ∧ x = a) ∨ ∃ b', b = (b' ++ [e])%list ∧ x = (a ++ y :: b')%list.
Proof.
  destruct b as [|z b _] using rev_ind.
  - intros [-> [= ->]]%app_inj_tail. by left.
  - rewrite app_comm_cons, app_assoc. intros [-> ->]%app_inj_tail. right. by exists b.
Qed.

Lemma distinct_update tasks i k k' :
  tasks !! i = Some k → pending k' = None ∨ pending k' = pending k → distinct_ids tasks → distinct_ids (<[i := k']> tasks).
Proof.
  intros Hi Hp Hd a b ka kb la lb [(-> & <- & _) | [Na Ha]]%list_lookup_insert_Some
    [(-> & <- & _) | [Nb Hb]]%list_lookup_insert_Some Pa Pb E; try done.
  - destruct Hp as [Hp | Hp]; rewrite Hp in Pa; [done |]. by apply (Hd _ _ k kb la lb).
  - destruct Hp as [Hp | Hp]; rewrite Hp in Pb; [done |]. by apply (Hd _ _ ka k la lb).
  - by apply (Hd _ _ ka kb la lb).
Qed.

Lemma task_ok_app evs new k :
  task_ok evs k → (∀ l l', pending k = Some l → Inserted l' ∈ new → key_of l' ≠ key_of l) → task_ok (evs ++ new) k.
Proof.
  destruct k as [l|l|repo id f r|l f r|l|l|e]; cbn; try done.
  - intros [? Ho] Hn. split; [done |]. intros l' [?|?]%elem_of_app; [by apply Ho | by apply (Hn l)].
  - intros [? Ho] Hn. split; [done |]. intros l' [?|?]%elem_of_app; [by apply Ho | by apply (Hn l)].
  - intros [? ?] _. split; [apply elem_of_app; by left | done].
  - intros ? _. apply elem_of_app; by left.
Qed.

Section step.
Context s (W : system_ok s) (i : nat) (k : LockTask) (Hi : sys_tasks s !! i = Some k).

Lemma task_ok_pending l : pending k = Some l →
  in_u64 (l_locked_at l) ∧ ∀ l', Inserted l' ∈ sys_events s → key_of l' ≠ key_of l.
Proof. pose proof (sok_tasks _ W i k Hi) as Ht. destruct k; try done; intros [= <-]; exact Ht. Qed.

Lemma step_none k' :
  pending k' = None ∨ pending k' = pending k →
  (∀ l f r, k' = Deleting l f r → ∃ row, sys_table s !! key_of l = Some row ∧ l = lock_record (key_of l) row ∧ may_unlock f r l = true) →
  (∀ l, k' ≠ Locked l) → system_ok (mkSystem (sys_table s) (<[i := k']> (sys_tasks s)) (sys_events s)).
Proof.
  intros Hp Hdel Hl. pose proof task_ok_pending as Hpend. destruct W as [Ht Hd Hthere Hrows Hids Hex Hdeld]. split; cbn; try done; [| by eapply distinct_update].
  intros j kj [(-> & <- & _) | [_ Hj]]%list_lookup_insert_Some; [| by eapply Ht].
  destruct k' as [l|l|repo id f r|l f r|l|l|e]; try done.
  - destruct Hp as [[=] | Hp]. by apply Hpend.
  - destruct Hp as [[=] | Hp]. by apply Hpend.
  - destruct (Hdel l f r eq_refl) as (row & Hrow & E & Hm). split; [| done]. rewrite E. by apply Hrows.
  - by destruct (Hl l).
Qed.

Lemma step_insert l k' :
  pending k = Some l → sys_table s !! key_of l = None → find_on_path (l_repo_id l) (l_path l) (sys_table s) = None →
  k' = Locked l ∨ (∃ e, k' = Refused e) →
  system_ok (mkSystem (<[key_of l := row_of l]> (sys_table s)) (<[i := k']> (sys_tasks s)) (sys_events s ++ [Inserted l])).
Proof.
  intros Hp Hnone Hfile Hk'. destruct (task_ok_pending l Hp) as [Hu Hfresh].
  assert (Hpn : pending k' = None) by (by destruct Hk' as [-> | [e ->]]).
  destruct W as [Ht Hd Hthere Hrows Hids Hex Hdeld]. split; cbn.
  - intros j kj [(-> & <- & _) | [Hne Hj]]%list_lookup_insert_Some.
    { destruct Hk' as [-> | [e ->]]; [| done]. cbn. apply elem_of_app. right. by apply list_elem_of_singleton. }
    pose proof (Ht j kj Hj) as Hok. assert (Hpj : ∀ lj, pending kj = Some lj → key_of l ≠ key_of lj).
    { intros lj Plj E. apply Hne. by apply (Hd i j k kj l lj). }
    apply task_ok_app; [done |]. intros lj l' Plj [= ->]%list_elem_of_singleton. by apply Hpj.
  - apply (distinct_update _ _ k); [done | by left | done].
  - intros a l' b [(-> & [= <-] & <-) | (b' & -> & E)]%snoc_split Hb; [by rewrite lookup_insert_eq |].
    assert (key_of l' ≠ key_of l) by (apply Hfresh; rewrite E; in_app).
    rewrite lookup_insert_ne by done. apply (Hthere a l' b' E). intros (x & f & r & Hx & Ek). apply Hb. exists x, f, r. split; [in_app | done].
  - intros key row [(<- & <-) | [_ Hk]]%lookup_insert_Some.
    + rewrite lock_record_row by done. in_app.
    + apply elem_of_app. left. by apply Hrows.
  - intros l1 l2 [H1 | H1%list_elem_of_singleton]%elem_of_app [H2 | H2%list_elem_of_singleton]%elem_of_app E.
    + by apply Hids.
    + injection H2 as ->. by destruct (Hfresh l1 H1).
    + injection H1 as ->. by destruct (Hfresh l2 H2).
    + congruence.
  - intros a l1 b l2 c E Hs. rewrite app_comm_cons, app_assoc in E. apply snoc_split in E as [(-> & [= <-] & E) | (c' & -> & E)].
    + destruct (deleted_in_dec l1 b) as [Hx | Hx]; [done | exfalso].
      pose proof (Hthere a l1 b E Hx) as Hrow.
      apply (find_on_path_none _ _ _ _ _ Hfile Hrow). destruct Hs as [Er Ep]. by rewrite <- Er, <- Ep.
    + apply (Hex a l1 b l2 c'); [| done]. rewrite E. by rewrite app_comm_cons, app_assoc.
  - intros x f r [Hx | Hx%list_elem_of_singleton]%elem_of_app; [| done]. destruct (Hdeld x f r Hx) as [? ?].
    split; [apply elem_of_app; by left | done].
Qed.

Lemma step_delete l f r row k' :
  k = Deleting l f r → sys_table s !! key_of l = Some row → k' = Unlocked l ∨ (∃ e, k' = Refused e) →
  system_ok (mkSystem (delete (key_of l) (sys_table s)) (<[i := k']> (sys_tasks s))
    (sys_events s ++ [Deleted (lock_record (key_of l) row) f r])).
Proof.
  intros Hk Hrow Hk'. pose proof (sok_tasks _ W i k Hi) as Htk. rewrite Hk in Htk. destruct Htk as [Hin Hmay].
  assert (El : lock_record (key_of l) row = l).
  { apply (sok_ids _ W); [by apply (sok_rows _ W) | done | done]. }
  rewrite El. assert (Hpn : pending k' = None) by (by destruct Hk' as [-> | [e ->]]).
  destruct W as [Ht Hd Hthere Hrows Hids Hex Hdeld]. split; cbn.
  - intros j kj [(-> & <- & _) | [Hne Hj]]%list_lookup_insert_Some; [by destruct Hk' as [-> | [e ->]] |].
    apply task_ok_app; [by eapply Ht |]. by intros lj l' _ [=]%list_elem_of_singleton.
  - apply (distinct_update _ _ k); [done | by left | done].
  - intros a l' b [(-> & [=] & <-) | (b' & -> & E)]%snoc_split Hb.
    rewrite lookup_delete_ne.
    + apply (Hthere a l' b' E). intros (x & f' & r' & Hx & Ek). apply Hb. exists x, f', r'. split; [in_app | done].
    + intros Ek. apply Hb. exists l, f, r. split; [in_app | done].
  - intros key row' [_ Hk'']%lookup_delete_Some. apply elem_of_app. left. by apply Hrows.
  - intros l1 l2 [H1 | H1%list_elem_of_singleton]%elem_of_app [H2 | H2%list_elem_of_singleton]%elem_of_app E; try done. by apply Hids.
  - intros a l1 b l2 c E Hs. rewrite app_comm_cons, app_assoc in E. apply snoc_split in E as [(-> & [=] & _) | (c' & -> & E)].
    apply (Hex a l1 b l2 c'); [| done]. rewrite E. by rewrite app_comm_cons, app_assoc.
  - intros x f' r' [Hx | Hx%list_elem_of_singleton]%elem_of_app; [| injection Hx as -> -> ->];
      [destruct (Hdeld x f' r' Hx) as [? ?] |]; (split; [apply elem_of_app; by left | done]).
Qed.
End step.

Lemma system_step_ok s i o : system_ok s → system_ok (system_step s i o).
Proof.
  intros W. unfold system_step. destruct (sys_tasks s !! i) as [k|] eqn:Hi; [| done].
  destruct (task_outcome (sys_table s) k o) as [[t' k'] evs] eqn:E. pose proof (task_outcome_effect _ _ _ _ _ _ E) as He.
  destruct k; try done; (destruct He as [k' Hp Hdel Hl | l' k' Hp Hn Hf Hk' | l' f r row k' Hk Hrow Hk'];
    [rewrite app_nil_r; by eapply step_none | by eapply step_insert | by eapply step_delete]).
Qed.
Lemma system_is_ok tasks schedule : Forall fresh_task tasks → distinct_ids tasks → system_ok (system tasks schedule).
Proof.
  intros Hf Hd. unfold system. assert (W : system_ok (mkSystem ∅ tasks [])).
  { split; cbn; try done.
    - intros i k Hk. pose proof (proj1 (list.Forall_lookup _ _) Hf i k Hk) as Hfk. destruct k; try done. cbn. split; [done |]. by intros l' ?%elem_of_nil.
    - by intros [].
    - by intros l l' ?%elem_of_nil.
    - by intros [].
    - by intros l f r ?%elem_of_nil. }
  revert W. generalize (mkSystem ∅ tasks []). induction schedule as [|[i o] sch IH]; intros s W; [done |].
  by apply IH, system_step_ok.
Qed.
End exclusion.

(** *** The functions of the trait as tasks *)

Section as_tasks.
Context `{HashOrder} `{Dialect}.
Implicit Types t : LockTable.

(** A task alone with the table. *)
Fixpoint task_run t (k : LockTask) (os : list outcome) : LockTable * LockTask :=
  match os with
  | [] => (t, k)
  | o :: os => let '(t, k, _) := task_outcome t k o in task_run t k os
  end.
Definition answer_of (k : LockTask) : option (result LockRecord LockError) :=
  match k with Locked l | Unlocked l => Some (Ok l) | Refused e => Some (Err e) | _ => None end.
(** An operation does what its task does, under some outcomes. *)
Definition runs_task (m : MR (Engine LockTable) LockError LockRecord) (k : LockTask) : Prop :=
  ∀ e e' r, m e = (e', r) → ∃ os k', task_run (en_tables e) k os = (en_tables e', k') ∧ answer_of k' = Some r.

Lemma sql_cases {A} (what : string) (texts : list string) (f : LockTable → result (LockTable * A) string) (e : Engine LockTable) :
  (∃ e' msg, sql what texts f e = (e', Err (LockInternal msg)) ∧ en_tables e' = en_tables e)
  ∨ ∃ e' a, sql what texts f e = (e', Ok a) ∧ f (en_tables e) = Ok (en_tables e', a).
Proof.
  unfold sql, map_err, exec, bound. destruct (en_faults e _ _); [left; by eexists _, _ |].
  destruct (forallb _ _); [| left; by eexists _, _]. destruct (f (en_tables e)) as [[t' a]|]; [right | left]; by eexists _, _.
Qed.

Lemma create_lock_is_task now uuid repo path pubkey :
  runs_task (create_lock now uuid repo path pubkey) (Locking (mkLock uuid repo path pubkey now)).
Proof.
  intros e e' r. unfold create_lock, bind at 1.
  destruct (sql_cases "check conflict" [repo; path] (fun t => Ok (t, find_on_path repo path t)) e)
    as [(e1 & msg & -> & Et) | (e1 & a & -> & E)].
  { intros [= <- <-]. exists [Fails msg]. eexists. cbn. by rewrite Et. }
  injection E as Et <-. destruct (find_on_path repo path (en_tables e)) as [kr|] eqn:Ef.
  { intros [= <- <-]. exists [Runs]. eexists. cbn. by rewrite Ef, Et. }
  cbv zeta. unfold bind. set (l := mkLock uuid repo path pubkey now).
  destruct (sql_cases "insert lock" [uuid; repo; path; pubkey] (insert_lock l) e1) as [(e2 & msg & -> & Et2) | (e2 & [] & -> & E)];
    intros [= <- <-].
  - exists [Runs; Fails msg]. eexists. cbn. by rewrite Et2, Et.
  - exists [Runs; Runs]. eexists. cbn [task_run task_outcome task_step]. cbn [l l_repo_id l_path]. rewrite Ef, Et.
    fold l. cbn [task_run task_outcome task_step]. by rewrite E.
Qed.

Lemma delete_lock_is_task repo id force requester :
  runs_task (delete_lock repo id force requester) (Unlocking repo id force requester).
Proof.
  intros e e' r. unfold delete_lock, bind at 1.
  destruct (sql_cases "find lock" [repo; id] (fun t => Ok (t, t !! (repo, id))) e) as [(e1 & msg & -> & Et) | (e1 & a & -> & E)].
  { intros [= <- <-]. exists [Fails msg]. eexists. cbn. by rewrite Et. }
  injection E as Et <-. destruct (en_tables e !! (repo, id)) as [row|] eqn:Ef.
  2: { intros [= <- <-]. exists [Runs]. eexists. cbn. by rewrite Ef, Et. }
  cbv zeta. set (l := lock_record (repo, id) row). unfold bind at 1, guard.
  destruct (may_unlock force requester l) eqn:Em.
  2: { intros [= <- <-]. exists [Runs]. eexists. cbn. rewrite Ef. fold l. by rewrite Em, Et. }
  cbn [ret]. unfold bind.
  destruct (sql_cases "delete lock" [repo; id] (fun t => Ok (delete (repo, id) t, tt)) e1) as [(e2 & msg & -> & Et2) | (e2 & [] & -> & E)];
    intros [= <- <-].
  - exists [Runs; Fails msg]. eexists. cbn. by rewrite Et2, Et.
  - exists [Runs; Runs]. eexists. cbn [task_run task_outcome task_step]. rewrite Ef. fold l. rewrite Em.
    cbn [task_run task_outcome task_step]. injection E as <-. by rewrite Et.
Qed.
End as_tasks.

(** C27: locks exclude, however many servers share the table.  Whatever requests
    are under way, however their statements interleave, and whichever of them
    fail or lose their answer: a lock is acknowledged only after it was entered;
    between two locks on one file the first was deleted, by its owner or by
    force; and a lock that was not deleted is still there. *)
Theorem sql_locks_exclude `{HashOrder} tasks schedule :
  Forall fresh_task tasks → distinct_ids tasks →
  let s := system tasks schedule in
  (∀ i l, sys_tasks s !! i = Some (Locked l) → Inserted l ∈ sys_events s)
  ∧ (∀ a l1 b l2 c, sys_events s = (a ++ Inserted l1 :: b ++ Inserted l2 :: c)%list → same_file l1 l2 →
       ∃ force requester, Deleted l1 force requester ∈ b ∧ (force = true ∨ l_pubkey l1 = requester))
  ∧ (∀ a l b, sys_events s = (a ++ Inserted l :: b)%list → ¬ deleted_in l b → sys_table s !! key_of l = Some (row_of l)).
Proof.
  intros Hf Hd s. pose proof (system_is_ok tasks schedule Hf Hd) as W. fold s in W. split; [| split].
  - intros i l Hl. exact (sok_tasks _ W i _ Hl).
  - intros a l1 b l2 c E Hs. destruct (sok_excluded _ W _ _ _ _ _ E Hs) as (x & f & r & Hx & Ek). exists f, r.
    assert (Hin : Deleted x f r ∈ sys_events s) by (rewrite E; in_app).
    destruct (sok_deleted _ W _ _ _ Hin) as [Hix Hm].
    assert (x = l1) as ->.
    { apply (sok_ids _ W); [done | | done]. rewrite E. in_app. }
    split; [done |]. unfold may_unlock in Hm. destruct f; [by left | right]. by apply bool_decide_eq_true in Hm.
  - apply (sok_there _ W).
Qed.

(** ** Pages *)

Lemma parse_i64_to_string n : 0 <= n <= i64_max → parse_i64 (u64_to_string n) = Some n.
Proof.
  intros Hn. unfold u64_to_string. destruct (dec_digits_head 19 n "" ltac:(lia)) as (d & r & Hd & E).
  assert (Hne : ∀ c, digit d = c → 48 <= code c <= 57) by (intros c <-; unfold digit; rewrite code_chr; lia).
  assert (Hp : parse_i64 (dec_digits 20 n "") = from_str_radix 10 i64_max (dec_digits 20 n "")).
  { rewrite E. destruct (digit d) as [[] [] [] [] [] [] [] []] eqn:Ed; try done.
    all: exfalso; destruct (Hne _ eq_refl) as [Hlow Hhigh]; vm_compute in Hlow, Hhigh; congruence. }
  rewrite Hp. unfold from_str_radix. rewrite E.
  assert (digit d ≠ "+"%char) by (intros Hc; destruct (Hne _ Hc) as [Hlow _]; vm_compute in Hlow; congruence).
  rewrite decide_False by done. rewrite <- E. unfold i64_max in *. rewrite parse_dec_digits; [done | | lia].
  change (10 ^ Z.of_nat 20) with 100000000000000000000. lia.
Qed.

(** The page of a window is a slice. *)
Lemma lock_page_window limit start (l : list LockRecord) :
  1 <= limit <= u32_max → 0 <= start <= vec_len l → vec_len l + u32_max <= i64_max →
  lock_page limit start (window limit start l) =
    (take (Z.to_nat limit) (drop (Z.to_nat start) l),
     if decide (start + limit < vec_len l) then Some (u64_to_string (start + limit)) else None).
Proof.
  intros Hl Hs Hm. unfold lock_page, window. rewrite take_take.
  assert (Hlen : vec_len (take (Z.to_nat (limit + 1)) (drop (Z.to_nat start) l)) = Z.min (limit + 1) (vec_len l - start)).
  { unfold vec_len in *. rewrite length_take, length_drop. lia. }
  rewrite Hlen. f_equal; [f_equal; lia |].
  destruct (decide (start + limit < vec_len l)); [rewrite decide_True by lia | by rewrite decide_False by lia].
  assert (as_i64 (start + limit) = start + limit) as -> by (apply i64_small; unfold u32_max in *; lia).
  unfold i64_to_string. by rewrite decide_False by lia.
Qed.

Section pages.
Context `{HashOrder}.
Implicit Types e : Engine LockTable.

(** The locks of a repository that match, in order of creation. *)
Definition table_locks (t : LockTable) (repo : string) (p i : option string) : list LockRecord :=
  List.filter (filtered (mkFilters p i None None)) (repo_rows repo t).

(** In SQLite the pages add up to the locks that match. *)
Lemma sqlite_pagination_complete e repo p i limit :
  (∀ n what, en_faults e n what = None) → 1 <= limit <= u32_max →
  let l := table_locks (en_tables e) repo p i in
  vec_len l + u32_max <= i64_max →
  all_pages (S (length l)) (Locks.list_locks (LockDatabase := SqliteLockDatabase) e repo) (mkFilters p i None (Some limit)) = Some l
  ∧ ∀ r, r ∈ l ↔ (∃ k row, en_tables e !! k = Some row ∧ r = lock_record k row) ∧ l_repo_id r = repo
                 ∧ MemoryLocks.opt_eq p (l_path r) = true ∧ MemoryLocks.opt_eq i (l_id r) = true.
Proof.
  intros Hh Hlim l Hlen. split.
  - apply all_pages_complete; [lia |]. intros c start Hs Hs' Hc.
    cbn [Locks.list_locks SqliteLockDatabase lock_impl]. unfold sqlite_list_locks, sql, bind, map_err, exec. rewrite Hh.
    unfold bound. rewrite (proj2 (List.forallb_forall _ _)) by done. cbn [snd ret].
    assert (Hoff : offset_of (mkFilters p i c (Some limit)) = start).
    { unfold offset_of. cbn [fl_cursor]. destruct c as [c|]; [subst c | by subst].
      change (default 0 (parse_i64 (u64_to_string start)) = start). rewrite parse_i64_to_string; [done |]. unfold vec_len, u32_max in *. lia. }
    rewrite Hoff. f_equal. by apply lock_page_window.
  - intros r. unfold l, table_locks, repo_rows. rewrite list_elem_of_In, filter_In, <- list_elem_of_In, (sort_by_key_perm _ _).
    unfold filtered. cbn [fl_path fl_id]. rewrite andb_true_iff, list_elem_of_In, in_map_iff. split.
    + intros [([k row] & <- & Hin) [Hp Hi]]. apply filter_In in Hin as [Hin Hr%bool_decide_eq_true].
      apply list_elem_of_In, elem_of_hm_iter in Hin. split; [by exists k, row | by repeat split].
    + intros [(k & row & Hk & ->) (Hr & Hp & Hi)]. split; [| done]. exists (k, row). split; [done |].
      apply filter_In. split; [by apply list_elem_of_In, elem_of_hm_iter | by apply bool_decide_eq_true].
Qed.
End pages.

(** ** Examples *)

Definition healthy_locks (t : LockTable) : Engine LockTable := mkEngine t 0 (fun _ _ => None).
Definition two_servers : list LockTask :=
  [Locking (mkLock "i1" "r" "a.bin" "alice" 10); Locking (mkLock "i2" "r" "a.bin" "bob" 10);
   Unlocking "r" "i1" false "alice"; Unlocking "r" "i1" false "bob"].
(** Both find the file free; the table takes one of the two. *)
Definition raced : list (nat * outcome) := [(0, Runs); (1, Runs); (1, Runs); (0, Runs)]%nat.

Example race_decided_by_the_table :
  sys_tasks (system two_servers raced) =
    [Refused (LockInternal "insert lock: UNIQUE constraint failed"); Locked (mkLock "i2" "r" "a.bin" "bob" 10);
     Unlocking "r" "i1" false "alice"; Unlocking "r" "i1" false "bob"].
Proof. vm_compute. reflexivity. Qed.

(** The first lock loses its answer, is released, and the file locked again. *)
Definition relocked : list (nat * outcome) :=
  [(0, Runs); (1, Runs); (0, AnswerLost "timeout"); (3, Runs); (2, Runs); (2, Runs); (1, Runs)]%nat.

Lemma sql_locks_exclude_witness :
  ∃ force requester, Deleted (mkLock "i1" "r" "a.bin" "alice" 10) force requester ∈ [Deleted (mkLock "i1" "r" "a.bin" "alice" 10) false "alice"]
    ∧ (force = true ∨ "alice" = requester).
Proof.
  assert (Hf : Forall fresh_task two_servers) by (repeat (apply list.Forall_cons_2; [cbn; unfold in_u64, u64_max; try done; lia |]); apply list.Forall_nil_2).
  assert (Hd : distinct_ids two_servers).
  { intros i j k1 k2 l1 l2 H1 H2 P1 P2 E.
    destruct i as [|[|[|[|i]]]], j as [|[|[|[|j]]]]; try done; injection H1 as <-; injection H2 as <-;
      try done; injection P1 as <-; injection P2 as <-; done. }
  destruct (sql_locks_exclude two_servers relocked Hf Hd) as (_ & Hex & _).
  apply (Hex [] (mkLock "i1" "r" "a.bin" "alice" 10) [Deleted (mkLock "i1" "r" "a.bin" "alice" 10) false "alice"]
    (mkLock "i2" "r" "a.bin" "bob" 10) []); [vm_compute; reflexivity | done].
Defined.

(** PostgreSQL looks for a path among the first rows only: with two locks in the
    repository and pages of one, a lock that is there is not found, and there is
    no cursor to go on with. *)
Definition three_rows : LockTable :=
  <[("r", "i1") := mkLockRow "a" "p" 1]> (<[("r", "i2") := mkLockRow "b" "p" 2]> (<[("r", "i3") := mkLockRow "c" "p" 3]> ∅)).
Example postgres_filter_misses_lock :
  Locks.list_locks (LockDatabase := PostgresLockDatabase) (healthy_locks three_rows) "r" (mkFilters (Some "c") None None (Some 1)) = Ok ([], None)
  ∧ Locks.list_locks (LockDatabase := SqliteLockDatabase) (healthy_locks three_rows) "r" (mkFilters (Some "c") None None (Some 1))
    = Ok ([mkLock "i3" "r" "c" "p" 3], None).
Proof. vm_compute. done. Qed.
