(* ===== verification/SqlVersions.v ===== *)
(** * LFS versions in SQLite (the [LfsVersionDatabase] of [src/src/db/sqlite.rs])

    The table [lfs_file_versions], its statements, and the proof that the
    database answers as the one in memory does. *)

From Stdlib Require Import ZArith Lia Ascii String.
From stdpp Require Import base list gmap strings numbers sorting.
From S2P Require Import Prelude Effects Protocol RateLimit Lfs Database Sql.

Open Scope string_scope.
Open Scope Z_scope.
Open Scope handler_scope.

(** ** The table *)

(** A row, under its primary key: the repository, the path and the version. *)
Record VersionRow := mkVersionRow {
  vr_sha256 : string;
  vr_base_sha256 : option string;
  vr_storage : string;
  vr_delta_algo : option string;
  vr_original_size : Z;
  vr_stored_size : Z;
  vr_created_at : Z
}.
Notation VersionTable := (gmap (string * string * Z) VersionRow).

(** [row_to_version]. *)
Definition storage_of (s : string) : LfsStorageType :=
  if decide (s = "compressed") then Compressed else if decide (s = "delta") then Delta else Raw.
Definition row_to_version (kr : string * string * Z * VersionRow) : LfsFileVersion :=
  let '(repo, path, version, r) := kr in
  mkVersion repo path version (vr_sha256 r) (vr_base_sha256 r) (storage_of (vr_storage r)) (vr_delta_algo r)
    (vr_original_size r) (vr_stored_size r) (vr_created_at r).
Definition key_of (v : LfsFileVersion) : string * string * Z := (v_repo_id v, v_path v, v_version v).
Definition row_of (v : LfsFileVersion) : VersionRow :=
  mkVersionRow (v_sha256 v) (v_base_sha256 v) (storage_type_to_string (v_storage v)) (v_delta_algo v)
    (v_original_size v) (v_stored_size v) (v_created_at v).

Section ops.
Context `{HashOrder} `{Dialect}.
Notation M := (MR (Engine VersionTable) LfsVersionError).
Implicit Types t : VersionTable.

Definition sql {A} (what : string) (texts : list string) (f : VersionTable → result (VersionTable * A) string) : M A :=
  map_err VersionInternal (exec what (bound texts f)).
(** The rows of a query; their order is the engine's. *)
Definition rows t : list (string * string * Z * VersionRow) := hm_iter (string * string * Z) VersionRow t.
Definition where_rows (p : string * string * Z * VersionRow → bool) t := List.filter p (rows t).

(** ** Operations *)

(** [record_version]. *)
Definition record_version (record : LfsFileVersion) : M Z :=
  sql "insert version"
    ([v_repo_id record; v_path record; v_sha256 record] ++ option_list (v_base_sha256 record) ++ option_list (v_delta_algo record))
    (fun t => match t !! key_of record with
              | Some _ => Err "UNIQUE constraint failed"
              | None => Ok (<[key_of record := row_of record]> t, v_version record)
              end).

(** [get_by_sha256]: the first row the engine finds. *)
Definition get_by_sha256 (sha256 : string) : M (option LfsFileVersion) :=
  sql "get by sha256" [sha256] (fun t =>
    Ok (t, row_to_version <$> head (where_rows (fun kr => bool_decide (vr_sha256 kr.2 = sha256)) t))).

(** [get_latest_version]: [ORDER BY version DESC LIMIT 1]. *)
Definition get_latest_version (repo_id path : string) : M (option LfsFileVersion) :=
  sql "get latest" [repo_id; path] (fun t =>
    Ok (t, row_to_version <$> head (sort_by_key (fun kr : string * string * Z * VersionRow => - kr.1.2)
             (where_rows (fun kr => bool_decide (kr.1.1.1 = repo_id) && bool_decide (kr.1.1.2 = path)) t)))).

(** [delete_by_sha256]. *)
Definition delete_by_sha256 (sha256 : string) : M unit :=
  sql "delete version" [sha256] (fun t => Ok (filter (fun kr => vr_sha256 kr.2 ≠ sha256) t, tt)).

(** [get_deltas_for_base]. *)
Definition get_deltas_for_base (base_sha256 : string) : M (list LfsFileVersion) :=
  sql "get deltas" [base_sha256] (fun t =>
    Ok (t, map row_to_version
             (where_rows (fun kr => bool_decide (vr_base_sha256 kr.2 = Some base_sha256) && bool_decide (vr_storage kr.2 = "delta")) t))).

(** [update_version]: every row of the hash. *)
Definition set_row (sha256 : string) (storage : LfsStorageType) (base : option string) (stored_size : Z) (r : VersionRow) : VersionRow :=
  if decide (vr_sha256 r = sha256) then
    mkVersionRow (vr_sha256 r) base (storage_type_to_string storage) (vr_delta_algo r) (vr_original_size r) stored_size (vr_created_at r)
  else r.
Definition update_version (sha256 : string) (storage : LfsStorageType) (base : option string) (stored_size : Z) : M unit :=
  sql "update version" (sha256 :: option_list base) (fun t => Ok (set_row sha256 storage base stored_size <$> t, tt)).

(** [COUNT( * )], [COALESCE(SUM(original_size), 0)], [COALESCE(SUM(stored_size), 0)]. *)
Fixpoint sum_column (l : list Z) : result Z string :=
  match l with
  | [] => Ok 0
  | z :: l => let? s := sum_column l in if in_i64 (z + s) then Ok (z + s) else Err "integer overflow"
  end.
Definition totals (l : list VersionRow) : result LfsStorageTypeStats string :=
  let? original := sum_column (map vr_original_size l) in
  let? stored := sum_column (map vr_stored_size l) in
  Ok (mkTypeStats (vec_len l) original stored).
(** [GROUP BY storage], into a map. *)
Fixpoint grouped (l : list VersionRow) (groups : list string) : result (gmap string LfsStorageTypeStats) string :=
  match groups with
  | [] => Ok ∅
  | g :: groups =>
      let? s := totals (List.filter (fun r => bool_decide (vr_storage r = g)) l) in
      let? m := grouped l groups in
      Ok (<[g := s]> m)
  end.
(** [lfs_stats]. *)
Definition lfs_stats : M LfsStorageStats :=
  let! total := sql "stats" [] (fun t => let? s := totals (map snd (rows t)) in Ok (t, s)) in
  let! by_type := sql "stats by type" [] (fun t =>
    let l := map snd (rows t) in
    let? m := grouped l (remove_dups (map vr_storage l)) in
    Ok (t, m)) in
  ret (mkLfsStats (ts_count total) (ts_original_bytes total) (ts_stored_bytes total) by_type).

Definition versions_impl : LfsVersionDatabase (Engine VersionTable) := {|
  Lfs.record_version e record := record_version record e;
  Lfs.get_by_sha256 e sha256 := (get_by_sha256 sha256 e).2;
  Lfs.get_latest_version e repo_id path := (get_latest_version repo_id path e).2;
  Lfs.delete_by_sha256 e sha256 := delete_by_sha256 sha256 e;
  Lfs.get_deltas_for_base e base := (get_deltas_for_base base e).2;
  Lfs.update_version e sha256 storage base stored_size := update_version sha256 storage base stored_size e;
  Lfs.lfs_stats e := (lfs_stats e).2
|}.
End ops.

Definition SqliteVersions `{HashOrder} : LfsVersionDatabase (Engine VersionTable) := versions_impl (H0 := Sqlite.dialect).

(** ** Runs *)

Inductive version_op :=
| Record_ (v : LfsFileVersion)
| BySha (sha256 : string)
| Latest (repo_id path : string)
| DeleteSha (sha256 : string)
| Deltas (base_sha256 : string)
| Update (sha256 : string) (storage : LfsStorageType) (base : option string) (stored_size : Z)
| Stats.
Inductive version_answer :=
| AVersion (r : result Z LfsVersionError)
| AOne (r : result (option LfsFileVersion) LfsVersionError)
| ADone (r : result unit LfsVersionError)
| AMany (r : result (list LfsFileVersion) LfsVersionError)
| AStats (r : result LfsStorageStats LfsVersionError).

Definition version_apply `{LfsVersionDatabase V} (d : V) (o : version_op) : V * version_answer :=
  match o with
  | Record_ v => let '(d, r) := Lfs.record_version d v in (d, AVersion r)
  | BySha h => (d, AOne (Lfs.get_by_sha256 d h))
  | Latest repo path => (d, AOne (Lfs.get_latest_version d repo path))
  | DeleteSha h => let '(d, r) := Lfs.delete_by_sha256 d h in (d, ADone r)
  | Deltas h => (d, AMany (Lfs.get_deltas_for_base d h))
  | Update h storage base n => let '(d, r) := Lfs.update_version d h storage base n in (d, ADone r)
  | Stats => (d, AStats (Lfs.lfs_stats d))
  end.
Fixpoint version_run `{LfsVersionDatabase V} (d : V) (ops : list version_op) : list version_answer :=
  match ops with
  | [] => []
  | o :: ops => let '(d, x) := version_apply d o in x :: version_run d ops
  end.

(** The same answer, but for the order of a list. *)
Definition same_answer (x y : version_answer) : Prop :=
  match x, y with AMany (Ok l1), AMany (Ok l2) => l1 ≡ₚ l2 | _, _ => x = y end.

Fixpoint total (l : list Z) : Z := match l with [] => 0 | z :: l => z + total l end.

(** The operations in which each version is recorded under a number of its own,
    as the server numbers them, and under a content that is not recorded yet,
    which the server does not check; and the sizes add up within the column. *)
Definition usual (db : MemoryLfsVersionDatabase) (o : version_op) : Prop :=
  match o with
  | Record_ v => key_of v ∉ key_of <$> db ∧ v_sha256 v ∉ v_sha256 <$> db
                 ∧ 0 <= v_original_size v ∧ 0 <= v_stored_size v
  | Update _ _ _ n => 0 <= n
  | Stats => total (map v_original_size db) <= i64_max ∧ total (map v_stored_size db) <= i64_max ∧ vec_len db <= i64_max
  | _ => True
  end.
Fixpoint usual_run (db : MemoryLfsVersionDatabase) (ops : list version_op) : Prop :=
  match ops with
  | [] => True
  | o :: ops => usual db o ∧ usual_run (version_apply db o).1 ops
  end.

(** ** The table holds the list *)

Record holds (t : VersionTable) (db : MemoryLfsVersionDatabase) : Prop := {
  holds_rows : t = list_to_map ((fun v => (key_of v, row_of v)) <$> db);
  holds_keys : NoDup (key_of <$> db);
  holds_sha : NoDup (v_sha256 <$> db);
  holds_sizes : Forall (fun v => 0 <= v_original_size v ∧ 0 <= v_stored_size v) db
}.

Lemma row_to_version_of v : row_to_version (key_of v, row_of v) = v.
Proof. by destruct v as [? ? ? ? ? [] ? ? ? ?]. Qed.

Section equivalence.
Context `{HashOrder}.
Implicit Types t : VersionTable.
Implicit Types db : MemoryLfsVersionDatabase.

Lemma holds_perm t db : holds t db → rows t ≡ₚ (fun v => (key_of v, row_of v)) <$> db.
Proof.
  intros [-> Hk _ _]. unfold rows. rewrite hm_iter_perm. apply map_to_list_to_map. by rewrite <- list_fmap_compose.
Qed.
Lemma list_filter_perm {A} (p : A → bool) l l' : l ≡ₚ l' → List.filter p l ≡ₚ List.filter p l'.
Proof. induction 1; cbn; [done | by case_match; [constructor |] | by do 2 case_match; [constructor | ..] | by etrans]. Qed.
Lemma where_perm t db (p : string * string * Z * VersionRow → bool) (q : LfsFileVersion → bool) :
  holds t db → (∀ v, p (key_of v, row_of v) = q v) → map row_to_version (where_rows p t) ≡ₚ List.filter q db.
Proof.
  intros Hh Hp. unfold where_rows. pose proof (holds_perm t db Hh) as E.
  rewrite (list_filter_perm _ _ _ E). clear Hh E. induction db as [|v db IH]; [done |]. cbn. rewrite Hp. destruct (q v); [| exact IH].
  change (row_to_version (key_of v, row_of v) :: map row_to_version (List.filter p ((fun v => (key_of v, row_of v)) <$> db))
          ≡ₚ v :: List.filter q db).
  rewrite row_to_version_of. by constructor.
Qed.

(** The only element that passes a test. *)
Lemma filter_unique {A B} `{EqDecision B} (f : A → B) (b : B) (l : list A) : NoDup (f <$> l) →
  (length (List.filter (fun x => bool_decide (f x = b)) l) <= 1)%nat.
Proof.
  induction l as [|x l IH]; cbn; [lia |]. intros [Hn Hd]%NoDup_cons. case_bool_decide as Hx; [| by apply IH].
  assert (List.filter (fun x => bool_decide (f x = b)) l = []) as ->; [| done].
  clear IH Hd. subst b. induction l as [|y l IH]; cbn; [done |]. rewrite bool_decide_eq_false_2.
  - apply IH. set_solver.
  - intros E. apply Hn. cbn. rewrite E. set_solver.
Qed.
Lemma find_head {A} (p : A → bool) l : List.find p l = head (List.filter p l).
Proof. induction l as [|x l IH]; cbn; [done |]. by destruct (p x). Qed.
Lemma head_perm {A} (l1 l2 : list A) : l1 ≡ₚ l2 → (length l2 <= 1)%nat → head l1 = head l2.
Proof.
  intros E Hl. destruct l2 as [|x [|y l2]]; cbn in Hl; [| | lia].
  - by apply Permutation_nil_r in E as ->.
  - by apply Permutation_singleton_r in E as ->.
Qed.

Lemma get_by_sha256_eq t db h : holds t db →
  row_to_version <$> head (where_rows (fun kr => bool_decide (vr_sha256 kr.2 = h)) t)
  = List.find (fun v => bool_decide (v_sha256 v = h)) db.
Proof.
  intros Hh. rewrite find_head. set (p := fun kr : string * string * Z * VersionRow => _).
  transitivity (head (map row_to_version (where_rows p t))); [by destruct (where_rows p t) |].
  apply head_perm; [by apply where_perm | apply filter_unique, Hh].
Qed.

(** *** The latest version *)

Lemma max_by_version_spec l : ∀ best,
  foldl MemoryVersions.max_by_version (Some best) l = Some best ∧ Forall (fun v => v_version v < v_version best) l
  ∨ ∃ v, v ∈ l ∧ foldl MemoryVersions.max_by_version (Some best) l = Some v
         ∧ Forall (fun w => v_version w <= v_version v) (best :: l).
Proof.
  induction l as [|x l IH]; intros best; [by left |]. cbn. case_decide as Hx.
  - right. destruct (IH x) as [[-> Hall] | (v & Hv & -> & Hall)].
    + exists x. split; [apply list_elem_of_here |]. split; [done |]. constructor; [done |]. constructor; [lia |].
      eapply list.Forall_impl; [exact Hall |]. cbn. lia.
    + exists v. split; [by apply list_elem_of_further |]. split; [done |]. apply list.Forall_cons in Hall as [? ?].
      constructor; [lia | by constructor].
  - destruct (IH best) as [[-> Hall] | (v & Hv & -> & Hall)]; [left; split; [done | constructor; [lia | done]] | right].
    exists v. split; [by apply list_elem_of_further |]. split; [done |]. apply list.Forall_cons in Hall as [? ?].
    constructor; [done | constructor; [lia | done]].
Qed.
(** The greatest of a list, and the first of the list in falling order. *)
Lemma latest_sorted (l : list LfsFileVersion) (s : list (string * string * Z * VersionRow)) :
  map row_to_version s ≡ₚ l → NoDup (v_version <$> l) →
  row_to_version <$> head (sort_by_key (fun kr : string * string * Z * VersionRow => - kr.1.2) s)
  = foldl MemoryVersions.max_by_version None l.
Proof.
  intros E Hnd. assert (Hv : ∀ kr, v_version (row_to_version kr) = kr.1.2) by (by intros [[[? ?] ?] ?]).
  set (s' := sort_by_key _ s).
  assert (E' : map row_to_version s' ≡ₚ l) by (rewrite <- E; apply Permutation_map, sort_by_key_perm).
  pose proof (sort_by_key_sorted (fun kr : string * string * Z * VersionRow => - kr.1.2) s) as Hs. fold s' in Hs.
  destruct s' as [|kr s']; cbn in *.
  { apply Permutation_nil_l in E'. by subst l. }
  assert (Htop : ∀ w, w ∈ l → v_version w <= v_version (row_to_version kr)).
  { intros w Hw. rewrite <- E' in Hw. apply elem_of_cons in Hw as [-> | Hw]; [done |].
    apply list_elem_of_In, in_map_iff in Hw as (k & <- & Hk%list_elem_of_In). rewrite !Hv.
    apply StronglySorted_inv in Hs as [_ Hall]. rewrite list.Forall_forall in Hall. specialize (Hall k Hk).
    unfold key_le in Hall. lia. }
  assert (Hin : row_to_version kr ∈ l) by (rewrite <- E'; apply list_elem_of_here).
  destruct l as [|x l]; [by apply elem_of_nil in Hin |]. cbn.
  assert (Hmax : ∃ v, foldl MemoryVersions.max_by_version (Some x) l = Some v ∧ v ∈ x :: l ∧ ∀ w, w ∈ x :: l → v_version w <= v_version v).
  { destruct (max_by_version_spec l x) as [[-> Hall] | (v & Hvl & -> & Hall)].
    - exists x. split; [done |]. split; [apply list_elem_of_here |]. intros w [-> | Hw]%elem_of_cons; [done |].
      rewrite list.Forall_forall in Hall. specialize (Hall w Hw). cbn in Hall. lia.
    - exists v. split; [done |]. split; [by apply list_elem_of_further |]. by apply list.Forall_forall. }
  destruct Hmax as (v & -> & Hvin & Hvmax). f_equal. symmetry.
  assert (Heq : v_version v = v_version (row_to_version kr)).
  { specialize (Htop v Hvin). specialize (Hvmax _ Hin). lia. }
  apply list_elem_of_lookup in Hvin as [i Hi]. apply list_elem_of_lookup in Hin as [j Hj].
  assert (i = j) as ->; [| congruence].
  eapply NoDup_lookup; [exact Hnd | |]; rewrite list_lookup_fmap; [by rewrite Hi | rewrite Hj; cbn; congruence].
Qed.
Lemma NoDup_versions db repo path : NoDup (key_of <$> db) →
  NoDup (v_version <$> List.filter (fun v => bool_decide (v_repo_id v = repo) && bool_decide (v_path v = path)) db).
Proof.
  induction db as [|v db IH]; cbn; [intros; constructor |]. intros [Hn Hd]%NoDup_cons.
  destruct (bool_decide _ && bool_decide _) eqn:Ev; [| by apply IH]. cbn. apply NoDup_cons. split; [| by apply IH].
  apply andb_true_iff in Ev as [Er%bool_decide_eq_true Ep%bool_decide_eq_true].
  intros (w & Ew & Hw)%list_elem_of_fmap. apply list_elem_of_In, filter_In in Hw as [Hw [Hr Hp]%andb_true_iff].
  apply bool_decide_eq_true in Hr, Hp. apply Hn, list_elem_of_fmap. exists w. split; [| by apply list_elem_of_In].
  unfold key_of. congruence.
Qed.

(** *** Changes *)

Lemma holds_record t db v : holds t db → usual db (Record_ v) → holds (<[key_of v := row_of v]> t) (db ++ [v]).
Proof.
  intros [-> Hk Hs Hz] (Fk & Fs & Ho & Hst). split.
  - transitivity (list_to_map (M := VersionTable) ((key_of v, row_of v) :: ((fun v => (key_of v, row_of v)) <$> db))); [done |].
    apply list_to_map_proper; [cbn; rewrite <- list_fmap_compose; by apply NoDup_cons |].
    rewrite fmap_app. cbn. apply Permutation_cons_append.
  - rewrite fmap_app, NoDup_app. split; [done |]. split; [by intros x Hx ->%list_elem_of_singleton | apply NoDup_singleton].
  - rewrite fmap_app, NoDup_app. split; [done |]. split; [by intros x Hx ->%list_elem_of_singleton | apply NoDup_singleton].
  - apply Forall_app. split; [done | by repeat constructor].
Qed.

Lemma NoDup_fmap_filter {A B} (f : A → B) (q : A → bool) (l : list A) : NoDup (f <$> l) → NoDup (f <$> List.filter q l).
Proof.
  induction l as [|x l IH]; [done |]. cbn. intros [Hn Hd]%NoDup_cons. destruct (q x); [| by apply IH]. cbn.
  apply NoDup_cons. split; [| by apply IH]. intros (y & Ey & Hy)%list_elem_of_fmap. apply Hn, list_elem_of_fmap.
  exists y. split; [done |]. apply list_elem_of_In, filter_In in Hy as [Hy _]. by apply list_elem_of_In.
Qed.
Lemma holds_delete t db h : holds t db →
  holds (filter (fun kr => vr_sha256 kr.2 ≠ h) t) (List.filter (fun v => negb (bool_decide (v_sha256 v = h))) db).
Proof.
  intros [-> Hk Hs Hz]. split; [| by apply NoDup_fmap_filter.. | by apply list.Forall_forall; intros v Hv;
    apply list_elem_of_In, filter_In in Hv as [Hv%list_elem_of_In _]; rewrite list.Forall_forall in Hz; apply Hz].
  clear Hs Hz. induction db as [|v db IH]; [done |]. cbn in Hk |- *. apply NoDup_cons in Hk as [Hn Hk]. specialize (IH Hk).
  case_bool_decide as Hv; cbn.
  - rewrite map_filter_insert_False by (cbn; naive_solver). rewrite <- IH, delete_id; [done |].
    apply not_elem_of_list_to_map_1. by rewrite <- list_fmap_compose.
  - rewrite map_filter_insert_True by done. by rewrite IH.
Qed.

Definition updated (h : string) (storage : LfsStorageType) (base : option string) (n : Z) (v : LfsFileVersion) : LfsFileVersion :=
  if decide (v_sha256 v = h) then
    mkVersion (v_repo_id v) (v_path v) (v_version v) (v_sha256 v) base storage (v_delta_algo v) (v_original_size v) n (v_created_at v)
  else v.
Lemma update_first_map db h storage base n : NoDup (v_sha256 <$> db) →
  MemoryVersions.update_first db h storage base n = updated h storage base n <$> db.
Proof.
  induction db as [|v db IH]; [done |]. cbn. unfold updated at 1. intros [Hn Hd]%NoDup_cons. case_decide as Hv; f_equal; [| by apply IH].
  clear IH Hd. induction db as [|w db IH]; [done |]. cbn. unfold updated at 1. rewrite decide_False by set_solver.
  f_equal. apply IH. set_solver.
Qed.
Lemma holds_update t db h storage base n : holds t db → 0 <= n →
  holds (set_row h storage base n <$> t) (MemoryVersions.update_first db h storage base n).
Proof.
  intros [-> Hk Hs Hz] Hn. rewrite update_first_map by done.
  assert (Ek : ∀ v, key_of (updated h storage base n v) = key_of v) by (intros v; unfold updated; by case_decide).
  assert (Es : ∀ v, v_sha256 (updated h storage base n v) = v_sha256 v) by (intros v; unfold updated; by case_decide).
  split.
  - rewrite <- list_to_map_fmap, <- !list_fmap_compose. f_equal. apply list_fmap_ext. intros _ v _. cbn. rewrite Ek. f_equal.
    unfold updated, set_row, row_of. cbn. by case_decide.
  - rewrite <- list_fmap_compose. rewrite (list_fmap_ext _ key_of); [done |]. intros ? v _. apply Ek.
  - rewrite <- list_fmap_compose. rewrite (list_fmap_ext _ v_sha256); [done |]. intros ? v _. apply Es.
  - apply list.Forall_fmap. eapply list.Forall_impl; [exact Hz |]. cbn. intros v [? ?]. unfold updated. by case_decide.
Qed.

(** *** Statistics *)

Lemma total_app l1 l2 : total (l1 ++ l2) = total l1 + total l2.
Proof. induction l1 as [|z l1 IH]; cbn; [done | rewrite IH; lia]. Qed.
Lemma total_perm l1 l2 : l1 ≡ₚ l2 → total l1 = total l2.
Proof. induction 1; cbn; lia. Qed.
Lemma total_nonneg l : Forall (fun z => 0 <= z) l → 0 <= total l.
Proof. induction 1; cbn; lia. Qed.
Lemma sum_column_exact l : Forall (fun z => 0 <= z) l → total l <= i64_max → sum_column l = Ok (total l).
Proof.
  induction 1 as [|z l Hz Hl IH]; cbn; [done |]. intros Hm. pose proof (total_nonneg l Hl).
  rewrite IH by lia. rewrite in_i64_true; [done |]. unfold i64_min. lia.
Qed.

(** The statistics of a list, and what they are when the sums fit. *)
Definition stats_of (l : list LfsFileVersion) : LfsStorageTypeStats :=
  mkTypeStats (vec_len l) (total (map v_original_size l)) (total (map v_stored_size l)).
Definition of_type (g : string) (v : LfsFileVersion) : bool := bool_decide (storage_type_to_string (v_storage v) = g).
Definition group_of (l : list LfsFileVersion) (g : string) : option LfsStorageTypeStats :=
  match List.filter (of_type g) l with [] => None | l => Some (stats_of l) end.
Definition sums_fit (l : list LfsFileVersion) : Prop :=
  Forall (fun v => 0 <= v_original_size v ∧ 0 <= v_stored_size v) l
  ∧ total (map v_original_size l) <= i64_max ∧ total (map v_stored_size l) <= i64_max ∧ vec_len l <= i64_max.

Lemma sizes_nonneg l : Forall (fun v => 0 <= v_original_size v ∧ 0 <= v_stored_size v) l →
  Forall (fun z => 0 <= z) (map v_original_size l) ∧ Forall (fun z => 0 <= z) (map v_stored_size l).
Proof. induction 1 as [|v l [? ?] _ [? ?]]; cbn; [done |]. by repeat constructor. Qed.
Lemma sums_fit_cons v l : sums_fit (v :: l) → sums_fit l.
Proof. intros ([[? ?] Hz]%list.Forall_cons & Ho & Hs & Hn). unfold sums_fit, vec_len in *. cbn in *. split; [done | lia]. Qed.
Lemma sums_fit_filter q l : sums_fit l → sums_fit (List.filter q l)
  ∧ total (map v_original_size (List.filter q l)) <= total (map v_original_size l)
  ∧ total (map v_stored_size (List.filter q l)) <= total (map v_stored_size l)
  ∧ vec_len (List.filter q l) <= vec_len l.
Proof.
  induction l as [|v l IH]; [done |]. intros Hf. destruct (IH (sums_fit_cons v l Hf)) as ((Z & _) & To & Ts & Hn).
  destruct Hf as ([[? ?] _]%list.Forall_cons & Ho & Hs & Hm). unfold sums_fit, vec_len in *. cbn in *.
  destruct (q v); cbn; (split; [split; [by repeat constructor | lia] | lia]).
Qed.
Lemma sums_fit_perm l1 l2 : l1 ≡ₚ l2 → sums_fit l1 → sums_fit l2.
Proof.
  intros E (Hz & Ho & Hs & Hn). unfold sums_fit, vec_len in *. rewrite <- E at 1. rewrite <- (Permutation_length E).
  rewrite <- (total_perm _ _ (Permutation_map v_original_size E)), <- (total_perm _ _ (Permutation_map v_stored_size E)). done.
Qed.
Lemma stats_of_perm l1 l2 : l1 ≡ₚ l2 → stats_of l1 = stats_of l2.
Proof.
  intros E. unfold stats_of, vec_len. rewrite (Permutation_length E).
  by rewrite (total_perm _ _ (Permutation_map v_original_size E)), (total_perm _ _ (Permutation_map v_stored_size E)).
Qed.

(** The one in memory. *)
Lemma memory_stats l : sums_fit l →
  ∃ m, foldl MemoryVersions.add_stats (mkLfsStats 0 0 0 ∅) l
       = mkLfsStats (vec_len l) (total (map v_original_size l)) (total (map v_stored_size l)) m
       ∧ ∀ g, m !! g = group_of l g.
Proof.
  induction l as [|v l IH] using rev_ind; [by exists ∅ |]. intros Hf.
  pose proof (sums_fit_cons v l (sums_fit_perm _ _ ltac:(symmetry; apply Permutation_cons_append) Hf)) as Hfl.
  destruct (IH Hfl) as (m & E & Hm). rewrite foldl_app, E. cbn [foldl]. unfold MemoryVersions.add_stats. cbn [by_storage_type total_versions total_original_bytes total_stored_bytes].
  set (k := storage_type_to_string (v_storage v)). set (e := default (mkTypeStats 0 0 0) (m !! k)).
  assert (Ee : e = stats_of (List.filter (of_type k) l)).
  { unfold e. rewrite Hm. unfold group_of. by destruct (List.filter (of_type k) l). }
  destruct (sums_fit_filter (of_type k) l Hfl) as ((Zf & _) & Fo & Fs & Fn).
  destruct (sizes_nonneg _ Zf) as [Zo Zs]. apply total_nonneg in Zo, Zs.
  destruct (sizes_nonneg _ (proj1 Hfl)) as [Lo Ls]. apply total_nonneg in Lo, Ls.
  destruct Hf as (Hz & Ho & Hs & Hn). rewrite map_app, total_app in Ho, Hs. cbn in Ho, Hs.
  unfold vec_len in Hn. rewrite length_app in Hn. cbn in Hn. apply Forall_app in Hz as [_ [[Vo Vs] _]%list.Forall_cons].
  rewrite Ee. unfold stats_of. cbn [ts_count ts_original_bytes ts_stored_bytes]. unfold vec_len in *.
  rewrite !i64_small by lia. eexists. split.
  - rewrite !map_app, !total_app, length_app. cbn. f_equal; lia.
  - intros g. unfold group_of. rewrite List.filter_app. cbn [List.filter].
    destruct (decide (k = g)) as [<-|Hne].
    + rewrite lookup_insert_eq. assert (of_type k v = true) as -> by (by apply bool_decide_eq_true).
      transitivity (Some (stats_of (List.filter (of_type k) l ++ [v])%list)).
      * f_equal. unfold stats_of, vec_len. rewrite !map_app, !total_app, length_app. cbn. f_equal; lia.
      * by destruct (List.filter (of_type k) l).
    + rewrite lookup_insert_ne, Hm by done. assert (of_type g v = false) as -> by (by apply bool_decide_eq_false).
      by rewrite app_nil_r.
Qed.

(** The one in SQL. *)
Lemma totals_exact l : sums_fit l → totals (map row_of l) = Ok (stats_of l).
Proof.
  intros (Hz & Ho & Hs & _). destruct (sizes_nonneg l Hz) as [Zo Zs]. unfold totals, stats_of, vec_len.
  assert (map vr_original_size (map row_of l) = map v_original_size l) as -> by apply map_map.
  assert (map vr_stored_size (map row_of l) = map v_stored_size l) as -> by apply map_map.
  rewrite (sum_column_exact _ Zo Ho), (sum_column_exact _ Zs Hs). by rewrite length_map.
Qed.
Lemma filter_rows g l : List.filter (fun r => bool_decide (vr_storage r = g)) (map row_of l) = map row_of (List.filter (of_type g) l).
Proof. induction l as [|v l IH]; [done |]. cbn. unfold of_type at 1. rewrite IH. by destruct (bool_decide _). Qed.
Lemma grouped_exact l groups : sums_fit l →
  ∃ m, grouped (map row_of l) groups = Ok m
       ∧ ∀ g, m !! g = if decide (g ∈ groups) then Some (stats_of (List.filter (of_type g) l)) else None.
Proof.
  intros Hf. induction groups as [|x groups (m & E & Hm)]; cbn [grouped].
  { exists ∅. split; [done |]. intros g. by rewrite decide_False by apply not_elem_of_nil. }
  rewrite filter_rows, totals_exact by (by apply sums_fit_filter). rewrite E. eexists. split; [done |]. intros g.
  destruct (decide (x = g)) as [->|Hne].
  - by rewrite lookup_insert_eq, decide_True by apply list_elem_of_here.
  - rewrite lookup_insert_ne, Hm by done. apply decide_ext. rewrite elem_of_cons. naive_solver.
Qed.
Lemma in_groups l g : g ∈ remove_dups (map vr_storage (map row_of l)) ↔ List.filter (of_type g) l ≠ [].
Proof.
  rewrite elem_of_remove_dups, map_map, list_elem_of_In, in_map_iff. split.
  - intros (v & Ev & Hv) Hn. assert (Hin : In v (List.filter (of_type g) l)).
    { apply filter_In. split; [done |]. by apply bool_decide_eq_true. }
    by rewrite Hn in Hin.
  - intros Hn. destruct (List.filter (of_type g) l) as [|v l'] eqn:E; [done |]. exists v.
    assert (Hin : In v (List.filter (of_type g) l)) by (rewrite E; by left). apply filter_In in Hin as [? ?%bool_decide_eq_true]. done.
Qed.

Lemma holds_rows_of t db : holds t db →
  ∃ l, map snd (rows t) = map row_of l ∧ l ≡ₚ db.
Proof.
  intros Hh. pose proof (holds_perm t db Hh) as E. exists (map row_to_version (rows t)). split.
  - rewrite map_map. apply map_ext_in. intros kr Hkr. apply list_elem_of_In in Hkr. rewrite E in Hkr.
    apply list_elem_of_fmap in Hkr as (v & -> & _). by rewrite row_to_version_of.
  - rewrite (Permutation_map _ E). clear. induction db as [|v db IH]; [done |].
    change (row_to_version (key_of v, row_of v) :: map row_to_version ((fun v => (key_of v, row_of v)) <$> db) ≡ₚ v :: db).
    rewrite row_to_version_of. by constructor.
Qed.

(** *** Answers *)

Section answers.
Context `{Dialect}.
Implicit Types e : Engine VersionTable.

Lemma sql_healthy {A} (what : string) (texts : list string) (f : VersionTable → result (VersionTable * A) string) e t' a :
  healthy e → f (en_tables e) = Ok (t', a) →
  ∃ e', sql what texts f e = (e', Ok a) ∧ en_tables e' = t' ∧ healthy e'.
Proof.
  intros [Hf Ht] E. unfold sql, map_err, exec, bound. rewrite Hf.
  rewrite (proj2 (List.forallb_forall text_ok texts)) by (intros; apply Ht). rewrite E. by eexists.
Qed.

Lemma lfs_stats_healthy e db : healthy e → holds (en_tables e) db → usual db Stats →
  (lfs_stats e).2 = MemoryVersions.lfs_stats db.
Proof.
  intros Hh Hd Hu. destruct (holds_rows_of _ _ Hd) as (l & El & Ep).
  assert (Hf : sums_fit db) by (split; [apply Hd | exact Hu]).
  assert (Hfl : sums_fit l) by (by eapply sums_fit_perm; [symmetry |]).
  destruct (memory_stats db Hf) as (m & Em & Hm). unfold MemoryVersions.lfs_stats. rewrite Em.
  destruct (grouped_exact l (remove_dups (map vr_storage (map row_of l))) Hfl) as (m' & Eg & Hm').
  unfold lfs_stats, bind.
  destruct (sql_healthy "stats" [] (fun t => let? s := totals (map snd (rows t)) in Ok (t, s)) e (en_tables e) (stats_of l) Hh) as (e1 & -> & Et & Hh1).
  { by rewrite El, totals_exact. }
  cbv beta iota.
  match goal with |- context [sql "stats by type" ?x ?f e1] =>
    destruct (sql_healthy "stats by type" x f e1 (en_tables e1) m' Hh1) as (e2 & -> & _) end.
  { cbv zeta. by rewrite Et, El, Eg. }
  rewrite (stats_of_perm _ _ Ep). cbn. do 2 f_equal. apply map_eq. intros g. rewrite Hm, Hm'. unfold group_of.
  pose proof (list_filter_perm (of_type g) _ _ Ep) as Epg. pose proof (in_groups l g) as Hg.
  destruct (List.filter (of_type g) db) as [|v l'] eqn:Edb.
  - apply Permutation_nil_r in Epg. by rewrite decide_False by (rewrite Hg; naive_solver).
  - rewrite decide_True; [by rewrite (stats_of_perm _ _ Epg) |]. apply Hg. intros En. rewrite En in Epg. by apply Permutation_nil_cons in Epg.
Qed.

Ltac statement e' :=
  match goal with |- context [sql ?w ?x ?f ?e] => edestruct (sql_healthy w x f e) as (e' & -> & Et & Hh') end.
#[local] Existing Instance versions_impl.
Lemma version_step e db o : healthy e → holds (en_tables e) db → usual db o →
  healthy (version_apply e o).1 ∧ holds (en_tables (version_apply e o).1) (version_apply db o).1
  ∧ same_answer (version_apply e o).2 (version_apply db o).2.
Proof.
  intros Hh Hd Hu. destruct o as [v|h|repo path|h|h|h storage base n|]; cbn.
  - unfold record_version. statement e'; [done | |].
    { destruct Hu as (Hk & _). rewrite (holds_rows _ _ Hd), not_elem_of_list_to_map_1; [reflexivity |]. by rewrite <- list_fmap_compose. }
    split; [done |]. split; [| done]. cbn. rewrite Et, <- (holds_rows _ _ Hd). by apply holds_record.
  - split; [done |]. split; [done |]. unfold get_by_sha256.
    statement e'; [done | reflexivity |]. cbn. unfold MemoryVersions.get_by_sha256. do 2 f_equal. by apply get_by_sha256_eq.
  - split; [done |]. split; [done |]. unfold get_latest_version.
    statement e'; [done | reflexivity |]. cbn. unfold MemoryVersions.get_latest_version. do 2 f_equal. apply latest_sorted.
    + by apply where_perm.
    + apply NoDup_versions, Hd.
  - unfold delete_by_sha256. statement e'; [done | reflexivity |]. cbn. split; [done |].
    split; [| done]. rewrite Et. by apply holds_delete.
  - split; [done |]. split; [done |]. unfold get_deltas_for_base.
    statement e'; [done | reflexivity |]. cbn. apply where_perm; [done |].
    intros v. unfold MemoryVersions.is_delta_of. cbn. rewrite andb_comm. f_equal. apply bool_decide_ext. by destruct (v_storage v).
  - unfold update_version. statement e'; [done | reflexivity |]. cbn. split; [done |].
    split; [| done]. rewrite Et. by apply holds_update.
  - split; [done |]. split; [done |]. f_equal. by apply lfs_stats_healthy.
Qed.
Lemma version_runs ops : ∀ e db, healthy e → holds (en_tables e) db → usual_run db ops →
  Forall2 same_answer (version_run e ops) (version_run db ops).
Proof.
  induction ops as [|o ops IH]; intros e db Hh Hd Hu; [constructor |]. destruct Hu as [Hu Hus].
  destruct (version_step e db o Hh Hd Hu) as (Hh' & Hd' & Hx). cbn [version_run].
  destruct (version_apply e o) as [e' x], (version_apply db o) as [db' y]. constructor; [done |]. by apply IH.
Qed.
End answers.
End equivalence.

(** C29: SQLite keeps the versions as memory does.  Along any operations in which
    a version is recorded only under a number of its own and a content that has
    no record at that time, and the sizes add up within an [i64] when the
    statistics are asked for, on an engine that refuses nothing, the database in
    SQLite answers as the list in memory, but for the order of the deltas of a
    base.  The server gives each version a number of its own but does not check
    that its content is new: see [same_content_twice]. *)
Theorem sqlite_versions_equivalent `{HashOrder} ops :
  usual_run [] ops →
  Forall2 same_answer (version_run (H := SqliteVersions) (mkEngine ∅ 0 (fun _ _ => None)) ops) (version_run [] ops).
Proof.
  intros Hu. apply (version_runs (H0 := Sqlite.dialect)); [by split | | done].
  split; cbn; [done | constructor..].
Qed.

(** ** Examples *)

Definition version_ops : list version_op :=
  [Record_ (mkVersion "r" "a" 1 "h1" None Compressed None 100 60 10);
   Record_ (mkVersion "r" "a" 2 "h2" (Some "h1") Delta (Some "xdelta3") 110 7 11);
   Latest "r" "a"; Deltas "h1"; Stats; Update "h2" Compressed None 70; DeleteSha "h1"; BySha "h1"; BySha "h2"; Deltas "h1"].
Lemma sqlite_versions_equivalent_witness :
  Forall2 same_answer (version_run (H := SqliteVersions) (mkEngine ∅ 0 (fun _ _ => None)) version_ops) (version_run [] version_ops)
  ∧ length (version_run [] version_ops) = 10%nat.
Proof.
  split; [| reflexivity]. apply sqlite_versions_equivalent. unfold version_ops. repeat (split; [| cbn [fst]]); try done.
  all: try (vm_compute; congruence).
  all: vm_compute; set_solver.
Defined.
(** The same content uploaded to two files is recorded twice, and an update of its
    record changes both rows in SQLite, the first in memory. *)
Definition same_content : list version_op :=
  [Record_ (mkVersion "r" "a" 1 "h1" (Some "h0") Delta None 9 5 1); Record_ (mkVersion "r" "b" 1 "h1" (Some "h0") Delta None 9 5 2);
   Update "h1" Compressed None 7; Latest "r" "b"].
Example same_content_twice :
  let latest := fun t => AOne (Ok (Some (mkVersion "r" "b" 1 "h1" (if decide (t = Delta) then Some "h0" else None) t None 9
                                         (if decide (t = Delta) then 5 else 7) 2))) in
  version_run (H := SqliteVersions) (mkEngine ∅ 0 (fun _ _ => None)) same_content
    = [AVersion (Ok 1); AVersion (Ok 1); ADone (Ok tt); latest Compressed]
  ∧ version_run [] same_content = [AVersion (Ok 1); AVersion (Ok 1); ADone (Ok tt); latest Delta].
Proof. vm_compute. done. Qed.
(** A version number used twice is refused in SQLite, not in memory. *)
Definition twice : list version_op :=
  [Record_ (mkVersion "r" "a" 1 "h1" None Raw None 1 1 1); Record_ (mkVersion "r" "a" 1 "h2" None Raw None 1 1 1)].
Example number_used_twice :
  version_run (H := SqliteVersions) (mkEngine ∅ 0 (fun _ _ => None)) twice
    = [AVersion (Ok 1); AVersion (Err (VersionInternal "insert version: UNIQUE constraint failed"))]
  ∧ version_run [] twice = [AVersion (Ok 1); AVersion (Ok 1)].
Proof. vm_compute. done. Qed.
