(* ===== verification/Migrations.v ===== *)
(** * The migrations of the SQL databases ([run_migrations] of [src/src/db/sqlite.rs] and [src/src/db/postgres.rs])

    At every start the server brings the tables up to date.  The schema as the
    tables and columns that exist, the steps, and what any run of them leaves,
    complete or cut off. *)

From Stdlib Require Import ZArith Lia Ascii String.
From stdpp Require Import base list gmap strings numbers sorting.
From S2P Require Import Prelude Effects Protocol RateLimit Lfs Database Sql SqlDatabase SqlVersions.

Open Scope string_scope.
Open Scope Z_scope.
Open Scope handler_scope.

(** ** The schema *)

(** The tables that exist, with their rows; indexes hold no data.  The role in a
    row of [users] means nothing until the column is there. *)
Record Schema := mkSchema {
  sc_version : option (list Z);
  sc_uploads : option (gmap string UploadRow);
  sc_phash : bool;
  sc_users : option (gmap string UserRow);
  sc_role : bool;
  sc_stats : option (gmap string StatsRow);
  sc_lfs : option (gmap (string * string * Z) VersionRow);
  sc_owners : option (gmap (string * string) Z)
}.
Definition no_schema : Schema := mkSchema None None false None false None None None.

Notation M := (MR (Engine Schema) string).
Notation statement A := (Schema → result (Schema * A) string).

(** A query whose failure reads as [d]. *)
Definition or_default {A} (m : M A) (d : A) : M A :=
  fun e => let '(e, r) := m e in (e, Ok (unwrap_or r d)).

(** [CREATE TABLE IF NOT EXISTS], for each of the tables. *)
Definition create_version : statement unit := fun s =>
  Ok (mkSchema (Some (default [] (sc_version s))) (sc_uploads s) (sc_phash s) (sc_users s) (sc_role s) (sc_stats s) (sc_lfs s) (sc_owners s), tt).
Definition create_uploads : statement unit := fun s =>
  Ok (mkSchema (sc_version s) (Some (default ∅ (sc_uploads s))) (sc_phash s) (sc_users s) (sc_role s) (sc_stats s) (sc_lfs s) (sc_owners s), tt).
Definition create_users : statement unit := fun s =>
  Ok (mkSchema (sc_version s) (sc_uploads s) (sc_phash s) (Some (default ∅ (sc_users s))) (sc_role s) (sc_stats s) (sc_lfs s) (sc_owners s), tt).
Definition create_stats : statement unit := fun s =>
  Ok (mkSchema (sc_version s) (sc_uploads s) (sc_phash s) (sc_users s) (sc_role s) (Some (default ∅ (sc_stats s))) (sc_lfs s) (sc_owners s), tt).
Definition create_lfs : statement unit := fun s =>
  Ok (mkSchema (sc_version s) (sc_uploads s) (sc_phash s) (sc_users s) (sc_role s) (sc_stats s) (Some (default ∅ (sc_lfs s))) (sc_owners s), tt).
Definition create_owners : statement unit := fun s =>
  Ok (mkSchema (sc_version s) (sc_uploads s) (sc_phash s) (sc_users s) (sc_role s) (sc_stats s) (sc_lfs s) (Some (default ∅ (sc_owners s))), tt).
(** [CREATE INDEX IF NOT EXISTS]. *)
Definition create_index {T} (table : Schema → option T) : statement unit := fun s =>
  match table s with Some _ => Ok (s, tt) | None => Err "no such table" end.

(** [ALTER TABLE uploads ADD COLUMN phash]. *)
Definition add_phash : statement unit := fun s =>
  match sc_uploads s with
  | None => Err "no such table: uploads"
  | Some _ =>
      if sc_phash s then Err "duplicate column name: phash"
      else Ok (mkSchema (sc_version s) (sc_uploads s) true (sc_users s) (sc_role s) (sc_stats s) (sc_lfs s) (sc_owners s), tt)
  end.
(** [ALTER TABLE users ADD COLUMN role TEXT NOT NULL DEFAULT 'member']. *)
Definition as_member (u : UserRow) : UserRow := mkUserRow (u_quota_bytes u) (u_used_bytes u) "member".
Definition add_role : statement unit := fun s =>
  match sc_users s with
  | None => Err "no such table: users"
  | Some us =>
      if sc_role s then Err "duplicate column name: role"
      else Ok (mkSchema (sc_version s) (sc_uploads s) (sc_phash s) (Some (as_member <$> us)) true (sc_stats s) (sc_lfs s) (sc_owners s), tt)
  end.
(** [INSERT OR IGNORE INTO upload_owners SELECT sha256, pubkey, created_at FROM uploads]. *)
Definition uploaders (ups : gmap string UploadRow) : gmap (string * string) Z :=
  list_to_map ((fun hu : string * UploadRow => ((hu.1, up_pubkey hu.2), up_created_at hu.2)) <$> map_to_list ups).
Definition backfill : statement unit := fun s =>
  match sc_uploads s, sc_owners s with
  | Some ups, Some os =>
      Ok (mkSchema (sc_version s) (sc_uploads s) (sc_phash s) (sc_users s) (sc_role s) (sc_stats s) (sc_lfs s)
            (Some (os ∪ uploaders ups)), tt)
  | _, _ => Err "no such table"
  end.

(** [COALESCE(MAX(version), 0)], [DELETE FROM schema_version] and
    [INSERT INTO schema_version]. *)
Definition max_version (vs : list Z) : Z := match vs with [] => 0 | v :: vs => foldl Z.max v vs end.
Definition set_version (vs : list Z → list Z) : statement unit := fun s =>
  match sc_version s with
  | None => Err "no such table: schema_version"
  | Some l => Ok (mkSchema (Some (vs l)) (sc_uploads s) (sc_phash s) (sc_users s) (sc_role s) (sc_stats s) (sc_lfs s) (sc_owners s), tt)
  end.

(** ** Steps *)

(** [migrate_v1]: the three tables, and an index. *)
Definition v1_tables : M unit :=
  exec "v1 migration" create_uploads ;! exec "v1 migration" create_users ;! exec "v1 migration" create_stats.
Definition migrate_v1 : M unit :=
  v1_tables ;! exec "v1 migration" (create_index sc_uploads).
(** [migrate_v2], [migrate_v3]: the column is added if it is not found. *)
Definition migrate_v2 : M unit :=
  let! has_phash := or_default (query "" (fun s => Ok (sc_phash s))) false in
  if has_phash : bool then ret tt
  else exec "v2 migration" add_phash ;! exec "v2 migration" (create_index sc_uploads).
Definition migrate_v3 : M unit :=
  let! has_role := or_default (query "" (fun s => Ok (sc_role s))) false in
  if has_role : bool then ret tt else exec "v3 migration" add_role.
(** [migrate_v4] of [sqlite.rs]. *)
Definition migrate_lfs : M unit :=
  exec "v4 migration" create_lfs ;! exec "v4 migration" (create_index sc_lfs) ;!
  exec "v4 migration" (create_index sc_lfs) ;! exec "v4 migration" (create_index sc_lfs).
(** [migrate_v5] of [sqlite.rs] and [migrate_v4] of [postgres.rs]. *)
Definition migrate_owners (name : string) : M unit :=
  exec (name +:+ " migration") create_owners ;! exec (name +:+ " migration backfill") backfill ;!
  exec (name +:+ " migration") (create_index sc_owners).

(** [run_migrations]: [version] decodes what was read. *)
Fixpoint run_steps (current n : Z) (steps : list (M unit)) : M unit :=
  match steps with
  | [] => ret tt
  | step :: steps => (if decide (current < n) then step else ret tt) ;! run_steps current (n + 1) steps
  end.
Definition run_migrations (version : Z → result Z string) (SCHEMA_VERSION : Z) (steps : list (M unit)) : M unit :=
  exec "migration" create_version ;!
  let! current := or_default (query "" (fun s => version (max_version (default [] (sc_version s))))) 0 in
  run_steps current 1 steps ;!
  if decide (current < SCHEMA_VERSION) then
    exec "migration" (set_version (fun _ => [])) ;! exec "migration" (set_version (fun vs => SCHEMA_VERSION :: vs))
  else ret tt.

Definition sqlite_steps : list (M unit) := [migrate_v1; migrate_v2; migrate_v3; migrate_lfs; migrate_owners "v5"].
Definition postgres_steps : list (M unit) := [migrate_v1; migrate_v2; migrate_v3; migrate_owners "v4"].
(** The column [version] is an [INTEGER]: 64 bits in SQLite, 32 in PostgreSQL,
    which sqlx does not decode as an [i64]. *)
Definition sqlite_migrations : M unit := run_migrations Ok 5 sqlite_steps.
Definition postgres_migrations : M unit :=
  run_migrations (fun _ => Err "mismatched types; Rust type `i64` (as SQL type `INT8`) is not compatible with SQL type `INT4`")
    4 postgres_steps.

(** ** What a run leaves *)

(** The row that backfilling gives an upload. *)
Definition uploader (s : Schema) (k : string * string) (c : Z) : Prop :=
  ∃ u, default ∅ (sc_uploads s) !! k.1 = Some u ∧ up_pubkey u = k.2 ∧ up_created_at u = c.
Definition account (u : UserRow) : option Z * Num := (u_quota_bytes u, u_used_bytes u).

(** [s'] has the rows of [s], what was added to the tables apart: the role of the
    users, when there was none, and uploaders as owners. *)
Record extends (s s' : Schema) : Prop := {
  ext_uploads : default ∅ (sc_uploads s') = default ∅ (sc_uploads s) ∧ (is_Some (sc_uploads s) → is_Some (sc_uploads s'));
  ext_users : account <$> default ∅ (sc_users s') = account <$> default ∅ (sc_users s) ∧ (is_Some (sc_users s) → is_Some (sc_users s'));
  ext_roles : sc_role s = true → sc_role s' = true ∧ default ∅ (sc_users s') = default ∅ (sc_users s);
  ext_phash : sc_phash s = true → sc_phash s' = true;
  ext_stats : default ∅ (sc_stats s') = default ∅ (sc_stats s) ∧ (is_Some (sc_stats s) → is_Some (sc_stats s'));
  ext_lfs : default ∅ (sc_lfs s') = default ∅ (sc_lfs s) ∧ (is_Some (sc_lfs s) → is_Some (sc_lfs s'));
  ext_owners : default ∅ (sc_owners s) ⊆ default ∅ (sc_owners s') ∧ (is_Some (sc_owners s) → is_Some (sc_owners s'))
    ∧ ∀ k c, default ∅ (sc_owners s') !! k = Some c → default ∅ (sc_owners s) !! k = Some c ∨ uploader s k c
}.
#[export] Instance extends_preorder : PreOrder extends.
Proof.
  split.
  - intros s. split; try done. split; [done |]. split; [done |]. intros k c Hk. by left.
  - intros s1 s2 s3 [[U1 U1'] [A1 A1'] R1 P1 [S1 S1'] [L1 L1'] (O1 & O1' & N1)] [[U2 U2'] [A2 A2'] R2 P2 [S2 S2'] [L2 L2'] (O2 & O2' & N2)].
    split; try (split; [congruence | by auto]); [| by auto | ].
    + intros Hr. destruct (R1 Hr) as [Hr1 E1], (R2 Hr1) as [Hr2 E2]. split; congruence.
    + split; [by etrans |]. split; [by auto |]. intros k c Hk. destruct (N2 k c Hk) as [Hk2 | (u & Hu & ?)]; [by apply N1 | right].
      exists u. split; [congruence | done].
Qed.

Definition grows {A} (m : M A) : Prop := ∀ e, extends (en_tables e) (en_tables (m e).1).
Definition statement_grows {A} (f : statement A) : Prop := ∀ s s' a, f s = Ok (s', a) → extends s s'.

Lemma grows_exec {A} what (f : statement A) : statement_grows f → grows (exec what f).
Proof.
  intros Hf e. unfold exec. destruct (en_faults e _ _); [done |]. destruct (f (en_tables e)) as [[s' a]|] eqn:E; [by eapply Hf | done].
Qed.
Lemma grows_query {A} what (f : Schema → result A string) : grows (query what f).
Proof. apply grows_exec. intros s s' a. destruct (f s); [by intros [= <- _] | done]. Qed.
Lemma grows_or_default {A} (m : M A) d : grows m → grows (or_default m d).
Proof. intros Hm e. specialize (Hm e). unfold or_default. by destruct (m e). Qed.
Lemma grows_bind {A B} (m : M A) (k : A → M B) : grows m → (∀ a, grows (k a)) → grows (bind m k).
Proof.
  intros Hm Hk e. specialize (Hm e). unfold bind. destruct (m e) as [e1 [a|msg]]; [| done]. etrans; [exact Hm | apply Hk].
Qed.
Lemma grows_ret {A} (a : A) : grows (ret a).
Proof. intros e. reflexivity. Qed.
Lemma grows_index {T} (table : Schema → option T) : statement_grows (create_index table).
Proof. intros s s' a. unfold create_index. by destruct (table s); intros [= <- _]. Qed.

Lemma same_owners s s' : sc_owners s' = sc_owners s → default ∅ (sc_owners s) ⊆ default ∅ (sc_owners s')
  ∧ (is_Some (sc_owners s) → is_Some (sc_owners s'))
  ∧ ∀ k c, default ∅ (sc_owners s') !! k = Some c → default ∅ (sc_owners s) !! k = Some c ∨ uploader s k c.
Proof. intros ->. split; [done |]. split; [done |]. by left. Qed.
Ltac creates := intros s s' a [= <- _]; split; cbn; try done; try by apply same_owners.
Lemma grows_version : statement_grows create_version. Proof. creates. Qed.
Lemma grows_uploads : statement_grows create_uploads. Proof. creates. Qed.
Lemma grows_create_users : statement_grows create_users. Proof. creates. Qed.
Lemma grows_stats : statement_grows create_stats. Proof. creates. Qed.
Lemma grows_lfs : statement_grows create_lfs. Proof. creates. Qed.
Lemma grows_owners : statement_grows create_owners.
Proof. creates. split; [done |]. split; [done |]. intros k c Hk. by left. Qed.
Lemma grows_set_version vs : statement_grows (set_version vs).
Proof. intros s s' a. unfold set_version. destruct (sc_version s); [| done]. revert s s' a. creates. Qed.
Lemma grows_phash : statement_grows add_phash.
Proof.
  intros s s' a. unfold add_phash. destruct (sc_uploads s) eqn:E; [| done]. destruct (sc_phash s); [done |].
  intros [= <- _]. split; cbn; rewrite ?E; try done. by apply same_owners.
Qed.
Lemma grows_add_role : statement_grows add_role.
Proof.
  intros s s' a. unfold add_role. destruct (sc_users s) as [us|] eqn:E; [| done]. destruct (sc_role s) eqn:Er; [done |].
  intros [= <- _]. split; cbn; rewrite ?E, ?Er; try done; [| by apply same_owners]. split; [| done]. cbn.
  rewrite <- map_fmap_compose. by apply map_fmap_ext.
Qed.
Lemma lookup_uploaders ups k c : uploaders ups !! k = Some c ↔ ∃ u, ups !! k.1 = Some u ∧ up_pubkey u = k.2 ∧ up_created_at u = c.
Proof.
  unfold uploaders. assert (Hnd : NoDup (((fun hu : string * UploadRow => ((hu.1, up_pubkey hu.2), up_created_at hu.2)) <$> map_to_list ups).*1)).
  { rewrite <- list_fmap_compose. pose proof (NoDup_fst_map_to_list ups) as Hd. revert Hd. generalize (map_to_list ups).
    intros l. induction l as [|[h u] l IH]; cbn; [constructor |]. intros [Hn Hd]%NoDup_cons. apply NoDup_cons. split; [| by apply IH].
    intros ([h' u'] & [= -> _] & Hin)%list_elem_of_fmap. apply Hn, list_elem_of_fmap. by exists (h', u'). }
  rewrite <- elem_of_list_to_map by done. rewrite list_elem_of_fmap. split.
  - intros ([h u] & [= -> ->] & Hu%elem_of_map_to_list). by exists u.
  - intros (u & Hu & Hp & Hc). exists (k.1, u). destruct k. cbn in *. split; [by rewrite Hp, Hc | by apply elem_of_map_to_list].
Qed.
Lemma grows_backfill : statement_grows backfill.
Proof.
  intros s s' a. unfold backfill. destruct (sc_uploads s) as [ups|] eqn:E; [| done]. destruct (sc_owners s) as [os|] eqn:Eo; [| done].
  intros [= <- _]. split; cbn; rewrite ?E, ?Eo; try done. cbn. split; [apply map_union_subseteq_l |]. split; [done |].
  intros k c [Hk | [_ Hk]]%lookup_union_Some_raw; [by left | right]. unfold uploader. rewrite E. by apply lookup_uploaders.
Qed.
#[local] Hint Resolve grows_exec grows_query grows_or_default grows_ret @grows_index grows_version grows_uploads grows_create_users
  grows_stats grows_lfs grows_owners grows_set_version grows_phash grows_add_role grows_backfill : migrations.
Ltac grows := repeat first [ solve [eauto with migrations] | apply grows_bind; [| intros ?]
                           | match goal with |- grows (if ?x then _ else _) => destruct x end ].

(** ** What the steps provide *)

Definition has_v1 (s : Schema) : Prop := is_Some (sc_uploads s) ∧ is_Some (sc_users s) ∧ is_Some (sc_stats s).
Definition has_phash (s : Schema) : Prop := sc_phash s = true.
Definition has_role (s : Schema) : Prop := sc_role s = true.
Definition has_lfs (s : Schema) : Prop := is_Some (sc_lfs s).
Definition has_owners (s : Schema) : Prop := is_Some (sc_owners s).
(** Every uploader owns the upload. *)
Definition all_owned (s : Schema) : Prop := ∀ k c, uploader s k c → is_Some (default ∅ (sc_owners s) !! k).
Definition owned_table (s : Schema) : Prop := has_owners s ∧ all_owned s.

Definition lasting (P : Schema → Prop) : Prop := ∀ s s', extends s s' → P s → P s'.
Lemma lasting_v1 : lasting has_v1.
Proof. intros s s' E (? & ? & ?). split; [by apply E | split; by apply E]. Qed.
Lemma lasting_phash : lasting has_phash. Proof. intros s s' E. apply E. Qed.
Lemma lasting_role : lasting has_role. Proof. intros s s' E Hr. by apply E. Qed.
Lemma lasting_lfs : lasting has_lfs. Proof. intros s s' E. apply E. Qed.
Lemma lasting_owners : lasting has_owners. Proof. intros s s' E. apply E. Qed.
Lemma lasting_owned : lasting owned_table.
Proof.
  intros s s' E [Ho Ha]. split; [by eapply lasting_owners |]. intros k c (u & Hu & ? & ?). destruct (ext_uploads _ _ E) as [Eu _].
  destruct (Ha k c) as [c' Hc]; [exists u; by rewrite <- Eu |]. exists c'. destruct (ext_owners _ _ E) as (Hsub & _).
  by eapply lookup_weaken.
Qed.
#[local] Hint Resolve lasting_v1 lasting_phash lasting_role lasting_lfs lasting_owners lasting_owned : migrations.

(** When it ends well, [m] leaves [P]. *)
Definition provides {A} (m : M A) (P : Schema → Prop) : Prop := ∀ e e' a, m e = (e', Ok a) → P (en_tables e').
Lemma provides_exec {A} what (f : statement A) P : (∀ s s' a, f s = Ok (s', a) → P s') → provides (exec what f) P.
Proof.
  intros Hf e e' a. unfold exec. destruct (en_faults e _ _); [done |]. destruct (f (en_tables e)) as [[s' x]|] eqn:E; [| done].
  intros [= <- _]. by eapply Hf.
Qed.
Lemma provides_last {A B} (m : M A) (k : A → M B) P : (∀ a, provides (k a) P) → provides (bind m k) P.
Proof. intros Hk e e' b (a & e1 & _ & Hb)%bind_ok. by eapply Hk. Qed.
Lemma provides_first {A B} (m : M A) (k : A → M B) P : lasting P → provides m P → (∀ a, grows (k a)) → provides (bind m k) P.
Proof.
  intros Hl Hm Hk e e' b (a & e1 & Ha & Hb)%bind_ok. eapply Hl; [| by eapply Hm]. pose proof (Hk a e1) as Hg. by rewrite Hb in Hg.
Qed.
Lemma provides_and {A} (m : M A) (P Q : Schema → Prop) : provides m P → provides m Q → provides m (fun s => P s ∧ Q s).
Proof. intros Hp Hq e e' a Hm. split; [by eapply Hp | by eapply Hq]. Qed.

Lemma grows_v1_tables : grows v1_tables.
Proof. unfold v1_tables. grows. Qed.
Lemma tables_provide : provides v1_tables has_v1.
Proof.
  unfold v1_tables, has_v1. apply provides_and; [| apply provides_and].
  - apply provides_first; [intros s s' E; apply E | apply provides_exec; by intros s s' a [= <- _] | intros; grows].
  - apply provides_last. intros _. apply provides_first; [intros s s' E; apply E | apply provides_exec; by intros s s' a [= <- _] | intros; grows].
  - do 2 (apply provides_last; intros _). apply provides_exec. by intros s s' a [= <- _].
Qed.
Lemma grows_v1 : grows migrate_v1.
Proof. unfold migrate_v1. pose proof grows_v1_tables. grows. Qed.
Lemma v1_provides : provides migrate_v1 has_v1.
Proof. apply provides_first; [apply lasting_v1 | apply tables_provide | intros; grows]. Qed.

(** A flag read as set is set. *)
Lemma flag_read e e' b (f : Schema → bool) :
  or_default (query "" (fun s => Ok (f s))) false e = (e', Ok b) → en_tables e' = en_tables e ∧ (b = true → f (en_tables e) = true).
Proof. unfold or_default, query, exec. by destruct (en_faults e _ _); intros [= <- <-]. Qed.
Lemma grows_v2 : grows migrate_v2.
Proof. unfold migrate_v2. grows. Qed.
Lemma v2_provides : provides migrate_v2 has_phash.
Proof.
  intros e e' a (b & e1 & Hb & Hm)%bind_ok. apply flag_read in Hb as [Et Hb]. destruct b.
  - injection Hm as <- _. rewrite <- Et in Hb. by apply Hb.
  - revert Hm. apply provides_first; [apply lasting_phash | | intros; grows]. apply provides_exec. intros s s' x.
    unfold add_phash. destruct (sc_uploads s); [| done]. destruct (sc_phash s); [done |]. by intros [= <- _].
Qed.
Lemma grows_v3 : grows migrate_v3.
Proof. unfold migrate_v3. grows. Qed.
Lemma v3_provides : provides migrate_v3 has_role.
Proof.
  intros e e' a (b & e1 & Hb & Hm)%bind_ok. apply flag_read in Hb as [Et Hb]. destruct b.
  - injection Hm as <- _. rewrite <- Et in Hb. by apply Hb.
  - revert Hm. apply provides_exec. intros s s' x. unfold add_role. destruct (sc_users s); [| done].
    destruct (sc_role s); [done |]. by intros [= <- _].
Qed.
Lemma grows_migrate_lfs : grows migrate_lfs.
Proof. unfold migrate_lfs. grows. Qed.
Lemma lfs_provides : provides migrate_lfs has_lfs.
Proof. apply provides_first; [apply lasting_lfs | apply provides_exec; intros s s' a [= <- _]; by eexists | intros; grows]. Qed.
Lemma grows_migrate_owners name : grows (migrate_owners name).
Proof. unfold migrate_owners. grows. Qed.
Lemma owners_provides name : provides (migrate_owners name) owned_table.
Proof.
  apply provides_last. intros _. apply provides_first; [apply lasting_owned | | intros; grows].
  apply provides_exec. intros s s' x. unfold backfill. destruct (sc_uploads s) as [ups|] eqn:E; [| done]. destruct (sc_owners s) as [os|]; [| done].
  intros [= <- _]. split; [by eexists |]. intros k c (u & Hu & Hp & Hc). cbn in *. apply lookup_union_is_Some. right. exists c.
  apply lookup_uploaders. by exists u.
Qed.

(** ** Runs of the steps *)

Definition version_of (s : Schema) : Z := max_version (default [] (sc_version s)).
(** The steps up to a version, done. *)
Definition up_to (needs : list (Schema → Prop)) (n version : Z) (s : Schema) : Prop :=
  ∀ (i : nat) P, needs !! i = Some P → n + Z.of_nat i <= version → P s.
Definition step_for (step : M unit) (P : Schema → Prop) : Prop := grows step ∧ provides step P ∧ lasting P.

Lemma run_steps_grow current steps needs : Forall2 step_for steps needs → ∀ n, grows (run_steps current n steps).
Proof.
  induction 1 as [|step P steps needs (Hg & _) _ IH]; intros n; cbn; [apply grows_ret |].
  apply grows_bind; [by destruct (decide _); [| apply grows_ret] | done].
Qed.
Lemma run_steps_provide current steps needs : Forall2 step_for steps needs → ∀ n e e' a,
  up_to needs n current (en_tables e) → run_steps current n steps e = (e', Ok a) → Forall (fun P => P (en_tables e')) needs.
Proof.
  induction 1 as [|step P steps needs (Hg & Hp & Hl) Hsteps IH]; intros n e e' a Hup; cbn; [constructor |].
  intros ([] & e1 & H1 & H2)%bind_ok. pose proof (run_steps_grow current _ _ Hsteps (n + 1) e1) as Hg2. rewrite H2 in Hg2. cbn in Hg2.
  assert (Hg1 : extends (en_tables e) (en_tables e1)).
  { destruct (decide (current < n)); [specialize (Hg e); by rewrite H1 in Hg | by injection H1 as <-]. }
  constructor.
  - apply (Hl _ _ Hg2). destruct (decide (current < n)); [by eapply Hp | injection H1 as <-]. apply (Hup 0%nat); [done | lia].
  - eapply IH; [| exact H2]. intros i Q Hi Hle. assert (HlQ : lasting Q).
    { destruct (Forall2_lookup_r _ _ _ _ _ Hsteps Hi) as (st & _ & _ & _ & ?). done. }
    apply (HlQ _ _ Hg1). apply (Hup (S i)); [done | lia].
Qed.

(** An engine that refuses nothing. *)
Definition sound (e : Engine Schema) : Prop := ∀ n what, en_faults e n what = None.
Definition succeeds {A} (m : M A) (pre : Schema → Prop) : Prop :=
  ∀ e, sound e → pre (en_tables e) → ∃ e' a, m e = (e', Ok a) ∧ sound e'.
Lemma succeeds_exec {A} what (f : statement A) pre : (∀ s, pre s → ∃ s' a, f s = Ok (s', a)) → succeeds (exec what f) pre.
Proof.
  intros Hf e He Hp. unfold exec. rewrite He. destruct (Hf _ Hp) as (s' & a & ->). by eexists _, _.
Qed.
Lemma succeeds_bind {A B} (m : M A) (k : A → M B) pre (post : A → Schema → Prop) :
  succeeds m pre → (∀ e e' a, pre (en_tables e) → m e = (e', Ok a) → post a (en_tables e')) → (∀ a, succeeds (k a) (post a)) → succeeds (bind m k) pre.
Proof.
  intros Hm Hpost Hk e He Hp. destruct (Hm e He Hp) as (e1 & a & E & He1). destruct (Hk a e1 He1) as (e2 & b & E2 & He2); [by eapply Hpost |].
  exists e2, b. split; [| done]. unfold bind. by rewrite E.
Qed.
(** A condition that lasts, through a sequence. *)
Lemma succeeds_seq {A B} (m : M A) (k : A → M B) pre :
  lasting pre → grows m → succeeds m pre → (∀ a, succeeds (k a) pre) → succeeds (bind m k) pre.
Proof.
  intros Hl Hg Hm Hk. apply (succeeds_bind m k pre (fun _ => pre)); [done | | done].
  intros e e' a Hp E. specialize (Hg e). rewrite E in Hg. by eapply Hl.
Qed.

Definition anything (s : Schema) : Prop := True.
Lemma tables_succeed : succeeds v1_tables anything.
Proof.
  unfold v1_tables. do 2 (apply succeeds_seq; [done | grows | apply succeeds_exec; intros; by eexists _, _ | intros _]).
  apply succeeds_exec. intros. by eexists _, _.
Qed.
Lemma index_succeeds {T} what (table : Schema → option T) (pre : Schema → Prop) :
  (∀ s, pre s → is_Some (table s)) → succeeds (exec what (create_index table)) pre.
Proof. intros Hp. apply succeeds_exec. intros s [t Ht]%Hp. unfold create_index. rewrite Ht. by eexists _, _. Qed.
Lemma v1_succeeds : succeeds migrate_v1 anything.
Proof.
  unfold migrate_v1. apply (succeeds_bind _ _ _ (fun _ => has_v1)).
  - apply tables_succeed.
  - intros e e' a _ E. by eapply tables_provide.
  - intros _. apply index_succeeds. by intros s (? & _).
Qed.
Lemma flag_exact e e' b (f : Schema → bool) : sound e →
  or_default (query "" (fun s => Ok (f s))) false e = (e', Ok b) → en_tables e' = en_tables e ∧ sound e' ∧ b = f (en_tables e).
Proof. intros He. unfold or_default, query, exec. rewrite He. by intros [= <- <-]. Qed.
Lemma v2_succeeds : succeeds migrate_v2 has_v1.
Proof.
  intros e He Hv. unfold migrate_v2, bind at 1. destruct (or_default _ _ e) as [e1 [b|]] eqn:E; [| by unfold or_default in E; destruct (query _ _ e)].
  apply flag_exact in E as (Et & He1 & ->); [| done]. destruct (sc_phash (en_tables e)) eqn:Ep; [by eexists _, _ |].
  refine (succeeds_bind _ _ (fun s => has_v1 s ∧ sc_phash s = false) (fun _ => has_v1) _ _ _ e1 He1 _); [| | | by rewrite Et].
  - apply succeeds_exec. intros s [([u Hu] & _) Hp]. unfold add_phash. rewrite Hu, Hp. by eexists _, _.
  - intros e2 e3 a [Hv2 _] E2. pose proof (grows_exec "v2 migration" _ grows_phash e2) as Hg. rewrite E2 in Hg. by eapply lasting_v1.
  - intros _. apply index_succeeds. by intros s (? & _).
Qed.
Lemma v3_succeeds : succeeds migrate_v3 has_v1.
Proof.
  intros e He Hv. unfold migrate_v3, bind at 1. destruct (or_default _ _ e) as [e1 [b|]] eqn:E; [| by unfold or_default in E; destruct (query _ _ e)].
  apply flag_exact in E as (Et & He1 & ->); [| done]. destruct (sc_role (en_tables e)) eqn:Ep; [by eexists _, _ |].
  refine (succeeds_exec "v3 migration" add_role (fun s => has_v1 s ∧ sc_role s = false) _ e1 He1 _); [| by rewrite Et].
  intros s [(_ & [u Hu] & _) Hp]. unfold add_role. rewrite Hu, Hp. by eexists _, _.
Qed.
Lemma migrate_lfs_succeeds : succeeds migrate_lfs has_v1.
Proof.
  unfold migrate_lfs. apply (succeeds_bind _ _ _ (fun _ => has_lfs)).
  - apply succeeds_exec. intros. by eexists _, _.
  - intros e e' a _. apply provides_exec. intros s s' x [= <- _]. by eexists.
  - intros _. do 2 (apply succeeds_seq; [apply lasting_lfs | grows | by apply index_succeeds | intros _]). by apply index_succeeds.
Qed.
Lemma migrate_owners_succeeds name : succeeds (migrate_owners name) has_v1.
Proof.
  unfold migrate_owners. apply (succeeds_bind _ _ _ (fun _ s => has_v1 s ∧ has_owners s)).
  - apply succeeds_exec. intros. by eexists _, _.
  - intros e e' a Hv E. split.
    + pose proof (grows_exec (name +:+ " migration") _ grows_owners e) as Hg. rewrite E in Hg. by eapply lasting_v1.
    + revert E. apply provides_exec. intros s s' x [= <- _]. by eexists.
  - intros _. apply succeeds_seq; [by intros s s' E [? ?]; split; [eapply lasting_v1 | eapply lasting_owners] | grows | | ].
    + apply succeeds_exec. intros s [([u Hu] & _) [o Ho]]. unfold backfill. rewrite Hu, Ho. by eexists _, _.
    + intros _. apply index_succeeds. by intros s [_ ?].
Qed.

(** ** The whole run *)

Definition versions (e : Engine Schema) : option (list Z) := sc_version (en_tables e).
Lemma keeps_exec {A} what (f : statement A) : (∀ s s' a, f s = Ok (s', a) → sc_version s' = sc_version s) → keeps versions (exec what f).
Proof.
  intros Hf e. unfold exec, versions. destruct (en_faults e _ _); [done |]. destruct (f (en_tables e)) as [[s' a]|] eqn:E; [by eapply Hf | done].
Qed.
Lemma keeps_or_default {A} (m : M A) d : keeps versions m → keeps versions (or_default m d).
Proof. intros Hm e. specialize (Hm e). unfold or_default. by destruct (m e). Qed.
Ltac version_kept :=
  repeat first
    [ apply keeps_bind; [| intros ?] | apply keeps_or_default | apply keeps_ret
    | match goal with |- keeps _ (if ?x then _ else _) => destruct x end
    | apply keeps_exec; intros ? ? ?;
      unfold create_uploads, create_users, create_stats, create_lfs, create_owners, create_index, add_phash, add_role, backfill;
      repeat match goal with |- context [match ?x with _ => _ end] => destruct x; try done end; by intros [= <- _] ].

Lemma run_steps_keep current steps : Forall (keeps versions) steps → ∀ n, keeps versions (run_steps current n steps).
Proof.
  induction 1 as [|step l Hs _ IH]; intros n; cbn; [apply keeps_ret |].
  apply keeps_bind; [destruct (decide (current < n)); [exact Hs | apply keeps_ret] | intros _; apply IH].
Qed.

Section plan.
Context (read : Z → result Z string) (target : Z) (steps : list (M unit)) (needs : list (Schema → Prop)).
Context (Hread : ∀ v x, read v = Ok x → x = v).
Context (Hsteps : Forall2 step_for steps needs) (Hkeep : Forall (keeps versions) steps).
(** What the steps provide when the last one runs. *)
Context (strong : list (Schema → Prop)) (Hstrong : Forall2 step_for steps strong).
Context (Hlast : ∀ (i : nat) P, strong !! i = Some P → 1 + Z.of_nat i < target → needs !! i = Some P) (Htarget : 0 < target).

Definition consistent_with (s : Schema) : Prop := up_to needs 1 (version_of s) s.

Lemma consistent_same s s' : extends s s' → version_of s' = version_of s → consistent_with s → consistent_with s'.
Proof.
  intros E Ev Hc i P Hi Hle. destruct (Forall2_lookup_r _ _ _ _ _ Hsteps Hi) as (st & _ & _ & _ & Hl).
  apply (Hl _ _ E). rewrite Ev in Hle. by apply (Hc i).
Qed.

(** What is read of the version: the version, or 0. *)
Lemma read_version e : let '(e', r) := or_default (query "" (fun s => read (max_version (default [] (sc_version s))))) 0 e in
  en_tables e' = en_tables e ∧ en_faults e' = en_faults e ∧ ∃ v, r = Ok v ∧ (v = version_of (en_tables e) ∨ v = 0).
Proof.
  unfold or_default, query, exec. destruct (en_faults e _ _); cbn; [split; [done | split; [done |]]; exists 0; by split; [| right] |].
  destruct (read _) as [v|] eqn:E; cbn; (split; [done | split; [done |]]).
  - exists v. split; [done |]. left. by apply Hread.
  - exists 0. by split; [| right].
Qed.

(** The end of the run: the version is put in place when there is one to put. *)
Definition finish (current : Z) : M unit :=
  if decide (current < target) then
    exec "migration" (set_version (fun _ => [])) ;! exec "migration" (set_version (fun vs => target :: vs))
  else ret tt.
Lemma finish_grows current : grows (finish current).
Proof. unfold finish. destruct (decide _); grows. Qed.
Lemma finish_consistent current e : Forall (fun P => P (en_tables e)) needs → consistent_with (en_tables e) →
  consistent_with (en_tables (finish current e).1).
Proof.
  intros Hall Hc. assert (Hany : ∀ s, extends (en_tables e) s → consistent_with s).
  { intros s E i P Hi _. destruct (Forall2_lookup_r _ _ _ _ _ Hsteps Hi) as (st & _ & _ & _ & Hl).
    apply (Hl _ _ E). by eapply (proj1 (list.Forall_lookup _ _) Hall). }
  apply Hany, finish_grows.
Qed.
Lemma finish_succeeds current e : sound e → is_Some (sc_version (en_tables e)) → ∃ e', finish current e = (e', Ok tt).
Proof.
  intros He [l Hl]. unfold finish. destruct (decide _); [| by eexists]. unfold bind, exec. rewrite He. unfold set_version. rewrite Hl. cbn.
  rewrite He. by eexists.
Qed.

Lemma run_safe e : consistent_with (en_tables e) →
  let '(e', r) := run_migrations read target steps e in
  extends (en_tables e) (en_tables e') ∧ consistent_with (en_tables e')
  ∧ (r = Ok tt → Forall (fun P => P (en_tables e')) needs
       ∧ (version_of (en_tables e) < target → Forall (fun P => P (en_tables e')) strong)).
Proof.
  intros Hc. unfold run_migrations. fold (finish).
  destruct (exec "migration" create_version e) as [e1 r1] eqn:E1.
  assert (H1 : extends (en_tables e) (en_tables e1) ∧ version_of (en_tables e1) = version_of (en_tables e)).
  { pose proof (grows_exec "migration" _ grows_version e) as Hg. rewrite E1 in Hg. split; [exact Hg |].
    unfold exec in E1. destruct (en_faults e _ _); injection E1 as <- _; done. }
  destruct H1 as [X1 V1]. pose proof (consistent_same _ _ X1 V1 Hc) as C1. unfold bind at 1. rewrite E1.
  destruct r1 as [[]|]; [| done]. unfold bind at 1. pose proof (read_version e1) as Hr. destruct (or_default _ 0 e1) as [e2 r2].
  destruct Hr as (T2 & _ & v & -> & Hv). rewrite <- T2 in X1, C1, Hv. unfold bind at 1.
  destruct (run_steps v 1 steps e2) as [e3 r3] eqn:E3.
  pose proof (run_steps_grow v _ _ Hsteps 1 e2) as X2. rewrite E3 in X2. cbn in X2.
  pose proof (run_steps_keep v steps Hkeep 1 e2) as V2. rewrite E3 in V2. unfold versions in V2. cbn in V2.
  assert (C2 : consistent_with (en_tables e3)) by (apply (consistent_same (en_tables e2)); [done | unfold version_of; by rewrite V2 | done]).
  destruct r3 as [[]|]; [| split; [by etrans | done]].
  assert (Hall : Forall (fun P => P (en_tables e3)) needs).
  { eapply run_steps_provide; [exact Hsteps | | exact E3]. intros i P Hi Hle. destruct Hv as [-> | ->]; [by apply (C1 i) | lia]. }
  assert (Hall' : version_of (en_tables e) < target → Forall (fun P => P (en_tables e3)) strong).
  { intros Hlt. eapply run_steps_provide; [exact Hstrong | | exact E3]. intros i P Hi Hle.
    assert (v < target) by (destruct Hv as [-> | ->]; [rewrite T2, V1; exact Hlt | exact Htarget]).
    destruct Hv as [-> | ->]; [| lia]. apply (C1 i); [| exact Hle]. apply Hlast; [done | lia]. }
  fold (finish v). pose proof (finish_grows v e3) as X3. pose proof (finish_consistent v e3 Hall C2) as C3.
  destruct (finish v e3) as [e4 r4]. cbn in *. split; [etrans; [exact X1 | etrans; [exact X2 | exact X3]] |]. split; [exact C3 |].
  assert (Hlater : ∀ l, Forall2 step_for steps l → Forall (fun P => P (en_tables e3)) l → Forall (fun P => P (en_tables e4)) l).
  { intros l Hl Hf. apply list.Forall_lookup. intros i P Hi. destruct (Forall2_lookup_r _ _ _ _ _ Hl Hi) as (st & _ & _ & _ & HP).
    apply (HP _ _ X3). by eapply (proj1 (list.Forall_lookup _ _) Hf). }
  intros _. split; [by apply Hlater | intros Hlt; apply Hlater; [done | by apply Hall']].
Qed.
End plan.

Lemma steps_succeed current steps needs : Forall2 step_for steps needs → Forall (fun st => succeeds st has_v1) steps →
  ∀ n e, sound e → has_v1 (en_tables e) → ∃ e', run_steps current n steps e = (e', Ok tt) ∧ sound e'.
Proof.
  induction 1 as [|step P steps needs (Hg & _) _ IH]; intros Hf n e He Hv; cbn; [by exists e |].
  apply list.Forall_cons in Hf as [Hs Hf].
  assert (H1 : ∃ e1 a, (if decide (current < n) then step else ret tt) e = (e1, Ok a) ∧ sound e1 ∧ has_v1 (en_tables e1)).
  { destruct (decide (current < n)); [| by exists e, tt]. destruct (Hs e He Hv) as (e1 & a & E & He1). exists e1, a. split; [done |].
    split; [done |]. specialize (Hg e). rewrite E in Hg. by eapply lasting_v1. }
  destruct H1 as (e1 & a & E & He1 & Hv1). destruct (IH Hf (n + 1) e1 He1 Hv1) as (e2 & E2 & He2). exists e2. split; [| done].
  unfold bind. by rewrite E.
Qed.
Lemma run_succeeds read target v1 steps needs e :
  Forall2 step_for (v1 :: steps) (has_v1 :: needs) → succeeds v1 anything → Forall (fun st => succeeds st has_v1) steps →
  Forall (keeps versions) (v1 :: steps) → (∀ v x, read v = Ok x → x = v) →
  sound e → consistent_with (has_v1 :: needs) (en_tables e) →
  (run_migrations read target (v1 :: steps) e).2 = Ok tt.
Proof.
  intros Hsteps Hv1 Hrest Hkeep Hread He Hc. unfold run_migrations.
  assert (E1 : ∃ e1, exec "migration" create_version e = (e1, Ok tt) ∧ sound e1 ∧ is_Some (sc_version (en_tables e1))
                    ∧ version_of (en_tables e1) = version_of (en_tables e) ∧ extends (en_tables e) (en_tables e1)).
  { pose proof (grows_exec "migration" _ grows_version e) as Hg. unfold exec in *. rewrite He in *. eexists. split; [done |].
    split; [done |]. split; [by eexists | done]. }
  destruct E1 as (e1 & E1 & He1 & Hs1 & V1 & X1). unfold bind at 1. rewrite E1. unfold bind at 1.
  pose proof (read_version read Hread e1) as Hr. destruct (or_default _ 0 e1) as [e2 r2]. destruct Hr as (T2 & F2 & v & -> & Hv).
  assert (He2 : sound e2) by (intros n w; rewrite F2; apply He1). unfold bind at 1.
  assert (E3 : ∃ e3, run_steps v 1 (v1 :: steps) e2 = (e3, Ok tt) ∧ sound e3).
  { cbn [run_steps]. apply Forall2_cons in Hsteps as [(Hg & Hp & _) Hsteps].
    assert (H1 : ∃ e3 a, (if decide (v < 1) then v1 else ret tt) e2 = (e3, Ok a) ∧ sound e3 ∧ has_v1 (en_tables e3)).
    { destruct (decide (v < 1)) as [Hlt|Hge].
      - destruct (Hv1 e2 He2 I) as (e3 & a & E & He3). exists e3, a. split; [done |]. split; [done |]. by eapply Hp.
      - exists e2, tt. split; [done |]. split; [done |]. rewrite T2. apply (lasting_v1 _ _ X1).
        apply (Hc 0%nat); [done |]. destruct Hv as [-> | ->]; [rewrite <- V1 |]; lia. }
    destruct H1 as (e3 & a & E & He3 & Hh). destruct (steps_succeed v steps needs Hsteps Hrest 2 e3 He3 Hh) as (e4 & E4 & He4).
    exists e4. split; [| done]. unfold bind. by rewrite E. }
  destruct E3 as (e3 & E3 & He3). rewrite E3. fold (finish target v).
  pose proof (run_steps_keep v _ Hkeep 1 e2) as V2. rewrite E3 in V2. unfold versions in V2. cbn in V2.
  destruct (finish_succeeds target v e3 He3) as (e4 & E4); [by rewrite V2, T2 |]. by rewrite E4.
Qed.

(** ** Both databases *)

Definition migrations (postgres : bool) : M unit := if postgres then postgres_migrations else sqlite_migrations.
(** What there is at the versions 1, 2, ... *)
Definition provided (postgres : bool) : list (Schema → Prop) :=
  ([has_v1; has_phash; has_role] ++ (if postgres then [has_owners] else [has_lfs; has_owners]))%list.
Definition target (postgres : bool) : Z := if postgres then 4 else 5.
Definition consistent (postgres : bool) (s : Schema) : Prop := consistent_with (provided postgres) s.

Lemma owners_weak name : step_for (migrate_owners name) has_owners.
Proof. split; [apply grows_migrate_owners |]. split; [| apply lasting_owners]. intros e e' a E. by apply owners_provides in E as [? _]. Qed.
Lemma owners_strong name : step_for (migrate_owners name) owned_table.
Proof. split; [apply grows_migrate_owners |]. split; [apply owners_provides | apply lasting_owned]. Qed.
#[local] Hint Resolve owners_weak owners_strong : migrations.
Lemma early_steps : step_for migrate_v1 has_v1 ∧ step_for migrate_v2 has_phash
  ∧ step_for migrate_v3 has_role ∧ step_for migrate_lfs has_lfs.
Proof.
  split; [| split; [| split]]; (split; [| split; [| eauto with migrations]]).
  - apply grows_v1.
  - apply v1_provides.
  - apply grows_v2.
  - apply v2_provides.
  - apply grows_v3.
  - apply v3_provides.
  - apply grows_migrate_lfs.
  - apply lfs_provides.
Qed.
Lemma steps_for (postgres strong : bool) :
  Forall2 step_for (if postgres then postgres_steps else sqlite_steps)
    ([has_v1; has_phash; has_role] ++ (if postgres then [] else [has_lfs]) ++ [if strong then owned_table else has_owners]).
Proof.
  destruct early_steps as (? & ? & ? & ?).
  destruct postgres, strong; cbn [app]; repeat (apply Forall2_cons; split);
    first [apply owners_weak | apply owners_strong | assumption | apply Forall2_nil_2].
Qed.

Lemma steps_keep (postgres : bool) : Forall (keeps versions) (if postgres then postgres_steps else sqlite_steps).
Proof.
  assert (K1 : keeps versions v1_tables) by (unfold v1_tables; version_kept).
  destruct postgres; repeat (apply list.Forall_cons; split); try exact K1;
    unfold migrate_v1, migrate_v2, migrate_v3, migrate_lfs, migrate_owners, query; try (by apply list.Forall_nil);
    try (apply keeps_bind; [exact K1 | intros ?]); version_kept.
Qed.

Definition version_read (postgres : bool) (v : Z) : result Z string :=
  if postgres then Err "mismatched types; Rust type `i64` (as SQL type `INT8`) is not compatible with SQL type `INT4`" else Ok v.
Definition plan (postgres : bool) : list (M unit) := if postgres then postgres_steps else sqlite_steps.
Definition provided_strong (postgres : bool) : list (Schema → Prop) :=
  ([has_v1; has_phash; has_role] ++ (if postgres then [] else [has_lfs]) ++ [owned_table])%list.
Lemma migrations_plan postgres : migrations postgres = run_migrations (version_read postgres) (target postgres) (plan postgres).
Proof. by destruct postgres. Qed.
Lemma provided_weak postgres : Forall2 step_for (plan postgres) (provided postgres).
Proof. pose proof (steps_for postgres false) as H. by destruct postgres. Qed.
Lemma version_exact postgres v x : version_read postgres v = Ok x → x = v.
Proof. unfold version_read. destruct postgres; [done | by intros [= ->]]. Qed.
Lemma strong_last postgres (i : nat) P : provided_strong postgres !! i = Some P → 1 + Z.of_nat i < target postgres → provided postgres !! i = Some P.
Proof. destruct postgres; cbn; do 5 (destruct i as [|i]; [done || (cbn; intros; lia) |]); done || (intros; cbn in *; lia). Qed.
Lemma plan_succeeds postgres e : sound e → consistent postgres (en_tables e) → (migrations postgres e).2 = Ok tt.
Proof.
  intros He Hc. rewrite migrations_plan. pose proof (provided_weak postgres) as Hw. pose proof (steps_keep postgres) as Hk.
  destruct postgres; cbn [plan] in *; unfold postgres_steps, sqlite_steps, provided in *.
  - eapply run_succeeds; [exact Hw | apply v1_succeeds | | exact Hk | apply (version_exact true) | done | exact Hc].
    repeat (apply list.Forall_cons; split); [apply v2_succeeds | apply v3_succeeds | apply migrate_owners_succeeds | by apply list.Forall_nil].
  - eapply run_succeeds; [exact Hw | apply v1_succeeds | | exact Hk | apply (version_exact false) | done | exact Hc].
    repeat (apply list.Forall_cons; split);
      [apply v2_succeeds | apply v3_succeeds | apply migrate_lfs_succeeds | apply migrate_owners_succeeds | by apply list.Forall_nil].
Qed.

(** C28: migrations are safe at every start.  From any schema in which the steps
    up to its version were done, whatever the engine refuses and wherever the
    run is cut off: no row is lost or changed, but for the roles when there were
    none, and only uploaders become owners; the schema can be migrated again, and
    is, when the engine refuses nothing; and after a run that succeeds everything
    is in place, with every uploader an owner when there was anything to do. *)
Theorem migrations_safe postgres e :
  consistent postgres (en_tables e) →
  let '(e', r) := migrations postgres e in
  extends (en_tables e) (en_tables e') ∧ consistent postgres (en_tables e')
  ∧ (r = Ok tt → Forall (fun P => P (en_tables e')) (provided postgres)
       ∧ (version_of (en_tables e) < target postgres → all_owned (en_tables e')))
  ∧ (sound e → r = Ok tt).
Proof.
  intros Hc. pose proof (plan_succeeds postgres e) as Hok.
  pose proof (run_safe (version_read postgres) (target postgres) (plan postgres) (provided postgres) (version_exact postgres)
    (provided_weak postgres) (steps_keep postgres) (provided_strong postgres) (steps_for postgres true) (strong_last postgres)
    ltac:(by destruct postgres) e Hc) as Hrun.
  rewrite <- migrations_plan in Hrun. destruct (migrations postgres e) as [e' r]. destruct Hrun as (X & C & Hr).
  split; [exact X |]. split; [exact C |]. split; [| intros He; by apply Hok].
  intros E. destruct (Hr E) as [Hw Hs]. split; [exact Hw |]. intros Hlt.
  assert (Ho : owned_table (en_tables e')); [| apply Ho].
  apply (proj1 (list.Forall_forall _ _) (Hs Hlt)). unfold provided_strong. rewrite !elem_of_app. right. right. apply list_elem_of_here.
Qed.

(** ** Restarts *)

(** The tables of the server, and what a start makes of them. *)
Definition schema_of (version : list Z) (t : Tables) : Schema :=
  mkSchema (Some version) (Some (t_uploads t)) true (Some (t_users t)) true (Some (t_stats t)) (Some ∅) (Some (t_owners t)).
Definition tables_of (s : Schema) : Tables :=
  mkTables (default ∅ (sc_uploads s)) (default ∅ (sc_owners s)) (default ∅ (sc_users s)) (default ∅ (sc_stats s)).

(** SQLite starts again on the tables it left. *)
Lemma sqlite_restart_unchanged t vs : 5 <= max_version vs →
  let e' := (sqlite_migrations (mkEngine (schema_of vs t) 0 (fun _ _ => None))).1 in
  tables_of (en_tables e') = t ∧ version_of (en_tables e') = max_version vs.
Proof.
  intros Hv. unfold sqlite_migrations, run_migrations, bind, or_default, query, exec. cbn.
  do 5 (destruct (decide _); [lia |]). cbn. by destruct t.
Qed.

(** *** PostgreSQL backfills at every start

    Alice and Bob upload a blob, Alice gives hers up, and the server starts again:
    Alice owns the blob, and is charged nothing for it.  She deletes it once
    more, and has less on her account than what she owns. *)
Definition row : UploadRecord := mkUpload "h1" 40 "" "alice" 10 None.
Definition given_up : list (Engine Tables → Engine Tables) :=
  [fun e => (record_upload (H0 := Postgres.dialect) row e).1;
   fun e => (record_upload (H0 := Postgres.dialect) (mkUpload "h1" 40 "" "bob" 11 None) e).1;
   fun e => (record_upload (H0 := Postgres.dialect) (mkUpload "h2" 70 "" "alice" 12 None) e).1;
   fun e => (delete_upload_owner (H0 := Postgres.dialect) "h1" "alice" e).1].
Definition before_restart : Tables := en_tables (foldl (fun e f => f e) (mkEngine no_rows 0 (fun _ _ => None)) given_up).
Definition restarted (postgres : bool) : Tables :=
  tables_of (en_tables (migrations postgres (mkEngine (schema_of [target postgres] before_restart) 0 (fun _ _ => None))).1).

Example given_up_ownership_returns :
  t_owners before_restart !! ("h1", "alice") = None
  ∧ t_owners (restarted false) !! ("h1", "alice") = None
  ∧ t_owners (restarted true) !! ("h1", "alice") = Some 10
  ∧ u_used_bytes <$> t_users (restarted true) !! "alice" = Some (Int 70)
  ∧ u_used_bytes <$> t_users (en_tables (delete_upload_owner (H0 := Postgres.dialect) "h1" "alice"
      (mkEngine (restarted true) 0 (fun _ _ => None))).1) !! "alice" = Some (Int 30).
Proof. vm_compute. done. Qed.

(** From nothing, cut off after some steps, and run again. *)
Definition cut_off (n : nat) (what : string) : option string :=
  if bool_decide (n = 11%nat) then Some "disk I/O error" else None.
Lemma migrations_safe_witness :
  let e' := (migrations false (mkEngine no_schema 0 cut_off)).1 in
  (migrations false (mkEngine no_schema 0 cut_off)).2 = Err "v4 migration: disk I/O error"
  ∧ (migrations false (mkEngine (en_tables e') 0 (fun _ _ => None))).2 = Ok tt.
Proof.
  split; [vm_compute; reflexivity |].
  assert (H0 : consistent false no_schema).
  { intros i P Hi Hle. change (version_of no_schema) with 0 in Hle. lia. }
  pose proof (migrations_safe false (mkEngine no_schema 0 cut_off) H0) as H1. cbv zeta.
  set (r1 := migrations false (mkEngine no_schema 0 cut_off)) in *. destruct r1 as [e1 r1]. destruct H1 as (_ & H1 & _).
  pose proof (migrations_safe false (mkEngine (en_tables e1) 0 (fun _ _ => None)) H1) as H2. cbn [fst].
  set (r2 := migrations false (mkEngine (en_tables e1) 0 (fun _ _ => None))) in *. destruct r2 as [e2 r2].
  destruct H2 as (_ & _ & _ & H2). apply H2. intros n what. reflexivity.
Defined.
