(* ===== verification/S3.v ===== *)
(** * Blobs in S3 ([src/src/storage/s3.rs])

    [S3Backend] keeps every blob as an object of a bucket, and the sizes of those
    it knows of in memory.  The service is [S3Client], a parameter, with its
    documented behaviour in [S3ClientLaws]: every request may fail, before it had
    its effect or after.  What the backend promises over such a service, and that
    it meets the contract of the server's storage over one that answers. *)

From Stdlib Require Import ZArith Lia Ascii String.
From Stdlib Require Import Strings.Byte.
From stdpp Require Import base list gmap strings numbers.
From S2P Require Import Prelude Effects Protocol Storage RateLimit Lfs.

Open Scope string_scope.
Open Scope Z_scope.
Open Scope handler_scope.

(** ** The service *)

(** [SdkError]: whether the service answered that there is no such object, and
    the text of the error. *)
Record sdk_error := mkSdkError { is_not_found : bool; message : string }.

(** An object of a list, and [ListObjectsV2Output]. *)
Record S3Object := mkObject { o_key : option string; o_size : option Z }.
Record ListPage := mkPage {
  lp_contents : list S3Object;
  is_truncated : option bool;
  next_continuation_token : option string
}.

(** The requests, on a bucket; the body of an object is collected apart. *)
Class S3Client (W : Type) : Type := {
  put_object : W → string → string → list byte → W * result unit sdk_error;
  get_object : W → string → string → W * result (result (list byte) string) sdk_error;
  head_object : W → string → string → W * result unit sdk_error;
  delete_object : W → string → string → W * result unit sdk_error;
  list_objects_v2 : W → string → option string → W * result ListPage sdk_error
}.

Definition listed (kx : string * list byte) : S3Object := mkObject (Some kx.1) (Some (vec_len kx.2)).

(** What S3 documents: objects are written and deleted as a whole and read as
    they were written last; a request that failed had its effect or none; a list
    is handed out in pages, each but the last with objects and the token that
    continues it. *)
Class S3ClientLaws (W : Type) `{S3Client W} : Type := {
  objects : W → string → gmap string (list byte);
  to_list : W → string → option string → list (string * list byte);
  put_object_law : ∀ w b k x, let '(w', r) := put_object w b k x in
    objects w' b = <[k := x]> (objects w b) ∨ (∃ e, r = Err e) ∧ objects w' b = objects w b;
  get_object_law : ∀ w b k, let '(w', r) := get_object w b k in
    objects w' b = objects w b ∧ ∀ x, r = Ok (Ok x) → objects w b !! k = Some x;
  head_object_law : ∀ w b k, let '(w', r) := head_object w b k in
    objects w' b = objects w b
    ∧ match r with
      | Ok _ => is_Some (objects w b !! k)
      | Err e => is_not_found e = true → objects w b !! k = None
      end;
  delete_object_law : ∀ w b k, let '(w', r) := delete_object w b k in
    objects w' b = delete k (objects w b) ∨ (∃ e, r = Err e) ∧ objects w' b = objects w b;
  to_list_start : ∀ w b, to_list w b None ≡ₚ map_to_list (objects w b);
  list_objects_law : ∀ w b t, let '(w', r) := list_objects_v2 w b t in
    objects w' b = objects w b
    ∧ ∀ page, r = Ok page → ∃ now later,
        to_list w b t = (now ++ later)%list ∧ lp_contents page = listed <$> now
        ∧ match is_truncated page with
          | Some true => now ≠ [] ∧ is_Some (next_continuation_token page)
                         ∧ to_list w' b (next_continuation_token page) = later
          | _ => later = []
          end
}.

(** A service that answers every read, and says truly that a write failed. *)
Class S3Answers (W : Type) `{S3ClientLaws W} : Prop := {
  get_answers : ∀ w b k x, objects w b !! k = Some x → (get_object w b k).2 = Ok (Ok x);
  head_answers : ∀ w b k, match (head_object w b k).2 with
    | Ok _ => is_Some (objects w b !! k) | Err e => is_not_found e = true end;
  refused_put : ∀ w b k x e, (put_object w b k x).2 = Err e → objects (put_object w b k x).1 b = objects w b;
  refused_delete : ∀ w b k e, (delete_object w b k).2 = Err e → objects (delete_object w b k).1 b = objects w b
}.

(** ** The backend *)

(** [S3Config]; the endpoint and the region are the client's. *)
Record S3Config := mkS3Config { s3_bucket : string; public_url : option string }.

(** [S3Backend], and the directory of temporary files. *)
Record S3Backend (W : Type) := mkS3 {
  s3_client : W;
  s3_config : S3Config;
  s3_index : gmap string Z;
  s3_temp : gmap string (list byte)
}.
Arguments mkS3 {W} _ _ _ _.
Arguments s3_client {W} _.
Arguments s3_config {W} _.
Arguments s3_index {W} _.
Arguments s3_temp {W} _.

Module S3Backend.
Section ops.
Context `{Crates} {W : Type} `{S3Client W}.
Notation M := (MR (S3Backend W) string).

Definition set_index (f : gmap string Z → gmap string Z) : M unit :=
  modify (fun s => mkS3 (s3_client s) (s3_config s) (f (s3_index s)) (s3_temp s)).
Definition set_temp (f : gmap string (list byte) → gmap string (list byte)) : M unit :=
  modify (fun s => mkS3 (s3_client s) (s3_config s) (s3_index s) (f (s3_temp s))).

(** A request on the bucket, and the error it is answered with. *)
Definition send {A} (req : W → string → W * A) : M A := fun s =>
  let '(w, r) := req (s3_client s) (s3_bucket (s3_config s)) in
  (mkS3 w (s3_config s) (s3_index s) (s3_temp s), Ok r).
Definition or_fail {A} (what : string) (r : result A sdk_error) : M A :=
  lift (match r with Ok a => Ok a | Err e => Err (what +:+ ": " +:+ message e) end).

(** The loop of [rebuild_index] over the objects of a page. *)
Definition index_object (index : gmap string Z) (obj : S3Object) : gmap string Z :=
  match o_key obj with
  | None => index
  | Some key =>
      match strip_suffix ".blob" key with
      | None => index
      | Some hash => if decide (str_len hash = 64) then <[hash := as_u64 (default 0 (o_size obj))]> index else index
      end
  end.

(** [rebuild_index], for at most [fuel] pages. *)
Fixpoint rebuild_index (fuel : nat) (continuation_token : option string) (s : S3Backend W)
    : option (S3Backend W * result unit string) :=
  match fuel with
  | O => None
  | S fuel =>
      match (let! r := send (fun w b => list_objects_v2 w b continuation_token) in
             let! resp := or_fail "s3 list objects" r in
             set_index (fun index => foldl index_object index (lp_contents resp)) ;!
             ret resp) s with
      | (s, Err e) => Some (s, Err e)
      | (s, Ok resp) =>
          match is_truncated resp with
          | Some true => rebuild_index fuel (next_continuation_token resp) s
          | _ => Some (s, Ok tt)
          end
      end
  end.

(** [new], on a client that was set up. *)
Definition new (fuel : nat) (client : W) (config : S3Config) (temp : gmap string (list byte))
    : option (W * result (S3Backend W) string) :=
  match rebuild_index fuel None (mkS3 client config ∅ temp) with
  | None => None
  | Some (s, r) => Some (s3_client s, match r with Ok _ => Ok s | Err e => Err e end)
  end.

(** [object_key], [blob_url], [descriptor]. *)
Definition object_key (sha256 : string) : string := sha256 +:+ ".blob".
Definition blob_url (config : S3Config) (sha256 base_url : string) : string :=
  match public_url config with
  | Some cdn => trim_end_matches "/" cdn +:+ "/" +:+ sha256
  | None => base_url +:+ "/" +:+ sha256
  end.
Definition with_url (d : BlobDescriptor) (url : string) : BlobDescriptor :=
  mkDescriptor (d_sha256 d) (d_size d) (d_content_type d) (Some url) (d_uploaded d).
Definition descriptor (now : Z) (config : S3Config) (sha256 : string) (size : Z) (base_url : string) : BlobDescriptor :=
  with_url (make_descriptor_from_hash now sha256 size base_url) (blob_url config sha256 base_url).

(** The end of the inserting functions: the object is put and indexed. *)
Definition put_and_index (hash : string) (size : Z) (data : list byte) : M unit :=
  let! r := send (fun w b => put_object w b (object_key hash) data) in
  or_fail "s3 upload" r ;!
  set_index (<[hash := size]>).

(** [try_insert], [insert]. *)
Definition try_insert (env : Env) (data : list byte) (base_url : string) : M BlobDescriptor :=
  let hash := sha256_hex data in
  put_and_index hash (vec_len data) data ;!
  gets (fun s => descriptor (env_now env) (s3_config s) hash (vec_len data) base_url).
Definition insert (env : Env) (s : S3Backend W) (data : list byte) (base_url : string) : S3Backend W * BlobDescriptor :=
  let fallback := make_descriptor (env_now env) data base_url in
  let '(s, r) := try_insert env data base_url s in (s, unwrap_or r fallback).

(** [try_insert_with_hash], [insert_with_hash]. *)
Definition try_insert_with_hash (env : Env) (data : list byte) (hash : string) (original_size : Z) (base_url : string)
    : M BlobDescriptor :=
  guard (valid_hash hash) "invalid SHA256 storage key" ;!
  put_and_index hash original_size data ;!
  gets (fun s => descriptor (env_now env) (s3_config s) hash original_size base_url).
Definition insert_with_hash (env : Env) (s : S3Backend W) (data : list byte) (hash : string) (original_size : Z)
    (base_url : string) : S3Backend W * BlobDescriptor :=
  let fallback := descriptor (env_now env) (s3_config s) hash original_size base_url in
  let '(s, r) := try_insert_with_hash env data hash original_size base_url s in (s, unwrap_or r fallback).

(** [get]. *)
Definition get (sha256 : string) : M (option (list byte)) :=
  if valid_hash sha256 then
    let! r := send (fun w b => get_object w b (object_key sha256)) in
    ret (match r with Ok (Ok x) => Some x | _ => None end)
  else ret None.

(** [exists]. *)
Definition exists_ (sha256 : string) : M bool :=
  if valid_hash sha256 then
    let! index := gets s3_index in
    if decide (is_Some (index !! sha256)) then ret true
    else let! r := send (fun w b => head_object w b (object_key sha256)) in
         ret (match r with Ok _ => true | Err _ => false end)
  else ret false.

(** [try_delete], [delete]. *)
Definition try_delete (sha256 : string) : M bool :=
  guard (valid_hash sha256) "invalid SHA256 storage key" ;!
  let! existed := exists_ sha256 in
  let! r := send (fun w b => delete_object w b (object_key sha256)) in
  or_fail "s3 delete" r ;!
  let! verification := send (fun w b => head_object w b (object_key sha256)) in
  match verification with
  | Ok _ => early "s3 delete verification failed: object still exists"
  | Err error =>
      if is_not_found error then set_index (delete sha256) ;! ret existed
      else early ("s3 delete verification: " +:+ message error)
  end.
Definition delete_ (s : S3Backend W) (sha256 : string) : S3Backend W * bool :=
  let '(s, r) := try_delete sha256 s in (s, unwrap_or r false).

(** [len], [total_bytes]. *)
Definition len (s : S3Backend W) : Z := Z.of_nat (size (s3_index s)).
Definition total_bytes (s : S3Backend W) : Z := wrap_u64 (map_fold (fun _ n acc => n + acc) 0 (s3_index s)).

(** The closure of [insert_stream]; [File::create] truncates. *)
Definition tmp_path (env : Env) : string := "blossom_s3_" +:+ env_uuid env.
Definition no_fault (what : string) (fault : option string) : M unit :=
  match fault with Some e => early (what +:+ ": " +:+ e) | None => ret tt end.
Definition stream_to_s3 (env : Env) (rd : reader) (base_url : string) : M BlobDescriptor :=
  let f := env_faults env in
  no_fault "create temp" (f_create f) ;!
  let '(written, copied) := FilesystemBackend.stream_loop f rd hasher_new 0 [] in
  set_temp (<[tmp_path env := written]>) ;!
  let! (hash, total) := lift copied in
  no_fault "flush temp" (f_sync f) ;!
  no_fault "read temp for s3" (f_read f) ;!
  put_and_index hash total written ;!
  let! config := gets s3_config in
  ret (mkDescriptor hash total (Some "application/octet-stream") (Some (blob_url config hash base_url)) (Some (env_now env))).
(** [insert_stream]. *)
Definition insert_stream (env : Env) (rd : reader) (base_url : string) (s : S3Backend W)
    : S3Backend W * result BlobDescriptor string :=
  let '(s, r) := stream_to_s3 env rd base_url s in
  (match f_cleanup (env_faults env) with
   | Some _ => s
   | None => mkS3 (s3_client s) (s3_config s) (s3_index s) (delete (tmp_path env) (s3_temp s))
   end, r).

(** Reads change the connection, not the backend. *)
#[export] Instance impl : BlobBackend (S3Backend W) := {|
  insert_blob := insert;
  Storage.try_insert env s data url := try_insert env data url s;
  Storage.insert_with_hash := insert_with_hash;
  Storage.try_insert_with_hash env s data h sz url := try_insert_with_hash env data h sz url s;
  Storage.get _ s h := match (get h s).2 with Ok r => r | Err _ => None end;
  exists_blob s h := match (exists_ h s).2 with Ok r => r | Err _ => false end;
  delete_blob _ := delete_;
  Storage.try_delete _ s h := try_delete h s;
  Storage.len := len;
  Storage.total_bytes := total_bytes;
  Storage.insert_stream env s rd _ url := insert_stream env rd url s
|}.
End ops.
End S3Backend.

(** ** What an operation does to the bucket *)

Section facts.
Context `{CratesLaws} {W : Type} `{S3ClientLaws W}.
Implicit Types s : S3Backend W.
Import FilesystemBackend(blobs_on, blobs_on_lookup, blobs_on_delete, blob_name_inj, stream_loop_spec).
Import S3Backend.

(** The objects of the bucket, and the blobs among them. *)
Definition stored s : gmap string (list byte) := objects (s3_client s) (s3_bucket (s3_config s)).
Definition s3_blobs s : gmap string (list byte) := blobs_on (stored s).

(** [s'] has the blobs and the index of [s]. *)
Definition reads s s' : Prop := s3_config s' = s3_config s ∧ stored s' = stored s ∧ s3_index s' = s3_index s.
(** The blob [h] becomes [v], with the size [n] in the index; a failure may have
    happened after the change, or before it. *)
Definition set {A} (h : string) (v : option A) (m : gmap string A) : gmap string A := partial_alter (fun _ => v) h m.
Definition writes {A} h v n s (r : result A string) s' : Prop :=
  s3_config s' = s3_config s
  ∧ match r with
    | Ok _ => s3_blobs s' = set h v (s3_blobs s) ∧ s3_index s' = set h n (s3_index s)
    | Err _ => (s3_blobs s' = s3_blobs s ∨ s3_blobs s' = set h v (s3_blobs s)) ∧ s3_index s' = s3_index s
    end.

Lemma reads_blobs s s' : reads s s' → s3_config s' = s3_config s ∧ s3_blobs s' = s3_blobs s ∧ s3_index s' = s3_index s.
Proof. unfold s3_blobs. intros (? & -> & ?). done. Qed.
#[local] Instance reads_preorder : PreOrder reads.
Proof. split; [done |]. intros s1 s2 s3 (? & ? & ?) (? & ? & ?). split; [congruence | split; congruence]. Qed.

Lemma blobs_on_insert d h x : valid_hash h = true → blobs_on (<[object_key h := x]> d) = set h (Some x) (blobs_on d).
Proof.
  intros V. apply map_eq. intros h'. rewrite blobs_on_lookup. unfold set, object_key. destruct (decide (h = h')) as [<-|Hne].
  - by rewrite V, lookup_insert_eq, lookup_partial_alter_eq.
  - rewrite lookup_partial_alter_ne, blobs_on_lookup by done. destruct (valid_hash h'); [| done].
    rewrite lookup_insert_ne; [done |]. intros E. by apply Hne, blob_name_inj.
Qed.

Lemma put_and_index_spec h n x s : valid_hash h = true →
  let '(s', r) := put_and_index h n x s in writes h (Some x) (Some n) s r s'.
Proof.
  intros V. unfold put_and_index, send, bind, or_fail, set_index, modify, lift, writes, s3_blobs, stored.
  pose proof (put_object_law (s3_client s) (s3_bucket (s3_config s)) (object_key h) x) as Hp.
  destruct (put_object _ _ _ _) as [w [u|e]]; cbn; (split; [done |]).
  - destruct Hp as [-> | [(? & [=]) _]]. by rewrite blobs_on_insert.
  - split; [| done]. destruct Hp as [-> | [_ ->]]; [right; by apply blobs_on_insert | by left].
Qed.

Lemma writes_then {A B} h v n s (m : MR (S3Backend W) string A) (f : S3Backend W → B) :
  (let '(s', r) := m s in writes h v n s r s') →
  let '(s', r) := (m ;! gets f)%handler s in writes h v n s r s' ∧ ∀ b, r = Ok b → b = f s'.
Proof. unfold bind. destruct (m s) as [s' [a|e]]; intros Hw; (split; [exact Hw | by intros b [= <-]]). Qed.

Lemma try_insert_spec env data url s :
  let '(s', r) := try_insert env data url s in
  writes (sha256_hex data) (Some data) (Some (vec_len data)) s r s'
  ∧ ∀ d, r = Ok d → d = descriptor (env_now env) (s3_config s') (sha256_hex data) (vec_len data) url.
Proof. apply writes_then, put_and_index_spec, valid_hash_sha256. Qed.
Lemma try_insert_with_hash_spec env data h n url s : valid_hash h = true →
  let '(s', r) := try_insert_with_hash env data h n url s in
  writes h (Some data) (Some n) s r s' ∧ ∀ d, r = Ok d → d = descriptor (env_now env) (s3_config s') h n url.
Proof.
  intros V. unfold try_insert_with_hash. rewrite V. apply writes_then, put_and_index_spec, V.
Qed.

Lemma get_spec h s :
  let '(s', r) := get h s in reads s s' ∧ ∃ o, r = Ok o ∧ ∀ x, o = Some x → s3_blobs s !! h = Some x.
Proof.
  unfold get, s3_blobs. rewrite blobs_on_lookup. destruct (valid_hash h); [| split; [done | by eexists]].
  unfold send, bind, ret, reads, stored.
  pose proof (get_object_law (s3_client s) (s3_bucket (s3_config s)) (object_key h)) as Hg.
  destruct (get_object _ _ _) as [w r]. destruct Hg as [E Hg]. split; [done |]. eexists. split; [done |].
  intros x. destruct r as [[y|]|]; intros [= <-]. by apply Hg.
Qed.

Lemma exists_spec h s :
  let '(s', r) := exists_ h s in
  reads s s' ∧ ∃ b, r = Ok b
    ∧ (valid_hash h = true → is_Some (s3_index s !! h) → b = true)
    ∧ (s3_index s !! h = None → s3_blobs s !! h = None → b = false).
Proof.
  unfold exists_, s3_blobs. rewrite blobs_on_lookup. destruct (valid_hash h); [| split; [done | by eexists]].
  unfold bind at 1, gets. cbv iota. case_decide as Hi.
  { split; [done |]. eexists. split; [done |]. split; [done |]. intros Hn. rewrite Hn in Hi. by destruct Hi. }
  unfold send, bind, ret, reads, stored.
  pose proof (head_object_law (s3_client s) (s3_bucket (s3_config s)) (object_key h)) as Hh.
  destruct (head_object _ _ _) as [w [u|e]]; destruct Hh as [E Hh]; (split; [done |]); eexists; (split; [done |]); split; try done.
  intros _ Hn. unfold object_key in Hh. rewrite Hn in Hh. by destruct Hh.
Qed.

Lemma set_none {A} (m : gmap string A) h : set h None m = delete h m.
Proof. apply map_eq. intros h'. unfold set. destruct (decide (h = h')) as [<-|]; by rewrite ?lookup_partial_alter_eq, ?lookup_delete_eq, ?lookup_partial_alter_ne, ?lookup_delete_ne. Qed.

(** Reads before a write do not matter. *)
Lemma reads_writes {A} h v n s s1 (r : result A string) s' : reads s s1 → writes h v n s1 r s' → writes h v n s r s'.
Proof. intros (C & B & I)%reads_blobs [C' Hw]. split; [congruence |]. rewrite B, I in Hw. exact Hw. Qed.
Lemma reads_failure {A} h v n s s' e : reads s s' → writes (A := A) h v n s (Err e) s'.
Proof. intros (C & B & I)%reads_blobs. split; [done |]. split; [by left | done]. Qed.

Lemma after_read {A B} (m : MR (S3Backend W) string A) (k : A → MR (S3Backend W) string B) s (Q : A → Prop)
    (P : S3Backend W → result B string → Prop) :
  (let '(s1, r1) := m s in reads s s1 ∧ ∃ a, r1 = Ok a ∧ Q a) →
  (∀ a s1, reads s s1 → Q a → let '(s', r) := k a s1 in P s' r) →
  let '(s', r) := bind m k s in P s' r.
Proof. unfold bind. destruct (m s) as [s1 r1]. intros (R & a & -> & Ha) Hk. by apply Hk. Qed.
Lemma try_delete_spec h s : valid_hash h = true →
  let '(s', r) := try_delete h s in
  writes h None None s r s' ∧ ∀ b, r = Ok b → b = false → s3_index s !! h = None.
Proof.
  intros V. unfold try_delete. rewrite V. unfold bind at 1. cbn [guard ret].
  apply (after_read (exists_ h) _ s (fun b => is_Some (s3_index s !! h) → b = true)
    (fun s' r => writes h None None s r s' ∧ ∀ b, r = Ok b → b = false → s3_index s !! h = None)).
  { pose proof (exists_spec h s) as Hx. destruct (exists_ h s) as [s1 r1]. destruct Hx as (R & b & -> & Hb & _).
    split; [done |]. exists b. split; [done | by apply Hb]. }
  intros b s1 R1 Hb.
  assert (Hfin : ∀ s' (r : result bool string), writes h None None s1 r s' → (∀ b', r = Ok b' → b' = b) →
    writes h None None s r s' ∧ ∀ b', r = Ok b' → b' = false → s3_index s !! h = None).
  { intros s' r Hw Hr. split; [by eapply reads_writes |]. intros b' E Eb. rewrite (Hr _ E) in Eb.
    destruct (s3_index s !! h) eqn:Ei; [| done]. rewrite Hb in Eb; [done | by eexists]. }
  unfold bind, send, or_fail, lift, early, set_index, modify, ret.
  pose proof (delete_object_law (s3_client s1) (s3_bucket (s3_config s1)) (object_key h)) as Hd.
  destruct (delete_object _ _ _) as [w [u|e]]; cbn.
  2: { apply Hfin; [| done]. split; [done |]. split; [| done]. unfold s3_blobs, stored. cbn.
       destruct Hd as [-> | [_ ->]]; [right | by left]. rewrite set_none. by apply blobs_on_delete. }
  destruct Hd as [Ed | [(? & [=]) _]].
  pose proof (head_object_law w (s3_bucket (s3_config s1)) (object_key h)) as Hh.
  assert (Eb : blobs_on (objects w (s3_bucket (s3_config s1))) = set h None (s3_blobs s1)).
  { rewrite Ed, set_none. by apply blobs_on_delete. }
  destruct (head_object _ _ _) as [w' [u'|e]]; destruct Hh as [Eh Hh]; [| destruct (is_not_found e)]; cbn; apply Hfin;
    try (by intros b' [= <-]); (split; [done |]).
  1, 3: split; [right | done].
  3: split; [| by rewrite set_none].
  all: unfold s3_blobs at 1, stored; cbn; by rewrite Eh, Eb.
Qed.

Lemma no_fault_inv what o (s : S3Backend W) : (no_fault what o s).1 = s.
Proof. by destruct o. Qed.
Lemma stream_spec env rd url s :
  let '(s', r) := insert_stream env rd url s in
  writes (sha256_hex (delivered rd)) (Some (delivered rd)) (Some (vec_len (delivered rd))) s r s'
  ∧ ∀ d, r = Ok d → read_error rd = None
      ∧ d = descriptor (env_now env) (s3_config s') (sha256_hex (delivered rd)) (vec_len (delivered rd)) url.
Proof.
  set (h := sha256_hex (delivered rd)).
  enough (Hs : let '(s', r) := stream_to_s3 env rd url s in
    writes h (Some (delivered rd)) (Some (vec_len (delivered rd))) s r s'
    ∧ ∀ d, r = Ok d → read_error rd = None ∧ d = descriptor (env_now env) (s3_config s') h (vec_len (delivered rd)) url).
  { unfold insert_stream. destruct (stream_to_s3 _ _ _ _) as [s' r]. by destruct (f_cleanup _). }
  unfold stream_to_s3, no_fault. pose proof (stream_loop_spec (env_faults env) rd hasher_new 0 []) as Hl.
  destruct (f_create _); [split; [by apply reads_failure | done] |].
  destruct (FilesystemBackend.stream_loop _ _ _ _ _) as [w copied]. unfold bind at 1 2, set_temp, modify. cbn [ret].
  set (s1 := mkS3 _ _ _ _). assert (R1 : reads s s1) by done.
  unfold bind at 1, lift at 1. destruct copied as [[hash n]|e]; [| split; [by apply reads_failure | done]].
  destruct Hl as (Hr & -> & Hh & ->). fold (sha256_hex (delivered rd)) in Hh. fold h in Hh. subst hash.
  destruct (f_sync _); [split; [by apply reads_failure | done] |].
  destruct (f_read _); [split; [by apply reads_failure | done] |].
  unfold bind at 1 2. cbn [ret]. rewrite Z.add_0_l. cbn [app].
  pose proof (put_and_index_spec h (vec_len (delivered rd)) (delivered rd) s1 (valid_hash_sha256 _)) as Hp.
  unfold bind at 1. destruct (put_and_index _ _ _ s1) as [s2 [u|e]]; (split; [exact (reads_writes _ _ _ _ _ _ _ R1 Hp) |]); [| done].
  by intros d [= <-].
Qed.

(** ** The index that a start builds *)

Lemma index_absent i (l : list (string * list byte)) h :
  (str_len h = 64 → h +:+ ".blob" ∉ l.*1) → foldl index_object i (listed <$> l) !! h = i !! h.
Proof.
  revert i. induction l as [|[k x] l IH]; intros i Hn; [done |]. cbn [fmap list_fmap foldl].
  assert (Hn' : str_len h = 64 → h +:+ ".blob" ∉ l.*1).
  { intros Hl Hc. apply (Hn Hl). cbn. apply elem_of_cons. by right. }
  rewrite (IH _ Hn').
  unfold index_object, listed. cbn [o_key o_size fst snd]. destruct (strip_suffix ".blob" k) as [h'|] eqn:E; [| done]. apply strip_suffix_Some in E.
  case_decide as Hl; [| done]. apply lookup_insert_ne. intros ->. apply Hn; [done |]. rewrite E. cbn. apply elem_of_cons. by left.
Qed.
Lemma index_present i (l : list (string * list byte)) h x :
  NoDup l.*1 → (h +:+ ".blob", x) ∈ l → str_len h = 64 → foldl index_object i (listed <$> l) !! h = Some (as_u64 (vec_len x)).
Proof.
  revert i. induction l as [|[k y] l IH]; intros i Hnd Hin Hl; [by apply not_elem_of_nil in Hin |]. cbn [fmap list_fmap foldl].
  cbn in Hnd. apply list.NoDup_cons in Hnd as [Hk Hnd]. apply elem_of_cons in Hin as [[= <- <-] | Hin]; [| by apply IH].
  rewrite index_absent by (intros _; exact Hk). unfold index_object, listed. cbn [o_key o_size fst snd].
  rewrite (proj2 (strip_suffix_Some ".blob" _ h) eq_refl). rewrite decide_True by done. apply lookup_insert_eq.
Qed.
Lemma index_listed (m : gmap string (list byte)) (l : list (string * list byte)) h :
  l ≡ₚ map_to_list m →
  foldl index_object ∅ (listed <$> l) !! h =
  if decide (str_len h = 64) then (fun x => as_u64 (vec_len x)) <$> m !! (h +:+ ".blob") else None.
Proof.
  intros Hp. assert (Hnd : NoDup l.*1) by (rewrite Hp; apply NoDup_fst_map_to_list).
  case_decide as Hl; [| by rewrite index_absent, lookup_empty].
  destruct (m !! (h +:+ ".blob")) as [x|] eqn:E; cbn.
  - apply index_present; [done | | done]. rewrite Hp. by apply elem_of_map_to_list.
  - rewrite index_absent, lookup_empty; [done |]. intros _ ([k x] & Ek & Hin)%list_elem_of_fmap.
    rewrite Hp in Hin. apply elem_of_map_to_list in Hin. cbn in Ek. congruence.
Qed.

Lemma rebuild_spec fuel t s s' r : rebuild_index fuel t s = Some (s', r) →
  s3_config s' = s3_config s ∧ stored s' = stored s
  ∧ (r = Ok tt → s3_index s' = foldl index_object (s3_index s) (listed <$> to_list (s3_client s) (s3_bucket (s3_config s)) t)).
Proof.
  revert t s. induction fuel as [|fuel IH]; intros t s; [done |]. cbn [rebuild_index].
  unfold bind, send, or_fail, lift, set_index, modify, ret.
  pose proof (list_objects_law (s3_client s) (s3_bucket (s3_config s)) t) as Hl.
  destruct (list_objects_v2 _ _ t) as [w [page|e]]; destruct Hl as [Eo Hl]; cbn; [| by intros [= <- <-]].
  destruct (Hl _ eq_refl) as (now & later & Et & Ec & Hm). rewrite Ec, Et, fmap_app, foldl_app.
  destruct (is_truncated page) as [[|]|]; [| by subst later; intros [= <- <-]..].
  destruct Hm as (_ & _ & Hlater). intros (Hc & Hs & Hi)%IH. split; [done |].
  split; [rewrite Hs; exact Eo |]. intros Er. rewrite (Hi Er). cbn. by rewrite Hlater.
Qed.
Lemma rebuild_terminates fuel t s :
  (length (to_list (s3_client s) (s3_bucket (s3_config s)) t) < fuel)%nat → is_Some (rebuild_index fuel t s).
Proof.
  revert t s. induction fuel as [|fuel IH]; intros t s Hf; [lia |]. cbn [rebuild_index].
  unfold bind, send, or_fail, lift, set_index, modify, ret.
  pose proof (list_objects_law (s3_client s) (s3_bucket (s3_config s)) t) as Hl.
  destruct (list_objects_v2 _ _ t) as [w [page|e]]; destruct Hl as [Eo Hl]; [| by eexists].
  destruct (Hl _ eq_refl) as (now & later & Et & Ec & Hm).
  destruct (is_truncated page) as [[|]|]; [| by eexists..]. destruct Hm as (Hn & _ & Hlater).
  apply IH. cbn. rewrite Hlater. rewrite Et, length_app in Hf. destruct now; [done |]. cbn in Hf. lia.
Qed.

Definition indexed (m : gmap string (list byte)) (h : string) : option Z :=
  if decide (str_len h = 64) then (fun x => as_u64 (vec_len x)) <$> m !! (h +:+ ".blob") else None.
Lemma new_spec fuel w config temp w' r : new fuel w config temp = Some (w', r) →
  objects w' (s3_bucket config) = objects w (s3_bucket config)
  ∧ ∀ s, r = Ok s → s3_config s = config ∧ stored s = objects w (s3_bucket config)
                   ∧ ∀ h, s3_index s !! h = indexed (objects w (s3_bucket config)) h.
Proof.
  unfold new. destruct (rebuild_index _ _ _) as [[s' r']|] eqn:E; [| done]. apply rebuild_spec in E as (Ec & Es & Ei).
  intros [= <- <-]. unfold stored in Es. cbn in Ec, Es. rewrite Ec in Es. split; [done |].
  intros s. destruct r' as [[]|]; intros [= <-]. split; [done |]. unfold stored. rewrite Ec. split; [done |].
  intros h. rewrite (Ei eq_refl). apply index_listed, to_list_start.
Qed.

(** C33: a start finds every blob.  It ends, after at most one page per object and
    one more; it changes no object; and when no request failed its index has
    exactly the objects named after 64 characters, with the size they are stored
    with: the blobs of the bucket among them. *)
Theorem s3_start_finds_blobs fuel w config temp :
  (size (objects w (s3_bucket config)) < fuel)%nat →
  ∃ w' r, new fuel w config temp = Some (w', r)
    ∧ objects w' (s3_bucket config) = objects w (s3_bucket config)
    ∧ ∀ s, r = Ok s →
        s3_blobs s = blobs_on (objects w (s3_bucket config))
        ∧ (∀ h, s3_index s !! h = indexed (objects w (s3_bucket config)) h)
        ∧ ∀ h, valid_hash h = true → s3_index s !! h = (fun x => as_u64 (vec_len x)) <$> s3_blobs s !! h.
Proof.
  intros Hf. destruct (new fuel w config temp) as [[w' r]|] eqn:E.
  - exists w', r. split; [done |]. apply new_spec in E as [Eo Hs]. split; [done |].
    intros s (_ & Es & Hi)%Hs. unfold s3_blobs. rewrite Es. split; [done |]. split; [done |].
    intros h V. rewrite Hi, blobs_on_lookup, V. unfold indexed.
    apply andb_true_iff in V as [Hl%bool_decide_eq_true _]. by rewrite decide_True.
  - unfold new in E. destruct (rebuild_terminates fuel None (mkS3 w config ∅ temp)) as [[s' r'] E'].
    { cbn. by rewrite to_list_start, length_map_to_list. }
    by rewrite E' in E.
Qed.

(** ** Runs *)

Inductive s3_op :=
| Try_insert (env : Env) (data : list byte) (url : string)
| Insert (env : Env) (data : list byte) (url : string)
| Try_insert_with_hash (env : Env) (data : list byte) (h : string) (n : Z) (url : string)
| Insert_with_hash (env : Env) (data : list byte) (h : string) (n : Z) (url : string)
| Insert_stream (env : Env) (rd : reader) (url : string)
| Get (h : string)
| Exists (h : string)
| Try_delete (h : string)
| Delete (h : string)
| Restart (fuel : nat).
Inductive s3_answer :=
| Stored (r : result BlobDescriptor string)
| Told (d : BlobDescriptor)
| Got (o : option (list byte))
| Found (b : bool)
| Deleted (r : result bool string)
| Started.

Definition s3_apply s (o : s3_op) : S3Backend W * s3_answer :=
  match o with
  | Try_insert env data url => let '(s, r) := try_insert env data url s in (s, Stored r)
  | Insert env data url => let '(s, d) := insert env s data url in (s, Told d)
  | Try_insert_with_hash env data h n url => let '(s, r) := try_insert_with_hash env data h n url s in (s, Stored r)
  | Insert_with_hash env data h n url => let '(s, d) := insert_with_hash env s data h n url in (s, Told d)
  | Insert_stream env rd url => let '(s, r) := insert_stream env rd url s in (s, Stored r)
  | Get h => let '(s, r) := get h s in (s, Got (unwrap_or r None))
  | Exists h => let '(s, r) := exists_ h s in (s, Found (unwrap_or r false))
  | Try_delete h => let '(s, r) := try_delete h s in (s, Deleted r)
  | Delete h => let '(s, b) := delete_ s h in (s, Deleted (if b then Ok true else Err ""))
  | Restart fuel =>
      (* a start that fails is tried again *)
      match new fuel (s3_client s) (s3_config s) (s3_temp s) with
      | Some (w, Ok s) => (s, Started)
      | Some (w, Err _) => (mkS3 w (s3_config s) (s3_index s) (s3_temp s), Started)
      | None => (s, Started)
      end
  end.
Definition s3_run s (ops : list s3_op) : S3Backend W := foldl (fun s o => (s3_apply s o).1) s ops.

(** The blob an operation is to change, and what to; and whether it said that it
    did. *)
Definition intent (o : s3_op) : option (string * option (list byte)) :=
  match o with
  | Try_insert _ data _ | Insert _ data _ => Some (sha256_hex data, Some data)
  | Try_insert_with_hash _ data h _ _ | Insert_with_hash _ data h _ _ => if valid_hash h then Some (h, Some data) else None
  | Insert_stream _ rd _ => Some (sha256_hex (delivered rd), Some (delivered rd))
  | Try_delete h | Delete h => if valid_hash h then Some (h, None) else None
  | Get _ | Exists _ | Restart _ => None
  end.
Definition acknowledged (a : s3_answer) : bool :=
  match a with Stored (Ok _) | Deleted (Ok _) => true | _ => false end.

(** What is known of a blob is in the index, what is not there is not. *)
Definition settled s (h : string) (v : option (list byte)) : Prop :=
  valid_hash h = true ∧ s3_blobs s !! h = v ∧ (is_Some (s3_index s !! h) ↔ is_Some v).

Lemma writes_settled {A} h v n s (a : A) s' : valid_hash h = true → (is_Some n ↔ is_Some v) → writes h v n s (Ok a) s' → settled s' h v.
Proof. intros V Hn (_ & Eb & Ei). split; [done |]. rewrite Eb, Ei. unfold set. by rewrite !lookup_partial_alter_eq. Qed.
Lemma writes_others {A} h v n s (r : result A string) s' h' : h' ≠ h → writes h v n s r s' →
  s3_blobs s' !! h' = s3_blobs s !! h' ∧ s3_index s' !! h' = s3_index s !! h'.
Proof.
  intros Hne (_ & Hr). assert (E : ∀ {B} (x : option B) m, set h x m !! h' = m !! h') by (intros; by apply lookup_partial_alter_ne).
  destruct r; [destruct Hr as [-> ->] | destruct Hr as [[-> | ->] ->]]; by rewrite ?E.
Qed.
Lemma refused_hash env data h n url s : valid_hash h = false → (try_insert_with_hash env data h n url s) = (s, Err "invalid SHA256 storage key").
Proof. intros V. unfold try_insert_with_hash. by rewrite V. Qed.
Lemma refused_delete_hash h s : valid_hash h = false → try_delete h s = (s, Err "invalid SHA256 storage key").
Proof. intros V. unfold try_delete. by rewrite V. Qed.

Lemma is_Some_both {A B} (a : A) (b : B) : is_Some (Some a) ↔ is_Some (Some b).
Proof. split; by eexists. Qed.
Ltac written spec :=
  let Hs := fresh in let r := fresh in pose proof spec as Hs;
  match type of Hs with match ?m with _ => _ end => destruct m as [? r] end; destruct Hs as [Hs _];
  eexists _, _, _; split; [| split; [exact Hs |]]; [done || apply is_Some_both |];
  cbn; first [done | destruct r as [[]|]; first [done | by eexists]].

(** Each operation is a write of its intent, or a read. *)
Lemma apply_intent s o h v : intent o = Some (h, v) →
  valid_hash h = true ∧ ∃ n (A : Type) (r : result A string), (is_Some n ↔ is_Some v) ∧ writes h v n s r (s3_apply s o).1
    ∧ (acknowledged (s3_apply s o).2 = true → ∃ a, r = Ok a).
Proof.
  destruct o as [env data url|env data url|env data k n url|env data k n url|env rd url|k|k|k|k|fuel]; cbn [intent s3_apply]; try done.
  - intros [= <- <-]. split; [apply valid_hash_sha256 |]. written (try_insert_spec env data url s).
  - intros [= <- <-]. split; [apply valid_hash_sha256 |]. unfold insert. written (try_insert_spec env data url s).
  - destruct (valid_hash k) eqn:V; [| done]. intros [= <- <-]. split; [done |]. written (try_insert_with_hash_spec env data k n url s V).
  - destruct (valid_hash k) eqn:V; [| done]. intros [= <- <-]. split; [done |]. unfold insert_with_hash.
    written (try_insert_with_hash_spec env data k n url s V).
  - intros [= <- <-]. split; [apply valid_hash_sha256 |]. written (stream_spec env rd url s).
  - destruct (valid_hash k) eqn:V; [| done]. intros [= <- <-]. split; [done |]. written (try_delete_spec k s V).
  - destruct (valid_hash k) eqn:V; [| done]. intros [= <- <-]. split; [done |]. unfold delete_. written (try_delete_spec k s V).
Qed.
Lemma apply_read s o : intent o = None → s3_blobs (s3_apply s o).1 = s3_blobs s ∧ acknowledged (s3_apply s o).2 = false.
Proof.
  destruct o as [env data url|env data url|env data k n url|env data k n url|env rd url|k|k|k|k|fuel]; cbn [intent s3_apply]; try done.
  - destruct (valid_hash k) eqn:V; [done |]. by rewrite refused_hash.
  - destruct (valid_hash k) eqn:V; [done |]. unfold insert_with_hash. by rewrite refused_hash.
  - pose proof (get_spec k s) as Hg. destruct (get k s) as [s' r]. by destruct Hg as [(_ & ? & _)%reads_blobs _].
  - pose proof (exists_spec k s) as Hx. destruct (exists_ k s) as [s' r]. by destruct Hx as [(_ & ? & _)%reads_blobs _].
  - destruct (valid_hash k) eqn:V; [done |]. by rewrite refused_delete_hash.
  - destruct (valid_hash k) eqn:V; [done |]. unfold delete_. by rewrite refused_delete_hash.
  - intros _. destruct (new fuel _ _ _) as [[w [s'|e]]|] eqn:E; [| | done]; apply new_spec in E as [Eo Es]; (split; [| done]); unfold s3_blobs; cbn [fst].
    + destruct (Es _ eq_refl) as (_ & -> & _). done.
    + unfold stored. cbn. by rewrite Eo.
Qed.
Lemma read_settled s o h v : intent o = None → settled s h v → settled (s3_apply s o).1 h v.
Proof.
  intros Ho (V & Hb & Hi). pose proof (apply_read s o Ho) as [Eb _]. split; [done |]. split; [by rewrite Eb |]. rewrite <- Hi.
  enough (Hx : s3_index (s3_apply s o).1 = s3_index s ∨ (is_Some (s3_index (s3_apply s o).1 !! h) ↔ is_Some (s3_blobs (s3_apply s o).1 !! h))).
  { destruct Hx as [-> | ->]; [done |]. by rewrite Eb, Hb, Hi. }
  destruct o as [env data url|env data url|env data k n url|env data k n url|env rd url|k|k|k|k|fuel]; cbn [intent s3_apply] in *; try done.
  - left. destruct (valid_hash k) eqn:V'; [done |]. by rewrite refused_hash.
  - left. destruct (valid_hash k) eqn:V'; [done |]. unfold insert_with_hash. by rewrite refused_hash.
  - left. pose proof (get_spec k s) as Hg. destruct (get k s) as [s' r]. by destruct Hg as [(_ & _ & ?)%reads_blobs _].
  - left. pose proof (exists_spec k s) as Hx. destruct (exists_ k s) as [s' r]. by destruct Hx as [(_ & _ & ?)%reads_blobs _].
  - left. destruct (valid_hash k) eqn:V'; [done |]. by rewrite refused_delete_hash.
  - left. destruct (valid_hash k) eqn:V'; [done |]. unfold delete_. by rewrite refused_delete_hash.
  - destruct (new fuel _ _ _) as [[w [s'|e]]|] eqn:E; [right | by left..]. apply new_spec in E as [_ Es].
    destruct (Es _ eq_refl) as (_ & Es' & Hx). cbn [fst]. rewrite Hx. unfold s3_blobs. rewrite Es', blobs_on_lookup, V. unfold indexed.
    apply andb_true_iff in V as [Hl%bool_decide_eq_true _]. rewrite decide_True by done. by rewrite fmap_is_Some.
Qed.
Definition spares (h : string) (o : s3_op) : Prop := fst <$> intent o ≠ Some h.
Lemma run_settled s ops h v : Forall (spares h) ops → settled s h v → settled (s3_run s ops) h v.
Proof.
  intros Hf. revert s. induction Hf as [|o ops Ho Hf IH]; intros s Hs; [exact Hs |]. apply IH.
  destruct (intent o) as [[k x]|] eqn:E; [| by apply read_settled].
  assert (Hne : h ≠ k) by (intros ->; apply Ho; by rewrite E).
  destruct (apply_intent s o k x E) as (_ & n & A & r & _ & Hw & _). destruct Hs as (V & Hb & Hi).
  destruct (writes_others _ _ _ _ _ _ h Hne Hw) as [Eb Ei]. split; [done |]. by rewrite Eb, Ei.
Qed.
Lemma settled_answers s h v : settled s h v →
  (exists_ h s).2 = Ok (bool_decide (is_Some v)) ∧ ((get h s).2 = Ok v ∨ (get h s).2 = Ok None).
Proof.
  intros (V & Hb & Hi). split.
  - pose proof (exists_spec h s) as Hx. destruct (exists_ h s) as [s' r]. destruct Hx as (_ & b & -> & Ht & Hn). cbn.
    f_equal. case_bool_decide as Hv; [apply Ht; [done | by apply Hi] |].
    apply Hn; [apply eq_None_not_Some; by rewrite Hi | rewrite Hb; by apply eq_None_not_Some].
  - pose proof (get_spec h s) as Hg. destruct (get h s) as [s' r]. destruct Hg as (_ & o & -> & Hx). cbn.
    destruct o as [x|]; [left | by right]. by rewrite <- (Hx _ eq_refl), Hb.
Qed.

(** C32: what S3 acknowledged holds, whatever the network does.  An operation
    changes the blob it is for, as it was asked to, and no other; a failure is
    that change or none.  Once one is acknowledged, and as long as no other is
    for that blob, through restarts and however many requests fail, the bucket
    holds what was acknowledged, [exists] says so, and [get] gives it or fails. *)
Theorem s3_answers_hold s o ops :
  let '(s1, a) := s3_apply s o in
  match intent o with
  | None => s3_blobs s1 = s3_blobs s
  | Some (h, v) =>
      (s3_blobs s1 = set h v (s3_blobs s) ∨ acknowledged a = false ∧ s3_blobs s1 = s3_blobs s)
      ∧ (acknowledged a = true → Forall (spares h) ops →
          let s2 := s3_run s1 ops in
          s3_blobs s2 !! h = v ∧ (exists_ h s2).2 = Ok (bool_decide (is_Some v))
          ∧ ((get h s2).2 = Ok v ∨ (get h s2).2 = Ok None))
  end.
Proof.
  destruct (intent o) as [[h v]|] eqn:E; [| pose proof (apply_read s o E) as [Hr _]; by destruct (s3_apply s o)].
  destruct (apply_intent s o h v E) as (V & n & A & r & Hn & Hw & Ha). destruct (s3_apply s o) as [s1 a]. cbn in Hw, Ha. split.
  - destruct Hw as [_ Hr]. destruct r as [x|e]; [left; apply Hr |]. destruct Hr as [[Eb | Eb] _]; [right | by left].
    split; [| done]. destruct (acknowledged a); [by destruct Ha | done].
  - intros [x ->]%Ha Hf. pose proof (run_settled s1 ops h v Hf (writes_settled _ _ _ _ _ _ V Hn Hw)) as Hs.
    split; [apply Hs | by apply settled_answers].
Qed.
End facts.

(** ** Over a service that answers *)

Section answers.
Context `{CratesLaws} {W : Type} `{S3Answers W}.
Implicit Types s : S3Backend W.
Import FilesystemBackend(blobs_on, blobs_on_lookup, blobs_on_delete, blob_name_inj).
Import S3Backend.

(** The URLs are the server's, and what the index knows is there. *)
Definition s3_wf s : Prop :=
  public_url (s3_config s) = None ∧ ∀ h, valid_hash h = true → is_Some (s3_index s !! h) → is_Some (s3_blobs s !! h).

Lemma wf_writes {A} h v n s (r : result A string) s' : (is_Some n → is_Some v) → s3_wf s → writes h v n s r s' →
  (∀ e, r = Err e → s3_blobs s' = s3_blobs s) → s3_wf s'.
Proof.
  intros Hn [Hu Hi] [Hc Hw] He. split; [by rewrite Hc |]. intros h' V'. destruct r as [a|e].
  - destruct Hw as [-> ->]. unfold set. destruct (decide (h = h')) as [<-|Hne].
    + by rewrite !lookup_partial_alter_eq.
    + rewrite !lookup_partial_alter_ne by done. by apply Hi.
  - rewrite (He e eq_refl). destruct Hw as [_ ->]. by apply Hi.
Qed.
Lemma wf_reads s s' : reads s s' → s3_wf s → s3_wf s'.
Proof. intros (Ec & Eb & Ei)%reads_blobs. unfold s3_wf. by rewrite Ec, Eb, Ei. Qed.

Lemma refused_insert h n x s s' e : put_and_index h n x s = (s', Err e) → s3_blobs s' = s3_blobs s.
Proof.
  unfold put_and_index, send, bind, or_fail, set_index, modify, lift, s3_blobs, stored.
  pose proof (refused_put (s3_client s) (s3_bucket (s3_config s)) (object_key h) x) as Hp.
  destruct (put_object _ _ _ _) as [w [u|e']]; [done |]. intros [= <- _]. cbn in *. by rewrite (Hp _ eq_refl).
Qed.
Lemma inserted {A} h x n s (m : MR (S3Backend W) string A) (f : S3Backend W → A) :
  s3_wf s → valid_hash h = true → m = (put_and_index h n x ;! gets f)%handler →
  let '(s', r) := m s in s3_wf s' ∧ match r with
    | Ok a => s3_blobs s' = <[h := x]> (s3_blobs s) ∧ a = f s' | Err _ => s3_blobs s' = s3_blobs s end.
Proof.
  intros Hs V ->. pose proof (put_and_index_spec h n x s V) as Hp. pose proof (refused_insert h n x s) as Hr. unfold bind.
  destruct (put_and_index h n x s) as [s' [a|e]]; cbn.
  - split; [| split; [apply Hp | done]]. eapply wf_writes; [| exact Hs | exact Hp | done]. by eexists.
  - specialize (Hr s' e eq_refl). split; [| done]. eapply wf_writes; [| exact Hs | exact Hp | by intros]. by eexists.
Qed.
Lemma own_url now c h n url : public_url c = None → descriptor now c h n url = make_descriptor_from_hash now h n url.
Proof. unfold descriptor, blob_url. by intros ->. Qed.

Lemma exists_answers s h : s3_wf s → valid_hash h = true →
  let '(s', r) := exists_ h s in reads s s' ∧ r = Ok (bool_decide (is_Some (s3_blobs s !! h))).
Proof.
  intros [_ Hi] V. pose proof (exists_spec h s) as Hx. specialize (Hi h V).
  assert (Ht : is_Some (s3_blobs s !! h) → (exists_ h s).2 = Ok true).
  { clear Hx. unfold s3_blobs, stored. rewrite blobs_on_lookup, V. intros [x E]. unfold exists_. rewrite V. unfold bind at 1, gets. cbv iota.
    case_decide as Hd; [done |]. unfold send, bind, ret.
    pose proof (head_answers (s3_client s) (s3_bucket (s3_config s)) (object_key h)) as Ha.
    pose proof (head_object_law (s3_client s) (s3_bucket (s3_config s)) (object_key h)) as Hl.
    destruct (head_object _ _ _) as [w [u|e]]; [done |]. cbn in Ha. destruct Hl as [_ Hl]. apply Hl in Ha.
    unfold object_key in Ha. congruence. }
  destruct (exists_ h s) as [s' r]. destruct Hx as (R & b & -> & _ & Hn). split; [done |].
  case_bool_decide as Hs; [by apply Ht |]. f_equal. apply Hn; [| by apply eq_None_not_Some].
  apply eq_None_not_Some. intros Hc. by apply Hs, Hi.
Qed.

Lemma deleted s h : s3_wf s → valid_hash h = true →
  let '(s', r) := try_delete h s in s3_wf s' ∧ match r with
    | Ok existed => s3_blobs s' = delete h (s3_blobs s) ∧ existed = bool_decide (is_Some (s3_blobs s !! h))
    | Err _ => s3_blobs s' = s3_blobs s end.
Proof.
  intros Hs V. pose proof (exists_answers s h Hs V) as Hx. assert (Hw : writes h None None s (try_delete h s).2 (try_delete h s).1).
  { pose proof (try_delete_spec h s V) as Hw. destruct (try_delete h s). apply Hw. }
  enough (Hd : let '(s', r) := try_delete h s in match r with
    | Ok existed => existed = bool_decide (is_Some (s3_blobs s !! h)) | Err _ => s3_blobs s' = s3_blobs s end).
  { destruct (try_delete h s) as [s' r]. cbn in Hw. split.
    - eapply wf_writes; [| exact Hs | exact Hw | by intros e ->]. by intros [].
    - destruct r; [| done]. destruct Hw as (_ & Eb & _). by rewrite Eb, set_none. }
  clear Hw. unfold try_delete. rewrite V. unfold bind at 1 2. cbn [guard ret].
  destruct (exists_ h s) as [s1 r1]. destruct Hx as [(Ec & Eb & _)%reads_blobs ->].
  unfold bind, send, or_fail, lift, early, set_index, modify, ret.
  pose proof (refused_delete (s3_client s1) (s3_bucket (s3_config s1)) (object_key h)) as Hr.
  pose proof (delete_object_law (s3_client s1) (s3_bucket (s3_config s1)) (object_key h)) as Hl.
  destruct (delete_object _ _ _) as [w [u|e]]; cbn in *.
  2: { rewrite <- Eb. unfold s3_blobs, stored. cbn. by rewrite (Hr _ eq_refl). }
  destruct Hl as [Ed | [(? & [=]) _]]. pose proof (head_answers w (s3_bucket (s3_config s1)) (object_key h)) as Ha.
  destruct (head_object _ _ _) as [w' [u'|e]]; cbn in *; [| by rewrite Ha].
  rewrite Ed, lookup_delete_eq in Ha. by destruct Ha.
Qed.

#[export] Instance s3_laws : BlobBackendLaws (S3Backend W).
Proof.
  refine (Build_BlobBackendLaws _ _ s3_blobs s3_wf _ _ _ _ _).
  - intros env s data url Hs. pose proof (inserted (sha256_hex data) data _ s _ _ Hs (valid_hash_sha256 data) (eq_refl (try_insert env data url))) as Hi.
    cbn. destruct (try_insert env data url s) as [s' [d|e]]; destruct Hi as [Hs' Hi]; split; try done. destruct Hi as [Hb ->].
    split; [done |]. by rewrite own_url by apply Hs'.
  - intros env s data h n url Hs V. cbn. unfold try_insert_with_hash. rewrite V.
    pose proof (inserted h data n s _ _ Hs V (eq_refl (put_and_index h n data ;! gets (fun s => descriptor (env_now env) (s3_config s) h n url))%handler)) as Hi.
    unfold bind at 1. cbn [guard ret]. destruct ((put_and_index h n data ;! _)%handler s) as [s' [d|e]]; destruct Hi as [Hs' Hi]; split; try done.
    destruct Hi as [Hb ->]. split; [done |]. by rewrite own_url by apply Hs'.
  - intros env s h Hs. cbn. pose proof (get_spec h s) as Hg. split.
    + intros _. unfold get, s3_blobs. rewrite blobs_on_lookup. destruct (valid_hash h); [| done]. unfold send, bind, ret.
      pose proof (get_answers (s3_client s) (s3_bucket (s3_config s)) (object_key h)) as Ha.
      pose proof (get_object_law (s3_client s) (s3_bucket (s3_config s)) (object_key h)) as Hl. unfold stored.
      destruct (get_object _ _ _) as [w r]. cbn [snd] in Ha |- *. destruct Hl as [_ Hl]. fold (object_key h).
      destruct (objects (s3_client s) (s3_bucket (s3_config s)) !! object_key h) as [x|].
      * by rewrite (Ha x eq_refl).
      * destruct r as [[y|]|]; try done. by specialize (Hl y eq_refl).
    + destruct (get h s) as [s' r]. destruct Hg as (_ & o & -> & Hx). exact Hx.
  - intros s h Hs V. cbn. pose proof (exists_answers s h Hs V) as Hx. destruct (exists_ h s) as [s' r]. by destruct Hx as [_ ->].
  - intros env s h Hs V. by apply deleted.
Defined.
End answers.

(** ** Examples: a bucket in memory *)

(** What becomes of a request: served, refused, or served with its answer lost. *)
Inductive fate := Served | Refused | Lost.
Class Network := network : nat → fate.
Record Bucket := mkBucket { bk_objects : gmap string (list byte); bk_requests : nat }.

Section bucket.
Context `{Network}.
Definition timeout : sdk_error := mkSdkError false "timeout".
Definition request {A} (b : Bucket) (change : gmap string (list byte) → gmap string (list byte)) (answer : result A sdk_error)
    : Bucket * result A sdk_error :=
  let n := bk_requests b in
  match network n with
  | Served => (mkBucket (change (bk_objects b)) (S n), answer)
  | Refused => (mkBucket (bk_objects b) (S n), Err timeout)
  | Lost => (mkBucket (change (bk_objects b)) (S n), Err timeout)
  end.
(** A token tells how many objects came before, by its length. *)
Definition token (n : nat) : string := of_chars (replicate n "x"%char).
Definition seen (t : option string) : nat := match t with Some t => String.length t | None => 0 end.
Definition page (b : Bucket) (t : option string) : ListPage :=
  let l := drop (seen t) (map_to_list (bk_objects b)) in
  mkPage (listed <$> take 2 l) (Some (bool_decide (2 < length l)%nat)) (Some (token (seen t + 2))).
Definition read (b : Bucket) (k : string) : result (list byte) sdk_error :=
  match bk_objects b !! k with Some x => Ok x | None => Err (mkSdkError true "not found") end.

#[export] Instance bucket_client : S3Client Bucket := {|
  put_object b _ k x := request b <[k := x]> (Ok tt);
  get_object b _ k := request b id (match read b k with Ok x => Ok (Ok x) | Err e => Err e end);
  head_object b _ k := request b id (match read b k with Ok _ => Ok tt | Err e => Err e end);
  delete_object b _ k := request b (delete k) (Ok tt);
  list_objects_v2 b _ t := request b id (Ok (page b t))
|}.

#[export] Instance bucket_laws : S3ClientLaws Bucket.
Proof.
  refine (Build_S3ClientLaws _ _ (fun b _ => bk_objects b) (fun b _ t => drop (seen t) (map_to_list (bk_objects b))) _ _ _ _ _ _);
    cbn; unfold request, read.
  - intros b _ k x. destruct (network (bk_requests b)); cbn; [by left | right; split; [by eexists | done] | by left].
  - intros b _ k. destruct (network (bk_requests b)); cbn; (split; [done |]); try done. by destruct (_ !! k) eqn:E; intros ? [= <-].
  - intros b _ k. destruct (network (bk_requests b)); cbn; (split; [done |]); try done. by destruct (_ !! k) eqn:E; [eexists |].
  - intros b _ k. destruct (network (bk_requests b)); cbn; [by left | right; split; [by eexists | done] | by left].
  - done.
  - intros b _ t. destruct (network (bk_requests b)); cbn; (split; [done |]); try done. intros p [= <-].
    exists (take 2 (drop (seen t) (map_to_list (bk_objects b)))), (drop 2 (drop (seen t) (map_to_list (bk_objects b)))).
    split; [by rewrite take_drop |]. split; [done |]. cbn. unfold id. case_bool_decide as Hl.
    + split; [destruct (drop (seen t) _); [cbn in Hl; lia | done] |]. split; [by eexists |]. rewrite drop_drop. f_equal.
      unfold token, seen at 1. by rewrite <- length_chars, chars_of_chars, length_replicate.
    + apply drop_ge. lia.
Defined.
End bucket.

#[local] Existing Instances Concrete.crates Concrete.crates_laws.
Definition at_time (now : Z) : Env := mkEnv now "u" no_faults.
Definition over (w : Bucket) : S3Backend Bucket := mkS3 w (mkS3Config "blobs" None) ∅ ∅.
Definition hello : list byte := as_bytes "hello".
Definition hello_hash : string := sha256_hex hello.
Definition empty_bucket : Bucket := mkBucket ∅ 0.
(** The network that fails at request [n] only. *)
Definition failing (n : nat) (f : fate) : Network := fun k => if decide (k = n) then f else Served.

(** The check of a deletion is not answered: the deletion fails, the object is
    gone, and the index keeps saying that it is there. *)
Example unverified_deletion :
  let I := failing 2 Refused in
  let s1 := (s3_apply (over empty_bucket) (Try_insert (at_time 1) hello "u")).1 in
  let '(s2, a) := s3_apply s1 (Try_delete hello_hash) in
  a = Deleted (Err "s3 delete verification: timeout") ∧ s3_blobs s2 !! hello_hash = None
  ∧ (s3_apply s2 (Exists hello_hash)).2 = Found true ∧ (s3_apply s2 (Get hello_hash)).2 = Got None.
Proof. vm_compute. done. Qed.

(** An upload whose answer is lost is refused, and served. *)
Example lost_upload_served :
  let I := failing 0 Lost in
  let '(s1, a) := s3_apply (over empty_bucket) (Try_insert (at_time 1) hello "u") in
  a = Stored (Err "s3 upload: timeout") ∧ (s3_apply s1 (Get hello_hash)).2 = Got (Some hello) ∧ S3Backend.len s1 = 0.
Proof. vm_compute. done. Qed.

(** A name of 64 other characters is counted after a start, and never found. *)
Definition not_a_hash : string := token 64.
Example other_names_counted :
  let I : Network := fun _ => Served in
  let w := mkBucket {[ not_a_hash +:+ ".blob" := hello ]} 0 in
  match S3Backend.new 2 w (mkS3Config "blobs" None) ∅ with
  | Some (_, Ok s) => S3Backend.len s = 1 ∧ S3Backend.total_bytes s = 5 ∧ (s3_apply s (Exists not_a_hash)).2 = Found false
  | _ => False
  end.
Proof. vm_compute. done. Qed.

(** A blob kept compressed has another size after a restart. *)
Example size_after_restart :
  let I : Network := fun _ => Served in
  let s1 := (s3_apply (over empty_bucket) (Try_insert_with_hash (at_time 1) hello hello_hash 900 "u")).1 in
  S3Backend.total_bytes s1 = 900 ∧ S3Backend.total_bytes (s3_apply s1 (Restart 2)).1 = 5.
Proof. vm_compute. done. Qed.

Lemma s3_answers_hold_witness :
  let I := failing 1 Lost in
  let s1 := (s3_apply (over empty_bucket) (Try_insert (at_time 1) hello "u")).1 in
  let s2 := s3_run s1 [Try_delete (sha256_hex (as_bytes "other")); Restart 9; Get hello_hash] in
  s3_blobs s2 !! hello_hash = Some hello.
Proof.
  intros I s1 s2.
  pose proof (s3_answers_hold (over empty_bucket) (Try_insert (at_time 1) hello "u")
    [Try_delete (sha256_hex (as_bytes "other")); Restart 9; Get hello_hash]) as Hw.
  unfold s2, s1. destruct (s3_apply (over empty_bucket) (Try_insert (at_time 1) hello "u")) as [s a] eqn:E.
  destruct Hw as [_ Hw]. apply Hw.
  - apply (f_equal snd) in E. cbn [snd] in E. rewrite <- E. vm_compute. reflexivity.
  - repeat constructor; unfold spares; vm_compute; discriminate.
Defined.

(** Three objects, in two pages. *)
Definition three_objects : Bucket :=
  mkBucket {[ hello_hash +:+ ".blob" := hello; "readme" := []; sha256_hex [] +:+ ".blob" := [] ]} 0.
Lemma s3_start_finds_blobs_witness :
  let I : Network := fun _ => Served in
  ∃ w' r, S3Backend.new 4 three_objects (mkS3Config "blobs" None) ∅ = Some (w', r) ∧ bk_objects w' = bk_objects three_objects.
Proof.
  intros I. destruct (s3_start_finds_blobs 4 three_objects (mkS3Config "blobs" None) ∅) as (w' & r & E & Eo & _).
  { vm_compute. lia. }
  exists w', r. split; [exact E | exact Eo].
Defined.

(** A network that serves every request. *)
Lemma bucket_answers : @S3Answers Bucket (@bucket_client (fun _ => Served)) (@bucket_laws (fun _ => Served)).
Proof.
  split; cbn; unfold request, read; cbn.
  - intros b _ k x E. change (bk_objects b !! k = Some x) in E. by rewrite E.
  - intros b _ k. change (objects b "" !! k) with (bk_objects b !! k). by destruct (bk_objects b !! k) eqn:E; [eexists |].
  - done.
  - done.
Qed.
