(* ===== verification/Launch.v ===== *)
(** * The server binary ([src/blossom-server/src/main.rs])

    From the command line to a running server: which storage, which databases
    and which policy it gets, and what it refuses to start with.  A boxed trait
    object is a sum of its implementations ([DynBackend], [DynDatabase],
    [DynVersions], [DynLocks]); what the operating system and the engines answer
    at the start is a [Host].  What the running server meets is a list of [turns]:
    requests to any of its APIs, and reloads of its whitelist. *)

From Stdlib Require Import ZArith Lia Ascii String.
From Stdlib Require Import Strings.Byte.
From stdpp Require Import base list gmap strings numbers.
From S2P Require Import Prelude Effects Protocol RequestAuth RateLimit Replay Database Access Storage S3 Locks Lfs Stats Server Mirror Media Nip96 Admin Deployment Sql SqlDatabase SqlLocks SqlVersions Migrations.

Open Scope string_scope.
Open Scope Z_scope.

(** ** Trait objects *)

Section boxes.
Context `{Crates} `{HashOrder} {W : Type} `{S3Client W}.

#[local] Existing Instance S3Backend.impl.
(** [Box<dyn BlobBackend>]. *)
Inductive DynBackend :=
| InMemory (m : MemoryBackend)
| InBucket (s : S3Backend W)
| OnDisk (f : FilesystemBackend).
Definition boxed {A} (f : MemoryBackend → MemoryBackend * A) (g : S3Backend W → S3Backend W * A)
    (h : FilesystemBackend → FilesystemBackend * A) (b : DynBackend) : DynBackend * A :=
  match b with
  | InMemory m => let '(m, a) := f m in (InMemory m, a)
  | InBucket s => let '(s, a) := g s in (InBucket s, a)
  | OnDisk d => let '(d, a) := h d in (OnDisk d, a)
  end.
Definition unboxed {A} (f : MemoryBackend → A) (g : S3Backend W → A) (h : FilesystemBackend → A) (b : DynBackend) : A :=
  match b with InMemory m => f m | InBucket s => g s | OnDisk d => h d end.
#[export] Instance dyn_backend : BlobBackend DynBackend := {|
  insert_blob env b x u := boxed (fun m => insert_blob env m x u) (fun m => insert_blob env m x u) (fun m => insert_blob env m x u) b;
  try_insert env b x u := boxed (fun m => try_insert env m x u) (fun m => try_insert env m x u) (fun m => try_insert env m x u) b;
  insert_with_hash env b x h n u :=
    boxed (fun m => insert_with_hash env m x h n u) (fun m => insert_with_hash env m x h n u) (fun m => insert_with_hash env m x h n u) b;
  try_insert_with_hash env b x h n u :=
    boxed (fun m => try_insert_with_hash env m x h n u) (fun m => try_insert_with_hash env m x h n u)
      (fun m => try_insert_with_hash env m x h n u) b;
  get env b h := unboxed (fun m => get env m h) (fun m => get env m h) (fun m => get env m h) b;
  exists_blob b h := unboxed (fun m => exists_blob m h) (fun m => exists_blob m h) (fun m => exists_blob m h) b;
  delete_blob env b h := boxed (fun m => delete_blob env m h) (fun m => delete_blob env m h) (fun m => delete_blob env m h) b;
  try_delete env b h := boxed (fun m => try_delete env m h) (fun m => try_delete env m h) (fun m => try_delete env m h) b;
  len b := unboxed len len len b;
  total_bytes b := unboxed total_bytes total_bytes total_bytes b;
  insert_stream env b rd n u :=
    boxed (fun m => insert_stream env m rd n u) (fun m => insert_stream env m rd n u) (fun m => insert_stream env m rd n u) b
|}.

(** [Box<dyn BlobDatabase>]. *)
Inductive DynDatabase :=
| DbMemory (d : MemoryDatabase)
| DbSqlite (e : Engine Tables)
| DbPostgres (e : Engine Tables).
Definition on_db {A} (f : ∀ D, BlobDatabase D → D → D * A) (d : DynDatabase) : DynDatabase * A :=
  match d with
  | DbMemory d => let '(d, a) := f _ memory_database d in (DbMemory d, a)
  | DbSqlite e => let '(e, a) := f _ SqliteDatabase e in (DbSqlite e, a)
  | DbPostgres e => let '(e, a) := f _ PostgresDatabase e in (DbPostgres e, a)
  end.
Definition of_db {A} (f : ∀ D, BlobDatabase D → D → A) (d : DynDatabase) : A :=
  match d with
  | DbMemory d => f _ memory_database d
  | DbSqlite e => f _ SqliteDatabase e
  | DbPostgres e => f _ PostgresDatabase e
  end.
#[export] Instance dyn_database : BlobDatabase DynDatabase := {|
  Database.record_upload d r := on_db (fun _ _ d => Database.record_upload d r) d;
  Database.get_upload d h := of_db (fun _ _ d => Database.get_upload d h) d;
  Database.list_uploads_by_pubkey d p := of_db (fun _ _ d => Database.list_uploads_by_pubkey d p) d;
  Database.delete_upload d h := on_db (fun _ _ d => Database.delete_upload d h) d;
  Database.is_upload_owner d h p := of_db (fun _ _ d => Database.is_upload_owner d h p) d;
  Database.upload_owner_count d h := of_db (fun _ _ d => Database.upload_owner_count d h) d;
  Database.delete_upload_owner d h p := on_db (fun _ _ d => Database.delete_upload_owner d h p) d;
  Database.get_or_create_user d p := on_db (fun _ _ d => Database.get_or_create_user d p) d;
  Database.set_quota d p q := on_db (fun _ _ d => Database.set_quota d p q) d;
  Database.check_quota d p n := of_db (fun _ _ d => Database.check_quota d p n) d;
  Database.update_used_bytes d p n := on_db (fun _ _ d => Database.update_used_bytes d p n) d;
  Database.record_access d now h n := on_db (fun _ _ d => Database.record_access d now h n) d;
  Database.get_stats d h := of_db (fun _ _ d => Database.get_stats d h) d;
  Database.upload_count d := of_db (fun _ _ d => Database.upload_count d) d;
  Database.user_count d := of_db (fun _ _ d => Database.user_count d) d;
  Database.set_role d p r := on_db (fun _ _ d => Database.set_role d p r) d;
  Database.get_role d p := of_db (fun _ _ d => Database.get_role d p) d;
  Database.list_users_by_role d r := of_db (fun _ _ d => Database.list_users_by_role d r) d;
  Database.find_by_phash d x := of_db (fun _ _ d => Database.find_by_phash d x) d
|}.

(** [Box<dyn LfsVersionDatabase>], [Box<dyn LockDatabase>]. *)
Inductive DynVersions := VersionsMemory (v : MemoryLfsVersionDatabase) | VersionsSqlite (e : Engine VersionTable).
Definition on_versions {A} (f : ∀ V, LfsVersionDatabase V → V → V * A) (v : DynVersions) : DynVersions * A :=
  match v with
  | VersionsMemory v => let '(v, a) := f _ memory_versions v in (VersionsMemory v, a)
  | VersionsSqlite e => let '(e, a) := f _ SqliteVersions e in (VersionsSqlite e, a)
  end.
Definition of_versions {A} (f : ∀ V, LfsVersionDatabase V → V → A) (v : DynVersions) : A :=
  match v with VersionsMemory v => f _ memory_versions v | VersionsSqlite e => f _ SqliteVersions e end.
#[export] Instance dyn_versions : LfsVersionDatabase DynVersions := {|
  Lfs.record_version v r := on_versions (fun _ _ v => Lfs.record_version v r) v;
  Lfs.get_by_sha256 v h := of_versions (fun _ _ v => Lfs.get_by_sha256 v h) v;
  Lfs.get_latest_version v r p := of_versions (fun _ _ v => Lfs.get_latest_version v r p) v;
  Lfs.delete_by_sha256 v h := on_versions (fun _ _ v => Lfs.delete_by_sha256 v h) v;
  Lfs.get_deltas_for_base v h := of_versions (fun _ _ v => Lfs.get_deltas_for_base v h) v;
  Lfs.update_version v h t b n := on_versions (fun _ _ v => Lfs.update_version v h t b n) v;
  Lfs.lfs_stats v := of_versions (fun _ _ v => Lfs.lfs_stats v) v
|}.
Inductive DynLocks := LocksMemory (l : MemoryLockDatabase) | LocksSqlite (e : Engine LockTable).
Definition on_locks {A} (f : ∀ L, LockDatabase L → L → L * A) (l : DynLocks) : DynLocks * A :=
  match l with
  | LocksMemory l => let '(l, a) := f _ memory_locks l in (LocksMemory l, a)
  | LocksSqlite e => let '(e, a) := f _ SqliteLockDatabase e in (LocksSqlite e, a)
  end.
Definition of_locks {A} (f : ∀ L, LockDatabase L → L → A) (l : DynLocks) : A :=
  match l with LocksMemory l => f _ memory_locks l | LocksSqlite e => f _ SqliteLockDatabase e end.
#[export] Instance dyn_locks : LockDatabase DynLocks := {|
  Locks.create_lock l now id r p k := on_locks (fun _ _ l => Locks.create_lock l now id r p k) l;
  Locks.delete_lock l r id f k := on_locks (fun _ _ l => Locks.delete_lock l r id f k) l;
  Locks.list_locks l r f := of_locks (fun _ _ l => Locks.list_locks l r f) l;
  Locks.get_lock l r id := of_locks (fun _ _ l => Locks.get_lock l r id) l;
  Locks.get_lock_by_path l r p := of_locks (fun _ _ l => Locks.get_lock_by_path l r p) l
|}.
End boxes.
Arguments DynBackend W : clear implicits.

(** ** [BlobServerBuilder] *)

Section launch.
Context `{Crates} `{HashOrder} {W : Type} `{S3Client W}.
Variable bech32 : string → option (string * list byte).

Record BlobServerBuilder := mkBuilder {
  b_backend : DynBackend W;
  b_base_url : string;
  b_database : option DynDatabase;
  b_policy : Policy;
  b_requirements : UploadRequirements;
  b_body_limit : Z;
  b_rate_limiter : option RateLimiter;
  b_notifier : list string;
  b_media_processor : bool;
  b_lock_db : option DynLocks;
  b_lfs_version_db : option DynVersions
}.

(** [BlobServer::builder], and the methods of the builder. *)
Definition builder (backend : DynBackend W) (base_url : string) : BlobServerBuilder :=
  mkBuilder backend base_url None builder_policy (mkRequirements None [] false) (256 * 1024 * 1024) None [] false None None.
Definition database_boxed (db : DynDatabase) (b : BlobServerBuilder) : BlobServerBuilder :=
  mkBuilder (b_backend b) (b_base_url b) (Some db) (b_policy b) (b_requirements b) (b_body_limit b) (b_rate_limiter b)
    (b_notifier b) (b_media_processor b) (b_lock_db b) (b_lfs_version_db b).
Definition policy (f : Policy → Policy) (b : BlobServerBuilder) : BlobServerBuilder :=
  mkBuilder (b_backend b) (b_base_url b) (b_database b) (f (b_policy b)) (b_requirements b) (b_body_limit b) (b_rate_limiter b)
    (b_notifier b) (b_media_processor b) (b_lock_db b) (b_lfs_version_db b).
Definition whitelist (wl : Whitelist) : BlobServerBuilder → BlobServerBuilder := policy (with_whitelist wl).
Definition role_based_access (rba : RoleBasedAccess) : BlobServerBuilder → BlobServerBuilder := policy (with_role_based_access rba).
Definition requirements (f : UploadRequirements → UploadRequirements) (b : BlobServerBuilder) : BlobServerBuilder :=
  mkBuilder (b_backend b) (b_base_url b) (b_database b) (b_policy b) (f (b_requirements b)) (b_body_limit b) (b_rate_limiter b)
    (b_notifier b) (b_media_processor b) (b_lock_db b) (b_lfs_version_db b).
Definition require_auth : BlobServerBuilder → BlobServerBuilder :=
  requirements (fun r => mkRequirements (max_size r) (allowed_types r) true).
Definition max_upload_size (bytes : Z) : BlobServerBuilder → BlobServerBuilder :=
  requirements (fun r => mkRequirements (Some bytes) (allowed_types r) (Server.require_auth r)).
Definition set_allowed_types (types : list string) : BlobServerBuilder → BlobServerBuilder :=
  requirements (fun r => mkRequirements (max_size r) types (Server.require_auth r)).
Definition body_limit (bytes : Z) (b : BlobServerBuilder) : BlobServerBuilder :=
  mkBuilder (b_backend b) (b_base_url b) (b_database b) (b_policy b) (b_requirements b) bytes (b_rate_limiter b)
    (b_notifier b) (b_media_processor b) (b_lock_db b) (b_lfs_version_db b).
Definition rate_limiter (l : RateLimiter) (b : BlobServerBuilder) : BlobServerBuilder :=
  mkBuilder (b_backend b) (b_base_url b) (b_database b) (b_policy b) (b_requirements b) (b_body_limit b) (Some l)
    (b_notifier b) (b_media_processor b) (b_lock_db b) (b_lfs_version_db b).
Definition webhook_notifier (urls : list string) (b : BlobServerBuilder) : BlobServerBuilder :=
  mkBuilder (b_backend b) (b_base_url b) (b_database b) (b_policy b) (b_requirements b) (b_body_limit b) (b_rate_limiter b)
    urls (b_media_processor b) (b_lock_db b) (b_lfs_version_db b).
Definition media_processor (b : BlobServerBuilder) : BlobServerBuilder :=
  mkBuilder (b_backend b) (b_base_url b) (b_database b) (b_policy b) (b_requirements b) (b_body_limit b) (b_rate_limiter b)
    (b_notifier b) true (b_lock_db b) (b_lfs_version_db b).
Definition lock_database (l : DynLocks) (b : BlobServerBuilder) : BlobServerBuilder :=
  mkBuilder (b_backend b) (b_base_url b) (b_database b) (b_policy b) (b_requirements b) (b_body_limit b) (b_rate_limiter b)
    (b_notifier b) (b_media_processor b) (Some l) (b_lfs_version_db b).
Definition lfs_version_database (v : DynVersions) (b : BlobServerBuilder) : BlobServerBuilder :=
  mkBuilder (b_backend b) (b_base_url b) (b_database b) (b_policy b) (b_requirements b) (b_body_limit b) (b_rate_limiter b)
    (b_notifier b) (b_media_processor b) (b_lock_db b) (Some v).

(** [build], in a process that has just started. *)
Notation Node := (AdminNode (DynBackend W) DynDatabase DynVersions).
Definition build (b : BlobServerBuilder) : Node :=
  mkAdmin
    (mkServer (b_backend b) (default (DbMemory MemoryDatabase.new) (b_database b)) (policy_access all_readable (b_policy b)) ∅
       (b_rate_limiter b) (b_base_url b) (b_requirements b) (b_body_limit b) (b_lfs_version_db b) SEEN_AUTH_EVENTS
       BODY_BUFFER_BUDGET [])
    (b_policy b).

(** ** What the host answers *)

(** The bucket, the data directory, the databases behind their URLs with the
    tables they hold, the files, and the address a socket text stands for. *)
Record Host := mkHost {
  h_socket_ip : string → result IpAddr string;
  h_s3 : S3Config → W * nat;
  h_data_dir : string → Env * gmap string (list byte);
  h_sqlite : string → result (Engine Schema) string;
  h_postgres : string → result (Engine Schema) string;
  h_locks : string → result (Engine (option LockTable)) string;
  h_read_to_string : string → result string string
}.

(** [SqliteDatabase::new] and [share], [PostgresDatabase::new]: the tables that
    the migrations leave, on the same pool. *)
Definition pool {T} (f : Schema → T) (e : Engine Schema) : Engine T := mkEngine (f (en_tables e)) (en_tick e) (en_faults e).
Definition opened (what : string) (connected : result (Engine Schema) string) (migrate : MR (Engine Schema) string unit)
    : result (Engine Schema) DbError :=
  match connected with
  | Err e => Err (Internal (what +:+ " connect: " +:+ e))
  | Ok e => match migrate e with (e, Ok _) => Ok e | (_, Err m) => Err (Internal m) end
  end.

(** [SqliteLockDatabase::from_url] and its [run_migrations]. *)
Definition lock_migrations : MR (Engine (option LockTable)) string unit :=
  (exec "lock migration" (fun t => Ok (Some (default ∅ t), tt)) ;!
   exec "lock migration" (fun t => match t with Some _ => Ok (t, tt) | None => Err "no such table" end) ;!
   exec "lock migration" (fun t => match t with Some _ => Ok (t, tt) | None => Err "no such table" end))%handler.
Definition from_url (connected : result (Engine (option LockTable)) string) : result (Engine LockTable) LockError :=
  match connected with
  | Err e => Err (LockInternal ("sqlite connect: " +:+ e))
  | Ok e =>
      match lock_migrations e with
      | (e, Ok _) => Ok (mkEngine (default ∅ (en_tables e)) (en_tick e) (en_faults e))
      | (_, Err m) => Err (LockInternal m)
      end
  end.

(** [IpAddr::is_loopback]. *)
Definition is_loopback (ip : IpAddr) : bool :=
  match ip with
  | V4 a _ _ _ => bool_decide (a = 127)
  | V6 s0 s1 s2 s3 s4 s5 s6 s7 => bool_decide ([s0; s1; s2; s3; s4; s5; s6; s7] = [0; 0; 0; 0; 0; 0; 0; 1])
  end.

(** ** [main] *)

(** [Args], without logging, CORS, webhook delivery, iroh, PKARR and the relay. *)
Record Args := mkArgs {
  a_bind : string;
  a_base_url : string;
  a_data_dir : string;
  a_memory : bool;
  a_s3_endpoint : option string;
  a_s3_bucket : string;
  a_s3_public_url : option string;
  a_db_path : string;
  a_db_postgres : option string;
  a_require_auth : bool;
  a_allow_anonymous_uploads : bool;
  a_max_upload_size : option Z;
  a_body_limit : Z;
  a_allowed_types : list string;
  a_whitelist : option string;
  a_whitelist_reload_secs : Z;
  a_keygen : bool;
  a_tls_cert : option string;
  a_tls_key : option string;
  a_allow_insecure_public_http : bool;
  a_rate_limit_max : Z;
  a_rate_limit_refill : f64;
  a_no_rate_limit : bool;
  a_webhook_urls : list string;
  a_enable_admin : bool;
  a_no_locks : bool;
  a_admin_pubkeys : list string;
  a_media : bool
}.

(** The storage backend. *)
Definition choose_backend (host : Host) (args : Args) : result (DynBackend W) string :=
  if a_memory args then Ok (InMemory MemoryBackend.new)
  else match a_s3_endpoint args with
  | Some _ =>
      let config := mkS3Config (a_s3_bucket args) (a_s3_public_url args) in
      let '(client, fuel) := h_s3 host config in
      match S3Backend.new fuel client config ∅ with
      | Some (_, Ok s) => Ok (InBucket s)
      | Some (_, Err e) => Err ("S3 backend: " +:+ e)
      | None => Err "S3 backend: the list does not end"
      end
  | None =>
      let '(env, disk) := h_data_dir host (a_data_dir args) in
      let? fs := FilesystemBackend.new env disk in Ok (OnDisk fs)
  end.

(** The metadata database, and the versions with it. *)
Definition choose_database (host : Host) (args : Args) : result (DynDatabase * option DynVersions) string :=
  if a_memory args then Ok (DbMemory MemoryDatabase.new, Some (VersionsMemory []))
  else match a_db_postgres args with
  | Some pg_url =>
      match opened "postgres" (h_postgres host pg_url) postgres_migrations with
      | Ok e => Ok (DbPostgres (pool tables_of e), None)
      | Err e => Err ("Postgres: " +:+ db_error_to_string e)
      end
  | None =>
      match opened "sqlite" (h_sqlite host ("sqlite:" +:+ a_db_path args +:+ "?mode=rwc")) sqlite_migrations with
      | Ok e => Ok (DbSqlite (pool tables_of e), Some (VersionsSqlite (pool (fun s => default ∅ (sc_lfs s)) e)))
      | Err e => Err (db_error_to_string e)
      end
  end.

(** The bootstrap of the administrators: the database, and whether all got their
    role. *)
Fixpoint bootstrap_admins (keys : list string) (d : DynDatabase) : DynDatabase * result unit string :=
  match keys with
  | [] => (d, Ok tt)
  | admin_pk :: keys =>
      match normalize_pubkey bech32 admin_pk with
      | None => (d, Err ("invalid admin pubkey: " +:+ admin_pk))
      | Some normalized =>
          match Database.set_role d normalized "admin" with
          | (d, Err e) => (d, Err ("set admin role: " +:+ db_error_to_string e))
          | (d, Ok _) => bootstrap_admins keys d
          end
      end
  end.

(** [str::replace], of every occurrence from the left. *)
Fixpoint replace_loop (fuel : nat) (from to s : string) : string :=
  match fuel, s with
  | S fuel, String c r =>
      match strip_prefix from s with
      | Some rest => to +:+ replace_loop fuel from to rest
      | None => String c (replace_loop fuel from to r)
      end
  | _, _ => s
  end.
Definition replace (from to s : string) : string := replace_loop (String.length s) from to s.
Definition lock_db_url (db_path : string) : string := "sqlite:" +:+ replace ".db" "_locks.db" db_path +:+ "?mode=rwc".

(** The locks. *)
Definition choose_locks (host : Host) (args : Args) : result (option DynLocks) string :=
  if a_no_locks args then Ok None
  else if a_memory args then Ok (Some (LocksMemory ∅))
  else match from_url (h_locks host (lock_db_url (a_db_path args))) with
       | Ok e => Ok (Some (LocksSqlite e))
       | Err e => Err ("lock database: " +:+ lock_error_to_string e)
       end.

(** The whitelist, which is for servers without administrators on the command
    line. *)
Definition choose_whitelist (host : Host) (args : Args) : result (option Whitelist) string :=
  match a_admin_pubkeys args, a_whitelist args with
  | [], Some wl_path => let? content := h_read_to_string host wl_path in Ok (Some (wl_new (parse_pubkeys bech32 content)))
  | _, _ => Ok None
  end.

(** What runs after [main] has set it up: the node and its locks, how it listens,
    whether the administration is mounted, and the file it reloads. *)
Record Running := mkRunning {
  r_node : Node;
  r_locks : option DynLocks;
  r_media : bool;
  r_webhooks : list string;
  r_tls : bool;
  r_admin_api : bool;
  r_reload : option string
}.
Inductive Started := Keygen | Serving (r : Running).

Definition set_if {A} (o : option A) (f : A → BlobServerBuilder → BlobServerBuilder) (b : BlobServerBuilder) : BlobServerBuilder :=
  match o with Some a => f a b | None => b end.
Definition when (c : bool) (f : BlobServerBuilder → BlobServerBuilder) (b : BlobServerBuilder) : BlobServerBuilder :=
  if c then f b else b.

(** The settings of the builder between the databases and the whitelist. *)
Definition configure (args : Args) (b : BlobServerBuilder) : BlobServerBuilder :=
  let b := when (a_require_auth args || negb (a_allow_anonymous_uploads args)) require_auth b in
  let b := set_if (a_max_upload_size args) max_upload_size b in
  let b := when (negb (bool_decide (a_allowed_types args = []))) (set_allowed_types (a_allowed_types args)) b in
  let b := body_limit (a_body_limit args) b in
  let b := when (negb (a_no_rate_limit args))
             (rate_limiter (RateLimiter.new (mkConfig (a_rate_limit_max args) (a_rate_limit_refill args)))) b in
  let b := when (negb (bool_decide (a_webhook_urls args = []))) (webhook_notifier (a_webhook_urls args)) b in
  when (a_media args) media_processor b.

Definition application_tls (args : Args) : bool :=
  bool_decide (is_Some (a_tls_cert args)) && bool_decide (is_Some (a_tls_key args)).

(** [main], up to the listener. *)
Definition main (host : Host) (args : Args) : result Started string :=
  match h_socket_ip host (a_bind args) with
  | Err e => Err ("invalid --bind address: " +:+ e)
  | Ok ip =>
      if negb (is_loopback ip) && negb (application_tls args) && negb (a_allow_insecure_public_http args)
      then Err "refusing non-loopback plaintext listener; configure --tls-cert/--tls-key or explicitly use --allow-insecure-public-http behind a trusted proxy"
      else if a_keygen args then Ok Keygen
      else
        let? backend := choose_backend host args in
        let? (database, versions) := choose_database host args in
        match bootstrap_admins (a_admin_pubkeys args) database with
        | (_, Err e) => Err e
        | (database, Ok _) =>
            let b := set_if versions lfs_version_database (builder backend (a_base_url args)) in
            let b := database_boxed database (role_based_access (load_from_database database) b) in
            let b := configure args b in
            let? wl := choose_whitelist host args in
            let b := set_if wl whitelist b in
            let? locks := choose_locks host args in
            let b := set_if locks lock_database b in
            Ok (Serving (mkRunning (build b) (b_lock_db b) (b_media_processor b) (b_notifier b) (application_tls args)
                  (a_enable_admin args)
                  (if decide (is_Some wl ∧ a_whitelist_reload_secs args > 0) then a_whitelist args else None)))
        end
  end.

(** A turn of [whitelist_reload_loop]: the policy, and the handle it shares. *)
Definition whitelist_reload (host : Host) (r : Running) : Running :=
  match r_reload r, whitelist_handle (ad_policy (r_node r)) with
  | Some path, Some wl =>
      match h_read_to_string host path with
      | Ok content =>
          mkRunning (set_policy (set_whitelist_handle (wl_reload bech32 content wl) (ad_policy (r_node r))) (r_node r))
            (r_locks r) (r_media r) (r_webhooks r) (r_tls r) (r_admin_api r) (r_reload r)
      | Err _ => r
      end
  | _, _ => r
  end.
End launch.

(** ** The key of the QUIC node *)

(** What stands at the path: nothing, a symbolic link and whether its target is
    there, a directory or the like, or a file with its mode and its bytes. *)
Inductive PathState := Absent | Symlink (target_exists : bool) | Other | RegularFile (mode : Z) (bytes : list byte).
(** The errors that the system calls of a start meet; a write that fails has
    written a part. *)
Record KeyFaults := mkKeyFaults {
  kf_metadata : option string;
  kf_read : option string;
  kf_open : option string;
  kf_write : option (nat * string);
  kf_sync : option string
}.

(** [load_or_create_iroh_key]; [fresh] is the key generated, [umask] may take
    bits of the mode away. *)
Definition load_or_create_iroh_key (fresh : list byte) (umask : Z) (f : KeyFaults) (p : PathState)
    : PathState * result (list byte) string :=
  let create :=
    match kf_open f with
    | Some e => (p, Err e)
    | None =>
        match p with
        | Absent =>
            let mode := Z.land 384 (Z.lnot umask) in
            match kf_write f with
            | Some (n, e) => (RegularFile mode (take n fresh), Err e)
            | None => (RegularFile mode fresh, match kf_sync f with Some e => Err e | None => Ok fresh end)
            end
        | _ => (p, Err "file exists")
        end
    end in
  match p with
  | Absent | Symlink false => create
  | _ =>
      match kf_metadata f with
      | Some e => (p, Err e)
      | None =>
          match p with
          | RegularFile mode bytes =>
              if negb (Z.land mode 63 =? 0) then (p, Err "iroh key file permissions must be 0600 or stricter")
              else match kf_read f with
                   | Some e => (p, Err e)
                   | None => if decide (length bytes = 32%nat) then (p, Ok bytes)
                             else (p, Err "iroh key file must be exactly 32 bytes")
                   end
          | _ => (p, Err "iroh key path must be a regular, non-symlink file")
          end
      end
  end.

(** ** What a server that was started holds to *)

(** Serving leaves the requirements alone. *)
Section requirements_kept.
Context `{Crates} `{Codec} `{Urls} {B D V : Type} `{BlobBackend B} `{BlobDatabase D} `{LfsVersionDatabase V} `{HashOrder}.
Variable bech32 : string → option (string * list byte).
Notation S := (ServerState B D V).
Notation N := (AdminNode B D V).
Notation req := (s_requirements (B := B) (D := D) (V := V)).

Lemma respond_req (m : MR S Response Response) s : keeps req m → req (respond m s).1 = req s.
Proof. intros Hm. unfold respond. specialize (Hm s). by destruct (m s). Qed.
Lemma req_put {R} q ctx data (f : string → R) : keeps req (put_blob q ctx data f).
Proof. unfold put_blob. keeps. Qed.
Lemma req_rebase env deltas : keeps req (rebase_all env deltas).
Proof. induction deltas as [|d deltas IH]; cbn; [done |]. apply keeps_bind; [unfold rebase_one; keeps | done]. Qed.
Lemma req_physically q h p : keeps req (delete_physically q h p).
Proof. unfold delete_physically, remove_blob. keeps; [apply req_rebase | by destruct (s_lfs_version_db s)]. Qed.
Lemma req_erase q h j t : keeps req (erase_blob q h j t).
Proof. unfold erase_blob. keeps. Qed.
Lemma req_own h p : keeps req (delete_own h p).
Proof. unfold delete_own. keeps. Qed.

Lemma req_upload q headers body s : req (handle_upload q headers body s).1 = req s.
Proof. apply respond_req. unfold upload_authorize, upload_bind, upload_store. keeps. apply req_put. Qed.
Lemma req_get q path s : req (handle_get_blob q path s).1 = req s.
Proof. unfold handle_get_blob. by repeat case_match. Qed.
Lemma req_head q path s : req (handle_head_blob q path s).1 = req s.
Proof. unfold handle_head_blob. by repeat case_match. Qed.
Lemma req_delete q h headers s : req (handle_delete_blob q h headers s).1 = req s.
Proof. apply respond_req. unfold delete_body. keeps; first [apply req_own | apply req_physically]. Qed.
Lemma req_mirror q net headers body s : req (handle_mirror q net headers body s).1 = req s.
Proof. apply respond_req. unfold mirror, mirror_authorize, mirror_bind, mirror_store. keeps. Qed.
Lemma req_nip_upload q headers body s : req (handle_nip96_upload q headers body s).1 = req s.
Proof. apply respond_req. unfold nip96_upload, nip96_authorize, nip96_bind, nip96_store. keeps. Qed.
Lemma req_nip_delete q h headers s : req (handle_nip96_delete q h headers s).1 = req s.
Proof. apply respond_req. unfold nip96_delete, verify_once. keeps; first [apply req_own | apply req_erase]. Qed.

Lemma req_nip_list q params headers s : req (handle_nip96_list q params headers s).1 = req s.
Proof. apply respond_req. unfold nip96_list, verify_once. keeps. Qed.

Notation mreq := (fun n : MediaNode B D V => req (md_server n)).
Lemma media_on_server {A} (m : MR S Response A) : keeps req m → keeps mreq (on_server m).
Proof. intros Hm n. unfold on_server, zoom. specialize (Hm (md_server n)). by destruct (m (md_server n)). Qed.
Lemma req_media processor slots q outcome headers body s : req (media_served processor slots q outcome headers body s).1 = req s.
Proof.
  unfold media_served, handle_media_upload, respond.
  enough (Hk : keeps mreq (media_upload processor q outcome headers body)).
  { specialize (Hk (mkMediaNode s slots 0)). by destruct (media_upload _ _ _ _ _ _). }
  unfold media_upload. destruct (extract_auth_event headers) as [e|]; [| done].
  apply keeps_bind; [apply media_on_server; unfold media_authorize; keeps | intros [p limit]].
  apply keeps_bind; [intros n; unfold take_slot; by case_decide | intros _ n].
  assert (Hf : keeps mreq (on_server (with_body limit headers body (media_finish q outcome e p)))).
  { apply media_on_server. unfold media_finish, media_bind, media_store. keeps. }
  specialize (Hf n). unfold with_slot. destruct (on_server _ n) as [n' r]. by destruct (runs_on outcome r).
Qed.

Notation nreq := (fun n : N => req (ad_server n)).
Lemma req_hosted {R A} l (m : MR S R A) : keeps req m → keeps nreq (hosted l m).
Proof. intros Hm. apply (keeps_hosted nreq req); [exact Hm |]. intros n s Hs. exact Hs. Qed.
Lemma req_admitted c path m h : keeps nreq (admitted (B := B) (D := D) (V := V) c path m h).
Proof. apply req_hosted. unfold extract_admin_pubkey, verify_once. keeps. Qed.
Lemma req_role pk role : keeps nreq (update_role (B := B) (V := V) bech32 pk role).
Proof.
  intros n. unfold update_role. destruct (role_handle _).
  - by destruct (rba_set_role _ _ _ _ _) as [[? ?] ?].
  - by destruct (Database.set_role _ _ _).
Qed.
Lemma administered {A} c path m h (k : string → MR N Response A) n :
  (∀ p, keeps nreq (k p)) → nreq (bind (admitted c path m h) k n).1 = nreq n.
Proof. intros Hk. by apply (keeps_bind nreq); [apply req_admitted |]. Qed.
Lemma requirements_kept r n : req (ad_server (serve_http bech32 r n)) = req (ad_server n).
Proof.
  destruct r as [l q headers body|l q path|l q path|l q h headers|l pk|l q net headers body
    |l q processor slots outcome headers body|l q headers body|l q params headers
    |l q h headers|c|c|c|c pk|c pk quota|c|c h|c pk role|c|c|c pk|c pk]; cbn [serve_http];
    unfold on_live; cbn [ad_server set_node_server];
    try (by rewrite ?req_upload, ?req_get, ?req_head, ?req_delete, ?req_mirror, ?req_media, ?req_nip_upload, ?req_nip_list, ?req_nip_delete);
    try (apply administered; intros p; solve [keeps]).
  - apply administered. intros p n0. cbn. by destruct (Database.get_or_create_user _ _) as [? []].
  - apply administered. intros p n0. cbn. by destruct (Database.set_quota _ _ _) as [? []].
  - unfold handle_admin_delete_blob. destruct (is_valid_sha256 h); [| done].
    apply administered. intros p. apply req_hosted, req_erase.
  - apply administered. intros p. destruct (role_name role); [| done]. apply keeps_bind; [apply keeps_map_err, req_role | done].
  - apply administered. intros p. unfold change_whitelist. keeps.
  - apply administered. intros p. unfold change_whitelist. keeps.
Qed.

Lemma requirements_kept_all rs n : req (ad_server (serve_http_all bech32 rs n)) = req (ad_server n).
Proof.
  revert n. induction rs as [|r rs IH]; intros n; [done |]. change (serve_http_all bech32 (r :: rs) n) with (serve_http_all bech32 rs (serve_http bech32 r n)).
  rewrite IH. apply requirements_kept.
Qed.
End requirements_kept.

Section started.
Context `{Crates} `{Codec} `{Urls} `{HashOrder} {W : Type} `{S3Client W}.
Variable bech32 : string → option (string * list byte).
Implicit Types host : Host (W := W).

(** What the administrators' bootstrap asked for. *)
Definition bootstrapped (keys : list string) (d d' : DynDatabase) : Prop := bootstrap_admins bech32 keys d = (d', Ok tt).

Lemma configure_requirements args (b : BlobServerBuilder (W := W)) :
  Server.require_auth (b_requirements b) = false →
  Server.require_auth (b_requirements (configure args b)) = a_require_auth args || negb (a_allow_anonymous_uploads args).
Proof.
  intros Hb. unfold configure, when, set_if.
  by destruct (a_require_auth args || negb _), (a_max_upload_size args), (negb (bool_decide (a_allowed_types args = []))), (negb (a_no_rate_limit args)),
    (negb (bool_decide (a_webhook_urls args = []))), (a_media args).
Qed.
Lemma configure_rest args (b : BlobServerBuilder (W := W)) :
  b_policy (configure args b) = b_policy b ∧ b_database (configure args b) = b_database b ∧ b_backend (configure args b) = b_backend b
  ∧ b_base_url (configure args b) = b_base_url b.
Proof.
  unfold configure, when, set_if.
  by destruct (a_require_auth args || negb _), (a_max_upload_size args), (negb (bool_decide (a_allowed_types args = []))), (negb (a_no_rate_limit args)),
    (negb (bool_decide (a_webhook_urls args = []))), (a_media args).
Qed.

(** What [main] made of its arguments. *)
Lemma main_inv host args r :
  main bech32 host args = Ok (Serving r) →
  ∃ ip backend d0 versions d wl,
    h_socket_ip host (a_bind args) = Ok ip
    ∧ (is_loopback ip = true ∨ r_tls r = true ∨ a_allow_insecure_public_http args = true)
    ∧ choose_backend host args = Ok backend ∧ choose_database host args = Ok (d0, versions)
    ∧ bootstrapped (a_admin_pubkeys args) d0 d
    ∧ choose_whitelist bech32 host args = Ok wl
    ∧ s_backend (ad_server (r_node r)) = backend ∧ s_database (ad_server (r_node r)) = d
    ∧ s_seen (ad_server (r_node r)) = SEEN_AUTH_EVENTS
    ∧ Server.require_auth (s_requirements (ad_server (r_node r))) = a_require_auth args || negb (a_allow_anonymous_uploads args)
    ∧ ad_policy (r_node r) = match wl with
                             | Some wl => PolicyWhitelist wl (Some (load_from_database d))
                             | None => PolicyRoles (load_from_database d) None
                             end.
Proof.
  unfold main. destruct (h_socket_ip host (a_bind args)) as [ip|]; [| done].
  destruct (negb (is_loopback ip) && _ && _) eqn:Eg; [done |]. destruct (a_keygen args); [done |].
  destruct (choose_backend host args) as [backend|]; [| done]. destruct (choose_database host args) as [[d0 versions]|]; [| done].
  destruct (bootstrap_admins _ _ _) as [d [[]|]] eqn:Eb; [| done].
  destruct (choose_whitelist _ _ _) as [wl|]; [| done]. destruct (choose_locks _ _) as [locks|]; [| done]. intros [= <-].
  exists ip, backend, d0, versions, d, wl. cbn [r_node r_tls]. split; [done |]. split.
  { destruct (is_loopback ip); [by left |]. destruct (application_tls args); [right; by left |].
    destruct (a_allow_insecure_public_http args); [by do 2 right | done]. }
  do 4 (split; [done |]).
  set (b := database_boxed d _). pose proof (configure_requirements args b) as Hr. pose proof (configure_rest args b) as (Hp & Hd & Hb & _).
  destruct versions, wl, locks; cbn; rewrite ?Hp, ?Hd, ?Hb; (do 3 (split; [done |])); (split; [by apply Hr | done]).
Qed.

(** *** The administrators of the command line *)

Definition keys_ok (d : DynDatabase) : Prop := match d with DbMemory d => user_keys d | _ => True end.
Definition admin_row (k : string) (d : DynDatabase) : Prop :=
  match d with
  | DbMemory d => k ∈ roles_in d "admin"
  | DbSqlite e | DbPostgres e => u_role <$> t_users (en_tables e) !! k = Some "admin"
  end.

Lemma sql_set_role `{DI : Dialect} k (e e' : Engine Tables) u :
  SqlDatabase.run (SqlDatabase.set_role k "admin") e = (e', Ok u) →
  u_role <$> t_users (en_tables e') !! k = Some "admin"
  ∧ ∀ k', u_role <$> t_users (en_tables e) !! k' = Some "admin" → u_role <$> t_users (en_tables e') !! k' = Some "admin".
Proof.
  unfold SqlDatabase.run, SqlDatabase.set_role, map_err, exec. destruct (en_faults e _ _); [done |].
  unfold bound. destruct (forallb _ _); [| done]. cbn. intros [= <- _]. cbn. split; [rewrite lookup_insert_eq; by destruct (t_users _ !! k) |].
  intros k' Hk. destruct (decide (k = k')) as [<-|Hne]; [rewrite lookup_insert_eq; by destruct (t_users _ !! k) | by rewrite lookup_insert_ne].
Qed.
Lemma sql_lists `{DI : Dialect} k (e : Engine Tables) us :
  u_role <$> t_users (en_tables e) !! k = Some "admin" → SqlDatabase.look (SqlDatabase.list_users_by_role "admin") e = Ok us →
  k ∈ us_pubkey <$> us.
Proof.
  intros Hk. unfold SqlDatabase.look, SqlDatabase.run, SqlDatabase.list_users_by_role, map_err, exec.
  destruct (en_faults e _ _); [done |]. unfold bound. destruct (forallb _ _); [| done].
  apply fmap_Some in Hk as (row & Hk & Hr). apply elem_of_hm_iter in Hk.
  assert (Hin : (k, row) ∈ List.filter (fun ku : string * UserRow => bool_decide (u_role ku.2 = "admin")) (hm_iter string UserRow (t_users (en_tables e)))).
  { apply list_elem_of_In, filter_In. split; [by apply list_elem_of_In | by apply bool_decide_eq_true]. }
  revert us Hin. generalize (List.filter (fun ku : string * UserRow => bool_decide (u_role ku.2 = "admin")) (hm_iter string UserRow (t_users (en_tables e)))).
  intros l us Hin. destruct (SqlDatabase.user_records l) as [rs|] eqn:E; [| done]. cbn. intros [= <-]. clear -E Hin.
  revert rs E. induction l as [|[p u] l IH]; intros rs; [by apply not_elem_of_nil in Hin |]. cbn [SqlDatabase.user_records].
  destruct (user_record p u) as [r|] eqn:Er; [| done]. destruct (SqlDatabase.user_records l) as [rs'|]; [| done]. intros [= <-].
  cbn. apply elem_of_cons. apply elem_of_cons in Hin as [[= -> ->] | Hin]; [left | right; by apply (IH Hin)].
  unfold user_record in Er. destruct (as_column _); [| done]. by injection Er as <-.
Qed.

Lemma admin_set k d d' u : Database.set_role d k "admin" = (d', Ok u) → keys_ok d →
  keys_ok d' ∧ admin_row k d' ∧ ∀ k', admin_row k' d → admin_row k' d'.
Proof.
  destruct d as [d|e|e]; cbn [Database.set_role dyn_database on_db].
  - intros [= <- _] Hk. split; [by apply set_role_user_keys |]. unfold admin_row. 
    setoid_rewrite (roles_in_set_role bech32 d k "admin" "admin"). rewrite decide_True by done. set_solver.
  - destruct (Database.set_role (BlobDatabase := SqliteDatabase) e k "admin") as [e' r] eqn:E. intros [= <- ->] _. split; [done |].
    by apply (sql_set_role (DI := Sqlite.dialect)) in E.
  - destruct (Database.set_role (BlobDatabase := PostgresDatabase) e k "admin") as [e' r] eqn:E. intros [= <- ->] _. split; [done |].
    by apply (sql_set_role (DI := Postgres.dialect)) in E.
Qed.

Lemma admin_listed d k us : keys_ok d → admin_row k d → Database.list_users_by_role d "admin" = Ok us → k ∈ us_pubkey <$> us.
Proof.
  destruct d as [d|e|e]; cbn [Database.list_users_by_role dyn_database of_db]; intros Hk Hr.
  - intros E. assert (Ha : k ∈ admins (load_from_database d)) by (by rewrite load_roles).
    unfold load_from_database in Ha. cbn [admins] in Ha. change (Database.list_users_by_role d "admin") with (MemoryDatabase.list_users_by_role d "admin") in *.
    rewrite E in Ha. cbn in Ha. by apply elem_of_list_to_set in Ha.
  - by apply (sql_lists (DI := Sqlite.dialect)).
  - by apply (sql_lists (DI := Postgres.dialect)).
Qed.
Lemma bootstrap_rows keys d d' : bootstrapped keys d d' → keys_ok d →
  keys_ok d' ∧ (∀ k, admin_row k d → admin_row k d')
  ∧ Forall (fun pk => ∃ k, normalize_pubkey bech32 pk = Some k ∧ admin_row k d') keys.
Proof.
  unfold bootstrapped. revert d. induction keys as [|pk keys IH]; intros d; cbn [bootstrap_admins]; [by intros [= <-] |].
  destruct (normalize_pubkey bech32 pk) as [k|] eqn:En; [| done]. destruct (Database.set_role d k "admin") as [d1 [u|e]] eqn:Es; [| done].
  intros Hb Hk. destruct (admin_set _ _ _ _ Es Hk) as (Hk1 & Hr1 & Hm1). destruct (IH d1 Hb Hk1) as (Hk' & Hm & Hf).
  split; [done |]. split; [by auto |]. apply list.Forall_cons. split; [by exists k; auto | done].
Qed.
Lemma chosen_keys host args d v : choose_database host args = Ok (d, v) → keys_ok d.
Proof.
  unfold choose_database. destruct (a_memory args); [by intros [= <- _] |].
  destruct (a_db_postgres args); destruct (opened _ _ _); try done; by intros [= <- _].
Qed.

(** *** What it does then *)

(** A turn of the server: a request over HTTP, or the reload of the whitelist
    from what the file has by then. *)
Inductive Turn := TServed (rq : WebRequest) | TReload (host : Host (W := W)).

Definition web_of (r : Running (W := W)) : WebNode (DynBackend W) DynDatabase DynVersions DynLocks := mkWeb (r_node r) (r_locks r).
Definition turn (r : Running (W := W)) (t : Turn) : Running (W := W) :=
  match t with
  | TServed rq =>
      let w := serve_web bech32 rq (web_of r) in
      mkRunning (w_node w) (w_locks w) (r_media r) (r_webhooks r) (r_tls r) (r_admin_api r) (r_reload r)
  | TReload host => whitelist_reload bech32 host r
  end.
Definition turns (ts : list Turn) (r : Running (W := W)) : Running (W := W) := foldl turn r ts.

Lemma web_requirements rq (w : WebNode (DynBackend W) DynDatabase DynVersions DynLocks) :
  s_requirements (ad_server (w_node (serve_web bech32 rq w))) = s_requirements (ad_server (w_node w)).
Proof. destruct rq; [apply requirements_kept | done..]. Qed.
Lemma turns_requirements ts r : s_requirements (ad_server (r_node (turns ts r))) = s_requirements (ad_server (r_node r)).
Proof.
  revert r. induction ts as [|t ts IH]; intros r; [done |]. cbn [turns foldl]. change (foldl turn (turn r t) ts) with (turns ts (turn r t)).
  rewrite IH. destruct t as [rq|h]; cbn; [apply (web_requirements rq (web_of r)) |]. unfold whitelist_reload. by repeat case_match.
Qed.

End started.

(** A key that was loaded or created is kept, readable by its owner only, and
    loaded again at every start that can read it. *)
Theorem iroh_key_stable fresh umask f p p' key :
  length fresh = 32%nat → load_or_create_iroh_key fresh umask f p = (p', Ok key) →
  length key = 32%nat
  ∧ ∃ mode, p' = RegularFile mode key ∧ Z.land mode 63 = 0
    ∧ ∀ fresh' umask' f', kf_metadata f' = None → kf_read f' = None →
        load_or_create_iroh_key fresh' umask' f' p' = (p', Ok key).
Proof.
  intros Hl Hk.
  assert (Hf : length key = 32%nat ∧ ∃ mode, p' = RegularFile mode key ∧ Z.land mode 63 = 0).
  { unfold load_or_create_iroh_key in Hk. destruct p as [|[]| |mode bytes].
    - destruct (kf_open f), (kf_write f) as [[? ?]|], (kf_sync f); try done. injection Hk as <- <-. split; [done |].
      eexists. split; [done |]. rewrite (Z.land_comm 384), <- Z.land_assoc. apply Z.land_0_r.
    - by destruct (kf_metadata f).
    - by destruct (kf_open f).
    - by destruct (kf_metadata f).
    - destruct (kf_metadata f); [done |]. destruct (Z.land mode 63 =? 0) eqn:Em; [| done]. cbn in Hk. destruct (kf_read f); [done |].
      case_decide; [| done]. injection Hk as <- <-. split; [done |]. exists mode. split; [done |]. by apply Z.eqb_eq. }
  destruct Hf as (Hlen & mode & -> & Hmode). split; [done |]. exists mode. do 2 (split; [done |]).
  intros fresh' umask' f' Hm Hr. unfold load_or_create_iroh_key. rewrite Hm, Hr, Hmode. cbn. by rewrite decide_True.
Qed.

(** ** Examples *)
Module LaunchExamples.
Import Concrete ConcreteCodec AccessExamples MirrorExamples.

Definition no_network : S3.Network := fun _ => S3.Refused.
#[local] Instance client : S3Client Bucket := @bucket_client no_network.

Definition socket_ip (s : string) : result IpAddr string :=
  if bool_decide (s = "127.0.0.1:3000") then Ok (V4 127 0 0 1)
  else if bool_decide (s = "0.0.0.0:3000") then Ok (V4 0 0 0 0) else Err "invalid socket address syntax".
Definition new_schema : Engine Schema := mkEngine no_schema 0 (fun _ _ => None).
Definition host : Host (W := Bucket) :=
  mkHost socket_ip (fun _ => (S3.empty_bucket, 1%nat)) (fun _ => (mkEnv 0 "" no_faults, ∅))
    (fun url => if bool_decide (url = "sqlite:./blossom.db?mode=rwc") then Ok new_schema else Err "unable to open database file")
    (fun _ => Err "connection refused")
    (fun url => if bool_decide (url = "sqlite:./blossom_locks.db?mode=rwc") then Ok (mkEngine None 0 (fun _ _ => None)) else Err "unable to open database file")
    (fun path => if bool_decide (path = "keys.txt") then Ok "keys" else Err "no such file").
(** The defaults of the command line, but for these. *)
Definition args (bind db_path : string) (whitelist : option string) (admins : list string) : Args :=
  mkArgs bind "http://localhost:3000" "./blobs" false None "blobs" None db_path None false false None 268435456 [] whitelist 0 false
    None None false 60 (u64_as_f64 1) false [] true false admins false.


Example refuses_plain_text :
  ∃ e, main no_bech32 host (args "0.0.0.0:3000" "./blossom.db" None []) = Err e.
Proof. eexists. vm_compute. reflexivity. Qed.
(** The name of the lock database replaces every [.db] of the path. *)
Example lock_database_elsewhere :
  lock_db_url "/srv/my.db.d/blossom.db" = "sqlite:/srv/my_locks.db.d/blossom_locks.db?mode=rwc".
Proof. vm_compute. reflexivity. Qed.
(** A key file that could not be written whole is refused from then on. *)
Example half_written_key :
  let '(p, r) := load_or_create_iroh_key (replicate 32 x01) 18 (mkKeyFaults None None None (Some (10%nat, "no space left on device")) None) Absent in
  r = Err "no space left on device"
  ∧ (load_or_create_iroh_key (replicate 32 x02) 18 (mkKeyFaults None None None None None) p).2 = Err "iroh key file must be exactly 32 bytes".
Proof. vm_compute. done. Qed.
End LaunchExamples.
